(* ===== verification/_CoqProject ===== *)
-Q . S2P
Prelude.v
CppString.v
ConfigTypes.v
Json.v
CgroupName.v
ConfigParser.v
ConfigRoundtrip.v
Kernel.v
SimKernel.v
Inotify.v
Logger.v
FileUtils.v
FileFacts.v
ConfigWatch.v
CpuMask.v
CgroupInit.v
CgroupFacts.v
ThreadMatcher.v
LiteralRegex.v
MatcherFacts.v
ThreadCache.v
Env.v
Setters.v
Tracing.v
SetterFacts.v
ScanWorker.v
ScanCursor.v
LauncherFinder.v
LauncherFacts.v
Dispatch.v
FullScan.v
ScanCycle.v
ScanFacts.v
WorkerGuard.v
DispatchFacts.v
FullScanFacts.v
CycleFacts.v
EventRouter.v
QueueFacts.v
ProcMonitor.v
WorkerFacts.v
WorkerEffects.v
Restoration.v
RetryFacts.v
Reload.v
ReloadFacts.v
MainLoop.v
MainFacts.v
DaemonFacts.v
Scenario.v
ScanScenario.v
CgroupScenario.v
DaemonScenario.v
WorkerTheorems.v
DataTheorems.v
SystemTheorems.v
ScanTheorems.v
InitTheorems.v
ReloadTheorems.v
