(* ===== verification/Prelude.v ===== *)
(** * ReUperf: a verification library for the thread scheduler

    ReUperf is an Android daemon, written as a header-only C++ program around
    [main.cpp].  It reads a JSON configuration that names process and thread
    rules, scans the threads of the system, and gives each thread the CPU
    affinity, the scheduling policy and the cgroups of the rule it matches.
    When a rule no longer applies, or the daemon stops, it puts back what the
    thread had before.  This library models the code that decides and acts,
    and proves what that code promises.

    ** How the parts interact

    - The configuration parser turns the JSON document into a [Config]; a new
      matcher is compiled from it at start and at every reload, and the cgroups
      it needs are set up in one transaction.
    - The main loop looks for a changed configuration, then makes a pass: full
      scans find processes and threads in slices of a time budget, fast passes
      look at the processes in the foreground.  Both make a [DispatchTask] for
      each thread; the tasks of one thread go to one worker.
    - The process monitor reads the events of /proc and tells the event router,
      which merges them into batches; the handler of a batch forgets what is
      known of the processes and dispatches the new ones.
    - A worker takes one task at a time.  It asks the matcher for the result of
      the thread, compares it with what the thread cache says was applied, and
      calls the setters when something changed or drifted.  Before the first
      change of a component it stores the baseline of that component.
    - The setters change the affinity, the scheduler and the groups of a
      thread through the operating system, checking between the calls that
      the thread is still the one the task was made for.
    - When no rule applies, at a reload and at shutdown, the baselines are
      written back and forgotten only when that succeeded.

    ** Which file models what

    Names of operations are those of the source wherever possible; a method of
    a class becomes a function on the record of the members of that class.

    - [Prelude]: notation, machine integers, generic lemmas, the predicate [wp]
      on state transformers, tactics and hint databases.
    - [CppString]: the operations of [std::string], [strtol], [strtoull] and
      [std::stoi] as the source uses them.
    - [ConfigTypes]: config/config_types.hpp, one record per struct.
    - [Json], [ConfigParser], [CgroupName], [ConfigRoundtrip]:
      config/config_parser.hpp; the interface of the JSON library with an
      instance, the parser, the specification of the names it accepts, and the
      printer it is the inverse of.
    - [Kernel], [SimKernel]: the operating system as a class, its laws, and a
      small deterministic instance.
    - [FileUtils], [FileFacts]: utils/file_utils.hpp; the write loop, the file
      cache, the /proc parsers, the cgroup cache and the process states.
    - [Logger]: utils/logger.hpp; what is filtered, what a line looks like, and
      that a line reaches the file once.
    - [Inotify]: the records of an inotify buffer, as ConfigFileWatcher
      (main.cpp) and core/cpuset_monitor.hpp walk through them.
    - [ConfigWatch]: get_file_mtime, compute_config_hash and ConfigFileWatcher
      of main.cpp.
    - [CpuMask]: utils/cpu_mask.hpp.
    - [CgroupInit], [CgroupFacts]: core/cgroup_init.hpp; the transaction, the
      groups of the CPU masks and of the limits, and the roll-back.
    - [ThreadMatcher], [LiteralRegex], [MatcherFacts]:
      core/thread_matcher.hpp; the rules, an instance of the regular
      expression interface, and the reference semantics of matching.
    - [ThreadCache] (Module [Cache]): core/thread_cache.hpp.
    - [Env]: the state of a worker's parts together; how a part's operation
      becomes an operation on the whole.
    - [Setters], [Tracing], [SetterFacts]: scheduler/cpuset_setter.hpp,
      scheduler/priority_setter.hpp and scheduler/cpuctl_setter.hpp.
    - [ScanWorker] (Module [Queue], the pacing tables, and the processing of a
      task), [QueueFacts], [WorkerGuard], [WorkerFacts], [WorkerEffects]:
      core/scan_worker.hpp.
    - [ScanCursor]: core/scan_cursor.hpp, the time budget and the resumable
      enumeration of threads.
    - [LauncherFinder], [LauncherFacts]: core/launcher_finder.hpp.
    - [Dispatch], [DispatchFacts]: dispatch_pids_to_workers and its callers in
      main.cpp.
    - [FullScan], [ScanFacts], [FullScanFacts]: FullScanState and
      advance_full_scan of main.cpp.
    - [ScanCycle], [CycleFacts]: what a round of the main loop does under the
      scheduler mutex, with PidCache and cleanup_dead_pids.
    - [EventRouter]: core/event_router.hpp.
    - [ProcMonitor]: core/cpuset_monitor.hpp.
    - [Restoration], [RetryFacts]: core/restoration_retry.hpp and
      [restore_all_thread_baselines] of main.cpp.
    - [Reload], [ReloadFacts]: the state of the daemon, the start and stop of
      its workers, and the configuration part of a round: detection, deferral
      and the replacement of the scheduler.
    - [MainLoop], [MainFacts], [DaemonFacts]: the handler of a batch, a round of
      the main loop, start and shutdown, the steps of the daemon, and their
      invariant.
    - [Scenario], [ScanScenario], [CgroupScenario], [DaemonScenario]: small
      devices on which the theorems are instantiated.
    - [WorkerTheorems], [DataTheorems], [SystemTheorems], [ScanTheorems],
      [InitTheorems], [ReloadTheorems]: the properties, each with an instance,
      grouped by subject.

    ** How the state is modelled

    The world of the operating system is a type [W] with an instance of the
    class [Kernel]; every call is a function from a world to a world and a
    result, so a result may depend on everything that happened before,
    processes outside the daemon included.  The file caches live in [Sys] next
    to the world, the state of a worker in [Env], what the scans share with the
    workers in [Main], and all of the daemon in [Daemon].  Operations are
    written in a state monad; failures are the booleans and options of the
    source.  [Traced] wraps a [Kernel] and records the calls of a run, which is
    how the theorems speak of what was done and in which order.

    Members protected by a mutex are the argument of one atomic function per
    critical section.  [MainLoop.daemon_step] interleaves the threads: a round
    of the main loop, the task of a worker, the calls of the monitor's thread, a
    batch of the router, and anything the world does by itself, in any order.
    The scheduler mutex makes passes, batches and the replacement of the
    scheduler exclude one another; a round as one step also puts the reading of
    the configuration file into it, which shares nothing with the other threads.
    A task of a worker is one step; that the workers do not disturb each other's
    entries is the content of [other_threads_untouched] and
    [one_worker_per_thread].  The router's critical sections are the
    constructors of the step relation [EventRouter.step].  The code
    swaps the pending events out in one section and classifies them in a
    second one; the model does both in one step, because the second section
    reads only the swapped batch and the tracked set, which events arriving in
    between do not touch.

    ** What the groups of theorems show

    - The worker ([WorkerTheorems]): every changing call acts on the task's
      thread, and the latest reads of its identity before the call were those
      of the thread the task was made for (a call may follow another one
      without a new read); a baseline is forgotten only after each of its parts
      was written back; a thread that has not drifted is only looked at; one
      task changes the cache entry of its thread alone; a successful takeover
      left the affinity and the cpuset it was asked for; the scheduler settles;
      a bounded retry stops at its first success.
    - The daemon ([ReloadTheorems]): what holds in every state it reaches,
      whatever the order of its threads; a reload is all or nothing, with the
      configuration that the file held; failed configurations are retried with
      a bounded exponential delay, which defers the same contents only; edits
      and inotify events are noticed and the events of processes reach the
      router; a batch forgets the processes it is about; the monitor's
      descriptors are balanced; the launcher is a well-formed package chosen by
      preference, and commands end, the termination of their child included; at
      shutdown the threads stop before the baselines are restored, and what the
      restoration accounts for.
    - The scans ([ScanTheorems]): dispatched tasks were verified, one worker
      per thread, what a scan found agrees with itself, its loops end, and a
      cycle is either resumed or closed with all of its phases done.
    - The initialisation ([InitTheorems]): failure rolls back, success on a
      well-formed configuration leaves every group configured.
    - The configuration, the matcher and the thread cache ([DataTheorems]): a
      parsed configuration is well formed; rendering and parsing are inverse;
      a cached match is the match the rules give; the sweep, the update and
      the baselines of the cache keep exactly what they should.
    - Files, CPU lists, router and queue ([SystemTheorems]): complete writes,
      recency and bound of the file cache, the parsers recover what the kernel
      printed, the queue is an ordered map, runs of a thread in the same state
      are spaced whatever the worker does in between (up to the cleanup
      interval), and the router's batches are the events it accepted.

    Five statements are of behaviour that the authors may not have intended:
    [cache_key_collision], [own_group_read_by_name],
    [thrown_restart_not_spaced], [spacing_lost_by_cleanup] and the limits of
    what [is_safe_cgroup_component] rejects in [safe_component_exact].

    ** Bounds and fuel

    - The takeover sequence makes at most two attempts, as the source does.
    - The write loop is given the length of the text plus the number of
      interrupted calls the world may still answer with: each call writes at
      least a byte, is interrupted, or ends the loop.
    - [parse_cpu_items] gets the length of the text: every item consumes a
      character; [read_records] the length of the buffer: every record consumes
      a header.
    - The loops over directory streams get what the law of [ScanLaws] says is
      left of the stream; [scan_loops_end] shows that the budget is enough.
    - [ensure_cgroup_file] makes the attempts of the source.
    - [drain_events] gets the number of reads that still transfer something
      ([in_budget]); [read_pipe] the limit of the output plus the signals that
      may still interrupt a call, [collect_output] and [wait_for_exit] the
      readings of the clock up to the deadline besides; [commands_end] and
      [config_events_reported] show that this is enough.
    - Retries are counted by the configured numbers, which the parser bounds.
    - The limits of the file cache (1000), of a bucket of the matcher (256, in
      16 buckets), of the worker's queue and of the router's events (4096) are
      the constants of the source.
    - [int], [long] and 64-bit hashes wrap or saturate where the source does;
      clock readings are integers.

    ** Parameters

    Code that is not in the repository is a class: [Json] (nlohmann::json),
    [RegexEngine] (std::regex), [StringHash] and [IntHash] (std::hash), and the
    system: [Kernel] (files, threads and clock), [KernelScan] (directories),
    [KernelWatch] (inotify), [KernelProcess] (the child of a command),
    [KernelThreads], [KernelPaths] and [KernelLog] with [JsonDump] (the
    logger).  Their laws are stated next to them ([JsonLaws], [KernelLaws],
    [SchedLaws], [ScanLaws], [WatchLaws], [ProcessLaws], [LogLaws], and
    [ControlView] with [CpuListView] for control files) and have instances:
    [JsonValue], [Literal], [length_hash], [Sim], [ScanSim], [CtlSim],
    [LogSim] and [Device].  A loop over a hash table that the source starts at
    [begin] and whose order is unspecified uses the order of the finite map.

    ** What is not modelled

    - The log messages of the other parts, which decide nothing; with them
      report_stale_groups of core/cgroup_init.hpp, which lists directories to
      write to the log, and the choice of the log file.
    - Exceptions other than those of thread creation: memory is never exhausted
      and a mutex never fails.
    - The waiting of a thread (condition variables, [join]): a stopped worker or
      router takes no further step.
    - What a child does between [fork] and [exec].
    - list_pids and list_tids of utils/file_utils.hpp, detect_all_cpus and
      get_all_cpus_string of utils/cpu_mask.hpp and CpusetSetter::set_affinity,
      which nothing calls.
    - The signal handlers, which set the flag that is the argument of a round.
*)

From stdpp Require Export prelude gmap strings pretty sorting.
From Stdlib Require Export ZArith Lia Ascii.

#[export] Set Default Goal Selector "!".
(** Automation clears hypotheses that may already be gone. *)
#[export] Set Warnings "-clear-no-such-hyp".

Declare Scope reuperf_scope.
Delimit Scope reuperf_scope with reuperf.
Open Scope reuperf_scope.
Open Scope Z_scope.

(** ** Machine integers

    [int] is 32 bits wide, [long] and [ssize_t] 64 bits (LP64, the Android
    ABIs the module ships for); unsigned arithmetic wraps. *)

Definition INT_MAX : Z := 2147483647.
Definition INT_MIN : Z := -2147483648.
Definition LONG_MAX : Z := 9223372036854775807.
Definition LONG_MIN : Z := -9223372036854775808.
Definition UINT64_MOD : Z := 18446744073709551616.

Definition to_int32 (z : Z) : Z := (z + 2147483648) `mod` 4294967296 - 2147483648.
Definition to_uint32 (z : Z) : Z := z `mod` 4294967296.
Definition to_uint64 (z : Z) : Z := z `mod` UINT64_MOD.

Definition in_int (z : Z) : Prop := INT_MIN ≤ z ≤ INT_MAX.

Lemma to_int32_range z : in_int (to_int32 z).
Proof.
  unfold in_int, to_int32, INT_MIN, INT_MAX.
  pose proof (Z.mod_pos_bound (z + 2147483648) 4294967296). lia.
Qed.

Lemma to_int32_id z : in_int z → to_int32 z = z.
Proof.
  unfold in_int, to_int32, INT_MIN, INT_MAX. intros.
  rewrite Z.mod_small; lia.
Qed.

Lemma testbit_high b n i : 0 ≤ n → 0 ≤ b < 2 ^ n → n ≤ i → Z.testbit b i = false.
Proof.
  intros Hn Hb Hi. apply Z.testbit_false; [lia|].
  assert (2 ^ n ≤ 2 ^ i) by (apply Z.pow_le_mono_r; lia).
  rewrite Z.div_small by lia. done.
Qed.

(** A high word above [n] low bits: the bitwise [or] is an addition. *)
Lemma shiftl_lor_add a b n :
  0 ≤ n → 0 ≤ b < 2 ^ n → Z.lor (Z.shiftl a n) b = a * 2 ^ n + b.
Proof.
  intros Hn Hb. rewrite <-Z.shiftl_mul_pow2 by done. symmetry. apply Z.add_nocarry_lor.
  apply Z.bits_inj'. intros i Hi. rewrite Z.land_spec, Z.bits_0.
  destruct (Z.lt_ge_cases i n).
  - by rewrite Z.shiftl_spec_low.
  - rewrite (testbit_high b n i) by lia. apply andb_false_r.
Qed.

(** ** A state monad

    Code that reads or changes shared state or calls the operating system is
    a function in [M S]: from the state before the call to its result and the
    state after it. *)

Definition M (S A : Type) : Type := S → A * S.

#[export] Instance M_ret S : MRet (M S) := λ A a s, (a, s).
#[export] Instance M_bind S : MBind (M S) := λ A B f m s, let '(a, s') := m s in f a s'.

Definition get {S} : M S S := λ s, (s, s).
Definition gets {S A} (f : S → A) : M S A := λ s, (f s, s).
Definition put {S} (s : S) : M S unit := λ _, (tt, s).
Definition modify {S} (f : S → S) : M S unit := λ s, (tt, f s).

(** [a && b] with C++'s short circuit: [b] runs only when [a] is true. *)
Definition andM {S} (a b : M S bool) : M S bool :=
  r ← a; if (r : bool) then b else mret false.
Definition orM {S} (a b : M S bool) : M S bool :=
  r ← a; if (r : bool) then mret true else b.
Notation "a <&&> b" := (andM a b) (at level 40, left associativity) : reuperf_scope.
Notation "a <||> b" := (orM a b) (at level 50, left associativity) : reuperf_scope.

Lemma bind_run {S A B} (m : M S A) (f : A → M S B) s :
  (mbind f m : M S B) s = (let '(a, s') := m s in f a s').
Proof. reflexivity. Qed.
Lemma ret_run {S A} (a : A) (s : S) : (mret a : M S A) s = (a, s).
Proof. reflexivity. Qed.

(** ** Weakest preconditions

    [wp m Q s]: run from [s], [m] ends with a result and a state that satisfy
    [Q].  Loops and calls are specified by lemmas about [wp]; the database [wp]
    holds the rules that follow the structure of the code, applied by
    [wp_step]. *)

Definition wp {S A} (m : M S A) (Q : A → S → Prop) (s : S) : Prop :=
  let '(a, s') := m s in Q a s'.

Create HintDb wp discriminated.

Section Wp.
Context {S : Type}.

Lemma wp_unfold {A} (m : M S A) Q s : wp m Q s ↔ Q (m s).1 (m s).2.
Proof. unfold wp. by destruct (m s). Qed.
Lemma wp_bind {A B} (m : M S A) (f : A → M S B) Q s :
  wp m (λ a, wp (f a) Q) s → wp (m ≫= f) Q s.
Proof. unfold wp. rewrite bind_run. by destruct (m s). Qed.
Lemma wp_ret {A} (a : A) Q (s : S) : Q a s → wp (mret a) Q s.
Proof. done. Qed.
Lemma wp_gets {A} (f : S → A) (Q : A → S → Prop) s : Q (f s) s → wp (gets f) Q s.
Proof. done. Qed.
Lemma wp_modify (f : S → S) (Q : unit → S → Prop) s : Q tt (f s) → wp (modify f) Q s.
Proof. done. Qed.
Lemma wp_mono {A} (m : M S A) (Q Q' : A → S → Prop) s :
  wp m Q s → (∀ a s', Q a s' → Q' a s') → wp m Q' s.
Proof. unfold wp. destruct (m s). auto. Qed.
Lemma wp_any {A} (op : M S A) (Q : A → S → Prop) s : (∀ a s', Q a s') → wp op Q s.
Proof. unfold wp. destruct (op s). auto. Qed.
Lemma wp_and {A} (m : M S A) (Q Q' : A → S → Prop) s :
  wp m Q s → wp m Q' s → wp m (λ a s', Q a s' ∧ Q' a s') s.
Proof. unfold wp. destruct (m s). auto. Qed.

(** [m] keeps [P], whatever it returns. *)
Definition keeps {A} (P : S → Prop) (m : M S A) : Prop := ∀ s, P s → wp m (λ _, P) s.

Lemma keeps_bind {A B} P (m : M S A) (f : A → M S B) :
  keeps P m → (∀ a, keeps P (f a)) → keeps P (m ≫= f).
Proof. intros Hm Hf s Hs. apply wp_bind. eapply wp_mono; [by apply Hm|]. intros. by apply Hf. Qed.
Lemma keeps_ret {A} P (a : A) : keeps P (mret a).
Proof. by intros s Hs. Qed.
Lemma keeps_gets {A} P (f : S → A) : keeps P (gets f).
Proof. by intros s Hs. Qed.
Lemma keeps_get P : keeps P get.
Proof. by intros s Hs. Qed.
Lemma keeps_modify P (f : S → S) : (∀ s, P s → P (f s)) → keeps P (modify f).
Proof. intros H s Hs. by apply H. Qed.
Lemma keeps_if {A} P (b : bool) (m1 m2 : M S A) :
  keeps P m1 → keeps P m2 → keeps P (if b then m1 else m2).
Proof. by destruct b. Qed.
Lemma keeps_run {A} P (m : M S A) s : keeps P m → P s → P (m s).2.
Proof. intros Hm Hs. specialize (Hm s Hs). by apply wp_unfold in Hm. Qed.
End Wp.

#[export] Hint Resolve wp_ret wp_gets wp_modify wp_bind : wp.
#[export] Hint Resolve keeps_bind keeps_ret keeps_gets keeps_get keeps_if : wp.

(** One syntax-directed step of a [wp] goal, and all of them. *)
Ltac wp_step :=
  cbv beta iota; lazymatch goal with
  | |- wp (mbind _ _) _ _ => apply wp_bind
  | |- wp (mret _) _ _ => apply wp_ret
  | |- wp (gets _) _ _ => apply wp_gets
  | |- wp (modify _) _ _ => apply wp_modify
  | |- wp (andM _ _) _ _ => apply wp_bind
  | |- wp (orM _ _) _ _ => apply wp_bind
  | |- wp (let _ := _ in _) _ _ => cbv zeta
  | |- wp (if ?b then _ else _) _ _ => destruct b eqn:?
  | |- wp (match ?x with _ => _ end) _ _ => destruct x eqn:?
  end; cbv beta iota.
Ltac wp_steps := repeat wp_step.

(** Decomposes a [keeps] goal along the code. *)
Ltac keeps_steps :=
  repeat lazymatch goal with
  | |- keeps _ (mbind _ _) => apply keeps_bind; [|intros ?]
  | |- keeps _ (mret _) => apply keeps_ret
  | |- keeps _ (gets _) => apply keeps_gets
  | |- keeps _ get => apply keeps_get
  | |- keeps _ (andM _ _) => apply keeps_bind; [|intros ?]
  | |- keeps _ (orM _ _) => apply keeps_bind; [|intros ?]
  | |- keeps _ (if ?b then _ else _) => destruct b eqn:?
  | |- keeps _ (match ?x with _ => _ end) => destruct x eqn:?
  | |- keeps _ (let _ := _ in _) => cbv zeta
  | |- _ => progress (eauto with wp)
  end.

(** ** Lists *)

Lemma fmap_filter {A B} (f : A → B) (P : B → Prop) `{∀ x, Decision (P x)} (l : list A) :
  f <$> filter (λ a, P (f a)) l = filter P (f <$> l).
Proof.
  induction l as [|a l IH]; [done|]. rewrite fmap_cons, !filter_cons.
  destruct (decide (P (f a))); csimpl; by rewrite IH.
Qed.

(** [std::sort] on a vector of [int]. *)
Definition sort_ints (l : list Z) : list Z := merge_sort Z.le l.

Lemma sort_ints_sorted l : StronglySorted Z.le (sort_ints l).
Proof. apply StronglySorted_merge_sort; apply _. Qed.
Lemma sort_ints_elem l x : x ∈ sort_ints l ↔ x ∈ l.
Proof. unfold sort_ints. by rewrite (merge_sort_Permutation Z.le l). Qed.

Lemma sort_ints_id l : StronglySorted Z.le l → sort_ints l = l.
Proof.
  intros Hs. apply (StronglySorted_unique Z.le); [apply sort_ints_sorted|done|].
  apply merge_sort_Permutation.
Qed.

Lemma StronglySorted_lt_le l : StronglySorted Z.lt l → StronglySorted Z.le l.
Proof.
  induction 1 as [|x l Hs IH Hx]; constructor; [done|].
  eapply Forall_impl; [exact Hx|]. intros; lia.
Qed.

Lemma StronglySorted_lt_NoDup l : StronglySorted Z.lt l → NoDup l.
Proof.
  induction 1 as [|x l _ IH Hx]; constructor; [|done].
  intros Hin. rewrite Forall_forall in Hx. apply Hx in Hin. lia.
Qed.

(** A strictly increasing list is determined by its elements. *)
Lemma sorted_lt_ext l1 l2 :
  StronglySorted Z.lt l1 → StronglySorted Z.lt l2 → (∀ x, x ∈ l1 ↔ x ∈ l2) → l1 = l2.
Proof.
  intros H1 H2 He. apply (StronglySorted_unique_strong Z.lt); [lia|done|done|].
  apply NoDup_Permutation; [by apply StronglySorted_lt_NoDup..|done].
Qed.

Lemma StronglySorted_filter {A} (R : relation A) (P : A → Prop) `{∀ x, Decision (P x)} l :
  StronglySorted R l → StronglySorted R (filter P l).
Proof.
  induction 1 as [|x l _ IH Hx]; [constructor|]. rewrite filter_cons. case_decide; [|done].
  constructor; [done|]. rewrite Forall_forall in *. intros y [_ Hy]%list_elem_of_filter. auto.
Qed.

Lemma seqZ_sorted m n : StronglySorted Z.lt (seqZ m n).
Proof.
  destruct (Z.lt_ge_cases n 0); [rewrite seqZ_nil by lia; constructor|].
  revert m. pattern n. apply natlike_ind; [intros; rewrite seqZ_nil by lia; constructor| |done].
  intros k Hk IH m. rewrite seqZ_cons by lia. rewrite Z.pred_succ. constructor; [apply IH|].
  rewrite Forall_forall. intros x Hx%elem_of_seqZ. lia.
Qed.

Lemma fold_left_inv {A B} (P : A → Prop) (f : A → B → A) l a :
  (∀ a b, P a → P (f a b)) → P a → P (fold_left f l a).
Proof. intros Hf. revert a. induction l; simpl; auto. Qed.

(** [List.find] finds the first element that passes the test. *)
Lemma find_first {A} (f : A → bool) l x :
  find f l = Some x ↔
  ∃ before after, l = before ++ x :: after ∧ f x = true ∧ Forall (λ y, f y = false) before.
Proof.
  induction l as [|y l IH]; simpl.
  - split; [done|]. intros ([|] & ? & [=] & _).
  - destruct (f y) eqn:E.
    + split; [intros [= ->]; by exists [], l|].
      intros ([|b before] & after & Heq & Hm & Hb); simplify_eq/=; [done|].
      apply Forall_cons in Hb as [Hb _]. congruence.
    + rewrite IH. split.
      * intros (before & after & -> & Hm & Hb). exists (y :: before), after. auto.
      * intros ([|b before] & after & Heq & Hm & Hb); simplify_eq/=; [congruence|].
        apply Forall_cons in Hb as [_ Hb]. eauto.
Qed.

Lemma find_elem {A} (f : A → bool) l x : find f l = Some x → x ∈ l ∧ f x = true.
Proof.
  intros (before & after & -> & Hf & _)%find_first. split; [|done].
  apply elem_of_app. right. left.
Qed.
