(* ===== verification/CppString.v ===== *)
(** * The operations of [std::string] and the C number parsers the source uses

    A [std::string] is a [string], byte for byte.  The scanning loops of the
    source work on [list ascii] ([chars]).  [strtol], [strtoull] and
    [std::stoi] are modelled with their conversion, range-error and
    end-pointer results. *)

From S2P Require Import Prelude.

Definition chars : string → list ascii := String.list_ascii_of_string.
Definition str : list ascii → string := String.string_of_list_ascii.

Definition NUL : ascii := "000"%char.
Definition LF : ascii := "010"%char.
Definition TAB : ascii := "009"%char.

(** [isspace] of the C locale. *)
Definition isspace (c : ascii) : bool :=
  let n := N_of_ascii c in (n =? 32)%N || ((9 <=? n)%N && (n <=? 13)%N).

Definition digit (c : ascii) : option Z :=
  let n := Z.of_N (N_of_ascii c) in
  if (48 <=? n) && (n <=? 57) then Some (n - 48) else None.

Definition isdigit (c : ascii) : bool := bool_decide (is_Some (digit c)).

(** ** Searching *)

(** [s.find(c)] on a character list: the index of the first occurrence. *)
Fixpoint find_char (c : ascii) (l : list ascii) : option nat :=
  match l with
  | [] => None
  | x :: l' => if decide (x = c) then Some O else S <$> find_char c l'
  end.

(** [s.rfind(c)]: the index of the last occurrence. *)
Fixpoint rfind_char (c : ascii) (l : list ascii) : option nat :=
  match l with
  | [] => None
  | x :: l' =>
      match rfind_char c l' with
      | Some i => Some (S i)
      | None => if decide (x = c) then Some O else None
      end
  end.

(** [s.find(needle) != npos]. *)
Fixpoint contains (needle s : string) : bool :=
  String.prefix needle s ||
  match s with
  | EmptyString => false
  | String _ s' => contains needle s'
  end.

(** [s.rfind(p, 0) == 0], and [s.compare(0, p.size(), p) == 0]. *)
Definition starts_with (p s : string) : bool := String.prefix p s.

(** ** [std::getline] on a string stream: the segments it delivers, in order.
    An empty rest delivers nothing; a delimiter at the very end opens no
    further segment. *)
Fixpoint getlines_aux (d : ascii) (acc l : list ascii) : list (list ascii) :=
  match l with
  | [] => [rev acc]
  | c :: l' =>
      if decide (c = d)
      then rev acc :: match l' with [] => [] | _ => getlines_aux d [] l' end
      else getlines_aux d (c :: acc) l'
  end.
Definition getlines (d : ascii) (l : list ascii) : list (list ascii) :=
  match l with [] => [] | _ => getlines_aux d [] l end.

(** ** Number parsing *)

(** Accumulates decimal digits: value, unread rest, number of digits read. *)
Fixpoint scan_digits (acc : Z) (n : nat) (l : list ascii) : Z * list ascii * nat :=
  match l with
  | [] => (acc, [], n)
  | c :: l' =>
      match digit c with
      | Some d => scan_digits (acc * 10 + d) (S n) l'
      | None => (acc, l, n)
      end
  end.

Fixpoint skip_spaces (l : list ascii) : list ascii :=
  match l with
  | [] => []
  | c :: l' => if isspace c then skip_spaces l' else l
  end.

Definition scan_sign (l : list ascii) : bool * list ascii :=
  match l with
  | c :: l' =>
      if decide (c = "-"%char) then (true, l')
      else if decide (c = "+"%char) then (false, l') else (false, l)
  | [] => (false, [])
  end.

(** Result of the [strto*] family: value, whether a conversion was performed
    ([end != start]), whether [errno] is [ERANGE], the text at [end]. *)
Record strto_result := StrTo {
  st_value : Z; st_converted : bool; st_erange : bool; st_end : list ascii }.

Definition strtol (l : list ascii) : strto_result :=
  let '(neg, body) := scan_sign (skip_spaces l) in
  let '(v, rest, n) := scan_digits 0 O body in
  match n with
  | O => StrTo 0 false false l
  | S _ =>
      let v := if (neg : bool) then - v else v in
      if LONG_MAX <? v then StrTo LONG_MAX true true rest
      else if v <? LONG_MIN then StrTo LONG_MIN true true rest
      else StrTo v true false rest
  end.

Definition strtoull (l : list ascii) : strto_result :=
  let '(neg, body) := scan_sign (skip_spaces l) in
  let '(v, rest, n) := scan_digits 0 O body in
  match n with
  | O => StrTo 0 false false l
  | S _ =>
      if UINT64_MOD <=? v then StrTo (UINT64_MOD - 1) true true rest
      else StrTo (if (neg : bool) then to_uint64 (- v) else v) true false rest
  end.

(** [*end == '\0'] on [s.c_str()]: the end of the string or an embedded NUL. *)
Definition at_nul (l : list ascii) : bool :=
  match l with [] => true | c :: _ => bool_decide (c = NUL) end.

(** [std::stoi]: [None] when it throws [invalid_argument] or [out_of_range]. *)
Definition stoi (l : list ascii) : option Z :=
  let r := strtol l in
  if negb (st_converted r) then None
  else if st_erange r || (st_value r <? INT_MIN) || (INT_MAX <? st_value r) then None
  else Some (st_value r).

(** [std::to_string] of an integer. *)
Definition to_string (z : Z) : string := pretty z.

(** ** Lemmas *)

Lemma chars_app s t : chars (s +:+ t) = chars s ++ chars t.
Proof. induction s as [|c s IH]; [done|]. simpl. unfold chars in *. simpl. by f_equal. Qed.
Lemma str_chars s : str (chars s) = s.
Proof. apply String.string_of_list_ascii_of_string. Qed.
Lemma chars_str l : chars (str l) = l.
Proof. apply String.list_ascii_of_string_of_list_ascii. Qed.
Lemma chars_inj s t : chars s = chars t → s = t.
Proof. intros H. by rewrite <-(str_chars s), H, str_chars. Qed.

#[export] Hint Rewrite chars_app : chars.

(** *** Decimal numbers *)

Lemma digit_pretty_N_char x : (x < 10)%N → digit (pretty_N_char x) = Some (Z.of_N x).
Proof.
  intros. assert (x = 0 ∨ x = 1 ∨ x = 2 ∨ x = 3 ∨ x = 4 ∨ x = 5 ∨ x = 6 ∨ x = 7
    ∨ x = 8 ∨ x = 9)%N as Hx by lia.
  destruct_or! Hx; subst; reflexivity.
Qed.

(** The digits of [x], most significant first, before [s]. *)
Lemma pretty_N_go_digits x s :
  ∃ ds, chars (pretty_N_go x s) = ds ++ chars s
    ∧ Forall (λ c, is_Some (digit c)) ds
    ∧ ∀ acc n rest, scan_digits acc n (ds ++ rest)
        = scan_digits (acc * 10 ^ Z.of_nat (length ds) + Z.of_N x) (n + length ds) rest.
Proof.
  revert s. induction x as [x IH] using (well_founded_induction N.lt_wf_0). intros s.
  destruct (decide (0 < x)%N) as [Hx|Hx].
  - rewrite pretty_N_go_step by done.
    destruct (IH (x `div` 10)%N ltac:(apply N.div_lt; lia)
      (String (pretty_N_char (x `mod` 10)) s)) as (ds & Hds & Hall & Hval).
    set (c := pretty_N_char (x `mod` 10)) in *.
    assert (digit c = Some (Z.of_N (x `mod` 10)%N)) as Hc
      by (apply digit_pretty_N_char, N.mod_lt; lia).
    exists (ds ++ [c]). split; [|split].
    + rewrite Hds. by rewrite <-(assoc_L (++)).
    + apply Forall_app. split; [done|]. repeat constructor. by eexists.
    + intros acc n rest. rewrite <-(assoc_L (++)), Hval. simpl. rewrite Hc.
      rewrite length_app. simpl. f_equal; [|lia].
      rewrite Nat2Z.inj_add, Z.pow_add_r by lia. change (10 ^ Z.of_nat 1) with 10.
      rewrite N2Z.inj_div, N2Z.inj_mod.
      pose proof (Z.div_mod (Z.of_N x) 10). simpl Z.of_N at 2 4. lia.
  - assert (x = 0)%N as -> by lia. exists []. split; [done|]. split; [constructor|].
    intros. simpl. f_equal; lia.
Qed.

(** A text that does not go on with a digit. *)
Definition no_digit_head (l : list ascii) : Prop :=
  match l with [] => True | c :: _ => digit c = None end.

Lemma scan_digits_stop acc n l : no_digit_head l → scan_digits acc n l = (acc, l, n).
Proof. destruct l as [|c l]; simpl; [done|]. by intros ->. Qed.

(** [to_string] of a natural number is a non-empty run of digits, which
    [scan_digits] reads back. *)
Lemma to_string_digits z :
  0 ≤ z → ∃ ds, chars (to_string z) = ds ∧ ds ≠ [] ∧ Forall (λ c, is_Some (digit c)) ds
    ∧ ∀ rest, no_digit_head rest → scan_digits 0 0 (ds ++ rest) = (z, rest, length ds).
Proof.
  intros Hz. eexists. split; [done|]. unfold to_string, pretty, pretty_Z.
  destruct z as [|p|p]; [| |lia].
  - split; [done|]. split; [repeat constructor; by eexists|].
    intros rest Hr. simpl. by rewrite scan_digits_stop.
  - unfold pretty, pretty_positive, pretty, pretty_N. simpl.
    destruct (pretty_N_go_digits (N.pos p) "") as (ds & Hds & Hall & Hval).
    rewrite app_nil_r in Hds. rewrite Hds.
    split; [|split; [done|]].
    + intros ->. specialize (Hval 0 0%nat []). simpl in Hval.
      injection Hval. lia.
    + intros rest Hr. rewrite Hval, scan_digits_stop by done. simpl. repeat f_equal; lia.
Qed.

Lemma isdigit_spec c : isdigit c = true ↔ is_Some (digit c).
Proof. unfold isdigit. apply bool_decide_eq_true. Qed.

Lemma digit_not_special c :
  is_Some (digit c) → isspace c = false ∧ c ≠ "-"%char ∧ c ≠ "+"%char ∧ c ≠ ","%char
    ∧ c ≠ " "%char ∧ c ≠ TAB ∧ c ≠ ")"%char ∧ c ≠ LF.
Proof.
  destruct c as [[] [] [] [] [] [] [] []]; intros [d Hd]; try discriminate Hd;
    repeat split; try done.
Qed.

Lemma digits_skip_spaces ds rest :
  ds ≠ [] → Forall (λ c, is_Some (digit c)) ds →
  scan_sign (skip_spaces (ds ++ rest)) = (false, ds ++ rest).
Proof.
  intros Hne Hall. destruct ds as [|c ds]; [done|]. apply Forall_cons in Hall as [Hc _].
  destruct (digit_not_special c Hc) as (Hs & Hm & Hp & _).
  simpl. rewrite Hs. simpl. by rewrite !decide_False.
Qed.

Lemma to_string_nonempty z : 0 ≤ z → chars (to_string z) ≠ [].
Proof. intros Hz. by destruct (to_string_digits z Hz) as (? & -> & ? & _). Qed.

(** The parsers read back what [to_string] prints. *)
Lemma strtol_to_string z rest :
  0 ≤ z ≤ LONG_MAX → no_digit_head rest →
  strtol (chars (to_string z) ++ rest) = StrTo z true false rest.
Proof.
  intros Hz Hr. destruct (to_string_digits z) as (ds & -> & Hne & Hall & Hscan); [lia|].
  unfold strtol. rewrite digits_skip_spaces by done. rewrite Hscan by done.
  destruct ds; [done|]. simpl. unfold LONG_MAX, LONG_MIN in *.
  rewrite (proj2 (Z.ltb_ge _ _)), (proj2 (Z.ltb_ge _ _)) by lia. done.
Qed.
Lemma strtoull_to_string z rest :
  0 ≤ z < UINT64_MOD → no_digit_head rest →
  strtoull (chars (to_string z) ++ rest) = StrTo z true false rest.
Proof.
  intros Hz Hr. destruct (to_string_digits z) as (ds & -> & Hne & Hall & Hscan); [lia|].
  unfold strtoull. rewrite digits_skip_spaces by done. rewrite Hscan by done.
  destruct ds; [done|]. simpl. by rewrite (proj2 (Z.leb_gt _ _)) by lia.
Qed.
Lemma stoi_to_string z : 0 ≤ z ≤ INT_MAX → stoi (chars (to_string z)) = Some z.
Proof.
  intros Hz. unfold stoi. rewrite <-(app_nil_r (chars (to_string z))).
  rewrite strtol_to_string by (done || unfold INT_MAX, LONG_MAX in *; lia). simpl.
  unfold INT_MIN, INT_MAX in *.
  rewrite (proj2 (Z.ltb_ge _ _)), (proj2 (Z.ltb_ge _ _)) by lia. done.
Qed.

(** *** Searching *)

Lemma find_char_app c l1 l2 :
  c ∉ l1 → find_char c (l1 ++ l2) = (λ n, (length l1 + n)%nat) <$> find_char c l2.
Proof.
  induction l1 as [|x l1 IH]; intros Hc; simpl.
  { destruct (find_char c l2); done. }
  apply not_elem_of_cons in Hc as [Hx Hc]. rewrite decide_False by done. rewrite IH by done.
  by destruct (find_char c l2).
Qed.
Lemma find_char_here c l1 l2 : c ∉ l1 → find_char c (l1 ++ c :: l2) = Some (length l1).
Proof. intros Hc. rewrite find_char_app by done. simpl. rewrite decide_True by done. simpl. f_equal. lia. Qed.
Lemma find_char_none c l : c ∉ l → find_char c l = None.
Proof. intros Hc. rewrite <-(app_nil_r l), find_char_app by done. done. Qed.

Lemma rfind_char_none c l : c ∉ l → rfind_char c l = None.
Proof.
  induction l as [|x l IH]; intros Hc; simpl; [done|].
  apply not_elem_of_cons in Hc as [Hx Hc]. rewrite IH by done. by rewrite decide_False.
Qed.
Lemma rfind_char_here c l1 l2 : c ∉ l2 → rfind_char c (l1 ++ c :: l2) = Some (length l1).
Proof.
  intros Hc. induction l1 as [|x l1 IH]; simpl.
  - rewrite rfind_char_none by done. by rewrite decide_True.
  - by rewrite IH.
Qed.

(** *** Lines *)


Lemma getlines_aux_seg d acc seg rest :
  d ∉ seg →
  getlines_aux d acc (seg ++ d :: rest) = (rev acc ++ seg) :: getlines d rest.
Proof.
  revert acc. induction seg as [|x seg IH]; intros acc Hd; simpl.
  - rewrite decide_True by done. by rewrite app_nil_r.
  - apply not_elem_of_cons in Hd as [Hx Hd]. rewrite decide_False by done.
    rewrite IH by done. simpl. by rewrite <-(assoc_L (++)).
Qed.
Lemma getlines_aux_last d acc seg : d ∉ seg → getlines_aux d acc seg = [rev acc ++ seg].
Proof.
  revert acc. induction seg as [|x seg IH]; intros acc Hd; simpl.
  - by rewrite app_nil_r.
  - apply not_elem_of_cons in Hd as [Hx Hd]. rewrite decide_False by done.
    rewrite IH by done. simpl. by rewrite <-(assoc_L (++)).
Qed.

Lemma getlines_cons d seg rest : d ∉ seg → getlines d (seg ++ d :: rest) = seg :: getlines d rest.
Proof.
  intros Hd. unfold getlines at 1. destruct (seg ++ d :: rest) eqn:E; [by destruct seg|].
  rewrite <-E. by rewrite getlines_aux_seg.
Qed.
Lemma getlines_single d seg : d ∉ seg → seg ≠ [] → getlines d seg = [seg].
Proof. intros Hd Hne. destruct seg; [done|]. unfold getlines. by rewrite getlines_aux_last. Qed.

(** ** Substrings *)

Lemma prefix_app_iff p s : String.prefix p s = true ↔ ∃ t, s = p +:+ t.
Proof.
  revert s. induction p as [|c p IH]; intros s.
  { split; [by exists s|by destruct s]. }
  destruct s as [|d s]; cbn.
  - split; [done|]. by intros [? [=]].
  - destruct (Ascii.ascii_dec c d) as [->|Hne].
    + rewrite IH. split; intros [t Ht]; exists t; [by rewrite Ht|by injection Ht].
    + split; [done|]. intros [t [= -> _]]. done.
Qed.

Lemma contains_app n s t : contains n t = true → contains n (s +:+ t) = true.
Proof.
  intros H. induction s as [|c s IH]; [done|].
  change (String.prefix n (String c s +:+ t) || contains n (s +:+ t) = true).
  rewrite IH. apply orb_true_r.
Qed.

Lemma contains_prefix n s : String.prefix n s = true → contains n s = true.
Proof. intros H. destruct s; cbn in *; by rewrite H. Qed.

Lemma contains_iff n s : contains n s = true ↔ ∃ a b, s = a +:+ n +:+ b.
Proof.
  split.
  - induction s as [|c s IH]; intros [H|H]%orb_true_iff; try done.
    1, 2: apply prefix_app_iff in H as [t ->]; by exists EmptyString, t.
    destruct (IH H) as (a & b & ->). by exists (String c a), b.
  - intros (a & b & ->). apply contains_app, contains_prefix, prefix_app_iff. by exists b.
Qed.

(** *** Cutting at a separator *)

Lemma sep_app_inj c (a b x y : list ascii) :
  c ∉ a → c ∉ b → a ++ c :: x = b ++ c :: y → a = b ∧ x = y.
Proof.
  intros Ha Hb Heq.
  assert (length a = length b) as Hlen.
  { pose proof (find_char_here c a x Ha) as H1. rewrite Heq, find_char_here in H1 by done.
    congruence. }
  apply app_inj_1 in Heq as [-> [=]]; done.
Qed.

Definition count_char (c : ascii) (l : list ascii) : nat := length (filter (λ x, x = c) l).

Lemma count_char_app c l1 l2 : count_char c (l1 ++ l2) = (count_char c l1 + count_char c l2)%nat.
Proof. unfold count_char. by rewrite filter_app, length_app. Qed.

Lemma count_char_zero c l : count_char c l = 0%nat ↔ c ∉ l.
Proof.
  unfold count_char. split.
  - intros Hl%nil_length_inv Hin.
    assert (c ∈ filter (λ x, x = c) l) as Hf by by apply list_elem_of_filter.
    rewrite Hl in Hf. by apply elem_of_nil in Hf.
  - intros Hc. destruct (filter (λ x, x = c) l) as [|x k] eqn:E; [done|].
    assert (x ∈ filter (λ x, x = c) l) as [-> ?]%list_elem_of_filter by (rewrite E; left). done.
Qed.

