(* ===== verification/ConfigTypes.v ===== *)
(** * The configuration data ([config/config_types.hpp])

    One record per struct, with the default member initialisers as the
    [default_*] values.  [std::map] members are [gmap string]; an
    [std::optional<int>] is an [option Z]. *)

From S2P Require Import Prelude.

Inductive ProcessState := BG | FG | TOP.

#[export] Instance ProcessState_eq_dec : EqDecision ProcessState.
Proof. solve_decision. Defined.

(** [static_cast<int>] of the enumerator. *)
Definition state_code (s : ProcessState) : Z :=
  match s with BG => 0 | FG => 1 | TOP => 2 end.

Inductive LogLevel := ERR | WARN | INFO | DEBUG | TRACE.

#[export] Instance LogLevel_eq_dec : EqDecision LogLevel.
Proof. solve_decision. Defined.

Record LogConfig := { log_level : string; log_output : string }.

Record ThreadRule := {
  tr_keyword : string;
  tr_affinity_class : string;
  tr_prio_class : string;
  tr_uclamp_max : option Z;
  tr_cpu_share : option Z;
  tr_enable_limit : bool }.

Record ProcessRule := {
  pr_name : string;
  pr_regex_str : string;
  pr_pinned : bool;
  pr_topfore : bool;
  pr_thread_rules : list ThreadRule }.

Record AffinityScene := { as_bg : string; as_fg : string; as_top : string }.
Record PrioScene := { ps_bg : Z; ps_fg : Z; ps_top : Z }.

Record TimingConfig := {
  event_throttle_ms : Z;
  min_schedule_interval_ms : Z;
  schedule_cleanup_interval_ms : Z;
  cgroup_check_interval_ms : Z;
  cpuset_retry_count : Z;
  cpuset_retry_interval_ms : Z;
  cpuset_group_check_ttl_ms : Z;
  process_cache_ttl_ms : Z;
  file_cache_ttl_ms : Z;
  cgroup_cache_ttl_ms : Z;
  monitor_initial_restart_delay_s : Z;
  monitor_restart_retry_delay_s : Z;
  config_retry_initial_delay_s : Z;
  config_retry_max_delay_s : Z }.

Record SchedConfig := {
  sc_enable : bool;
  sc_refresh_interval_ms : Z;
  sc_highspeed_sched_ms : Z;
  sc_top_scan_budget_us : Z;
  sc_full_scan_budget_us : Z;
  sc_scan_batch_size : Z;
  sc_scan_batch_yield_us : Z;
  sc_case_insensitive : bool;
  sc_timing : TimingConfig;
  sc_log : LogConfig;
  sc_cpumask : gmap string (list Z);
  sc_affinity : gmap string AffinityScene;
  sc_prio : gmap string PrioScene;
  sc_rules : list ProcessRule }.

Record Config := {
  cfg_meta_name : string;
  cfg_meta_author : string;
  cfg_sched : SchedConfig;
  cfg_launcher_package : string }.

(** ** Default member initialisers *)

Definition default_log : LogConfig :=
  {| log_level := "info"; log_output := "/data/adb/ReUperf/ReUperf.log" |}.

Definition default_affinity_scene : AffinityScene :=
  {| as_bg := EmptyString; as_fg := EmptyString; as_top := EmptyString |}.

Definition default_prio_scene : PrioScene := {| ps_bg := 0; ps_fg := 0; ps_top := 0 |}.

Definition default_timing : TimingConfig := {|
  event_throttle_ms := 50;
  min_schedule_interval_ms := 200;
  schedule_cleanup_interval_ms := 5000;
  cgroup_check_interval_ms := 1000;
  cpuset_retry_count := 3;
  cpuset_retry_interval_ms := 10;
  cpuset_group_check_ttl_ms := 1000;
  process_cache_ttl_ms := 100;
  file_cache_ttl_ms := 100;
  cgroup_cache_ttl_ms := 100;
  monitor_initial_restart_delay_s := 1;
  monitor_restart_retry_delay_s := 5;
  config_retry_initial_delay_s := 1;
  config_retry_max_delay_s := 5 |}.

Definition default_sched : SchedConfig := {|
  sc_enable := true;
  sc_refresh_interval_ms := 2000;
  sc_highspeed_sched_ms := 300;
  sc_top_scan_budget_us := 4000;
  sc_full_scan_budget_us := 12000;
  sc_scan_batch_size := 32;
  sc_scan_batch_yield_us := 0;
  sc_case_insensitive := false;
  sc_timing := default_timing;
  sc_log := default_log;
  sc_cpumask := ∅;
  sc_affinity := ∅;
  sc_prio := ∅;
  sc_rules := [] |}.

Definition default_config : Config := {|
  cfg_meta_name := EmptyString;
  cfg_meta_author := EmptyString;
  cfg_sched := default_sched;
  cfg_launcher_package := EmptyString |}.

(** [parse_log_level]. *)
Definition parse_log_level (level : string) : LogLevel :=
  if decide (level = "err") then ERR
  else if decide (level = "warn") then WARN
  else if decide (level = "info") then INFO
  else if decide (level = "debug") then DEBUG
  else if decide (level = "trace") then TRACE
  else INFO.

(** [AffinityScene] and [PrioScene] members by state, as the [switch]
    statements of the source select them. *)
Definition scene_mask (s : AffinityScene) (st : ProcessState) : string :=
  match st with BG => as_bg s | FG => as_fg s | TOP => as_top s end.

Definition scene_prio (s : PrioScene) (st : ProcessState) : Z :=
  match st with BG => ps_bg s | FG => ps_fg s | TOP => ps_top s end.

(** [CPU_SETSIZE] of the C library on the LP64 targets. *)
Definition CPU_SETSIZE : Z := 1024.
