(* ===== verification/Json.v ===== *)
(** * The interface to the JSON library

    [nlohmann::json] is not part of the repository.  The parser is written
    against the class [Json], whose members are the library calls the source
    makes.  [JsonValue] is a concrete instance (the value type the library
    documents), used to evaluate the parser on examples. *)

From S2P Require Import Prelude.

Class Json (J : Type) := {
  is_object : J → bool;
  is_array : J → bool;
  is_string : J → bool;
  is_boolean : J → bool;
  is_number_integer : J → bool;
  (** [find(key)]; [None] is [end()].  [contains(key)] and [operator[]] on a
      present key are read off the same member. *)
  json_find : J → string → option J;
  get_string : J → string;
  get_bool : J → bool;
  get_int : J → Z;
  (** The members of an object and the elements of an array, in the order the
      iterators visit them. *)
  object_items : J → list (string * J);
  array_elems : J → list J }.

(** What the parser relies on beyond the signatures: [get<int>()] is an [int],
    and an object has one member per key, the one [find] returns. *)
Class JsonLaws (J : Type) `{Json J} := {
  get_int_range j : in_int (get_int j);
  object_items_nodup j : NoDup (object_items j).*1;
  object_items_find j k v : is_object j = true → (k, v) ∈ object_items j ↔ json_find j k = Some v }.

(** [j.contains(key) && j.at(key).test()], the guard the source writes before
    every [get]: the member when it is present and passes the test. *)
Definition find_if `{Json J} (test : J → bool) (j : J) (key : string) : option J :=
  v ← json_find j key; if test v then Some v else None.

(** ** A concrete instance *)

Inductive JsonValue :=
  | JNull
  | JBool (b : bool)
  | JInt (z : Z)
  | JFloat
  | JString (s : string)
  | JArray (l : list JsonValue)
  | JObject (l : list (string * JsonValue)).

Fixpoint assoc_find (l : list (string * JsonValue)) (key : string) : option JsonValue :=
  match l with
  | [] => None
  | (k, v) :: l' => if decide (k = key) then Some v else assoc_find l' key
  end.

(** Keeps the first member of each key. *)
Fixpoint first_keys (seen : list string) (l : list (string * JsonValue))
    : list (string * JsonValue) :=
  match l with
  | [] => []
  | (k, v) :: l' =>
      if decide (k ∈ seen) then first_keys seen l' else (k, v) :: first_keys (k :: seen) l'
  end.

#[export] Instance JsonValue_json : Json JsonValue := {|
  is_object j := match j with JObject _ => true | _ => false end;
  is_array j := match j with JArray _ => true | _ => false end;
  is_string j := match j with JString _ => true | _ => false end;
  is_boolean j := match j with JBool _ => true | _ => false end;
  is_number_integer j := match j with JInt _ => true | _ => false end;
  json_find j k := match j with JObject l => assoc_find l k | _ => None end;
  get_string j := match j with JString s => s | _ => EmptyString end;
  get_bool j := match j with JBool b => b | _ => false end;
  get_int j := match j with JInt z => to_int32 z | _ => 0 end;
  object_items j := match j with JObject l => first_keys [] l | _ => [] end;
  array_elems j := match j with JArray l => l | _ => [] end |}.

Lemma first_keys_elem seen l k v :
  (k, v) ∈ first_keys seen l ↔ (k ∉ seen) ∧ assoc_find l k = Some v.
Proof.
  revert seen. induction l as [|[k' v'] l IH]; intros seen; simpl.
  { split; [by intros ?%elem_of_nil | by intros [_ ?]]. }
  destruct (decide (k' ∈ seen)) as [Hin|Hni].
  - rewrite IH. destruct (decide (k' = k)) as [->|]; [|done]. tauto.
  - rewrite elem_of_cons, IH, not_elem_of_cons.
    destruct (decide (k' = k)) as [->|]; split.
    + intros [[= ->]|[[] _]]; done.
    + intros [_ [= ->]]. by left.
    + intros [[= -> _]|[[_ ?] ?]]; done.
    + intros [? ?]. right. auto.
Qed.

Lemma first_keys_nodup seen l : NoDup (first_keys seen l).*1.
Proof.
  revert seen. induction l as [|[k v] l IH]; intros seen; simpl; [constructor|].
  destruct (decide (k ∈ seen)); simpl; [done|].
  constructor; [|done].
  intros ([k' v'] & -> & Hin)%list_elem_of_fmap.
  apply first_keys_elem in Hin as [Hn _]. apply Hn. by left.
Qed.

#[export] Instance JsonValue_laws : JsonLaws JsonValue.
Proof.
  split.
  - intros j. destruct j as [| |z| | | |]; try apply (to_int32_range z);
      unfold in_int, INT_MIN, INT_MAX; simpl; lia.
  - intros []; simpl; try constructor. apply first_keys_nodup.
  - intros j k v. destruct j as [| | | | | |l]; try done. simpl. intros _.
    change ((k, v) ∈ first_keys [] l ↔ assoc_find l k = Some v).
    pose proof (not_elem_of_nil k). rewrite first_keys_elem. tauto.
Qed.
