(* ===== verification/CgroupName.v ===== *)
(** * Names that may become a cgroup directory ([is_safe_cgroup_component])

    The configuration parser accepts a cpumask or rule name only when it is a
    well-formed UTF-8 text without separators, control or invisible
    characters.  [is_safe_cgroup_component_spec] is the specification: the
    names accepted are the encodings of texts over the allowed code points. *)

From S2P Require Import Prelude CppString.

(** The unsigned value of a [char]. *)
Definition byte_of (c : ascii) : Z := Z.of_N (N_of_ascii c).
Definition bytes_of (s : string) : list Z := byte_of <$> chars s.

Definition is_ascii_space (c : Z) : bool :=
  (c =? 32) || (c =? 9) || (c =? 10) || (c =? 13) || (c =? 12) || (c =? 11).

Definition between (lo hi c : Z) : bool := (lo <=? c) && (c <=? hi).

Definition unicode_space (cp : Z) : bool :=
  (cp =? 0x85) || (cp =? 0xa0) || (cp =? 0x1680) || between 0x2000 0x200a cp
  || (cp =? 0x2028) || (cp =? 0x2029) || (cp =? 0x202f) || (cp =? 0x205f) || (cp =? 0x3000).

Definition invisible (cp : Z) : bool :=
  (cp <=? 0x1f) || (cp =? 0x7f) || unicode_space cp || between 0x200b 0x200f cp
  || between 0x202a 0x202e cp || (cp =? 0x2060) || between 0x2066 0x2069 cp || (cp =? 0xfeff).

Definition overlong (width cp : Z) : bool :=
  ((width =? 2) && (cp <? 0x80)) || ((width =? 3) && (cp <? 0x800))
  || ((width =? 4) && (cp <? 0x10000)).

(** The test at the end of the loop body, negated: the code point is kept. *)
Definition codepoint_accepted (width cp : Z) : bool :=
  negb (overlong width cp || (0x10ffff <? cp) || between 0xd800 0xdfff cp || invisible cp
        || (cp =? 0x2f) || (cp =? 0x5c) || (cp =? 0x3a)).

Definition is_continuation (byte : Z) : bool := Z.land byte 0xc0 =? 0x80.
Definition push_continuation (cp byte : Z) : Z := Z.lor (Z.shiftl cp 6) (Z.land byte 0x3f).

(** The decoding loop, from the current offset. *)
Fixpoint scan_codepoints (l : list Z) : bool :=
  match l with
  | [] => true
  | lead :: r0 =>
      if lead <? 0x80 then codepoint_accepted 1 lead && scan_codepoints r0
      else if Z.land lead 0xe0 =? 0xc0 then
        match r0 with
        | b1 :: r1 =>
            is_continuation b1
            && codepoint_accepted 2 (push_continuation (Z.land lead 0x1f) b1)
            && scan_codepoints r1
        | _ => false
        end
      else if Z.land lead 0xf0 =? 0xe0 then
        match r0 with
        | b1 :: b2 :: r2 =>
            is_continuation b1 && is_continuation b2
            && codepoint_accepted 3
                 (push_continuation (push_continuation (Z.land lead 0x0f) b1) b2)
            && scan_codepoints r2
        | _ => false
        end
      else if Z.land lead 0xf8 =? 0xf0 then
        match r0 with
        | b1 :: b2 :: b3 :: r3 =>
            is_continuation b1 && is_continuation b2 && is_continuation b3
            && codepoint_accepted 4
                 (push_continuation
                    (push_continuation (push_continuation (Z.land lead 0x07) b1) b2) b3)
            && scan_codepoints r3
        | _ => false
        end
      else false
  end.

Definition is_safe_cgroup_component (name : string) : bool :=
  let l := bytes_of name in
  if decide (name = EmptyString) then false
  else if decide (name = "." ∨ name = "..") then false
  else if 128 <? Z.of_nat (length l) then false
  else if is_ascii_space (default 0 (head l)) || is_ascii_space (default 0 (last l)) then false
  else scan_codepoints l.

(** ** Specification *)

(** The UTF-8 encoding of a Unicode scalar value. *)
Definition utf8_encode (cp : Z) : list Z :=
  if cp <? 0x80 then [cp]
  else if cp <? 0x800 then [0xc0 + cp `div` 64; 0x80 + cp `mod` 64]
  else if cp <? 0x10000 then
    [0xe0 + cp `div` 4096; 0x80 + cp `div` 64 `mod` 64; 0x80 + cp `mod` 64]
  else [0xf0 + cp `div` 262144; 0x80 + cp `div` 4096 `mod` 64;
        0x80 + cp `div` 64 `mod` 64; 0x80 + cp `mod` 64].

Definition utf8_encode_all (cps : list Z) : list Z := cps ≫= utf8_encode.

(** The code points a name may contain: Unicode scalar values that are not
    control characters, spaces other than U+0020, invisible characters or one
    of the path separators. *)
Definition allowed_codepoint (cp : Z) : Prop :=
  0 ≤ cp ≤ 0x10ffff ∧ ¬ (0xd800 ≤ cp ≤ 0xdfff) ∧ invisible cp = false
  ∧ cp ≠ 0x2f ∧ cp ≠ 0x5c ∧ cp ≠ 0x3a.

Record safe_name (name : string) : Prop := {
  safe_not_empty : name ≠ EmptyString;
  safe_not_dot : name ≠ ".";
  safe_not_dotdot : name ≠ "..";
  safe_length : (length (bytes_of name) ≤ 128)%nat;
  safe_front : ∀ b, head (bytes_of name) = Some b → is_ascii_space b = false;
  safe_back : ∀ b, last (bytes_of name) = Some b → is_ascii_space b = false;
  safe_text : ∃ cps, bytes_of name = utf8_encode_all cps ∧ Forall allowed_codepoint cps }.

(** ** Arithmetic of the encoding *)

Definition is_byte (b : Z) : Prop := 0 ≤ b < 256.

(** Facts about one byte, by running through all 256. *)
Lemma byte_forall (P : Z → bool) :
  forallb P (seqZ 0 256) = true → ∀ b, is_byte b → P b = true.
Proof.
  intros HP b [? ?]. rewrite forallb_forall in HP. apply HP.
  apply list_elem_of_In, elem_of_seqZ. lia.
Qed.

Lemma byte_of_range c : is_byte (byte_of c).
Proof. unfold is_byte, byte_of. pose proof (N_ascii_bounded c). lia. Qed.

Lemma bytes_of_range s : Forall is_byte (bytes_of s).
Proof. apply Forall_fmap, Forall_true. intros c. apply byte_of_range. Qed.

Ltac byte_fact :=
  let b := fresh "b" in let H := fresh "H" in
  intros b H; apply Bool.eqb_prop;
  revert b H; apply byte_forall; vm_compute; reflexivity.

Lemma lead2_range b : is_byte b → (Z.land b 0xe0 =? 0xc0) = between 0xc0 0xdf b.
Proof. revert b. byte_fact. Qed.
Lemma lead3_range b : is_byte b → (Z.land b 0xf0 =? 0xe0) = between 0xe0 0xef b.
Proof. revert b. byte_fact. Qed.
Lemma lead4_range b : is_byte b → (Z.land b 0xf8 =? 0xf0) = between 0xf0 0xf7 b.
Proof. revert b. byte_fact. Qed.
Lemma continuation_range b : is_byte b → is_continuation b = between 0x80 0xbf b.
Proof. revert b. byte_fact. Qed.

Lemma push_continuation_val cp b :
  0 ≤ cp → push_continuation cp b = cp * 64 + b `mod` 64.
Proof.
  intros. unfold push_continuation.
  change 0x3f with (Z.ones 6). rewrite Z.land_ones by lia.
  rewrite Z.shiftl_mul_pow2 by lia.
  symmetry. apply Z.add_nocarry_lor. apply Z.bits_inj'. intros i Hi.
  rewrite Z.land_spec, Z.bits_0, Z.testbit_mod_pow2 by lia.
  destruct (decide (i < 6)).
  - rewrite Z.mul_pow2_bits_low by lia. done.
  - replace (i <? 6) with false by lia. by rewrite andb_false_r.
Qed.

Lemma land_mask_mod b n : 0 ≤ n → Z.land b (Z.ones n) = b `mod` 2 ^ n.
Proof. intros. by apply Z.land_ones. Qed.

Ltac zmod := Z.to_euclidean_division_equations; lia.

(** The three multi-byte decodings in arithmetic form. *)
Lemma decode2 lead b1 :
  push_continuation (Z.land lead 0x1f) b1 = (lead `mod` 32) * 64 + b1 `mod` 64.
Proof.
  change 0x1f with (Z.ones 5). rewrite land_mask_mod by lia. change (2 ^ 5) with 32.
  apply push_continuation_val. zmod.
Qed.
Lemma decode3 lead b1 b2 :
  push_continuation (push_continuation (Z.land lead 0x0f) b1) b2
  = ((lead `mod` 16) * 64 + b1 `mod` 64) * 64 + b2 `mod` 64.
Proof.
  change 0x0f with (Z.ones 4). rewrite land_mask_mod by lia. change (2 ^ 4) with 16.
  rewrite (push_continuation_val (lead `mod` 16)) by zmod.
  rewrite push_continuation_val by zmod. done.
Qed.
Lemma decode4 lead b1 b2 b3 :
  push_continuation (push_continuation (push_continuation (Z.land lead 0x07) b1) b2) b3
  = (((lead `mod` 8) * 64 + b1 `mod` 64) * 64 + b2 `mod` 64) * 64 + b3 `mod` 64.
Proof.
  change 0x07 with (Z.ones 3). rewrite land_mask_mod by lia. change (2 ^ 3) with 8.
  rewrite (push_continuation_val (lead `mod` 8)) by zmod.
  rewrite (push_continuation_val (_ * 64 + _)) by zmod.
  rewrite push_continuation_val by zmod. done.
Qed.

Lemma between_true lo hi c : between lo hi c = true ↔ lo ≤ c ≤ hi.
Proof. unfold between. rewrite andb_true_iff, !Z.leb_le. done. Qed.

(** An accepted code point is allowed and not overlong for its width. *)
Lemma codepoint_accepted_spec width cp :
  0 ≤ cp → codepoint_accepted width cp = true ↔ overlong width cp = false ∧ allowed_codepoint cp.
Proof.
  intros Hcp. unfold codepoint_accepted, allowed_codepoint.
  rewrite negb_true_iff, !orb_false_iff, !Z.eqb_neq.
  pose proof (between_true 0xd800 0xdfff cp).
  destruct (between 0xd800 0xdfff cp); rewrite Z.ltb_ge; intuition lia.
Qed.

Lemma utf8_encode_all_cons cp cps :
  utf8_encode_all (cp :: cps) = utf8_encode cp ++ utf8_encode_all cps.
Proof. reflexivity. Qed.

(** ** One iteration of the loop, by the width of the sequence *)

Definition cont (b : Z) : bool := between 0x80 0xbf b.

Ltac step_ranges :=
  unfold is_byte in *; cbn [scan_codepoints];
  rewrite ?(proj2 (Z.ltb_ge _ 0x80)) by lia;
  rewrite ?lead2_range, ?lead3_range, ?lead4_range, ?continuation_range by (unfold is_byte; lia);
  repeat match goal with
    |- context [between ?lo ?hi ?c] =>
      first [ replace (between lo hi c) with true by (symmetry; apply between_true; lia)
            | replace (between lo hi c) with false by (unfold between; lia) ]
    end.

Lemma scan1 lead r :
  0 ≤ lead < 0x80 →
  scan_codepoints (lead :: r) = codepoint_accepted 1 lead && scan_codepoints r.
Proof. intros. simpl. by replace (lead <? 128) with true by lia. Qed.

Lemma scan2 lead b1 r :
  0xc0 ≤ lead ≤ 0xdf → is_byte b1 →
  scan_codepoints (lead :: b1 :: r)
  = cont b1 && codepoint_accepted 2 ((lead `mod` 32) * 64 + b1 `mod` 64)
    && scan_codepoints r.
Proof. intros. rewrite <-decode2. unfold cont. step_ranges. done. Qed.

Lemma scan3 lead b1 b2 r :
  0xe0 ≤ lead ≤ 0xef → is_byte b1 → is_byte b2 →
  scan_codepoints (lead :: b1 :: b2 :: r)
  = cont b1 && cont b2
    && codepoint_accepted 3 (((lead `mod` 16) * 64 + b1 `mod` 64) * 64 + b2 `mod` 64)
    && scan_codepoints r.
Proof. intros. rewrite <-decode3. unfold cont. step_ranges. done. Qed.

Lemma scan4 lead b1 b2 b3 r :
  0xf0 ≤ lead ≤ 0xf7 → is_byte b1 → is_byte b2 → is_byte b3 →
  scan_codepoints (lead :: b1 :: b2 :: b3 :: r)
  = cont b1 && cont b2 && cont b3
    && codepoint_accepted 4
         ((((lead `mod` 8) * 64 + b1 `mod` 64) * 64 + b2 `mod` 64) * 64 + b3 `mod` 64)
    && scan_codepoints r.
Proof. intros. rewrite <-decode4. unfold cont. step_ranges. done. Qed.

(** Any other shape of input is refused. *)
Lemma scan_shape lead r0 :
  is_byte lead → scan_codepoints (lead :: r0) = true →
  (0 ≤ lead < 0x80)
  ∨ (0xc0 ≤ lead ≤ 0xdf ∧ ∃ b1 r, r0 = b1 :: r)
  ∨ (0xe0 ≤ lead ≤ 0xef ∧ ∃ b1 b2 r, r0 = b1 :: b2 :: r)
  ∨ (0xf0 ≤ lead ≤ 0xf7 ∧ ∃ b1 b2 b3 r, r0 = b1 :: b2 :: b3 :: r).
Proof.
  intros Hb. simpl. destruct (Z.ltb_spec lead 128); [unfold is_byte in *; lia|].
  rewrite lead2_range, lead3_range, lead4_range by done.
  destruct (between 192 223 lead) eqn:E2;
    [apply between_true in E2; destruct r0; [done|]; intros _; right; left; eauto|].
  destruct (between 224 239 lead) eqn:E3.
  { apply between_true in E3. destruct r0 as [|? [|??]]; [done..|].
    intros _. right; right; left. eauto 6. }
  destruct (between 240 247 lead) eqn:E4; [|done].
  apply between_true in E4. destruct r0 as [|? [|? [|??]]]; [done..|].
  intros _. do 3 right. split; [done|]. eauto.
Qed.

(** ** The loop decodes exactly the allowed texts *)

Lemma cont_true b : cont b = true ↔ 0x80 ≤ b ≤ 0xbf.
Proof. apply between_true. Qed.

Lemma scan_codepoints_complete cps :
  Forall allowed_codepoint cps → scan_codepoints (utf8_encode_all cps) = true.
Proof.
  induction 1 as [|cp cps Hcp _ IH]; [done|].
  rewrite utf8_encode_all_cons. pose proof Hcp as (Hr & _).
  assert (∀ w, overlong w cp = false → codepoint_accepted w cp = true) as Hacc.
  { intros w Hw. apply codepoint_accepted_spec; [lia|done]. }
  unfold overlong in Hacc. unfold utf8_encode. repeat case_match; simpl app.
  - rewrite scan1 by lia. by rewrite Hacc, IH by lia.
  - rewrite scan2 by (unfold is_byte; zmod). replace (_ * 64 + _) with cp by zmod.
    rewrite (proj2 (cont_true _)), Hacc, IH by (lia || zmod). done.
  - rewrite scan3 by (unfold is_byte; zmod). replace (_ * 64 + _) with cp by zmod.
    rewrite !(proj2 (cont_true _)), Hacc, IH by (lia || zmod). done.
  - rewrite scan4 by (unfold is_byte; zmod). replace (_ * 64 + _) with cp by zmod.
    rewrite !(proj2 (cont_true _)), Hacc, IH by (lia || zmod). done.
Qed.

(** An accepted sequence is the encoding of its code point. *)
Lemma encode2 lead b1 cp :
  cp = (lead `mod` 32) * 64 + b1 `mod` 64 →
  0xc0 ≤ lead ≤ 0xdf → 0x80 ≤ b1 ≤ 0xbf → overlong 2 cp = false →
  utf8_encode cp = [lead; b1].
Proof.
  intros -> ?? Ho. unfold overlong in Ho. unfold utf8_encode.
  rewrite (proj2 (Z.ltb_ge _ 0x80)), (proj2 (Z.ltb_lt _ 0x800)) by zmod.
  repeat f_equal; zmod.
Qed.
Lemma encode3 lead b1 b2 cp :
  cp = ((lead `mod` 16) * 64 + b1 `mod` 64) * 64 + b2 `mod` 64 →
  0xe0 ≤ lead ≤ 0xef → 0x80 ≤ b1 ≤ 0xbf → 0x80 ≤ b2 ≤ 0xbf → overlong 3 cp = false →
  utf8_encode cp = [lead; b1; b2].
Proof.
  intros -> ??? Ho. unfold overlong in Ho. unfold utf8_encode.
  rewrite (proj2 (Z.ltb_ge _ 0x80)), (proj2 (Z.ltb_ge _ 0x800)),
    (proj2 (Z.ltb_lt _ 0x10000)) by zmod.
  repeat f_equal; zmod.
Qed.
Lemma encode4 lead b1 b2 b3 cp :
  cp = (((lead `mod` 8) * 64 + b1 `mod` 64) * 64 + b2 `mod` 64) * 64 + b3 `mod` 64 →
  0xf0 ≤ lead ≤ 0xf7 → 0x80 ≤ b1 ≤ 0xbf → 0x80 ≤ b2 ≤ 0xbf → 0x80 ≤ b3 ≤ 0xbf →
  overlong 4 cp = false →
  utf8_encode cp = [lead; b1; b2; b3].
Proof.
  intros -> ???? Ho. unfold overlong in Ho. unfold utf8_encode.
  rewrite (proj2 (Z.ltb_ge _ 0x80)), (proj2 (Z.ltb_ge _ 0x800)),
    (proj2 (Z.ltb_ge _ 0x10000)) by zmod.
  repeat f_equal; zmod.
Qed.

(** Splits the conjunction a [scan*] lemma leaves in [H] and decodes it. *)
Ltac scan_split H :=
  repeat match type of H with
    | _ && _ = true => let H1 := fresh "Hb" in apply andb_true_iff in H as [H H1]
    end;
  repeat match goal with
    | Hb : _ && _ = true |- _ => apply andb_true_iff in Hb as [? ?]
    end;
  rewrite ?cont_true in *;
  match goal with
  | Hb : codepoint_accepted _ _ = true |- _ =>
      apply codepoint_accepted_spec in Hb as [? ?]; [|zmod]
  end.

Lemma scan_codepoints_sound l :
  Forall is_byte l → scan_codepoints l = true →
  ∃ cps, l = utf8_encode_all cps ∧ Forall allowed_codepoint cps.
Proof.
  induction l as [l IH] using (induction_ltof1 _ (@length Z)). unfold ltof in IH.
  intros Hl Hs. destruct l as [|lead r0]; [by exists []|].
  inversion Hl as [|?? Hlead Hr0]; subst.
  (* the rest of the name decodes, by the hypothesis of the induction *)
  assert (∀ pre r cp, lead :: r0 = pre ++ r → pre = utf8_encode cp →
    pre ≠ [] → allowed_codepoint cp → scan_codepoints r = true →
    ∃ cps, lead :: r0 = utf8_encode_all cps ∧ Forall allowed_codepoint cps) as Hgo.
  { intros pre r cp Heq Hpre Hne Hcp Hr. rewrite Heq in Hl |- *.
    apply Forall_app in Hl as [_ Hl].
    destruct (IH r) as (cps & -> & Hcps); [|done..|].
    - rewrite Heq, length_app. destruct pre; simpl; [done|lia].
    - exists (cp :: cps). rewrite utf8_encode_all_cons, Hpre. auto. }
  destruct (scan_shape lead r0 Hlead Hs)
    as [?|[[? (b1 & r & ->)]|[[? (b1 & b2 & r & ->)]|[? (b1 & b2 & b3 & r & ->)]]]];
    rewrite ?Forall_cons in Hr0; destruct_and?.
  - rewrite scan1 in Hs by done. scan_split Hs.
    apply (Hgo [lead] r0 lead); try done.
    unfold utf8_encode. by rewrite (proj2 (Z.ltb_lt _ 0x80)) by lia.
  - rewrite scan2 in Hs by done. scan_split Hs.
    eapply (Hgo [lead; b1] r); try done. by rewrite (encode2 lead b1).
  - rewrite scan3 in Hs by done. scan_split Hs.
    eapply (Hgo [lead; b1; b2] r); try done. by rewrite (encode3 lead b1 b2).
  - rewrite scan4 in Hs by done. scan_split Hs.
    eapply (Hgo [lead; b1; b2; b3] r); try done. by rewrite (encode4 lead b1 b2 b3).
Qed.

Lemma scan_codepoints_spec l :
  Forall is_byte l →
  scan_codepoints l = true ↔ ∃ cps, l = utf8_encode_all cps ∧ Forall allowed_codepoint cps.
Proof.
  intros Hl. split; [by apply scan_codepoints_sound|].
  intros (cps & -> & ?). by apply scan_codepoints_complete.
Qed.

Lemma bytes_of_nil name : bytes_of name = [] → name = EmptyString.
Proof. by destruct name. Qed.

Lemma is_safe_cgroup_component_spec name :
  is_safe_cgroup_component name = true ↔ safe_name name.
Proof.
  unfold is_safe_cgroup_component.
  pose proof (scan_codepoints_spec _ (bytes_of_range name)) as Hscan.
  repeat case_decide; try (split; [done|by intros []; naive_solver]).
  destruct (Z.ltb_spec 128 (Z.of_nat (length (bytes_of name)))).
  { split; [done|]. intros []. lia. }
  destruct (head (bytes_of name)) as [hd|] eqn:Hhd, (last (bytes_of name)) as [lt|] eqn:Hlt;
    try (by apply last_None in Hlt; apply bytes_of_nil in Hlt);
    try (by destruct (bytes_of name) eqn:E; [apply bytes_of_nil in E|]).
  simpl. destruct (is_ascii_space hd) eqn:Ehd; [split; [done|intros []; naive_solver]|].
  destruct (is_ascii_space lt) eqn:Elt; [split; [done|intros []; naive_solver]|].
  simpl. rewrite Hscan. split; [|by intros []].
  intros ?. split; try done; try lia; naive_solver.
Qed.

(** ** What a safe name cannot contain *)

Lemma utf8_encode_high cp b :
  0 ≤ cp ≤ 0x10ffff → b ∈ utf8_encode cp → b < 0x80 → b = cp.
Proof.
  intros Hcp Hb Hlow. unfold utf8_encode in Hb.
  repeat case_match; rewrite ?elem_of_cons, elem_of_nil in Hb;
    destruct_or?; subst; try done; exfalso; zmod.
Qed.

(** Every ASCII byte of a safe name is an allowed character. *)
Lemma safe_name_ascii name b :
  safe_name name → b ∈ bytes_of name → b < 0x80 → allowed_codepoint b.
Proof.
  intros [_ _ _ _ _ _ (cps & -> & Hall)] Hb Hlow.
  apply list_elem_of_bind in Hb as (cp & Hb & Hcp).
  rewrite Forall_forall in Hall. specialize (Hall _ Hcp).
  assert (b = cp) as ->; [|done].
  destruct Hall. by apply utf8_encode_high.
Qed.

Lemma safe_name_no_slash name : safe_name name → 0x2f ∉ bytes_of name.
Proof. intros Hs Hin. destruct (safe_name_ascii _ _ Hs Hin); [lia|naive_solver]. Qed.
Lemma safe_name_no_newline name : safe_name name → 0x0a ∉ bytes_of name.
Proof. intros Hs Hin. destruct (safe_name_ascii _ _ Hs Hin); [lia|naive_solver]. Qed.
Lemma safe_name_no_colon name : safe_name name → 0x3a ∉ bytes_of name.
Proof. intros Hs Hin. destruct (safe_name_ascii _ _ Hs Hin); [lia|naive_solver]. Qed.

Lemma safe_name_slash name : safe_name name → "/"%char ∉ chars name.
Proof.
  intros Hs Hin. apply (safe_name_no_slash name Hs). unfold bytes_of.
  apply list_elem_of_fmap. by exists "/"%char.
Qed.
