(* ===== verification/ConfigParser.v ===== *)
(** * The configuration parser ([config/config_parser.hpp])

    [ConfigParser::parse] and its helpers, over any [Json] instance.  The
    parser never fails on a well-formed JSON object: every field that is
    absent, of the wrong type or out of range falls back to its default, and
    references to unknown classes are neutralised.  [wf_sched] says what a
    successfully parsed configuration satisfies. *)

From S2P Require Import Prelude CppString ConfigTypes Json CgroupName.

(** [std::unique]: drops the elements equal to their predecessor. *)
Fixpoint unique_from (prev : Z) (l : list Z) : list Z :=
  match l with
  | [] => []
  | x :: l' => if x =? prev then unique_from prev l' else x :: unique_from x l'
  end.
Definition unique (l : list Z) : list Z :=
  match l with [] => [] | x :: l' => x :: unique_from x l' end.

(** [is_valid_prio_value]. *)
Definition is_valid_prio_value (value : Z) : bool :=
  (value =? 0) || ((1 <=? value) && (value <=? 98))
  || ((100 <=? value) && (value <=? 139))
  || (value =? -1) || (value =? -2) || (value =? -3).

Section Parser.
Context {J : Type} `{!Json J}.

Definition string_or (j : J) (key : string) (dflt : string) : string :=
  match find_if is_string j key with Some v => get_string v | None => dflt end.
Definition bool_or (j : J) (key : string) (dflt : bool) : bool :=
  match find_if is_boolean j key with Some v => get_bool v | None => dflt end.
Definition int_or (j : J) (key : string) (dflt : Z) : Z :=
  match find_if is_number_integer j key with Some v => get_int v | None => dflt end.

(** [parse_meta]: the name and author, from their previous values. *)
Definition parse_meta (j : J) (cfg : Config) : Config :=
  match json_find j "meta" with
  | None => cfg
  | Some meta =>
      if negb (is_object meta) then cfg
      else {| cfg_meta_name := string_or meta "name" (cfg_meta_name cfg);
              cfg_meta_author := string_or meta "author" (cfg_meta_author cfg);
              cfg_sched := cfg_sched cfg;
              cfg_launcher_package := cfg_launcher_package cfg |}
  end.

(** The [parse_bounded_int] lambda of [parse_sched]. *)
Definition parse_bounded_int (sched : J) (name : string)
    (default_value min_value max_value : Z) : Z :=
  let value := int_or sched name default_value in
  if (value <? min_value) || (max_value <? value) then default_value else value.

(** [refresh_interval_ms] and [highspeed_sched_ms]. *)
Definition parse_refresh_interval (sched : J) : Z :=
  let refresh_interval := int_or sched "refresh_interval_ms" 2000 in
  if (refresh_interval <=? 0) || (600000 <? refresh_interval) then 2000
  else refresh_interval.

Definition parse_highspeed (sched : J) : Z :=
  let highspeed := int_or sched "highspeed_sched_ms" 300 in
  if (highspeed <=? 0) || (60000 <? highspeed) then 300 else highspeed.

(** The [parse] lambda of [parse_timing]. *)
Definition parse_timing_value (values : J) (name : string)
    (current min_value max_value : Z) : Z :=
  let value := int_or values name current in
  if (value <? min_value) || (max_value <? value) then current else value.

Definition parse_timing (sched : J) (timing : TimingConfig) : TimingConfig :=
  match json_find sched "timing" with
  | None => timing
  | Some values =>
      if negb (is_object values) then timing
      else
        let parse := parse_timing_value values in
        let initial := parse "config_retry_initial_delay_s" 1 1 60 in
        let max := parse "config_retry_max_delay_s" 5 1 300 in
        {| event_throttle_ms := parse "event_throttle_ms" 50 0 5000;
           min_schedule_interval_ms := parse "min_schedule_interval_ms" 200 0 60000;
           schedule_cleanup_interval_ms :=
             parse "schedule_cleanup_interval_ms" 5000 100 600000;
           cgroup_check_interval_ms := parse "cgroup_check_interval_ms" 1000 0 60000;
           cpuset_retry_count := parse "cpuset_retry_count" 3 1 20;
           cpuset_retry_interval_ms := parse "cpuset_retry_interval_ms" 10 0 1000;
           cpuset_group_check_ttl_ms := parse "cpuset_group_check_ttl_ms" 1000 0 60000;
           process_cache_ttl_ms := parse "process_cache_ttl_ms" 100 0 60000;
           file_cache_ttl_ms := parse "file_cache_ttl_ms" 100 0 60000;
           cgroup_cache_ttl_ms := parse "cgroup_cache_ttl_ms" 100 0 60000;
           monitor_initial_restart_delay_s :=
             parse "monitor_initial_restart_delay_s" 1 0 60;
           monitor_restart_retry_delay_s := parse "monitor_restart_retry_delay_s" 5 1 300;
           config_retry_initial_delay_s := initial;
           config_retry_max_delay_s := if max <? initial then initial else max |}
  end.

(** [log.level] and [log.output]. *)
Definition parse_log (sched : J) (log : LogConfig) : LogConfig :=
  match json_find sched "log" with
  | None => log
  | Some l =>
      if negb (is_object l) then log
      else {| log_level := string_or l "level" (log_level log);
              log_output := string_or l "output" (log_output log) |}
  end.

(** One element of a cpumask array: the CPU numbers collected so far. *)
Definition collect_cpu (cpus : list Z) (cpu : J) : list Z :=
  if negb (is_number_integer cpu) then cpus
  else
    let value := get_int cpu in
    if (value <? 0) || (CPU_SETSIZE <=? value) then cpus else cpus ++ [value].

Definition parse_cpumask_entry (masks : gmap string (list Z)) (it : string * J)
    : gmap string (list Z) :=
  let '(name, value) := it in
  if negb (is_safe_cgroup_component name) then masks
  else if negb (is_array value) then masks
  else
    let cpus := unique (sort_ints (fold_left collect_cpu (array_elems value) [])) in
    match cpus with
    | [] => masks
    | _ => <[name := cpus]> masks
    end.

Definition parse_cpumask (sched : J) (masks : gmap string (list Z))
    : gmap string (list Z) :=
  match json_find sched "cpumask" with
  | None => masks
  | Some m =>
      if negb (is_object m) then masks
      else fold_left parse_cpumask_entry (object_items m) masks
  end.

Definition parse_affinity_entry (affinity : gmap string AffinityScene) (it : string * J)
    : gmap string AffinityScene :=
  let '(name, val) := it in
  if negb (is_object val) then affinity
  else
    let scene := default_affinity_scene in
    let top :=
      match find_if is_string val "touch" with
      | Some v => get_string v
      | None => string_or val "top" (as_top scene)
      end in
    <[name := {| as_bg := string_or val "bg" (as_bg scene);
                 as_fg := string_or val "fg" (as_fg scene);
                 as_top := top |}]> affinity.

Definition parse_affinity (sched : J) (affinity : gmap string AffinityScene)
    : gmap string AffinityScene :=
  match json_find sched "affinity" with
  | None => affinity
  | Some m =>
      if negb (is_object m) then affinity
      else fold_left parse_affinity_entry (object_items m) affinity
  end.

Definition parse_prio_value (val : J) (state_name : string) (default_value : Z) : Z :=
  match find_if is_number_integer val state_name with
  | None => default_value
  | Some v =>
      let value := get_int v in
      if is_valid_prio_value value then value else default_value
  end.

Definition parse_prio_entry (prio : gmap string PrioScene) (it : string * J)
    : gmap string PrioScene :=
  let '(name, val) := it in
  if negb (is_object val) then prio
  else
    let scene := default_prio_scene in
    <[name := {| ps_bg := parse_prio_value val "bg" (ps_bg scene);
                 ps_fg := parse_prio_value val "fg" (ps_fg scene);
                 ps_top :=
                   match json_find val "touch" with
                   | Some _ => parse_prio_value val "touch" (ps_top scene)
                   | None => parse_prio_value val "top" (ps_top scene)
                   end |}]> prio.

Definition parse_prio (sched : J) (prio : gmap string PrioScene) : gmap string PrioScene :=
  match json_find sched "prio" with
  | None => prio
  | Some m =>
      if negb (is_object m) then prio
      else fold_left parse_prio_entry (object_items m) prio
  end.

(** One thread rule: [uclamp_max] and [cpu_share] are kept in range only. *)
Definition ranged_int (tr : J) (key : string) (max : Z) : option Z :=
  v ← find_if is_number_integer tr key;
  let value := get_int v in
  if (0 <=? value) && (value <=? max) then Some value else None.

Definition parse_thread_rule (tr : J) : ThreadRule := {|
  tr_keyword := string_or tr "k" ".";
  tr_affinity_class := string_or tr "ac" "auto";
  tr_prio_class := string_or tr "pc" "auto";
  tr_uclamp_max := ranged_int tr "uclamp_max" 100;
  tr_cpu_share := ranged_int tr "cpu_share" 1024;
  tr_enable_limit := bool_or tr "enable_limit" false |}.

Definition parse_thread_rules (rule : J) : list ThreadRule :=
  match json_find rule "rules" with
  | None => []
  | Some trs =>
      if negb (is_array trs) then []
      else parse_thread_rule <$> filter (λ tr, is_object tr = true) (array_elems trs)
  end.

(** One iteration of the rule loop: the names seen and the rules kept. *)
Definition parse_rule_step (acc : gset string * list ProcessRule) (rule : J)
    : gset string * list ProcessRule :=
  let '(rule_names, rules) := acc in
  if negb (is_object rule) then acc
  else
    let name := string_or rule "name" EmptyString in
    if negb (is_safe_cgroup_component name) then acc
    else if decide (name ∈ rule_names) then acc
    else
      let rule_names := {[name]} ∪ rule_names in
      match find_if is_string rule "regex" with
      | None => (rule_names, rules)
      | Some r =>
          let regex_str := get_string r in
          if decide (regex_str = EmptyString) then (rule_names, rules)
          else
            (rule_names,
             rules ++ [{| pr_name := name;
                          pr_regex_str := regex_str;
                          pr_pinned := bool_or rule "pinned" false;
                          pr_topfore := bool_or rule "topfore" false;
                          pr_thread_rules := parse_thread_rules rule |}])
      end.

Definition parse_rules (sched : J) (rules : list ProcessRule) : list ProcessRule :=
  match json_find sched "rules" with
  | None => rules
  | Some rs =>
      if negb (is_array rs) then rules
      else (fold_left parse_rule_step (array_elems rs) (∅, rules)).2
  end.

Definition validate_affinity_mask (masks : gmap string (list Z)) (mask_name : string)
    : string :=
  if decide (mask_name ≠ EmptyString ∧ masks !! mask_name = None)
  then EmptyString else mask_name.

Definition validate_scene (masks : gmap string (list Z)) (s : AffinityScene)
    : AffinityScene :=
  {| as_bg := validate_affinity_mask masks (as_bg s);
     as_fg := validate_affinity_mask masks (as_fg s);
     as_top := validate_affinity_mask masks (as_top s) |}.

(** A class reference of a thread rule: unknown classes become [auto]. *)
Definition validate_class {A} (classes : gmap string A) (cls : string) : string :=
  if decide (cls ≠ EmptyString ∧ cls ≠ "auto" ∧ classes !! cls = None)
  then "auto" else cls.

Definition validate_thread_rule (cfg : SchedConfig) (t : ThreadRule) : ThreadRule := {|
  tr_keyword := tr_keyword t;
  tr_affinity_class := validate_class (sc_affinity cfg) (tr_affinity_class t);
  tr_prio_class := validate_class (sc_prio cfg) (tr_prio_class t);
  tr_uclamp_max := tr_uclamp_max t;
  tr_cpu_share := tr_cpu_share t;
  tr_enable_limit := tr_enable_limit t |}.

Definition validate_rule (cfg : SchedConfig) (r : ProcessRule) : ProcessRule := {|
  pr_name := pr_name r;
  pr_regex_str := pr_regex_str r;
  pr_pinned := pr_pinned r;
  pr_topfore := pr_topfore r;
  pr_thread_rules := validate_thread_rule cfg <$> pr_thread_rules r |}.

Definition validate_references (cfg : SchedConfig) : SchedConfig := {|
  sc_enable := sc_enable cfg;
  sc_refresh_interval_ms := sc_refresh_interval_ms cfg;
  sc_highspeed_sched_ms := sc_highspeed_sched_ms cfg;
  sc_top_scan_budget_us := sc_top_scan_budget_us cfg;
  sc_full_scan_budget_us := sc_full_scan_budget_us cfg;
  sc_scan_batch_size := sc_scan_batch_size cfg;
  sc_scan_batch_yield_us := sc_scan_batch_yield_us cfg;
  sc_case_insensitive := sc_case_insensitive cfg;
  sc_timing := sc_timing cfg;
  sc_log := sc_log cfg;
  sc_cpumask := sc_cpumask cfg;
  sc_affinity := validate_scene (sc_cpumask cfg) <$> sc_affinity cfg;
  sc_prio := sc_prio cfg;
  sc_rules := validate_rule cfg <$> sc_rules cfg |}.

(** The body of [parse_sched] once the [sched] object is found. *)
Definition parse_sched_object (sched : J) (cfg : SchedConfig) : SchedConfig :=
  validate_references {|
    sc_enable := bool_or sched "enable" (sc_enable cfg);
    sc_refresh_interval_ms := parse_refresh_interval sched;
    sc_highspeed_sched_ms := parse_highspeed sched;
    sc_top_scan_budget_us := parse_bounded_int sched "top_scan_budget_us" 4000 500 20000;
    sc_full_scan_budget_us :=
      parse_bounded_int sched "full_scan_budget_us" 12000 1000 50000;
    sc_scan_batch_size := parse_bounded_int sched "scan_batch_size" 32 1 256;
    sc_scan_batch_yield_us := parse_bounded_int sched "scan_batch_yield_us" 0 0 1000;
    sc_case_insensitive := bool_or sched "case_insensitive" (sc_case_insensitive cfg);
    sc_timing := parse_timing sched (sc_timing cfg);
    sc_log := parse_log sched (sc_log cfg);
    sc_cpumask := parse_cpumask sched (sc_cpumask cfg);
    sc_affinity := parse_affinity sched (sc_affinity cfg);
    sc_prio := parse_prio sched (sc_prio cfg);
    sc_rules := parse_rules sched (sc_rules cfg) |}.

Definition set_enable (cfg : SchedConfig) (b : bool) : SchedConfig := {|
  sc_enable := b;
  sc_refresh_interval_ms := sc_refresh_interval_ms cfg;
  sc_highspeed_sched_ms := sc_highspeed_sched_ms cfg;
  sc_top_scan_budget_us := sc_top_scan_budget_us cfg;
  sc_full_scan_budget_us := sc_full_scan_budget_us cfg;
  sc_scan_batch_size := sc_scan_batch_size cfg;
  sc_scan_batch_yield_us := sc_scan_batch_yield_us cfg;
  sc_case_insensitive := sc_case_insensitive cfg;
  sc_timing := sc_timing cfg;
  sc_log := sc_log cfg;
  sc_cpumask := sc_cpumask cfg;
  sc_affinity := sc_affinity cfg;
  sc_prio := sc_prio cfg;
  sc_rules := sc_rules cfg |}.

Definition set_sched (cfg : Config) (s : SchedConfig) : Config := {|
  cfg_meta_name := cfg_meta_name cfg;
  cfg_meta_author := cfg_meta_author cfg;
  cfg_sched := s;
  cfg_launcher_package := cfg_launcher_package cfg |}.

Definition parse_sched (j : J) (cfg : Config) : Config :=
  match find_if is_object j "modules" with
  | None => set_sched cfg (set_enable (cfg_sched cfg) false)
  | Some modules =>
      match find_if is_object modules "sched" with
      | None => set_sched cfg (set_enable (cfg_sched cfg) false)
      | Some sched => set_sched cfg (parse_sched_object sched (cfg_sched cfg))
      end
  end.

Record ConfigParseResult := { cpr_success : bool; cpr_config : Config }.

(** [parse]: [file] is the text of the file ([None] when it does not open)
    and [json_parse] the library's parser ([None] when it throws). *)
Definition parse (json_parse : string → option J) (file : option string)
    : ConfigParseResult :=
  match file with
  | None => {| cpr_success := false; cpr_config := default_config |}
  | Some text =>
      match json_parse text with
      | None => {| cpr_success := false; cpr_config := default_config |}
      | Some j =>
          if negb (is_object j)
          then {| cpr_success := false; cpr_config := default_config |}
          else {| cpr_success := true;
                  cpr_config := parse_sched j (parse_meta j default_config) |}
      end
  end.
End Parser.

(** ** Sorting and removing duplicates *)

Lemma unique_from_spec prev l :
  StronglySorted Z.le (prev :: l) →
  StronglySorted Z.lt (prev :: unique_from prev l)
  ∧ ∀ x, x ∈ prev :: unique_from prev l ↔ x ∈ prev :: l.
Proof.
  revert prev. induction l as [|y l IH]; intros prev Hs; simpl.
  { split; [by repeat constructor|done]. }
  apply StronglySorted_inv in Hs as [Hs Hle].
  rewrite Forall_cons in Hle. destruct Hle as [Hy Hle].
  destruct (Z.eqb_spec y prev) as [->|Hne].
  - destruct (IH prev) as [IH1 IH2]; [by constructor; apply StronglySorted_inv in Hs as []|].
    split; [done|]. intros x. specialize (IH2 x). rewrite !elem_of_cons in *. tauto.
  - destruct (IH y Hs) as [IH1 IH2]. split.
    + constructor; [done|]. apply Forall_forall. intros x Hx.
      apply IH2 in Hx. apply StronglySorted_inv in Hs as [_ Hs].
      rewrite Forall_forall in Hs. apply elem_of_cons in Hx as [->|Hx]; [lia|].
      specialize (Hs _ Hx). lia.
    + intros x. rewrite !(elem_of_cons _ x prev), (IH2 x). done.
Qed.

#[local] Instance Zle_total : Total Z.le.
Proof. intros x y. lia. Qed.

(** The set of values is kept and the result is strictly increasing. *)
Lemma unique_sorted l :
  StronglySorted Z.lt (unique (sort_ints l)) ∧ ∀ x, x ∈ unique (sort_ints l) ↔ x ∈ l.
Proof.
  pose proof (sort_ints_sorted l) as Hs. pose proof (sort_ints_elem l) as He.
  destruct (sort_ints l) as [|y k]; simpl.
  - split; [constructor|]. intros x. by rewrite <-He.
  - destruct (unique_from_spec y k Hs) as [H1 H2]. split; [done|].
    intros x. by rewrite H2, He.
Qed.

(** A strictly increasing list is left alone. *)
Lemma unique_from_id prev l : StronglySorted Z.lt (prev :: l) → unique_from prev l = l.
Proof.
  revert prev. induction l as [|y l IH]; intros prev Hs; simpl; [done|].
  apply StronglySorted_inv in Hs as [Hs Hlt]. rewrite Forall_cons in Hlt.
  destruct (Z.eqb_spec y prev); [lia|]. by rewrite IH.
Qed.
Lemma unique_sort_id l : StronglySorted Z.lt l → unique (sort_ints l) = l.
Proof.
  intros Hs. assert (sort_ints l = l) as ->.
  { apply (StronglySorted_unique Z.le).
    - apply sort_ints_sorted.
    - by apply StronglySorted_lt_le.
    - apply merge_sort_Permutation. }
  destruct l; simpl; [done|]. by rewrite unique_from_id.
Qed.

(** ** Well-formed configurations

    What the rest of the program relies on: every number in its documented
    range, every reference resolved, and names that are safe as directory
    names and unique among the rules. *)

Definition ranged (lo hi z : Z) : Prop := lo ≤ z ≤ hi.

Record wf_timing (t : TimingConfig) : Prop := {
  wf_event_throttle : ranged 0 5000 (event_throttle_ms t);
  wf_min_schedule : ranged 0 60000 (min_schedule_interval_ms t);
  wf_cleanup : ranged 100 600000 (schedule_cleanup_interval_ms t);
  wf_cgroup_check : ranged 0 60000 (cgroup_check_interval_ms t);
  wf_retry_count : ranged 1 20 (cpuset_retry_count t);
  wf_retry_interval : ranged 0 1000 (cpuset_retry_interval_ms t);
  wf_group_ttl : ranged 0 60000 (cpuset_group_check_ttl_ms t);
  wf_process_ttl : ranged 0 60000 (process_cache_ttl_ms t);
  wf_file_ttl : ranged 0 60000 (file_cache_ttl_ms t);
  wf_cgroup_ttl : ranged 0 60000 (cgroup_cache_ttl_ms t);
  wf_monitor_initial : ranged 0 60 (monitor_initial_restart_delay_s t);
  wf_monitor_retry : ranged 1 300 (monitor_restart_retry_delay_s t);
  wf_retry_initial : ranged 1 60 (config_retry_initial_delay_s t);
  wf_retry_max : ranged (config_retry_initial_delay_s t) 300 (config_retry_max_delay_s t) }.

Record wf_cpumask (name : string) (cpus : list Z) : Prop := {
  wf_mask_name : safe_name name;
  wf_mask_nonempty : cpus ≠ [];
  wf_mask_sorted : StronglySorted Z.lt cpus;
  wf_mask_range : Forall (λ c, 0 ≤ c < CPU_SETSIZE) cpus }.

(** A mask reference is empty (the state is skipped) or names a cpumask. *)
Definition mask_ref_ok (masks : gmap string (list Z)) (name : string) : Prop :=
  name = EmptyString ∨ is_Some (masks !! name).

Definition wf_scene (masks : gmap string (list Z)) (s : AffinityScene) : Prop :=
  ∀ st, mask_ref_ok masks (scene_mask s st).

Definition wf_prio_scene (s : PrioScene) : Prop :=
  ∀ st, is_valid_prio_value (scene_prio s st) = true.

Definition class_ref_ok {A} (classes : gmap string A) (cls : string) : Prop :=
  cls = EmptyString ∨ cls = "auto" ∨ is_Some (classes !! cls).

Record wf_thread_rule (cfg : SchedConfig) (t : ThreadRule) : Prop := {
  wf_tr_affinity : class_ref_ok (sc_affinity cfg) (tr_affinity_class t);
  wf_tr_prio : class_ref_ok (sc_prio cfg) (tr_prio_class t);
  wf_tr_uclamp : ∀ v, tr_uclamp_max t = Some v → ranged 0 100 v;
  wf_tr_share : ∀ v, tr_cpu_share t = Some v → ranged 0 1024 v }.

Record wf_rule (cfg : SchedConfig) (r : ProcessRule) : Prop := {
  wf_rule_name : safe_name (pr_name r);
  wf_rule_regex : pr_regex_str r ≠ EmptyString;
  wf_rule_threads : Forall (wf_thread_rule cfg) (pr_thread_rules r) }.

Record wf_sched (c : SchedConfig) : Prop := {
  wf_refresh : ranged 1 600000 (sc_refresh_interval_ms c);
  wf_highspeed : ranged 1 60000 (sc_highspeed_sched_ms c);
  wf_top_budget : ranged 500 20000 (sc_top_scan_budget_us c);
  wf_full_budget : ranged 1000 50000 (sc_full_scan_budget_us c);
  wf_batch_size : ranged 1 256 (sc_scan_batch_size c);
  wf_batch_yield : ranged 0 1000 (sc_scan_batch_yield_us c);
  wf_timing_config : wf_timing (sc_timing c);
  wf_masks : map_Forall wf_cpumask (sc_cpumask c);
  wf_affinity : map_Forall (λ _, wf_scene (sc_cpumask c)) (sc_affinity c);
  wf_prio : map_Forall (λ _, wf_prio_scene) (sc_prio c);
  wf_rules : Forall (wf_rule c) (sc_rules c);
  wf_rule_names : NoDup (pr_name <$> sc_rules c) }.

(** ** The parser establishes well-formedness *)

Lemma clamp_ranged (lo hi d z : Z) :
  lo ≤ d ≤ hi → ranged lo hi (if (z <? lo) || (hi <? z) then d else z).
Proof. unfold ranged. intros. destruct (Z.ltb_spec z lo), (Z.ltb_spec hi z); simpl; lia. Qed.

Section ParserWf.
Context {J : Type} `{!Json J}.

Lemma parse_bounded_int_ranged (s : J) name d lo hi :
  lo ≤ d ≤ hi → ranged lo hi (parse_bounded_int s name d lo hi).
Proof. apply clamp_ranged. Qed.
Lemma parse_timing_value_ranged (s : J) name d lo hi :
  lo ≤ d ≤ hi → ranged lo hi (parse_timing_value s name d lo hi).
Proof. apply clamp_ranged. Qed.

Lemma parse_timing_wf (s : J) t : wf_timing t → wf_timing (parse_timing s t).
Proof.
  intros Hwf. unfold parse_timing. destruct (json_find s "timing") as [v|]; [|done].
  destruct (is_object v); simpl; [|done].
  split; simpl; try (apply parse_timing_value_ranged; lia).
  pose proof (parse_timing_value_ranged v "config_retry_initial_delay_s" 1 1 60).
  pose proof (parse_timing_value_ranged v "config_retry_max_delay_s" 5 1 300).
  unfold ranged in *. case_match; lia.
Qed.

Lemma collect_cpu_range (l : list J) acc :
  Forall (λ c, 0 ≤ c < CPU_SETSIZE) acc →
  Forall (λ c, 0 ≤ c < CPU_SETSIZE) (fold_left collect_cpu l acc).
Proof.
  apply fold_left_inv. intros cpus j Hc. unfold collect_cpu.
  destruct (is_number_integer j); simpl; [|done].
  destruct (Z.ltb_spec (get_int j) 0), (Z.leb_spec CPU_SETSIZE (get_int j));
    simpl; try done.
  apply Forall_app. auto.
Qed.

Lemma parse_cpumask_wf (s : J) masks :
  map_Forall wf_cpumask masks → map_Forall wf_cpumask (parse_cpumask s masks).
Proof.
  intros Hm. unfold parse_cpumask. destruct (json_find s "cpumask") as [m|]; [|done].
  destruct (is_object m); simpl; [|done].
  apply fold_left_inv; [|done]. clear. intros masks [name v] Hm. simpl.
  destruct (is_safe_cgroup_component name) eqn:Hsafe; simpl; [|done].
  destruct (is_array v); simpl; [|done].
  set (l := fold_left collect_cpu (array_elems v) []).
  destruct (unique_sorted l) as [Hsort Helem].
  destruct (unique (sort_ints l)) as [|x k] eqn:Hu; [done|].
  apply map_Forall_insert_2; [|done].
  split; [by apply is_safe_cgroup_component_spec|done|done|].
  rewrite Forall_forall. intros c Hc%Helem. revert c Hc. rewrite <-Forall_forall.
  by apply collect_cpu_range.
Qed.

Lemma parse_prio_value_valid (v : J) k d :
  is_valid_prio_value d = true → is_valid_prio_value (parse_prio_value v k d) = true.
Proof.
  intros. unfold parse_prio_value. destruct (find_if _ _ _); [|done].
  by destruct (is_valid_prio_value (get_int _)) eqn:?.
Qed.

Lemma parse_prio_wf (s : J) prio :
  map_Forall (λ _, wf_prio_scene) prio →
  map_Forall (λ _, wf_prio_scene) (parse_prio s prio).
Proof.
  intros Hm. unfold parse_prio. destruct (json_find s "prio") as [m|]; [|done].
  destruct (is_object m); simpl; [|done].
  apply fold_left_inv; [|done]. clear. intros prio [name v] Hm. simpl.
  destruct (is_object v); simpl; [|done].
  apply map_Forall_insert_2; [|done].
  intros []; simpl; try destruct (json_find v "touch"); by apply parse_prio_value_valid.
Qed.

(** The rule loop keeps safe, distinct names, all of them recorded as seen. *)
Definition rules_inv (acc : gset string * list ProcessRule) : Prop :=
  NoDup (pr_name <$> acc.2)
  ∧ (∀ r, r ∈ acc.2 → pr_name r ∈ acc.1)
  ∧ Forall (λ r, safe_name (pr_name r) ∧ pr_regex_str r ≠ EmptyString
      ∧ Forall (λ t, (∀ v, tr_uclamp_max t = Some v → ranged 0 100 v)
                   ∧ (∀ v, tr_cpu_share t = Some v → ranged 0 1024 v)) (pr_thread_rules r))
      acc.2.

Lemma ranged_int_spec (tr : J) key max v :
  ranged_int tr key max = Some v → ranged 0 max v.
Proof.
  unfold ranged_int. intros (x & _ & H)%bind_Some. revert H. case_match; [|done].
  intros [= <-]. unfold ranged. lia.
Qed.

Lemma parse_rule_step_inv acc (rule : J) : rules_inv acc → rules_inv (parse_rule_step acc rule).
Proof.
  destruct acc as [names rules]. intros (Hnd & Hin & Hall). unfold parse_rule_step.
  destruct (is_object rule); simpl; [|done].
  destruct (is_safe_cgroup_component _) eqn:Hsafe; simpl; [|done].
  case_decide as Hseen; [done|].
  assert (∀ r, r ∈ rules → pr_name r ∈ {[string_or rule "name" EmptyString]} ∪ names) as Hin'
    by (intros r Hr; apply Hin in Hr; simpl in Hr; set_solver).
  destruct (find_if is_string rule "regex") as [rx|]; [|done].
  case_decide; [done|]. split; [|split]; simpl.
  - rewrite fmap_app. apply NoDup_app. split; [done|]. split; [|apply NoDup_singleton].
    intros n (r & -> & Hr)%list_elem_of_fmap. simpl.
    intros Hn%list_elem_of_singleton. apply Hin in Hr. simpl in Hr. congruence.
  - intros r [Hr|Hr%list_elem_of_singleton]%elem_of_app; [auto|subst; simpl; set_solver].
  - apply Forall_app. split; [done|]. constructor; [|done]. simpl.
    split; [by apply is_safe_cgroup_component_spec|]. split; [done|].
    unfold parse_thread_rules. destruct (json_find rule "rules") as [trs|]; [|done].
    destruct (is_array trs); simpl; [|done].
    apply Forall_fmap, Forall_true. intros t. simpl. split; intros v; apply ranged_int_spec.
Qed.

Lemma parse_rules_inv (s : J) : ∃ names, rules_inv (names, parse_rules s []).
Proof.
  assert (rules_inv (∅, [])) as H0.
  { split; [constructor|]. split; [by intros r ?%elem_of_nil|constructor]. }
  unfold parse_rules. destruct (json_find s "rules") as [rs|]; [|by exists ∅].
  destruct (is_array rs); simpl; [|by exists ∅].
  destruct (fold_left _ _ _) as [names rules] eqn:E. exists names.
  simpl. rewrite <-E. by apply (fold_left_inv rules_inv); [apply parse_rule_step_inv|].
Qed.

Lemma validate_affinity_mask_ok masks n : mask_ref_ok masks (validate_affinity_mask masks n).
Proof.
  unfold validate_affinity_mask, mask_ref_ok. case_decide as H; [by left|].
  destruct (decide (n = EmptyString)); [by left|right].
  destruct (masks !! n) eqn:E; [by eexists|]. exfalso. by apply H.
Qed.

Lemma validate_class_ok {A} (classes : gmap string A) c :
  class_ref_ok classes (validate_class classes c).
Proof.
  unfold validate_class, class_ref_ok. case_decide as H; [by right; left|].
  destruct (decide (c = EmptyString)); [by left|].
  destruct (decide (c = "auto")); [by right; left|]. right; right.
  destruct (classes !! c) eqn:E; [by eexists|]. exfalso. by apply H.
Qed.

Lemma class_ref_ok_fmap {A B} (f : A → B) (classes : gmap string A) c :
  class_ref_ok classes c → class_ref_ok (f <$> classes) c.
Proof.
  intros [?|[?|[x Hx]]]; [by left|by right; left|right; right].
  exists (f x). by rewrite lookup_fmap, Hx.
Qed.

Lemma parse_interval_ranged (z d hi : Z) :
  1 ≤ d ≤ hi → ranged 1 hi (if (z <=? 0) || (hi <? z) then d else z).
Proof. unfold ranged. intros. destruct (Z.leb_spec z 0), (Z.ltb_spec hi z); simpl; lia. Qed.

Lemma parse_sched_object_wf (s : J) (c : SchedConfig) :
  wf_sched c → sc_rules c = [] → wf_sched (parse_sched_object s c).
Proof.
  intros Hwf Hrules. unfold parse_sched_object. rewrite Hrules.
  destruct (parse_rules_inv s) as (names & Hnd & _ & Hall). simpl in Hnd, Hall.
  split; simpl; try (apply parse_bounded_int_ranged || apply parse_interval_ranged; lia).
  - apply parse_timing_wf, Hwf.
  - apply parse_cpumask_wf, Hwf.
  - apply map_Forall_fmap. intros n sc _ []; simpl; apply validate_affinity_mask_ok.
  - apply parse_prio_wf, Hwf.
  - apply Forall_fmap. eapply Forall_impl; [exact Hall|].
    intros r (Hn & Hr & Ht). split; simpl; [done..|].
    apply Forall_fmap. eapply Forall_impl; [exact Ht|]. intros t (Hu & Hc).
    split; simpl; [|apply validate_class_ok|done..].
    apply class_ref_ok_fmap, validate_class_ok.
  - by rewrite <-list_fmap_compose.
Qed.

Lemma set_enable_default_wf b : wf_sched (set_enable default_sched b).
Proof.
  split; simpl; try (unfold ranged; lia); try (apply map_Forall_empty); try constructor;
    unfold ranged; simpl; lia.
Qed.
Lemma default_sched_wf : wf_sched default_sched.
Proof. exact (set_enable_default_wf true). Qed.

Lemma parse_meta_sched (j : J) c : cfg_sched (parse_meta j c) = cfg_sched c.
Proof. unfold parse_meta. by repeat case_match. Qed.

(** Every configuration the parser hands out is well formed, also the
    defaults that accompany a failure. *)
Lemma parse_wf json_parse file : wf_sched (cfg_sched (cpr_config (parse (J:=J) json_parse file))).
Proof.
  unfold parse. destruct file as [text|]; [|apply default_sched_wf].
  destruct (json_parse text) as [j|]; [|apply default_sched_wf].
  destruct (is_object j); simpl; [|apply default_sched_wf].
  unfold parse_sched. rewrite parse_meta_sched.
  destruct (find_if is_object j "modules") as [m|];
    [|apply set_enable_default_wf].
  destruct (find_if is_object m "sched") as [sc|];
    [|apply set_enable_default_wf].
  simpl. by apply parse_sched_object_wf; [apply default_sched_wf|].
Qed.
End ParserWf.
