(* ===== verification/ConfigRoundtrip.v ===== *)
(** * Rendering a configuration and reading it back

    [render_config] writes a configuration as the JSON document of
    [config.md].  Parsing it returns the same configuration, for every
    configuration that is well formed: the parser rejects or alters nothing
    that the documentation allows. *)

From S2P Require Import Prelude CppString ConfigTypes Json CgroupName ConfigParser.

Definition opt_int (o : option Z) : JsonValue :=
  match o with Some v => JInt v | None => JNull end.

Definition render_thread_rule (t : ThreadRule) : JsonValue := JObject
  [("k", JString (tr_keyword t)); ("ac", JString (tr_affinity_class t));
   ("pc", JString (tr_prio_class t)); ("uclamp_max", opt_int (tr_uclamp_max t));
   ("cpu_share", opt_int (tr_cpu_share t)); ("enable_limit", JBool (tr_enable_limit t))].

Definition render_rule (r : ProcessRule) : JsonValue := JObject
  [("name", JString (pr_name r)); ("regex", JString (pr_regex_str r));
   ("pinned", JBool (pr_pinned r)); ("topfore", JBool (pr_topfore r));
   ("rules", JArray (render_thread_rule <$> pr_thread_rules r))].

Definition render_map {A} (f : A → JsonValue) (m : gmap string A) : JsonValue :=
  JObject (prod_map id f <$> map_to_list m).

Definition render_scene (s : AffinityScene) : JsonValue := JObject
  [("bg", JString (as_bg s)); ("fg", JString (as_fg s)); ("top", JString (as_top s))].
Definition render_prio (s : PrioScene) : JsonValue := JObject
  [("bg", JInt (ps_bg s)); ("fg", JInt (ps_fg s)); ("top", JInt (ps_top s))].
Definition render_cpus (cpus : list Z) : JsonValue := JArray (JInt <$> cpus).

Definition render_timing (t : TimingConfig) : JsonValue := JObject
  [("event_throttle_ms", JInt (event_throttle_ms t));
   ("min_schedule_interval_ms", JInt (min_schedule_interval_ms t));
   ("schedule_cleanup_interval_ms", JInt (schedule_cleanup_interval_ms t));
   ("cgroup_check_interval_ms", JInt (cgroup_check_interval_ms t));
   ("cpuset_retry_count", JInt (cpuset_retry_count t));
   ("cpuset_retry_interval_ms", JInt (cpuset_retry_interval_ms t));
   ("cpuset_group_check_ttl_ms", JInt (cpuset_group_check_ttl_ms t));
   ("process_cache_ttl_ms", JInt (process_cache_ttl_ms t));
   ("file_cache_ttl_ms", JInt (file_cache_ttl_ms t));
   ("cgroup_cache_ttl_ms", JInt (cgroup_cache_ttl_ms t));
   ("monitor_initial_restart_delay_s", JInt (monitor_initial_restart_delay_s t));
   ("monitor_restart_retry_delay_s", JInt (monitor_restart_retry_delay_s t));
   ("config_retry_initial_delay_s", JInt (config_retry_initial_delay_s t));
   ("config_retry_max_delay_s", JInt (config_retry_max_delay_s t))].

Definition render_sched (c : SchedConfig) : JsonValue := JObject
  [("enable", JBool (sc_enable c)); ("case_insensitive", JBool (sc_case_insensitive c));
   ("refresh_interval_ms", JInt (sc_refresh_interval_ms c));
   ("highspeed_sched_ms", JInt (sc_highspeed_sched_ms c));
   ("top_scan_budget_us", JInt (sc_top_scan_budget_us c));
   ("full_scan_budget_us", JInt (sc_full_scan_budget_us c));
   ("scan_batch_size", JInt (sc_scan_batch_size c));
   ("scan_batch_yield_us", JInt (sc_scan_batch_yield_us c));
   ("timing", render_timing (sc_timing c));
   ("log", JObject [("level", JString (log_level (sc_log c)));
                    ("output", JString (log_output (sc_log c)))]);
   ("cpumask", render_map render_cpus (sc_cpumask c));
   ("affinity", render_map render_scene (sc_affinity c));
   ("prio", render_map render_prio (sc_prio c));
   ("rules", JArray (render_rule <$> sc_rules c))].

Definition render_config (c : Config) : JsonValue := JObject
  [("meta", JObject [("name", JString (cfg_meta_name c));
                     ("author", JString (cfg_meta_author c))]);
   ("modules", JObject [("sched", render_sched (cfg_sched c))])].

(** ** Member access on rendered objects *)

(** Evaluates the member look-ups of the goal: the keys are literals. *)
Ltac json_find_eval :=
  repeat match goal with
    |- context [json_find (JObject ?l) ?k] =>
      let r := eval hnf in (assoc_find l k) in
      change (json_find (JObject l) k) with r
    end.
Ltac json := unfold string_or, bool_or, int_or, find_if; json_find_eval;
  cbn [mbind option_bind is_object is_array is_string is_boolean is_number_integer
       get_string get_bool array_elems JsonValue_json negb opt_int].

Lemma get_int_in z : in_int z → get_int (JInt z) = z.
Proof. apply to_int32_id. Qed.

(** Numbers that the document keeps in [int] range are read back unchanged. *)
Ltac json_int := rewrite !get_int_in by (unfold in_int, INT_MIN, INT_MAX; lia).

Lemma clamp_id lo hi d z : lo ≤ z ≤ hi → (if (z <? lo) || (hi <? z) then d else z) = z.
Proof. intros. destruct (Z.ltb_spec z lo), (Z.ltb_spec hi z); simpl; lia. Qed.
Lemma interval_id hi d z : 1 ≤ z ≤ hi → (if (z <=? 0) || (hi <? z) then d else z) = z.
Proof. intros. destruct (Z.leb_spec z 0), (Z.ltb_spec hi z); simpl; lia. Qed.

Lemma render_timing_parse (t t0 : TimingConfig) (j : JsonValue) :
  wf_timing t → json_find j "timing" = Some (render_timing t) → parse_timing j t0 = t.
Proof.
  intros [] Hl. unfold ranged in *. unfold parse_timing, parse_timing_value, render_timing in *.
  rewrite Hl. json. json_int. rewrite !clamp_id by lia.
  rewrite (proj2 (Z.ltb_ge _ _)) by lia. by destruct t.
Qed.

(** ** Maps *)

(** Reading a rendered map back with a step that stores each member: the map
    itself. *)
Lemma fold_insert {A} (f : A → JsonValue) (step : gmap string A → string * JsonValue → gmap string A)
    (l : list (string * A)) (m0 : gmap string A) :
  (∀ k a m, (k, a) ∈ l → step m (k, f a) = <[k:=a]> m) → NoDup l.*1 →
  fold_left step (prod_map id f <$> l) m0 = list_to_map l ∪ m0.
Proof.
  revert m0. induction l as [|[k a] l IH]; intros m0 Hstep Hnd; simpl.
  { by rewrite (left_id_L ∅ (∪)). }
  apply NoDup_cons in Hnd as [Hk Hnd].
  change (prod_map id f (k, a)) with (k, f a).
  rewrite Hstep by (by left). rewrite IH; [|intros; apply Hstep; by right|done].
  rewrite <-insert_union_l, insert_union_r; [done|].
  by apply not_elem_of_list_to_map_1.
Qed.

Lemma first_keys_id seen (l : list (string * JsonValue)) :
  NoDup l.*1 → (∀ k, k ∈ l.*1 → k ∉ seen) → first_keys seen l = l.
Proof.
  revert seen. induction l as [|[k v] l IH]; intros seen Hnd Hs; simpl; [done|].
  apply NoDup_cons in Hnd as [Hk Hnd]. rewrite decide_False by (apply Hs; by left).
  rewrite IH; [done..|].
  intros k' Hk' [->|Hin]%elem_of_cons; [done|]. eapply (Hs k'); [by right|done].
Qed.

Lemma map_parse_render {A} (f : A → JsonValue) step (m : gmap string A) :
  (∀ k a m', m !! k = Some a → step m' (k, f a) = <[k:=a]> m') →
  fold_left step (object_items (render_map f m)) ∅ = m.
Proof.
  intros Hstep. unfold render_map. simpl.
  rewrite first_keys_id.
  - rewrite (fold_insert f); [|intros k a m' Hin; by apply Hstep, elem_of_map_to_list
                              |apply NoDup_fst_map_to_list].
    by rewrite list_to_map_to_list, (right_id_L ∅ (∪)).
  - rewrite <-list_fmap_compose. apply NoDup_fst_map_to_list.
  - intros k _. apply not_elem_of_nil.
Qed.

Lemma collect_cpu_render cpus acc :
  Forall (λ c, 0 ≤ c < CPU_SETSIZE) cpus →
  fold_left collect_cpu (JInt <$> cpus) acc = acc ++ cpus.
Proof.
  intros Hc. revert acc. induction Hc as [|c cpus Hc _ IH]; intros acc; simpl.
  { by rewrite app_nil_r. }
  assert (to_int32 c = c) as Hid.
  { apply to_int32_id. unfold in_int, INT_MIN, INT_MAX, CPU_SETSIZE in *. lia. }
  unfold collect_cpu at 2. simpl. rewrite Hid.
  rewrite (proj2 (Z.ltb_ge _ _)), (proj2 (Z.leb_gt _ _)) by lia. simpl.
  rewrite IH. by rewrite <-(assoc_L (++)).
Qed.

Lemma render_cpumask_entry m name cpus :
  wf_cpumask name cpus →
  parse_cpumask_entry m (name, render_cpus cpus) = <[name:=cpus]> m.
Proof.
  intros [Hn Hne Hs Hr]. unfold parse_cpumask_entry.
  rewrite (proj2 (is_safe_cgroup_component_spec _)) by done. simpl.
  rewrite collect_cpu_render by done. simpl. rewrite unique_sort_id by done.
  by destruct cpus.
Qed.

Lemma render_affinity_entry m name s :
  parse_affinity_entry m (name, render_scene s) = <[name:=s]> m.
Proof. unfold parse_affinity_entry, render_scene. json. simpl. by destruct s. Qed.

Lemma is_valid_prio_int v : is_valid_prio_value v = true → in_int v.
Proof. unfold is_valid_prio_value, in_int, INT_MIN, INT_MAX. lia. Qed.

Lemma render_prio_entry m name s :
  wf_prio_scene s → parse_prio_entry m (name, render_prio s) = <[name:=s]> m.
Proof.
  intros Hs. pose proof (Hs BG) as Hb. pose proof (Hs FG) as Hf. pose proof (Hs TOP) as Ht.
  simpl in *. unfold parse_prio_entry, parse_prio_value, render_prio. json. simpl is_object.
  rewrite !get_int_in by (by apply is_valid_prio_int). rewrite Hb, Hf, Ht. by destruct s.
Qed.

(** ** Rules *)

Lemma ranged_int_render tr key hi o l :
  tr = JObject l → json_find tr key = Some (opt_int o) → hi ≤ INT_MAX →
  (∀ v, o = Some v → ranged 0 hi v) → ranged_int tr key hi = o.
Proof.
  intros -> Hf Hhi Ho. unfold ranged_int, find_if. rewrite Hf.
  destruct o as [v|]; simpl; [|done].
  destruct (Ho v); [done|]. unfold INT_MAX in Hhi.
  rewrite to_int32_id by (unfold in_int, INT_MIN, INT_MAX; lia).
  by rewrite (proj2 (Z.leb_le 0 v)), (proj2 (Z.leb_le v hi)) by lia.
Qed.

Lemma render_thread_rule_parse cfg t :
  wf_thread_rule cfg t → parse_thread_rule (render_thread_rule t) = t.
Proof.
  intros [_ _ Hu Hc]. unfold parse_thread_rule, render_thread_rule.
  rewrite (ranged_int_render _ "uclamp_max" 100 (tr_uclamp_max t) _ eq_refl) by done.
  rewrite (ranged_int_render _ "cpu_share" 1024 (tr_cpu_share t) _ eq_refl) by done.
  json. by destruct t.
Qed.

Lemma render_thread_rules_parse cfg (ts : list ThreadRule) l :
  Forall (wf_thread_rule cfg) ts →
  json_find (JObject l) "rules" = Some (JArray (render_thread_rule <$> ts)) →
  parse_thread_rules (JObject l) = ts.
Proof.
  intros Hts Hf. unfold parse_thread_rules. rewrite Hf. clear Hf. simpl.
  induction Hts as [|t ts Ht _ IH]; [done|]. rewrite fmap_cons.
  rewrite filter_cons_True by done. rewrite fmap_cons, (render_thread_rule_parse cfg) by done.
  by f_equal.
Qed.

Lemma render_rule_step cfg names rules r :
  wf_rule cfg r → pr_name r ∉ names →
  parse_rule_step (names, rules) (render_rule r) = ({[pr_name r]} ∪ names, rules ++ [r]).
Proof.
  intros [Hn Hr Ht] Hni. unfold parse_rule_step.
  assert (parse_thread_rules (render_rule r) = pr_thread_rules r) as ->
    by by apply (render_thread_rules_parse cfg).
  unfold render_rule. json.
  rewrite (proj2 (is_safe_cgroup_component_spec _)) by done.
  rewrite decide_False by done. simpl. rewrite decide_False by done. by destruct r.
Qed.

Lemma render_rules_parse cfg rs names rules :
  Forall (wf_rule cfg) rs → NoDup (pr_name <$> rs) → (∀ r, r ∈ rs → pr_name r ∉ names) →
  (fold_left parse_rule_step (render_rule <$> rs) (names, rules)).2 = rules ++ rs.
Proof.
  intros Hrs. revert names rules.
  induction Hrs as [|r rs Hr _ IH]; intros names rules Hnd Hni.
  { simpl. by rewrite app_nil_r. }
  rewrite fmap_cons in Hnd. rewrite fmap_cons. cbn [fold_left]. apply NoDup_cons in Hnd as [Hn Hnd].
  rewrite (render_rule_step cfg) by (done || apply Hni; by left).
  rewrite IH; [by rewrite <-(assoc_L (++))|done|].
  intros r' Hr' [Heq%elem_of_singleton|Hin]%elem_of_union.
  - apply Hn. apply list_elem_of_fmap. eauto.
  - eapply (Hni r'); [by right|done].
Qed.

(** ** Resolved references are left alone *)

Lemma validate_mask_id masks n : mask_ref_ok masks n → validate_affinity_mask masks n = n.
Proof.
  intros Hn. unfold validate_affinity_mask. rewrite decide_False; [done|].
  intros [? E]. destruct Hn as [?|[? ?]]; congruence.
Qed.
Lemma validate_class_id {A} (m : gmap string A) c : class_ref_ok m c → validate_class m c = c.
Proof.
  intros Hc. unfold validate_class. rewrite decide_False; [done|].
  intros (? & ? & E). destruct Hc as [?|[?|[? ?]]]; congruence.
Qed.

Lemma validate_references_id c : wf_sched c → validate_references c = c.
Proof.
  intros Hwf. unfold validate_references.
  assert (validate_scene (sc_cpumask c) <$> sc_affinity c = sc_affinity c) as ->.
  { apply map_eq. intros n. rewrite lookup_fmap.
    destruct (sc_affinity c !! n) as [s|] eqn:E; simpl; [|done]. f_equal.
    pose proof (wf_affinity _ Hwf n s E) as Hs. unfold validate_scene.
    rewrite (validate_mask_id _ (as_bg s) (Hs BG)), (validate_mask_id _ (as_fg s) (Hs FG)),
      (validate_mask_id _ (as_top s) (Hs TOP)). by destruct s. }
  assert (validate_rule c <$> sc_rules c = sc_rules c) as ->; [|by destruct c].
  rewrite <-(list_fmap_id (sc_rules c)) at 2. apply list_fmap_ext.
  intros _ r Hr%list_elem_of_lookup_2. pose proof (wf_rules _ Hwf) as Hall.
  rewrite Forall_forall in Hall. destruct (Hall _ Hr) as [_ _ Ht].
  unfold validate_rule. assert (validate_thread_rule c <$> pr_thread_rules r
    = pr_thread_rules r) as ->; [|by destruct r].
  rewrite <-(list_fmap_id (pr_thread_rules r)) at 2. apply list_fmap_ext.
  intros _ t Hin%list_elem_of_lookup_2. rewrite Forall_forall in Ht.
  destruct (Ht _ Hin) as [Ha Hp _ _]. unfold validate_thread_rule.
  rewrite !validate_class_id by done. by destruct t.
Qed.

Lemma render_sched_parse c l :
  wf_sched c → l = default_sched → parse_sched_object (render_sched c) l = c.
Proof.
  intros Hwf ->. pose proof Hwf as [? ? ? ? ? ? Ht Hm Ha Hp Hr Hnd]. unfold ranged in *.
  rewrite <-(validate_references_id c Hwf) at 2. unfold parse_sched_object. f_equal.
  rewrite (render_timing_parse (sc_timing c)) by done.
  unfold parse_refresh_interval, parse_highspeed, parse_bounded_int, parse_log,
    parse_cpumask, parse_affinity, parse_prio, parse_rules, render_sched.
  json. json_int. rewrite !clamp_id, !interval_id by lia.
  simpl is_object. simpl is_array. cbn [negb].
  rewrite (map_parse_render render_cpus) by (intros; by apply render_cpumask_entry, Hm).
  rewrite (map_parse_render render_scene) by (intros; by apply render_affinity_entry).
  rewrite (map_parse_render render_prio) by (intros; eapply render_prio_entry, Hp; done).
  simpl array_elems. rewrite (render_rules_parse c) by (done || intros; apply not_elem_of_empty).
  by destruct c as [? ? ? ? ? ? ? ? ? [] ? ? ? ?].
Qed.

Lemma render_config_parse text c :
  wf_sched (cfg_sched c) → cfg_launcher_package c = EmptyString →
  parse (λ _, Some (render_config c)) (Some text)
  = {| cpr_success := true; cpr_config := c |}.
Proof.
  intros Hwf Hl. unfold parse, render_config.
  cbn [is_object JsonValue_json negb]. f_equal.
  unfold parse_meta, parse_sched. json. json_find_eval. cbn [mbind option_bind].
  change (if match render_sched (cfg_sched c) with JObject _ => true | _ => false end
          then Some (render_sched (cfg_sched c)) else None)
    with (Some (render_sched (cfg_sched c))).
  cbn [default_config cfg_sched]. unfold set_sched. rewrite render_sched_parse by done. destruct c; simpl in *; by subst.
Qed.
