(* ===== verification/Kernel.v ===== *)
(** * The operating system interface

    Everything the program asks of the operating system is a member of the
    class [Kernel]: a state transformer of a world [W], so that a result may
    depend on everything that happened before, other processes included.  The
    theorems hold for every [Kernel]; [Traced] records the calls a run makes. *)

From S2P Require Import Prelude.

(** A [cpu_set_t]: bit [i] is CPU [i]. *)
Definition cpu_set : Type := Z.

Inductive write_result := Wrote (n : Z) | WriteEintr | WriteError.
Inductive mkdir_result := MkdirOk | MkdirExists | MkdirError.

Class Kernel (W : Type) := {
  (** [steady_clock::now()], in nanoseconds. *)
  k_now : M W Z;
  k_sleep_ms : Z → M W unit;
  (** The whole text of a file through [std::ifstream]; [None]: not opened. *)
  k_read : string → M W (option string);
  (** [stat]: [None] when it fails, else whether the path is a directory. *)
  k_stat : string → M W (option bool);
  (** [open]: the flag tells [O_CREAT | O_TRUNC] from plain [O_WRONLY]. *)
  k_open : string → bool → M W (option Z);
  k_write : Z → list ascii → M W write_result;
  k_close : Z → M W unit;
  k_mkdir : string → M W mkdir_result;
  k_sched_setaffinity : Z → cpu_set → M W bool;
  k_sched_getaffinity : Z → M W (option cpu_set);
  k_sched_getscheduler : Z → M W Z;
  k_sched_getparam : Z → M W (option Z);
  k_getpriority : Z → M W (option Z);
  k_sched_setscheduler : Z → Z → Z → M W bool;
  k_setpriority : Z → Z → M W bool;
  (** How many more signals may interrupt a [write]. *)
  k_eintr_budget : W → nat }.

(** Documented behaviour of [write]: it transfers at least one and at most all
    the bytes offered, reports zero, or fails; interruptions are finitely
    many. *)
Class KernelLaws (W : Type) `{Kernel W} := {
  k_write_progress fd s w :
    match k_write fd s w with
    | (Wrote n, w') => 0 ≤ n ≤ Z.of_nat (length s) ∧ (k_eintr_budget w' ≤ k_eintr_budget w)%nat
    | (WriteEintr, w') => (k_eintr_budget w' < k_eintr_budget w)%nat
    | (WriteError, _) => True
    end }.

(** Documented behaviour of the scheduling calls: policy, real-time priority and
    nice value of a thread as [sched_view] shows them; a successful
    [sched_setscheduler] sets the first two, a successful [setpriority] the
    third, and the queries report them and change nothing. *)
Class SchedLaws (W : Type) `{Kernel W} := {
  sched_view : W → Z → option (Z * Z * Z);
  sched_set tid policy prio w w' p q n :
    sched_view w tid = Some (p, q, n) →
    k_sched_setscheduler tid policy prio w = (true, w') →
    sched_view w' tid = Some (policy, prio, n);
  sched_nice tid nice w w' p q n :
    sched_view w tid = Some (p, q, n) →
    k_setpriority tid nice w = (true, w') →
    sched_view w' tid = Some (p, q, nice);
  sched_getscheduler tid w p q n :
    sched_view w tid = Some (p, q, n) →
    ∃ w', k_sched_getscheduler tid w = (p, w') ∧ sched_view w' tid = Some (p, q, n);
  sched_getparam tid w p q n :
    sched_view w tid = Some (p, q, n) →
    ∃ w', k_sched_getparam tid w = (Some q, w') ∧ sched_view w' tid = Some (p, q, n);
  sched_getpriority tid w p q n :
    sched_view w tid = Some (p, q, n) →
    ∃ w', k_getpriority tid w = (Some n, w') ∧ sched_view w' tid = Some (p, q, n) }.

(** ** Recording the calls *)

Inductive kcall :=
  | KNow (t : Z)
  | KSleep (ms : Z)
  | KRead (path : string) (r : option string)
  | KStat (path : string) (r : option bool)
  | KOpen (path : string) (create : bool) (r : option Z)
  | KWrite (fd : Z) (s : list ascii) (r : write_result)
  | KClose (fd : Z)
  | KMkdir (path : string) (r : mkdir_result)
  | KSetAffinity (tid : Z) (set : cpu_set) (ok : bool)
  | KGetAffinity (tid : Z) (r : option cpu_set)
  | KGetScheduler (tid policy : Z)
  | KGetParam (tid : Z) (r : option Z)
  | KGetPriority (tid : Z) (r : option Z)
  | KSetScheduler (tid policy priority : Z) (ok : bool)
  | KSetPriority (tid nice : Z) (ok : bool).

(** A world together with the calls made so far, most recent first. *)
Record Traced (W : Type) := Tr { tr_world : W; tr_calls : list kcall }.
Arguments Tr {W} _ _.
Arguments tr_world {W} _.
Arguments tr_calls {W} _.

Definition traced {W A} (op : M W A) (call : A → kcall) : M (Traced W) A :=
  λ t, let '(a, w) := op (tr_world t) in (a, Tr w (call a :: tr_calls t)).

#[export] Instance Traced_kernel W `{!Kernel W} : Kernel (Traced W) := {|
  k_now := traced k_now KNow;
  k_sleep_ms ms := traced (k_sleep_ms ms) (λ _, KSleep ms);
  k_read p := traced (k_read p) (KRead p);
  k_stat p := traced (k_stat p) (KStat p);
  k_open p c := traced (k_open p c) (KOpen p c);
  k_write fd s := traced (k_write fd s) (KWrite fd s);
  k_close fd := traced (k_close fd) (λ _, KClose fd);
  k_mkdir p := traced (k_mkdir p) (KMkdir p);
  k_sched_setaffinity tid s := traced (k_sched_setaffinity tid s) (KSetAffinity tid s);
  k_sched_getaffinity tid := traced (k_sched_getaffinity tid) (KGetAffinity tid);
  k_sched_getscheduler tid := traced (k_sched_getscheduler tid) (KGetScheduler tid);
  k_sched_getparam tid := traced (k_sched_getparam tid) (KGetParam tid);
  k_getpriority tid := traced (k_getpriority tid) (KGetPriority tid);
  k_sched_setscheduler tid p q :=
    traced (k_sched_setscheduler tid p q) (KSetScheduler tid p q);
  k_setpriority tid n := traced (k_setpriority tid n) (KSetPriority tid n);
  k_eintr_budget t := k_eintr_budget (tr_world t) |}.

#[export] Instance Traced_laws W `{!Kernel W} `{!KernelLaws W} : KernelLaws (Traced W).
Proof.
  split. intros fd s [w tr]. simpl. unfold traced. simpl.
  pose proof (k_write_progress fd s w) as H. by destruct (k_write fd s w) as [[] ?].
Qed.

(** The calls that can change the scheduling of a thread, or the contents of a
    file. *)
Definition mutating (c : kcall) : bool :=
  match c with
  | KWrite _ _ _ | KMkdir _ _ | KSetAffinity _ _ _ | KSetScheduler _ _ _ _
  | KSetPriority _ _ _ => true
  | KOpen _ create _ => create
  | _ => false
  end.

(** [duration_cast<milliseconds>] of a difference in nanoseconds. *)
Definition to_ms (ns : Z) : Z := Z.quot ns 1000000.
