(* ===== verification/SimKernel.v ===== *)
(** * A small concrete operating system

    A deterministic world on which the theorems are instantiated: files as
    texts, writes that may change further files (a [tasks] file changes the
    [cgroup] file of the thread), and the scheduling attributes of threads. *)

From S2P Require Import Prelude CppString Kernel.

Record Sim := MkSim {
  sim_clock : Z;
  sim_files : gmap string string;
  sim_dirs : list string;
  (** Files that change when a text is written to a file. *)
  sim_effects : gmap (string * string) (list (string * string));
  sim_open : option string;
  sim_affinity : gmap Z cpu_set;
  sim_sched : gmap Z (Z * Z);
  sim_nice : gmap Z Z }.

Definition sim_empty : Sim := MkSim 0 ∅ [] ∅ None ∅ ∅ ∅.

Definition sim_apply (files : gmap string string) (changes : list (string * string))
    : gmap string string :=
  foldl (λ fs c, <[c.1 := c.2]> fs) files changes.

#[export] Instance sim_kernel : Kernel Sim := {|
  k_now w := (sim_clock w, w);
  k_sleep_ms ms w := (tt, MkSim (sim_clock w + ms * 1000000) (sim_files w) (sim_dirs w)
    (sim_effects w) (sim_open w) (sim_affinity w) (sim_sched w) (sim_nice w));
  k_read p w := (sim_files w !! p, w);
  k_stat p w :=
    (if decide (p ∈ sim_dirs w) then Some true
     else if decide (is_Some (sim_files w !! p)) then Some false else None, w);
  k_open p c w :=
    if c || bool_decide (is_Some (sim_files w !! p))
    then (Some 3, MkSim (sim_clock w)
            (if c then <[p := EmptyString]> (sim_files w) else sim_files w) (sim_dirs w)
            (sim_effects w) (Some p) (sim_affinity w) (sim_sched w) (sim_nice w))
    else (None, w);
  k_write fd l w :=
    match sim_open w with
    | None => (WriteError, w)
    | Some p =>
        (Wrote (Z.of_nat (length l)),
         MkSim (sim_clock w)
           (sim_apply (<[p := str l]> (sim_files w)) (default [] (sim_effects w !! (p, str l))))
           (sim_dirs w) (sim_effects w) (sim_open w) (sim_affinity w) (sim_sched w) (sim_nice w))
    end;
  k_close fd w := (tt, MkSim (sim_clock w) (sim_files w) (sim_dirs w) (sim_effects w) None
    (sim_affinity w) (sim_sched w) (sim_nice w));
  k_mkdir p w :=
    if decide (p ∈ sim_dirs w) then (MkdirExists, w)
    else (MkdirOk, MkSim (sim_clock w) (<[(p +:+ "/tasks") := EmptyString]> (sim_files w))
            (p :: sim_dirs w) (sim_effects w) (sim_open w) (sim_affinity w) (sim_sched w)
            (sim_nice w));
  k_sched_setaffinity tid set w :=
    (true, MkSim (sim_clock w) (sim_files w) (sim_dirs w) (sim_effects w) (sim_open w)
       (<[tid := set]> (sim_affinity w)) (sim_sched w) (sim_nice w));
  k_sched_getaffinity tid w := (sim_affinity w !! tid, w);
  k_sched_getscheduler tid w := (default (-1) (fst <$> sim_sched w !! tid), w);
  k_sched_getparam tid w := (snd <$> sim_sched w !! tid, w);
  k_getpriority tid w := (Some (default 0 (sim_nice w !! tid)), w);
  k_sched_setscheduler tid policy prio w :=
    (true, MkSim (sim_clock w) (sim_files w) (sim_dirs w) (sim_effects w) (sim_open w)
       (sim_affinity w) (<[tid := (policy, prio)]> (sim_sched w)) (sim_nice w));
  k_setpriority tid nice w :=
    (true, MkSim (sim_clock w) (sim_files w) (sim_dirs w) (sim_effects w) (sim_open w)
       (sim_affinity w) (sim_sched w) (<[tid := nice]> (sim_nice w)));
  k_eintr_budget _ := O |}.

#[export] Instance sim_laws : KernelLaws Sim.
Proof. split. intros fd l w. simpl. destruct (sim_open w); [|done]. split; [lia|done]. Qed.

#[export] Instance sim_sched_laws : SchedLaws Sim.
Proof.
  refine {| sched_view w tid :=
    match sim_sched w !! tid with
    | Some (policy, prio) => Some (policy, prio, default 0 (sim_nice w !! tid))
    | None => None
    end |}.
  - intros tid policy prio w w' p q n. cbn. intros H [= <-]. cbn.
    rewrite lookup_insert_eq. by destruct (sim_sched w !! tid) as [[]|]; simplify_eq/=.
  - intros tid nice w w' p q n. cbn. intros H [= <-]. cbn. rewrite lookup_insert_eq.
    by destruct (sim_sched w !! tid) as [[]|]; simplify_eq/=.
  - intros tid w p q n. cbn. intros H. exists w. rewrite H.
    by destruct (sim_sched w !! tid) as [[]|]; simplify_eq/=.
  - intros tid w p q n. cbn. intros H. exists w. rewrite H.
    by destruct (sim_sched w !! tid) as [[]|]; simplify_eq/=.
  - intros tid w p q n. cbn. intros H. exists w. rewrite H.
    by destruct (sim_sched w !! tid) as [[]|]; simplify_eq/=.
Defined.

(** A hash for the witnesses: the length of the string. *)
Definition length_hash (s : string) : Z := Z.of_nat (String.length s).
