(* ===== verification/Inotify.v ===== *)
(** * Reading inotify events

    The records that [read] puts into the buffer of an inotify descriptor, as
    [ConfigFileWatcher::check_and_clear] (main.cpp) and
    [ProcMonitor::monitor_loop] (core/cpuset_monitor.hpp) walk through them:
    a header of sixteen bytes and a name of the length it gives.  Reading the
    records the kernel wrote gives the events it meant. *)

From S2P Require Import Prelude CppString.

(** ** Little-endian words *)

Definition byte_value (c : ascii) : Z := Z.of_N (N_of_ascii c).
Definition byte_of (z : Z) : ascii := ascii_of_N (Z.to_N (z `mod` 256)).

Fixpoint from_le (l : list ascii) : Z :=
  match l with [] => 0 | c :: l' => byte_value c + 256 * from_le l' end.
Fixpoint to_le (n : nat) (z : Z) : list ascii :=
  match n with O => [] | S n' => byte_of z :: to_le n' (z / 256) end.

Lemma byte_value_range c : 0 ≤ byte_value c < 256.
Proof. unfold byte_value. pose proof (N_ascii_bounded c). lia. Qed.
Lemma byte_value_inj c c' : byte_value c = byte_value c' → c = c'.
Proof.
  unfold byte_value. intros H. apply N2Z.inj in H.
  by rewrite <-(ascii_N_embedding c), <-(ascii_N_embedding c'), H.
Qed.
Lemma byte_value_of z : byte_value (byte_of z) = z `mod` 256.
Proof.
  unfold byte_value, byte_of. pose proof (Z.mod_pos_bound z 256).
  rewrite N_ascii_embedding by lia. lia.
Qed.
Lemma to_le_length n z : length (to_le n z) = n.
Proof. revert z. induction n; intros; cbn; [done|]. by rewrite IHn. Qed.
Lemma from_to_le n z : 0 ≤ z < 256 ^ Z.of_nat n → from_le (to_le n z) = z.
Proof.
  revert z. induction n as [|n IH]; intros z Hz; cbn [to_le from_le].
  - change (256 ^ Z.of_nat 0) with 1 in Hz. lia.
  - rewrite byte_value_of, IH.
    + pose proof (Z.div_mod z 256). lia.
    + rewrite Nat2Z.inj_succ, Z.pow_succ_r in Hz by lia. split; [apply Z.div_pos; lia|].
      apply Z.div_lt_upper_bound; lia.
Qed.
Lemma from_le_range l : 0 ≤ from_le l < 256 ^ Z.of_nat (length l).
Proof.
  induction l as [|c l IH]; cbn [from_le length]; [done|].
  pose proof (byte_value_range c). rewrite Nat2Z.inj_succ, Z.pow_succ_r by lia. lia.
Qed.

(** ** Events *)

(** [struct inotify_event]; the name is what [strnlen] leaves of the bytes after
    the header. *)
Record InotifyEvent := {
  ev_wd : Z;
  ev_mask : Z;
  ev_cookie : Z;
  ev_len : Z;
  ev_name : string }.

Definition kEventSize : nat := 16.

Definition IN_MODIFY : Z := 0x2.
Definition IN_ATTRIB : Z := 0x4.
Definition IN_CLOSE_WRITE : Z := 0x8.
Definition IN_MOVED_TO : Z := 0x80.
Definition IN_CREATE : Z := 0x100.
Definition IN_DELETE : Z := 0x200.
Definition IN_DELETE_SELF : Z := 0x400.
Definition IN_MOVE_SELF : Z := 0x800.
Definition IN_Q_OVERFLOW : Z := 0x4000.
Definition IN_IGNORED : Z := 0x8000.
Definition IN_ISDIR : Z := 0x40000000.

(** [event->mask & flags], as a condition. *)
Definition has_flag (flags : Z) (ev : InotifyEvent) : bool := negb (Z.land (ev_mask ev) flags =? 0).

(** [std::string(name, strnlen(name, len))]. *)
Definition c_name (l : list ascii) : string :=
  match find_char NUL l with Some n => str (take n l) | None => str l end.

Definition read_event (l : list ascii) : InotifyEvent :=
  let len := from_le (take 4 (drop 12 l)) in
  {| ev_wd := to_int32 (from_le (take 4 l)); ev_mask := from_le (take 4 (drop 4 l));
     ev_cookie := from_le (take 4 (drop 8 l)); ev_len := len;
     ev_name := c_name (take (Z.to_nat len) (drop kEventSize l)) |}.

(** The loop over a buffer: the events, and whether it ended at a record that
    is longer than what is left.  A round consumes a header at least, so the
    length of the buffer is fuel enough. *)
Fixpoint read_records (fuel : nat) (l : list ascii) : list InotifyEvent * bool :=
  match fuel with
  | O => ([], false)
  | S fuel' =>
      if (length l <? kEventSize)%nat then ([], false)
      else
        let ev := read_event l in
        let record_size := Z.of_nat kEventSize + ev_len ev in
        if Z.of_nat (length l) <? record_size then ([], true)
        else
          let '(evs, truncated) := read_records fuel' (drop (Z.to_nat record_size) l) in
          (ev :: evs, truncated)
  end.

Definition read_buffer (l : list ascii) : list InotifyEvent * bool := read_records (length l) l.

Lemma read_records_enough n m l :
  (length l ≤ n)%nat → (length l ≤ m)%nat → read_records n l = read_records m l.
Proof.
  revert m l. induction n as [|n IH]; intros m l Hn Hm.
  - destruct l; [|cbn in Hn; lia]. by destruct m.
  - destruct m as [|m]; [destruct l; [done|cbn in Hm; lia]|]. cbn [read_records].
    destruct (Nat.ltb_spec (length l) kEventSize) as [|Hl]; [done|]. unfold kEventSize in Hl.
    destruct (_ <? _); [done|].
    assert (0 ≤ ev_len (read_event l)) by apply from_le_range.
    rewrite (IH m); [done|rewrite length_drop; unfold kEventSize; lia..].
Qed.

(** ** What the kernel writes *)

(** A record, its name padded with NULs to the length given. *)
Definition event_bytes (ev : InotifyEvent) : list ascii :=
  to_le 4 (to_uint32 (ev_wd ev)) ++ to_le 4 (ev_mask ev) ++ to_le 4 (ev_cookie ev)
  ++ to_le 4 (ev_len ev) ++ chars (ev_name ev)
  ++ replicate (Z.to_nat (ev_len ev) - length (chars (ev_name ev))) NUL.

Record valid_event (ev : InotifyEvent) : Prop := {
  ve_wd : in_int (ev_wd ev);
  ve_mask : 0 ≤ ev_mask ev < 4294967296;
  ve_cookie : 0 ≤ ev_cookie ev < 4294967296;
  ve_len : Z.of_nat (length (chars (ev_name ev))) ≤ ev_len ev < 4294967296;
  ve_name : NUL ∉ chars (ev_name ev) }.

Lemma c_name_padded s n : NUL ∉ chars s → c_name (chars s ++ replicate n NUL) = s.
Proof.
  intros Hs. unfold c_name. destruct n as [|n]; cbn [replicate].
  - rewrite app_nil_r, find_char_none by done. apply str_chars.
  - rewrite find_char_here by done. rewrite take_app_length. apply str_chars.
Qed.

Lemma event_bytes_length ev :
  valid_event ev → Z.of_nat (length (event_bytes ev)) = Z.of_nat kEventSize + ev_len ev.
Proof.
  intros [_ _ _ Hl _]. unfold event_bytes, kEventSize.
  rewrite !length_app, !to_le_length, length_replicate. lia.
Qed.

Lemma to_int32_uint32 z : in_int z → to_int32 (to_uint32 z) = z.
Proof.
  intros Hz. rewrite <-(to_int32_id z Hz) at 2. unfold to_int32, to_uint32.
  by rewrite Zplus_mod_idemp_l.
Qed.

Lemma read_event_bytes ev rest : valid_event ev → read_event (event_bytes ev ++ rest) = ev.
Proof.
  intros Hv. destruct ev as [wd mask cookie len name]. destruct Hv as [Hw Hm Hc Hl Hn]. cbn in Hw, Hm, Hc, Hl, Hn.
  unfold read_event, event_bytes. cbn [ev_wd ev_mask ev_cookie ev_len ev_name].
  rewrite <-!(assoc_L (++)).
  set (tail := chars name ++ _).
  assert (take 4 (to_le 4 (to_uint32 wd) ++ to_le 4 mask ++ to_le 4 cookie ++ to_le 4 len ++ tail)
          = to_le 4 (to_uint32 wd)) as -> by done.
  assert (take 4 (drop 4 (to_le 4 (to_uint32 wd) ++ to_le 4 mask ++ to_le 4 cookie ++ to_le 4 len
          ++ tail)) = to_le 4 mask) as -> by done.
  assert (take 4 (drop 8 (to_le 4 (to_uint32 wd) ++ to_le 4 mask ++ to_le 4 cookie ++ to_le 4 len
          ++ tail)) = to_le 4 cookie) as -> by done.
  assert (take 4 (drop 12 (to_le 4 (to_uint32 wd) ++ to_le 4 mask ++ to_le 4 cookie ++ to_le 4 len
          ++ tail)) = to_le 4 len) as -> by done.
  assert (drop kEventSize (to_le 4 (to_uint32 wd) ++ to_le 4 mask ++ to_le 4 cookie ++ to_le 4 len
          ++ tail) = tail) as -> by done.
  rewrite !from_to_le by (change (256 ^ Z.of_nat 4) with 4294967296; try done;
    unfold to_uint32; lia || (apply Z.mod_pos_bound; lia)).
  rewrite to_int32_uint32 by done. unfold tail.
  rewrite (assoc_L (++)), take_app_le by (rewrite length_app, length_replicate; lia).
  rewrite take_ge by (rewrite length_app, length_replicate; lia).
  by rewrite c_name_padded.
Qed.

(** The records written are the events read, and what follows them is read as
    if it stood alone. *)
Lemma read_buffer_cons ev rest :
  valid_event ev →
  read_buffer (event_bytes ev ++ rest)
  = (ev :: (read_buffer rest).1, (read_buffer rest).2).
Proof.
  intros Hv. unfold read_buffer. pose proof (event_bytes_length ev Hv) as Hlen.
  assert (0 ≤ ev_len ev) by (destruct Hv as [_ _ _ ? _]; lia).
  destruct (length (event_bytes ev ++ rest)) as [|n] eqn:En;
    [rewrite length_app in En; unfold kEventSize in Hlen; lia|].
  cbn [read_records]. rewrite En, read_event_bytes by done. rewrite length_app in En.
  destruct (Nat.ltb_spec (S n) kEventSize) as [|_]; [unfold kEventSize in *; lia|].
  destruct (Z.ltb_spec (Z.of_nat (S n)) (Z.of_nat kEventSize + ev_len ev)); [lia|].
  rewrite <-Hlen, Nat2Z.id, drop_app_length.
  rewrite (read_records_enough n (length rest)) by (unfold kEventSize in *; lia).
  by destruct (read_records (length rest) rest).
Qed.

Lemma read_buffer_events evs rest :
  Forall valid_event evs →
  read_buffer ((evs ≫= event_bytes) ++ rest)
  = (evs ++ (read_buffer rest).1, (read_buffer rest).2).
Proof.
  induction 1 as [|ev evs Hv _ IH]; cbn [mbind list_bind].
  - apply surjective_pairing.
  - rewrite <-(assoc_L (++)), read_buffer_cons by done. by rewrite IH.
Qed.

(** A record cut short is noticed, and none of it is taken for an event. *)
Lemma read_buffer_cut ev n :
  valid_event ev → (kEventSize ≤ n < length (event_bytes ev))%nat →
  read_buffer (take n (event_bytes ev)) = ([], true).
Proof.
  intros Hv Hn. pose proof (event_bytes_length ev Hv) as Hlen.
  assert (length (take n (event_bytes ev)) = n) as Hl by (rewrite length_take; lia).
  assert (ev_len (read_event (take n (event_bytes ev))) = ev_len ev) as Hev.
  { transitivity (ev_len (read_event (event_bytes ev ++ [])));
      [|by rewrite read_event_bytes]. unfold read_event. cbn [ev_len].
    rewrite app_nil_r, !take_drop_commute, take_take. unfold kEventSize in Hn.
    by replace ((12 + 4) `min` n)%nat with 16%nat by lia. }
  unfold read_buffer. rewrite Hl. destruct n as [|n]; [unfold kEventSize in *; lia|]. cbn [read_records].
  rewrite Hl, Hev. destruct (Nat.ltb_spec (S n) kEventSize) as [|_]; [lia|].
  by destruct (Z.ltb_spec (Z.of_nat (S n)) (Z.of_nat kEventSize + ev_len ev)); [|lia].
Qed.
