(* ===== verification/Logger.v ===== *)
(** * The logger ([utils/logger.hpp])

    [Logger] writes a message to the console and to a file when its level is
    within the level of its module.  A message that is filtered is not even put
    together, and a line the file does not take is written once more after the
    file was opened anew. *)

From S2P Require Import Prelude CppString ConfigTypes.

(** ** The system

    Console and file are streams: [lk_append] writes a line to the file that is
    open and says whether the stream took it. *)
Record Tm := {
  tm_year : Z; tm_mon : Z; tm_mday : Z; tm_hour : Z; tm_min : Z; tm_sec : Z }.

Class KernelLog (W : Type) := {
  (** [system_clock::now], in milliseconds since the epoch. *)
  lk_clock_ms : M W Z;
  lk_localtime : Z → M W Tm;
  lk_thread_hash : M W Z;
  lk_cerr : string → M W unit;
  lk_open : string → M W bool;
  lk_append : string → M W bool;
  lk_close : M W unit;
  lk_error_text : M W string }.

(** What [json::dump] makes of the members of an object. *)
Inductive LogValue := LogText (s : string) | LogNumber (n : Z).
Class JsonDump := json_dump : list (string * LogValue) → string.

(** ** State *)

(** [lg_file_open] and [lg_file_failed]: [is_open] and [fail] of the file. *)
Record Logger (W : Type) := MkLogger {
  lg_world : W;
  lg_level : LogLevel;
  lg_log_file : string;
  lg_console_output : bool;
  lg_structured_logging : bool;
  lg_file_open : bool;
  lg_file_failed : bool;
  lg_module_levels : gmap string LogLevel }.
Arguments MkLogger {W} _ _ _ _ _ _ _ _.
Arguments lg_world {W} _.
Arguments lg_level {W} _.
Arguments lg_log_file {W} _.
Arguments lg_console_output {W} _.
Arguments lg_structured_logging {W} _.
Arguments lg_file_open {W} _.
Arguments lg_file_failed {W} _.
Arguments lg_module_levels {W} _.

(** The order of the enumeration. *)
Definition level_number (l : LogLevel) : Z :=
  match l with ERR => 0 | WARN => 1 | INFO => 2 | DEBUG => 3 | TRACE => 4 end.

(** ** Formatting *)

Definition level_str (l : LogLevel) : string :=
  match l with
  | ERR => "ERROR" | WARN => "WARN" | INFO => "INFO" | DEBUG => "DEBUG" | TRACE => "TRACE"
  end.

(** [std::setw] with a fill of zeros, for numbers that are not negative. *)
Definition padded (width : nat) (n : Z) : string :=
  let digits := chars (to_string n) in
  str (replicate (width - length digits) "0"%char ++ digits).

(** [std::put_time] with ["%H:%M:%S"] and with ["%Y-%m-%d %H:%M:%S"]. *)
Definition clock_text (t : Tm) : string :=
  padded 2 (tm_hour t) +:+ ":" +:+ padded 2 (tm_min t) +:+ ":" +:+ padded 2 (tm_sec t).
Definition date_text (t : Tm) : string :=
  to_string (tm_year t) +:+ "-" +:+ padded 2 (tm_mon t) +:+ "-" +:+ padded 2 (tm_mday t).

Section Logger.
Context {W : Type} `{!KernelLog W} `{!JsonDump}.
Notation Logger := (Logger W).

(** A call of the system. *)
Definition sys {A} (op : M W A) : M Logger A :=
  λ s, let '(a, w) := op (lg_world s) in
       (a, MkLogger w (lg_level s) (lg_log_file s) (lg_console_output s) (lg_structured_logging s)
             (lg_file_open s) (lg_file_failed s) (lg_module_levels s)).

Definition set_file (is_open failed : bool) : M Logger unit :=
  modify (λ s, MkLogger (lg_world s) (lg_level s) (lg_log_file s) (lg_console_output s)
                 (lg_structured_logging s) is_open failed (lg_module_levels s)).

(** [file_.open(log_file_, app)] on a file that is closed. *)
Definition open_log : M Logger unit :=
  path ← gets lg_log_file; ok ← sys (lk_open path); set_file ok (negb ok).
(** [file_ << output << std::endl]: a stream that has failed takes nothing. *)
Definition append_line (output : string) : M Logger unit :=
  failed ← gets lg_file_failed;
  if (failed : bool) then mret tt
  else ok ← sys (lk_append output); set_file true (negb ok).

Definition get_timestamp_str (t : Tm) (ms : Z) : string :=
  date_text t +:+ " " +:+ clock_text t +:+ "." +:+ padded 3 ms.

Definition format_output (level : LogLevel) (tag msg : string) (structured : bool)
    : M Logger string :=
  now ← sys lk_clock_ms;
  let ms := now `mod` 1000 in
  t ← sys (lk_localtime (now / 1000));
  if structured then
    id ← sys lk_thread_hash;
    mret (json_dump [("timestamp", LogText (get_timestamp_str t ms));
                     ("level", LogText (level_str level)); ("module", LogText tag);
                     ("message", LogText msg); ("thread_id", LogNumber id)])
  else
    mret ("[" +:+ clock_text t +:+ "." +:+ padded 3 ms +:+ "][" +:+ level_str level +:+ "] "
          +:+ tag +:+ ": " +:+ msg).

Definition write_output (output : string) : M Logger unit :=
  console ← gets lg_console_output;
  (if (console : bool) then sys (lk_cerr output) else mret tt);;
  is_open ← gets lg_file_open;
  if negb is_open then mret tt
  else
    append_line output;;
    failed ← gets lg_file_failed;
    if negb failed then mret tt
    else
      sys lk_close;; set_file false false;;
      open_log;;
      is_open ← gets lg_file_open;
      if (is_open : bool) then append_line output
      else
        path ← gets lg_log_file;
        text ← sys lk_error_text;
        sys (lk_cerr ("[Logger ERROR] Cannot open log file: " +:+ path +:+ " (" +:+ text +:+ ")")).

(** ** Settings *)

Definition init (level : LogLevel) (log_file : string) (console_output structured : bool)
    : M Logger unit :=
  modify (λ s, MkLogger (lg_world s) level log_file console_output structured (lg_file_open s)
                 (lg_file_failed s) ∅);;
  is_open ← gets lg_file_open;
  (if (is_open : bool) then sys lk_close;; set_file false false else mret tt);;
  if decide (log_file = EmptyString) then mret tt else open_log.

Definition set_level (level : LogLevel) (s : Logger) : Logger :=
  MkLogger (lg_world s) level (lg_log_file s) (lg_console_output s) (lg_structured_logging s)
    (lg_file_open s) (lg_file_failed s) (lg_module_levels s).
Definition set_module_level (module : string) (level : LogLevel) (s : Logger) : Logger :=
  MkLogger (lg_world s) (lg_level s) (lg_log_file s) (lg_console_output s)
    (lg_structured_logging s) (lg_file_open s) (lg_file_failed s)
    (<[module := level]> (lg_module_levels s)).
Definition enable_structured_logging (enable : bool) (s : Logger) : Logger :=
  MkLogger (lg_world s) (lg_level s) (lg_log_file s) (lg_console_output s) enable
    (lg_file_open s) (lg_file_failed s) (lg_module_levels s).
Definition get_module_level (module : string) (s : Logger) : LogLevel :=
  default (lg_level s) (lg_module_levels s !! module).

(** ** Logging *)

Definition suppressed (level : LogLevel) (tag : string) (s : Logger) : bool :=
  level_number (get_module_level tag s) <? level_number level.

Definition log_lazy (level : LogLevel) (tag : string) (message_factory : M Logger string)
    : M Logger unit :=
  quiet ← gets (suppressed level tag);
  if (quiet : bool) then mret tt
  else
    structured ← gets lg_structured_logging;
    message ← message_factory;
    output ← format_output level tag message structured;
    write_output output.

Definition log_with (level : LogLevel) (tag msg : string) (structured : bool) : M Logger unit :=
  quiet ← gets (suppressed level tag);
  if (quiet : bool) then mret tt
  else output ← format_output level tag msg structured; write_output output.

Definition log (level : LogLevel) (tag msg : string) : M Logger unit :=
  structured ← gets lg_structured_logging; log_with level tag msg structured.
End Logger.

(** ** What reaches the file

    [ll_lines]: the lines of the log file.  A stream that reports success has
    written the line, one that reports a failure has not, and nothing else
    writes to the file. *)
Class LogLaws (W : Type) `{KernelLog W} := {
  ll_lines : W → list string;
  ll_append line w :
    ll_lines (lk_append line w).2
    = if (lk_append line w).1 then ll_lines w ++ [line] else ll_lines w;
  ll_open path w : ll_lines (lk_open path w).2 = ll_lines w;
  ll_close w : ll_lines (lk_close w).2 = ll_lines w;
  ll_cerr line w : ll_lines (lk_cerr line w).2 = ll_lines w;
  ll_error w : ll_lines (lk_error_text w).2 = ll_lines w }.

Section Facts.
Context {W : Type} `{!KernelLog W} `{!JsonDump}.
Notation Logger := (Logger W).

(** A message that is filtered is not put together, and nothing happens. *)
Lemma suppressed_is_quiet level tag factory (s : Logger) :
  suppressed level tag s = true → log_lazy level tag factory s = (tt, s).
Proof. intros Hs. unfold log_lazy, mbind, M_bind, gets. by rewrite Hs. Qed.

Context `{!LogLaws W}.
Definition lines (s : Logger) : list string := ll_lines (lg_world s).

Lemma wp_sys {A} (op : M W A) (Q : A → Logger → Prop) s :
  Q (op (lg_world s)).1 (MkLogger (op (lg_world s)).2 (lg_level s) (lg_log_file s)
    (lg_console_output s) (lg_structured_logging s) (lg_file_open s) (lg_file_failed s)
    (lg_module_levels s)) → wp (sys op) Q s.
Proof. unfold wp, sys. by destruct (op (lg_world s)). Qed.

Lemma append_line_once output s :
  lg_file_failed s = false → lg_file_open s = true →
  wp (append_line output) (λ _ s', lg_file_open s' = true
    ∧ lines s' = if lg_file_failed s' then lines s else lines s ++ [output]) s.
Proof.
  intros Hf Ho. unfold append_line. wp_step. wp_step. rewrite Hf. wp_step. apply wp_sys.
  apply wp_modify. cbn. split; [done|]. unfold lines. cbn. rewrite ll_append.
  by destruct (lk_append output (lg_world s)).1.
Qed.

(** A line goes to an open file exactly once, or the file ends up closed or
    failed and the line is not in it. *)
Lemma line_written_once output s :
  lg_file_open s = true → lg_file_failed s = false →
  wp (write_output output) (λ _ s', lines s'
    = if lg_file_open s' && negb (lg_file_failed s') then lines s ++ [output] else lines s) s.
Proof.
  intros Ho Hf. unfold write_output. wp_step. wp_step. wp_step.
  eapply wp_mono with (Q := λ _ s1, lg_file_open s1 = true ∧ lg_file_failed s1 = false
    ∧ lines s1 = lines s).
  { destruct (lg_console_output s); [|by wp_step]. apply wp_sys. cbn. split_and!; [done..|].
    apply ll_cerr. }
  cbv beta. intros _ s1 (Ho1 & Hf1 & Hl1). wp_step. wp_step. rewrite Ho1. cbn [negb]. wp_step.
  eapply wp_mono; [by apply append_line_once|]. intros _ s2 [Ho2 Hl2]. wp_step. wp_step.
  destruct (lg_file_failed s2) eqn:Hf2; cbn [negb].
  2: { wp_step. rewrite Ho2, Hf2. cbn. by rewrite Hl2, Hl1. }
  rewrite Hl1 in Hl2. wp_step. apply wp_sys. wp_step. apply wp_modify. wp_step.
  unfold open_log. wp_step. wp_step. wp_step. apply wp_sys. apply wp_modify. cbn.
  match goal with |- context [lk_open ?p ?w] => set (w1 := w); set (path := p) end.
  assert (ll_lines (lk_open path w1).2 = lines s) as Hl3.
  { rewrite ll_open. unfold w1. by rewrite ll_close. }
  do 2 wp_step. destruct (lk_open path w1).1 eqn:Eo.
  - eapply wp_mono; [by apply append_line_once|]. cbn. intros _ s4 [Ho4 Hl4]. rewrite Ho4, Hl4.
    unfold lines in *. cbn [lg_world]. rewrite Hl3. by destruct (lg_file_failed s4).
  - cbn [lg_file_open]. wp_step. wp_step. wp_step. apply wp_sys. apply wp_sys. unfold lines in *. cbn [lg_world].
    by rewrite ll_cerr, ll_error.
Qed.
End Facts.

(** ** A small console and file

    The answers of the next writes; a write succeeds when there is none left. *)
Record LogSim := MkLogSim { ls_lines : list string; ls_console : list string; ls_answers : list bool }.

#[export] Instance log_sim : KernelLog LogSim := {|
  lk_clock_ms w := (3723045, w);
  lk_localtime s w :=
    ({| tm_year := 1970; tm_mon := 1; tm_mday := 1; tm_hour := (s / 3600) `mod` 24;
        tm_min := (s / 60) `mod` 60; tm_sec := s `mod` 60 |}, w);
  lk_thread_hash w := (1, w);
  lk_cerr line w := (tt, MkLogSim (ls_lines w) (ls_console w ++ [line]) (ls_answers w));
  lk_open path w := (true, w);
  lk_append line w :=
    match ls_answers w with
    | false :: rest => (false, MkLogSim (ls_lines w) (ls_console w) rest)
    | answers => (true, MkLogSim (ls_lines w ++ [line]) (ls_console w) (tail answers))
    end;
  lk_close w := (tt, w);
  lk_error_text w := (EmptyString, w) |}.

#[export] Instance log_sim_laws : LogLaws LogSim.
Proof.
  refine {| ll_lines := ls_lines |}; try done.
  intros line w. cbn. by destruct (ls_answers w) as [|[] ?].
Defined.

#[local] Instance no_dump : JsonDump := λ _, "{}".

(** The first write of the line fails; the file is opened anew and has it once. *)
Example retried_line :
  let s := MkLogger (MkLogSim [] [] [false]) INFO "log" true false true false ∅ in
  lines (log WARN "Main" "stopped" s).2 = ["[01:02:03.045][WARN] Main: stopped"]
  ∧ lines (log DEBUG "Main" "stopped" s).2 = [].
Proof. by vm_compute. Qed.
