(* ===== verification/FileUtils.v ===== *)
(** * Files, /proc and cgroup paths ([utils/file_utils.hpp])

    The state of the process-wide caches of the namespace [FileUtils] is part
    of [Sys], next to the world of the operating system.  Cached entries carry
    the clock reading they were made at. *)

From S2P Require Import Prelude CppString ConfigTypes Kernel.

(** ** State *)

Record FileCacheEntry := { fce_content : string; fce_timestamp : Z }.
Record CgroupCacheEntry := { cce_path : string; cce_timestamp : Z }.

(** The file cache: contents by path, the recency list [file_cache_lru] whose
    nodes carry an identity (what a [std::list] iterator denotes), and
    [file_cache_order] from path to node. *)
Record FileCache := {
  fc_entries : gmap string FileCacheEntry;
  fc_lru : list (nat * string);
  fc_order : gmap string nat;
  fc_next : nat }.

Record Sys (W : Type) := MkSys {
  sys_world : W;
  sys_file_cache : FileCache;
  sys_cgroup_cache : gmap (Z * string) CgroupCacheEntry;
  sys_file_ttl_ms : Z;
  sys_cgroup_ttl_ms : Z }.
Arguments MkSys {W} _ _ _ _ _.
Arguments sys_world {W} _.
Arguments sys_file_cache {W} _.
Arguments sys_cgroup_cache {W} _.
Arguments sys_file_ttl_ms {W} _.
Arguments sys_cgroup_ttl_ms {W} _.

Definition empty_file_cache : FileCache :=
  {| fc_entries := ∅; fc_lru := []; fc_order := ∅; fc_next := 0 |}.
Definition init_sys {W} (w : W) : Sys W := MkSys w empty_file_cache ∅ 100 100.

Definition kMaxCacheSize : nat := 1000.
Definition kMaxCgroupCacheSize : nat := 1000.

Section Ops.
Context {W : Type}.

(** Runs a call of the operating system. *)
Definition os {A} (op : M W A) : M (Sys W) A :=
  λ s, let '(a, w) := op (sys_world s) in
       (a, MkSys w (sys_file_cache s) (sys_cgroup_cache s)
             (sys_file_ttl_ms s) (sys_cgroup_ttl_ms s)).

Definition on_file_cache (f : FileCache → FileCache) : M (Sys W) unit :=
  modify (λ s, MkSys (sys_world s) (f (sys_file_cache s)) (sys_cgroup_cache s)
                 (sys_file_ttl_ms s) (sys_cgroup_ttl_ms s)).
Definition on_cgroup_cache
    (f : gmap (Z * string) CgroupCacheEntry → gmap (Z * string) CgroupCacheEntry)
    : M (Sys W) unit :=
  modify (λ s, MkSys (sys_world s) (sys_file_cache s) (f (sys_cgroup_cache s))
                 (sys_file_ttl_ms s) (sys_cgroup_ttl_ms s)).

Definition set_cache_ttls (file_ttl_ms cgroup_ttl_ms : Z) : M (Sys W) unit :=
  modify (λ s, MkSys (sys_world s) (sys_file_cache s) (sys_cgroup_cache s)
                 file_ttl_ms cgroup_ttl_ms).
End Ops.

(** ** The recency list of the file cache *)

Definition list_erase (id : nat) (l : list (nat * string)) : list (nat * string) :=
  filter (λ n, n.1 ≠ id) l.

Definition touch_file_cache_entry (path : string) (c : FileCache) : FileCache :=
  let lru :=
    match fc_order c !! path with
    | Some id => list_erase id (fc_lru c)
    | None => fc_lru c
    end in
  {| fc_entries := fc_entries c;
     fc_lru := lru ++ [(fc_next c, path)];
     fc_order := <[path := fc_next c]> (fc_order c);
     fc_next := S (fc_next c) |}.

Definition erase_file_cache_entry (path : string) (c : FileCache) : FileCache :=
  match fc_order c !! path with
  | Some id =>
      {| fc_entries := delete path (fc_entries c);
         fc_lru := list_erase id (fc_lru c);
         fc_order := delete path (fc_order c);
         fc_next := fc_next c |}
  | None =>
      {| fc_entries := delete path (fc_entries c);
         fc_lru := fc_lru c; fc_order := fc_order c; fc_next := fc_next c |}
  end.

(** The insertion at the end of [read_file]. *)
Definition store_file_cache_entry (path content : string) (now : Z) (c : FileCache)
    : FileCache :=
  let replacing := bool_decide (is_Some (fc_entries c !! path)) in
  let c :=
    if negb replacing && (kMaxCacheSize <=? size (fc_entries c))%nat
    then match fc_lru c with
         | (_, oldest) :: _ => erase_file_cache_entry oldest c
         | [] => c
         end
    else c in
  touch_file_cache_entry path
    {| fc_entries := <[path := {| fce_content := content; fce_timestamp := now |}]> (fc_entries c);
       fc_lru := fc_lru c; fc_order := fc_order c; fc_next := fc_next c |}.

Definition is_dynamic_kernel_path (path : string) : bool :=
  starts_with "/proc/" path || starts_with "/dev/cpuset/" path
  || starts_with "/dev/cpuctl/" path.

(** Removes the newlines at the end. *)
Definition strip_newlines (s : string) : string :=
  let fix go (l : list ascii) : list ascii :=
    match l with
    | c :: l' => if decide (c = LF) then go l' else l
    | [] => []
    end in
  str (rev (go (rev (chars s)))).

(** ** Reading and writing files *)

Section Files.
Context {W : Type} `{!Kernel W}.

Definition file_exists (path : string) : M (Sys W) bool :=
  r ← os (k_stat path); mret (bool_decide (is_Some r)).
Definition dir_exists (path : string) : M (Sys W) bool :=
  r ← os (k_stat path); mret (default false r).

(** [path.substr(0, pos)] for every [pos > 0] with [path[pos] == '/']. *)
Fixpoint slash_prefixes (pre l : list ascii) : list string :=
  match l with
  | [] => []
  | c :: l' =>
      (if decide (c = "/"%char ∧ pre ≠ []) then [str (rev pre)] else [])
      ++ slash_prefixes (c :: pre) l'
  end.

Definition make_dir (dir : string) : M (Sys W) bool :=
  r ← os (k_mkdir dir);
  mret (match r with MkdirError => false | _ => true end).

Fixpoint make_dirs (dirs : list string) : M (Sys W) bool :=
  match dirs with
  | [] => mret true
  | dir :: dirs' =>
      present ← dir_exists dir;
      if (present : bool) then make_dirs dirs'
      else
        ok ← make_dir dir;
        if (ok : bool) then make_dirs dirs' else mret false
  end.

Definition mkdir_recursive (path : string) : M (Sys W) bool :=
  present ← dir_exists path;
  if (present : bool) then mret true
  else
    parents ← make_dirs (slash_prefixes [] (chars path));
    if negb parents then mret false
    else
      present ← dir_exists path;
      if (present : bool) then mret true else make_dir path.

(** The [write] loop.  [fuel] bounds the number of calls; [None] when it runs
    out, which [write_loop_total] excludes. *)
Fixpoint write_loop (fuel : nat) (fd : Z) (content : list ascii)
    : M (Sys W) (option bool) :=
  match content with
  | [] => mret (Some true)
  | _ =>
      match fuel with
      | O => mret None
      | S fuel' =>
          r ← os (k_write fd content);
          match r with
          | WriteEintr => write_loop fuel' fd content
          | WriteError => mret (Some false)
          | Wrote n =>
              if n =? 0 then mret (Some false)
              else write_loop fuel' fd (drop (Z.to_nat n) content)
          end
      end
  end.

Definition invalidate_file_cache (path : string) : M (Sys W) unit :=
  on_file_cache (erase_file_cache_entry path).

Definition write_open_file (path content : string) (create : bool) : M (Sys W) bool :=
  fd ← os (k_open path create);
  match fd with
  | None => mret false
  | Some fd =>
      w ← gets sys_world;
      written ← write_loop (length (chars content) + k_eintr_budget w) fd (chars content);
      _ ← os (k_close fd);
      match written with
      | Some true => _ ← invalidate_file_cache path; mret true
      | _ => mret false
      end
  end.

Definition write_file (path content : string) : M (Sys W) bool :=
  write_open_file path content true.
Definition write_kernel_control_file (path content : string) : M (Sys W) bool :=
  write_open_file path content false.

(** The entry of the file cache while it is younger than the TTL. *)
Definition cached_file (path : string) (now : Z) (s : Sys W) : option string :=
  match fc_entries (sys_file_cache s) !! path with
  | Some e =>
      if to_ms (now - fce_timestamp e) <? sys_file_ttl_ms s
      then Some (fce_content e) else None
  | None => None
  end.

Definition read_file (path : string) : M (Sys W) string :=
  let cacheable := negb (is_dynamic_kernel_path path) in
  now ← os k_now;
  cached ← (if cacheable then gets (cached_file path now) else mret None);
  match cached with
  | Some content => _ ← on_file_cache (touch_file_cache_entry path); mret content
  | None =>
      text ← os (k_read path);
      match text with
      | None => mret EmptyString
      | Some text =>
          let content := strip_newlines text in
          _ ← (if cacheable then on_file_cache (store_file_cache_entry path content now)
               else mret tt);
          mret content
      end
  end.

Definition write_cgroup_tasks (path : string) (tid : Z) : M (Sys W) bool :=
  write_kernel_control_file (path +:+ "/tasks") (to_string tid).
End Files.

(** ** Identifiers *)

Definition is_valid_pid (pid : Z) : bool := (0 <? pid) && (pid <=? INT_MAX).
Definition is_valid_tid (tid : Z) : bool := (0 <? tid) && (tid <=? INT_MAX).

Definition is_all_digits (s : list ascii) : bool :=
  match s with [] => false | _ => forallb isdigit s end.

(** A directory entry that names a process or thread. *)
Definition parse_id (name : list ascii) : option Z :=
  if negb (is_all_digits name) then None
  else
    let r := strtol name in
    if negb (st_erange r) && st_converted r && at_nul (st_end r) && is_valid_pid (st_value r)
    then Some (st_value r) else None.

(** ** Parsing /proc *)

(** Field 22 of [stat], counted from the last closing parenthesis; 0 when the
    text is malformed. *)
Definition parse_start_time_from_stat (stat : string) : Z :=
  let l := chars stat in
  match rfind_char ")"%char l with
  | None => 0
  | Some closing_paren =>
      if (length l <=? closing_paren + 2)%nat then 0
      else
        let fields := getlines " "%char (drop (closing_paren + 2) l) in
        match fields !! 19%nat with
        | None => 0
        | Some [] => 0
        | Some field =>
            let r := strtoull field in
            if negb (st_erange r) && st_converted r && at_nul (st_end r)
            then st_value r else 0
        end
  end.

Definition parse_process_name_from_status (status_content : string) : string :=
  if decide (status_content = EmptyString) then "[dead]"
  else
    match String.index 0 "Name:" status_content with
    | None => "[dead]"
    | Some start =>
        let rest := drop (start + 5) (chars status_content) in
        let fix skip (l : list ascii) : list ascii :=
          match l with
          | c :: l' => if decide (c = " "%char ∨ c = TAB) then skip l' else l
          | [] => []
          end in
        let rest := skip rest in
        match find_char LF rest with
        | None => "[dead]"
        | Some n => str (take n rest)
        end
    end.

(** The [Tgid:] line of [status] names [pid]. *)
Definition status_tgid_is (pid : Z) (status : string) : bool :=
  let fix scan (ls : list (list ascii)) : bool :=
    match ls with
    | [] => false
    | line :: ls' =>
        if decide (take 5 line = chars "Tgid:") then
          let r := strtol (drop 5 line) in
          negb (st_erange r) && st_converted r && is_valid_pid (st_value r)
          && (st_value r =? pid)
        else scan ls'
    end in
  scan (getlines LF (chars status)).

Section Proc.
Context {W : Type} `{!Kernel W}.

Definition proc_path (pid : Z) (file : string) : string :=
  "/proc/" +:+ to_string pid +:+ "/" +:+ file.
Definition task_path (pid tid : Z) (file : string) : string :=
  "/proc/" +:+ to_string pid +:+ "/task/" +:+ to_string tid +:+ "/" +:+ file.

Definition get_process_start_time (pid : Z) : M (Sys W) Z :=
  if negb (is_valid_pid pid) then mret 0
  else stat ← read_file (proc_path pid "stat"); mret (parse_start_time_from_stat stat).

Definition get_thread_start_time (pid tid : Z) : M (Sys W) Z :=
  if negb (is_valid_pid pid) || negb (is_valid_tid tid) then mret 0
  else stat ← read_file (task_path pid tid "stat"); mret (parse_start_time_from_stat stat).

Definition is_thread_in_process (pid tid : Z) : M (Sys W) bool :=
  if negb (is_valid_pid pid) || negb (is_valid_tid tid) then mret false
  else
    status ← read_file (task_path pid tid "status");
    if decide (status = EmptyString) then mret false
    else mret (status_tgid_is pid status).

Definition get_process_cmdline (pid : Z) : M (Sys W) string :=
  cmdline ← read_file (proc_path pid "cmdline");
  mret (match find_char NUL (chars cmdline) with
        | Some pos => str (take pos (chars cmdline))
        | None => cmdline
        end).

Definition get_thread_comm (pid tid : Z) : M (Sys W) string :=
  comm ← read_file (task_path pid tid "comm");
  mret (if decide (comm = EmptyString) then "[dead]" else comm).

Definition get_process_name_from_status (pid : Z) : M (Sys W) string :=
  status ← read_file (proc_path pid "status");
  mret (parse_process_name_from_status status).

Definition get_thread_name (pid tid : Z) : M (Sys W) string := get_thread_comm pid tid.
End Proc.

(** ** Cgroup paths *)

(** A line [hierarchy:controllers:path]: its controllers and its path. *)
Definition parse_cgroup_line (line : list ascii) : option (list (list ascii) * list ascii) :=
  match find_char ":"%char line with
  | None => None
  | Some first_colon =>
      let rest := drop (S first_colon) line in
      match find_char ":"%char rest with
      | None => None
      | Some n => Some (getlines ","%char (take n rest), drop (S n) rest)
      end
  end.

(** The first line that lists [controller] with a non-empty path. *)
Fixpoint find_controller (controller : list ascii) (lines : list (list ascii)) : list ascii :=
  match lines with
  | [] => []
  | line :: lines' =>
      match parse_cgroup_line line with
      | None => find_controller controller lines'
      | Some (controllers, path) =>
          let result := if decide (controller ∈ controllers) then path else [] in
          match result with [] => find_controller controller lines' | _ => result end
      end
  end.

Definition cgroup_path_of (cgroups controller : string) : string :=
  str (find_controller (chars controller) (getlines LF (chars cgroups))).

Record ThreadCgroupPaths := { tcp_cpuset : string; tcp_cpuctl : string; tcp_readable : bool }.

Definition no_cgroup_paths : ThreadCgroupPaths :=
  {| tcp_cpuset := EmptyString; tcp_cpuctl := EmptyString; tcp_readable := false |}.

(** One controller of a line: later lines win. *)
Definition record_controller (path : list ascii) (p : ThreadCgroupPaths) (controller : list ascii)
    : ThreadCgroupPaths :=
  if decide (controller = chars "cpuset")
  then {| tcp_cpuset := str path; tcp_cpuctl := tcp_cpuctl p; tcp_readable := tcp_readable p |}
  else if decide (controller = chars "cpu" ∨ controller = chars "cpuctl")
  then {| tcp_cpuset := tcp_cpuset p; tcp_cpuctl := str path; tcp_readable := tcp_readable p |}
  else p.

Definition record_line (p : ThreadCgroupPaths) (line : list ascii) : ThreadCgroupPaths :=
  match parse_cgroup_line line with
  | None => p
  | Some (controllers, path) => fold_left (record_controller path) controllers p
  end.

Definition parse_thread_cgroups (cgroups : string) : ThreadCgroupPaths :=
  fold_left record_line (getlines LF (chars cgroups))
    {| tcp_cpuset := EmptyString; tcp_cpuctl := EmptyString; tcp_readable := true |}.

Inductive CgroupState := CgTOP | CgFG | CgBG | CgOTHER.

#[export] Instance CgroupState_eq_dec : EqDecision CgroupState.
Proof. solve_decision. Defined.

Definition cgroup_path_to_state (path : string) : CgroupState :=
  if contains "top-app" path then CgTOP
  else if contains "foreground" path then CgFG
  else if contains "background" path || contains "system-background" path then CgBG
  else CgOTHER.

Definition cgroup_paths_to_state (cpu_path cpuset_path : string) : CgroupState :=
  let cpu_state := cgroup_path_to_state cpu_path in
  if decide (cpu_state ≠ CgOTHER) then cpu_state else cgroup_path_to_state cpuset_path.

Record CgroupStateInfo := { csi_state : CgroupState; csi_reuperf_owned : bool }.

Definition is_reuperf_cpuset_path (cpuset_path : string) : bool :=
  starts_with "/top-app/ReUperf_" cpuset_path || starts_with "/ReUperf_" cpuset_path.

Definition cgroup_paths_to_state_info (cpu_path cpuset_path : string) : CgroupStateInfo :=
  let reuperf_owned :=
    starts_with "/ReUperf/" cpu_path || is_reuperf_cpuset_path cpuset_path in
  let cpu_state := cgroup_path_to_state cpu_path in
  if decide (cpu_state ≠ CgOTHER)
  then {| csi_state := cpu_state; csi_reuperf_owned := reuperf_owned |}
  else if (reuperf_owned : bool)
  then {| csi_state := CgOTHER; csi_reuperf_owned := true |}
  else {| csi_state := cgroup_path_to_state cpuset_path; csi_reuperf_owned := false |}.

(** The keys of the cgroup cache: a process by its number, a thread by process
    and thread number in one 64-bit word. *)
Definition process_cgroup_key (pid : Z) : Z := to_uint32 pid.
Definition thread_cgroup_key (pid tid : Z) : Z :=
  Z.lor (Z.shiftl (to_uint32 pid) 32) (to_uint32 tid).

(** Entries at least as old as the TTL are dropped once the cache is full, and
    then an arbitrary one if that freed nothing. *)
Definition trim_cgroup_cache (now ttl : Z) (cache : gmap (Z * string) CgroupCacheEntry)
    : gmap (Z * string) CgroupCacheEntry :=
  if (kMaxCgroupCacheSize <=? size cache)%nat then
    let cache := filter (λ kv, to_ms (now - cce_timestamp kv.2) < ttl) cache in
    if (kMaxCgroupCacheSize <=? size cache)%nat then
      match map_to_list cache with
      | (k, _) :: _ => delete k cache
      | [] => cache
      end
    else cache
  else cache.

Section Cgroups.
Context {W : Type} `{!Kernel W}.

Definition cached_cgroup (key : Z * string) (now : Z) (s : Sys W) : option string :=
  match sys_cgroup_cache s !! key with
  | Some e =>
      if to_ms (now - cce_timestamp e) <? sys_cgroup_ttl_ms s then Some (cce_path e) else None
  | None => None
  end.

Definition get_cgroup_path_from_file (cgroup_file : string) (cache_pid : Z)
    (controller : string) : M (Sys W) string :=
  now ← os k_now;
  cached ← gets (cached_cgroup (cache_pid, controller) now);
  match cached with
  | Some path => mret path
  | None =>
      cgroups ← read_file cgroup_file;
      let result := cgroup_path_of cgroups controller in
      ttl ← gets sys_cgroup_ttl_ms;
      _ ← on_cgroup_cache (λ cache,
            <[(cache_pid, controller) := {| cce_path := result; cce_timestamp := now |}]>
              (trim_cgroup_cache now ttl cache));
      mret result
  end.

Definition get_cgroup_path (pid : Z) (controller : string) : M (Sys W) string :=
  get_cgroup_path_from_file (proc_path pid "cgroup") (process_cgroup_key pid) controller.

Definition get_thread_cgroup_path (pid tid : Z) (controller : string) : M (Sys W) string :=
  get_cgroup_path_from_file (task_path pid tid "cgroup") (thread_cgroup_key pid tid)
    controller.

Definition get_thread_cgroup_paths_uncached (pid tid : Z) : M (Sys W) ThreadCgroupPaths :=
  if negb (is_valid_pid pid) || negb (is_valid_tid tid) then mret no_cgroup_paths
  else
    cgroups ← read_file (task_path pid tid "cgroup");
    if decide (cgroups = EmptyString) then mret no_cgroup_paths
    else mret (parse_thread_cgroups cgroups).

Definition get_cgroup_state_info (pid : Z) : M (Sys W) CgroupStateInfo :=
  cpu ← get_cgroup_path pid "cpu";
  cpuset ← get_cgroup_path pid "cpuset";
  mret (cgroup_paths_to_state_info cpu cpuset).

Definition get_cgroup_state (pid : Z) : M (Sys W) CgroupState :=
  info ← get_cgroup_state_info pid; mret (csi_state info).

(** The process a cache key belongs to. *)
Definition key_pid (key : Z) : Z :=
  let high := to_int32 (Z.shiftr key 32) in
  if high =? 0 then to_int32 key else high.

Definition invalidate_process_caches (pid : Z) : M (Sys W) unit :=
  if negb (is_valid_pid pid) then mret tt
  else on_cgroup_cache (λ cache, filter (λ kv, key_pid kv.1.1 ≠ pid) cache).
End Cgroups.
