(* ===== verification/FileFacts.v ===== *)
(** * Properties of the file layer

    The [stat] line parser, the write loop, the recency list of the file
    cache, the cgroup cache and the classification of cgroup paths. *)

From S2P Require Import Prelude CppString ConfigTypes Kernel FileUtils.

(** ** Parsing [/proc/<pid>/stat] *)

(** Words separated by single spaces. *)
Fixpoint join_words (ws : list (list ascii)) : list ascii :=
  match ws with
  | [] => []
  | w :: ws' => w ++ " "%char :: join_words ws'
  end.

(** The line the kernel prints: process number, command in parentheses, then
    the numeric fields. *)
Definition render_stat (pid comm : string) (fields : list (list ascii)) (start : Z)
    (rest : list ascii) : string :=
  str (chars pid ++ chars " (" ++ chars comm ++ ")"%char :: " "%char
       :: join_words fields ++ chars (to_string start) ++ rest).

Lemma getlines_join d ws tail :
  d = " "%char → Forall (λ w, d ∉ w) ws →
  getlines d (join_words ws ++ tail) = ws ++ getlines d tail.
Proof.
  intros ->. induction 1 as [|w ws Hw _ IH]; simpl; [done|].
  rewrite <-(assoc_L (++)). simpl. rewrite getlines_cons by done. by rewrite IH.
Qed.

Lemma digits_no_char c z :
  0 ≤ z → digit c = None → c ∉ chars (to_string z).
Proof.
  intros Hz Hc Hin. destruct (to_string_digits z Hz) as (ds & Heq & _ & Hall & _).
  rewrite Heq in Hin. rewrite Forall_forall in Hall. apply Hall in Hin as [? ?]. congruence.
Qed.

Lemma join_words_no_char c ws :
  c ≠ " "%char → Forall (λ w, c ∉ w) ws → c ∉ join_words ws.
Proof.
  intros Hc. induction 1 as [|w ws Hw _ IH]; simpl; [apply not_elem_of_nil|].
  rewrite not_elem_of_app, not_elem_of_cons. done.
Qed.

Definition plain_field (w : list ascii) : Prop := " "%char ∉ w ∧ ")"%char ∉ w.

(** What follows the start time: nothing, or a space and further fields. *)
Definition stat_tail (rest : list ascii) : Prop :=
  rest = [] ∨ ∃ more, rest = " "%char :: more ∧ ")"%char ∉ more.

Lemma stat_roundtrip pid comm fields start rest :
  length fields = 19%nat → Forall plain_field fields → 0 ≤ start < UINT64_MOD →
  stat_tail rest →
  parse_start_time_from_stat (render_stat pid comm fields start rest) = start.
Proof.
  intros Hlen Hf Hs Hrest. unfold parse_start_time_from_stat, render_stat. rewrite chars_str.
  set (body := join_words fields ++ chars (to_string start) ++ rest).
  assert (")"%char ∉ " "%char :: body) as Hpar.
  { unfold body. rewrite not_elem_of_cons, !not_elem_of_app. split; [done|]. split.
    - apply join_words_no_char; [done|]. eapply Forall_impl; [exact Hf|]. by intros w [].
    - split; [by apply digits_no_char; [lia|]|].
      destruct Hrest as [->|(more & -> & Hm)]; [apply not_elem_of_nil|].
      by rewrite not_elem_of_cons. }
  set (pre := chars pid ++ chars " (" ++ chars comm).
  replace (chars pid ++ chars " (" ++ chars comm ++ ")"%char :: " "%char :: body)
    with (pre ++ ")"%char :: " "%char :: body) by (unfold pre; by rewrite <-!(assoc_L (++))).
  rewrite rfind_char_here by done.
  assert (chars (to_string start) ≠ []) as Hne by (apply to_string_nonempty; lia).
  rewrite length_app. simpl length.
  replace (_ <=? _)%nat with false.
  2: { symmetry. apply Nat.leb_gt. unfold body. rewrite !length_app.
       destruct (chars (to_string start)); simpl; [done|lia]. }
  replace (length pre + 2)%nat with (length (pre ++ [")"%char; " "%char])) by
    (rewrite length_app; done).
  replace (pre ++ ")"%char :: " "%char :: body) with ((pre ++ [")"%char; " "%char]) ++ body)
    by (by rewrite <-(assoc_L (++))).
  rewrite drop_app_length. unfold body.
  rewrite getlines_join; [|done|eapply Forall_impl; [exact Hf|by intros w []]].
  rewrite lookup_app_r by lia. rewrite Hlen. simpl.
  assert (" "%char ∉ chars (to_string start)) as Hsp by (apply digits_no_char; [lia|done]).
  assert (getlines " "%char (chars (to_string start) ++ rest) !! 0%nat
    = Some (chars (to_string start))) as ->.
  { destruct Hrest as [->|(more & -> & _)].
    - rewrite app_nil_r. by rewrite getlines_single.
    - by rewrite getlines_cons. }
  destruct (chars (to_string start)) as [|c l] eqn:E; [done|]. rewrite <-E.
  rewrite <-(app_nil_r (chars (to_string start))), strtoull_to_string by done. done.
Qed.

(** ** The write loop *)

(** The bytes a sequence of calls (oldest first) transferred. *)
Fixpoint transferred (calls : list kcall) : list ascii :=
  match calls with
  | [] => []
  | KWrite _ s (Wrote n) :: calls' => take (Z.to_nat n) s ++ transferred calls'
  | _ :: calls' => transferred calls'
  end.

Lemma transferred_app l1 l2 : transferred (l1 ++ l2) = transferred l1 ++ transferred l2.
Proof.
  induction l1 as [|c l1 IH]; simpl; [done|].
  destruct c as [| | | | |fd s []| | | | | | | | |]; try done. by rewrite IH, (assoc_L (++)).
Qed.

(** A write that transfers nothing although it was not interrupted. *)
Definition refused (c : kcall) : bool :=
  match c with KWrite _ _ WriteError => true | KWrite _ _ (Wrote n) => n =? 0 | _ => false end.

(** The writes of [content] to [fd], oldest first: each offers exactly what is
    left, none but the last is refused, and the last is when and only when the
    outcome is a failure. *)
Record write_session (fd : Z) (content : list ascii) (ok : bool) (calls : list kcall) : Prop := {
  ws_offer pre c post :
    calls = pre ++ c :: post →
    ∃ r, c = KWrite fd (drop (length (transferred pre)) content) r;
  ws_go_on pre c post : calls = pre ++ c :: post → refused c = true → post = [] ∧ ok = false;
  ws_failed : ok = false → ∃ pre c, calls = pre ++ [c] ∧ refused c = true;
  ws_prefix : transferred calls `prefix_of` content;
  ws_success : ok = true ↔ transferred calls = content }.

Lemma ws_writes fd content ok calls :
  write_session fd content ok calls → Forall (λ c, ∃ l r, c = KWrite fd l r) calls.
Proof.
  intros Hws. apply Forall_forall. intros c (pre & post & ->)%list_elem_of_split.
  destruct (ws_offer _ _ _ _ Hws pre c post eq_refl) as [r ->]. eauto.
Qed.

Lemma ws_nil fd : write_session fd [] true [].
Proof. split; try done; by intros []. Qed.

Lemma ws_refused fd l r :
  l ≠ [] → refused (KWrite fd l r) = true → write_session fd l false [KWrite fd l r].
Proof.
  intros Hl Hr. assert (transferred [KWrite fd l r] = []) as Ht.
  { destruct r as [n| |]; try done. cbn in Hr. apply Z.eqb_eq in Hr as ->. done. }
  split.
  - intros [|c0 pre] c post; [|by destruct pre]. intros [= <- <-]. by exists r.
  - intros [|c0 pre] c post; [|by destruct pre]. by intros [= <- <-] _.
  - intros _. by exists [], (KWrite fd l r).
  - rewrite Ht. apply prefix_nil.
  - rewrite Ht. split; [done|]. intros <-. done.
Qed.

(** A write that was interrupted or short is followed by the rest. *)
Lemma ws_cons fd l r ok calls :
  let n := length (transferred [KWrite fd l r]) in
  transferred [KWrite fd l r] = take n l → refused (KWrite fd l r) = false →
  write_session fd (drop n l) ok calls → write_session fd l ok (KWrite fd l r :: calls).
Proof.
  intros n Hn Hr [Ho Hg Hf Hp Hs]. set (c0 := KWrite fd l r) in *.
  assert (∀ calls', transferred (c0 :: calls') = take n l ++ transferred calls') as Ht.
  { intros calls'. change (c0 :: calls') with ([c0] ++ calls'). by rewrite transferred_app, Hn. }
  split.
  - intros [|c1 pre] c post; cbn [app]; intros [= <- ->]; [by exists r|].
    destruct (Ho pre c post eq_refl) as [r' ->]. exists r'.
    by rewrite Ht, length_app, <-drop_drop, <-Hn.
  - intros [|c1 pre] c post; cbn [app]; intros [= <- ->] Hc; [congruence|]. by apply (Hg pre c).
  - intros Hok. destruct (Hf Hok) as (pre & c & -> & Hc). by exists (c0 :: pre), c.
  - rewrite Ht. rewrite <-(take_drop n l) at 2. by apply prefix_app.
  - rewrite Ht, Hs. split; [intros ->; apply take_drop|]. intros Heq.
    apply (app_inv_head (take n l)). by rewrite Heq, take_drop.
Qed.

Section WriteLoop.
Context {W : Type} `{!Kernel W} `{!KernelLaws W}.
Implicit Types s : Sys (Traced W).

Lemma write_loop_spec fuel fd content s :
  (length content + k_eintr_budget (sys_world s) ≤ fuel)%nat →
  ∃ ok calls s', write_loop fuel fd content s = (Some ok, s')
    ∧ tr_calls (sys_world s') = rev calls ++ tr_calls (sys_world s)
    ∧ write_session fd content ok calls.
Proof.
  revert content s. induction fuel as [|fuel IH]; intros content s Hfuel.
  { destruct content; [|simpl in Hfuel; lia].
    exists true, [], s. split_and!; [done..|apply ws_nil]. }
  destruct content as [|c content]; [exists true, [], s; split_and!; [done..|apply ws_nil]|].
  cbn [write_loop]. set (l := c :: content) in *.
  rewrite bind_run. unfold os. destruct s as [[w tr] fc cc t1 t2]. simpl in *.
  unfold traced. simpl. pose proof (k_write_progress fd l w) as Hlaw.
  assert (length l ≠ 0%nat) as Hl by done. assert (l ≠ []) as Hne by done.
  destruct (k_write fd l w) as [[n| |] w'].
  - destruct Hlaw as [Hn Hb]. destruct (Z.eqb_spec n 0) as [->|Hn0].
    + exists false, [KWrite fd l (Wrote 0)]. eexists. split_and!; [done..|by apply ws_refused].
    + set (s1 := MkSys _ _ _ _ _).
      destruct (IH (drop (Z.to_nat n) l) s1) as (ok & calls & s' & Hr & Htr & Hws).
      { rewrite length_drop. simpl. lia. }
      rewrite Hr. exists ok, (KWrite fd l (Wrote n) :: calls), s'. split; [done|].
      split; [simpl; rewrite Htr; by rewrite <-(assoc_L (++))|].
      assert (length (transferred [KWrite fd l (Wrote n)]) = Z.to_nat n) as Hlen.
      { cbn [transferred]. rewrite app_nil_r, length_take. lia. }
      apply ws_cons; rewrite ?Hlen; [cbn [transferred]; by rewrite app_nil_r|by apply Z.eqb_neq|done].
  - set (s1 := MkSys _ _ _ _ _).
    destruct (IH l s1) as (ok & calls & s' & Hr & Htr & Hws); [simpl; lia|].
    rewrite Hr. exists ok, (KWrite fd l WriteEintr :: calls), s'. split; [done|].
    split; [simpl; rewrite Htr; by rewrite <-(assoc_L (++))|]. by apply ws_cons.
  - exists false, [KWrite fd l WriteError]. eexists. split_and!; [done..|by apply ws_refused].
Qed.

(** A file that cannot be opened is left alone; otherwise its content is
    written through one descriptor, which is closed again. *)
Lemma write_open_file_spec path content create s :
  wp (write_open_file path content create) (λ ok s',
    (ok = false ∧ tr_calls (sys_world s') = KOpen path create None :: tr_calls (sys_world s))
    ∨ ∃ fd calls,
        tr_calls (sys_world s') =
          KClose fd :: rev calls ++ KOpen path create (Some fd) :: tr_calls (sys_world s)
        ∧ write_session fd (chars content) ok calls) s.
Proof.
  destruct s as [[w tr] fc cc t1 t2]. unfold write_open_file. wp_step.
  unfold wp at 1, os at 1. cbn. unfold traced. cbn.
  destruct (k_open path create w) as [[fd|] w1]; cbn; [|by left].
  do 3 wp_step.
  match goal with |- wp (write_loop ?f _ _) _ ?s1 =>
    destruct (write_loop_spec f fd (chars content) s1)
      as (ok & calls & s' & Hr & Htr & Hws); [simpl; lia|] end.
  unfold wp at 1. rewrite Hr. wp_step.
  destruct s' as [[w2 tr2] fc2 cc2 t3 t4]. unfold wp at 1, os, traced. cbn in *.
  destruct (k_close fd w2) as [[] w3]. cbn. subst tr2.
  destruct ok; cbn; right; exists fd, calls; done.
Qed.
End WriteLoop.

(** ** The recency list of the file cache *)

(** What the three containers of the cache must satisfy together: the nodes of
    the list have distinct identities below [fc_next], [fc_order] is exactly
    the inverse of the list, and the same paths have an entry and a node. *)
Record lru_wf (c : FileCache) : Prop := {
  lw_nodup : NoDup (fc_lru c).*1;
  lw_next : ∀ id p, (id, p) ∈ fc_lru c → (id < fc_next c)%nat;
  lw_order : ∀ p id, fc_order c !! p = Some id ↔ (id, p) ∈ fc_lru c;
  lw_dom : dom (fc_entries c) = dom (fc_order c);
  lw_size : (size (fc_entries c) ≤ kMaxCacheSize)%nat }.

(** The specification: the paths in order of their last use, oldest first. *)
Definition recency (c : FileCache) : list string := (fc_lru c).*2.
Definition use_path (p : string) (r : list string) : list string :=
  filter (λ q, q ≠ p) r ++ [p].
Definition store_path (p : string) (r : list string) : list string :=
  if bool_decide (p ∈ r) then use_path p r
  else if (kMaxCacheSize <=? length r)%nat then use_path p (tail r)
  else use_path p r.

Lemma list_erase_elem id l n : n ∈ list_erase id l ↔ n ∈ l ∧ n.1 ≠ id.
Proof. unfold list_erase. rewrite list_elem_of_filter. tauto. Qed.

Lemma list_erase_fst id l : (list_erase id l).*1 = filter (λ i, i ≠ id) l.*1.
Proof. exact (fmap_filter (A := nat * string) fst (λ i, i ≠ id) l). Qed.

Lemma list_erase_nodup id l : NoDup l.*1 → NoDup (list_erase id l).*1.
Proof. rewrite list_erase_fst. apply NoDup_filter. Qed.

Lemma lru_node_unique (l : list (nat * string)) i p q :
  NoDup l.*1 → (i, p) ∈ l → (i, q) ∈ l → p = q.
Proof.
  intros Hnd [a Ha]%list_elem_of_lookup [b Hb]%list_elem_of_lookup.
  assert (a = b) as ->; [|congruence].
  eapply NoDup_lookup; [exact Hnd| |]; rewrite list_lookup_fmap; [by rewrite Ha|by rewrite Hb].
Qed.

Lemma empty_file_cache_wf : lru_wf empty_file_cache.
Proof.
  split; cbn.
  - constructor.
  - by intros id p ?%elem_of_nil.
  - intros p id. rewrite lookup_empty. split; [done|by intros ?%elem_of_nil].
  - done.
  - rewrite map_size_empty. unfold kMaxCacheSize. lia.
Qed.

Lemma lru_wf_recency_nodup c : lru_wf c → NoDup (recency c).
Proof.
  intros [Hnd _ Hord _ _]. unfold recency.
  assert (∀ i j p, (i, p) ∈ fc_lru c → (j, p) ∈ fc_lru c → i = j) as Hfun.
  { intros i j p Hi%Hord Hj%Hord. congruence. }
  clear Hord. revert Hfun. induction (fc_lru c) as [|[i p] l IH]; intros Hfun; simpl in *;
    [constructor|].
  apply NoDup_cons in Hnd as [Hi Hnd]. constructor.
  - intros ([j q] & Hq & Hin)%list_elem_of_fmap. simpl in Hq. subst q.
    assert (i = j) by (apply (Hfun i j p); [left|by right]). subst j.
    apply Hi. apply list_elem_of_fmap. by exists (i, p).
  - apply IH; [done|]. intros ? ? ? ? ?. eapply Hfun; by right.
Qed.

Lemma recency_elem c p : lru_wf c → p ∈ recency c ↔ is_Some (fc_entries c !! p).
Proof.
  intros Hwf. rewrite <-elem_of_dom, (lw_dom c Hwf), elem_of_dom. unfold recency.
  rewrite list_elem_of_fmap. split.
  - intros ([id q] & -> & Hin). exists id. by apply (lw_order c Hwf).
  - intros [id Hid]. exists (id, p). split; [done|]. by apply (lw_order c Hwf).
Qed.

Lemma recency_length c : lru_wf c → length (recency c) = size (fc_entries c).
Proof.
  intros Hwf. rewrite <-(size_dom (D := gset string)).
  rewrite <-(size_list_to_set (C := gset string) (recency c))
    by by apply lru_wf_recency_nodup.
  f_equal. apply set_eq. intros p. rewrite elem_of_list_to_set, elem_of_dom.
  by apply recency_elem.
Qed.

(** Erasing a node by its identity erases the nodes of its path. *)
Lemma list_erase_order c p id n :
  lru_wf c → fc_order c !! p = Some id →
  n ∈ list_erase id (fc_lru c) ↔ n ∈ fc_lru c ∧ n.2 ≠ p.
Proof.
  intros Hwf Hid. rewrite list_erase_elem. destruct n as [i q]. cbn.
  split; intros [Hin Hne]; (split; [done|]); intros ->; apply Hne; clear Hne.
  - apply (lw_order c Hwf) in Hin. congruence.
  - apply (lw_order c Hwf) in Hid.
    by apply (lru_node_unique (fc_lru c) id); [apply (lw_nodup c Hwf)| |].
Qed.

Lemma list_erase_snd c p id :
  lru_wf c → fc_order c !! p = Some id →
  (list_erase id (fc_lru c)).*2 = filter (λ q, q ≠ p) (recency c).
Proof.
  intros Hwf Hid.
  assert (∀ n, n ∈ fc_lru c → n.1 ≠ id ↔ n.2 ≠ p) as Hiff.
  { intros n Hin. pose proof (list_erase_order c p id n Hwf Hid) as H.
    rewrite list_erase_elem in H. tauto. }
  unfold recency, list_erase. revert Hiff. clear. induction (fc_lru c) as [|[i q] l IH];
    intros Hiff; [done|].
  rewrite fmap_cons, !filter_cons.
  pose proof (Hiff (i, q) ltac:(left)) as H0. simpl in H0.
  assert (∀ n, n ∈ l → n.1 ≠ id ↔ n.2 ≠ p) as Hl by (intros; apply Hiff; by right).
  specialize (IH Hl). repeat case_decide; csimpl; rewrite ?IH; tauto.
Qed.

Lemma filter_absent p (r : list string) : p ∉ r → filter (λ q, q ≠ p) r = r.
Proof.
  induction r as [|q r IH]; intros Hp; [done|]. rewrite filter_cons.
  apply not_elem_of_cons in Hp as [? ?]. rewrite decide_True by done. by rewrite IH.
Qed.

Definition with_entries (entries : gmap string FileCacheEntry) (c : FileCache) : FileCache :=
  {| fc_entries := entries; fc_lru := fc_lru c; fc_order := fc_order c; fc_next := fc_next c |}.

Lemma touch_recency c p entries :
  lru_wf c → recency (touch_file_cache_entry p (with_entries entries c)) = use_path p (recency c).
Proof.
  intros Hwf. unfold touch_file_cache_entry, use_path, with_entries. cbn [fc_order fc_lru].
  unfold recency at 1. cbn [fc_lru]. rewrite fmap_app. f_equal.
  destruct (fc_order c !! p) as [id|] eqn:E; [by apply list_erase_snd|].
  symmetry. apply filter_absent. rewrite (recency_elem c p Hwf).
  rewrite <-elem_of_dom, (lw_dom c Hwf), elem_of_dom, E. by intros [].
Qed.

Lemma touch_wf c p entries :
  lru_wf c → dom entries = {[p]} ∪ dom (fc_entries c) → (size entries ≤ kMaxCacheSize)%nat →
  lru_wf (touch_file_cache_entry p (with_entries entries c)).
Proof.
  intros Hwf Hdom Hsize. unfold touch_file_cache_entry, with_entries. cbn.
  set (l := match fc_order c !! p with Some id => _ | None => _ end).
  assert (∀ n, n ∈ l ↔ n ∈ fc_lru c ∧ n.2 ≠ p) as Hl.
  { intros n. unfold l. destruct (fc_order c !! p) as [id|] eqn:E; [by apply list_erase_order|].
    split; [|tauto]. intros Hin. split; [done|]. destruct n as [i q]. cbn. intros ->.
    apply (lw_order c Hwf) in Hin. congruence. }
  assert (NoDup l.*1) as Hnd.
  { unfold l. destruct (fc_order c !! p); [apply list_erase_nodup|]; apply (lw_nodup c Hwf). }
  split; cbn.
  - rewrite fmap_app. cbn. apply NoDup_app. split; [done|]. split; [|apply NoDup_singleton].
    intros i ([j q] & -> & Hin)%list_elem_of_fmap Hi%list_elem_of_singleton. cbn in Hi.
    apply Hl in Hin as [Hin _]. apply (lw_next c Hwf) in Hin. lia.
  - intros i q [[Hin _]%Hl|Heq%list_elem_of_singleton]%elem_of_app.
    + apply (lw_next c Hwf) in Hin. lia.
    + injection Heq as -> ->. lia.
  - intros q i. rewrite elem_of_app, list_elem_of_singleton, Hl. cbn.
    destruct (decide (q = p)) as [->|Hne].
    + rewrite lookup_insert_eq. split; [intros [= ->]; by right|]. intros [[? ?]|[= ->]]; done.
    + rewrite lookup_insert_ne by done. rewrite (lw_order c Hwf). split; [by left|].
      intros [[? _]|[= _ ?]]; congruence.
  - rewrite dom_insert_L, Hdom, (lw_dom c Hwf). done.
  - done.
Qed.

Lemma erase_wf c p :
  lru_wf c → lru_wf (erase_file_cache_entry p c)
    ∧ recency (erase_file_cache_entry p c) = filter (λ q, q ≠ p) (recency c)
    ∧ fc_entries (erase_file_cache_entry p c) = delete p (fc_entries c).
Proof.
  intros Hwf. unfold erase_file_cache_entry. destruct (fc_order c !! p) as [id|] eqn:E.
  - split; [|split; [by apply list_erase_snd|done]].
    pose proof (λ n, list_erase_order c p id n Hwf E) as Hl.
    split; cbn.
    + apply list_erase_nodup, (lw_nodup c Hwf).
    + intros i q [Hin _]%Hl. by apply (lw_next c Hwf) in Hin.
    + intros q i. rewrite Hl. cbn. rewrite lookup_delete_Some, (lw_order c Hwf). naive_solver.
    + rewrite !dom_delete_L. by rewrite (lw_dom c Hwf).
    + etrans; [|apply (lw_size c Hwf)]. rewrite map_size_delete. destruct (fc_entries c !! p); cbn; lia.
  - assert (fc_entries c !! p = None) as He.
    { apply not_elem_of_dom. rewrite (lw_dom c Hwf). by apply not_elem_of_dom. }
    split; [|split; [|done]].
    + rewrite delete_id by done. destruct c as [e l o n]. apply Hwf.
    + symmetry. apply (filter_absent p (recency c)). rewrite (recency_elem c p Hwf). rewrite He. by intros [].
Qed.

Lemma store_lru c p content now :
  lru_wf c →
  lru_wf (store_file_cache_entry p content now c)
  ∧ recency (store_file_cache_entry p content now c) = store_path p (recency c).
Proof.
  intros Hwf. unfold store_file_cache_entry, store_path.
  set (e := {| fce_content := content; fce_timestamp := now |}).
  set (c' := if _ && _ then _ else _).
  assert (lru_wf c' ∧ (is_Some (fc_entries c !! p) ∧ c' = c
    ∨ fc_entries c !! p = None ∧ (size (fc_entries c') < kMaxCacheSize)%nat
      ∧ recency c' = if (kMaxCacheSize <=? length (recency c))%nat
                     then tail (recency c) else recency c)) as [Hwf' Hc'].
  { unfold c'. clear c'. rewrite recency_length by done.
    destruct (fc_entries c !! p) eqn:Ep.
    - rewrite bool_decide_eq_true_2 by done. cbn [negb andb]. split; [done|]. by left.
    - rewrite bool_decide_eq_false_2 by (by intros []). cbn [negb andb].
      destruct (Nat.leb_spec kMaxCacheSize (size (fc_entries c))); [|eauto].
      destruct (fc_lru c) as [|[id o] l] eqn:El.
      { exfalso. rewrite <-(recency_length c Hwf) in *. unfold recency in *. rewrite El in *.
        cbn in *. unfold kMaxCacheSize in *. lia. }
      pose proof (lru_wf_recency_nodup c Hwf) as Hnd.
      destruct (erase_wf c o Hwf) as (Hwf1 & Hr & He).
      assert (recency (erase_file_cache_entry o c) = tail (recency c)) as Htl.
      { rewrite Hr. unfold recency in *. rewrite El in *. cbn [fmap list_fmap snd tail] in *.
        apply NoDup_cons in Hnd as [Ho _]. rewrite filter_cons, decide_False by tauto.
        by apply filter_absent. }
      split; [done|]. right. split; [done|]. split; [|done].
      rewrite <-(recency_length _ Hwf1), Htl. pose proof (lw_size c Hwf).
      rewrite <-(recency_length _ Hwf) in *. unfold recency in *. rewrite El in *. cbn in *. lia. }
  change (touch_file_cache_entry p _) with
    (touch_file_cache_entry p (with_entries (<[p:=e]> (fc_entries c')) c')).
  split.
  - apply touch_wf; [done|apply dom_insert_L|]. rewrite map_size_insert.
    destruct Hc' as [[[? Hs] ->]|(Hn & Hlt & _)].
    + rewrite Hs. apply (lw_size c Hwf).
    + destruct (fc_entries c' !! p); cbn; lia.
  - rewrite touch_recency by done. destruct Hc' as [[Hs ->]|(Hn & _ & ->)].
    + rewrite bool_decide_eq_true_2 by by apply recency_elem. done.
    + rewrite bool_decide_eq_false_2.
      2: { rewrite recency_elem, Hn by done. by intros []. }
      by destruct (Nat.leb kMaxCacheSize (length (recency c))).
Qed.

(** ** Reading a file *)

Section FileCacheInvariant.
Context {W : Type} `{!Kernel W}.
Implicit Types s : Sys W.

(** A call of the operating system leaves the caches alone. *)
Lemma wp_os {A} (op : M W A) Q s :
  (∀ a w, op (sys_world s) = (a, w) →
     Q a (MkSys w (sys_file_cache s) (sys_cgroup_cache s) (sys_file_ttl_ms s)
            (sys_cgroup_ttl_ms s))) →
  wp (os op) Q s.
Proof. intros H. unfold wp, os. destruct (op (sys_world s)) eqn:E. by apply H. Qed.

Lemma read_file_lru path : keeps (λ s, lru_wf (sys_file_cache s)) (read_file path).
Proof.
  intros s Hwf. unfold read_file, on_file_cache. wp_step. apply wp_os. intros now w1 _.
  wp_step. destruct (negb _); [wp_step|].
  - match goal with |- context [cached_file path now ?s1] => destruct (cached_file path now s1)
      as [content|] eqn:Ec end.
    + do 2 wp_step. unfold cached_file in Ec. cbn in *.
      destruct (fc_entries (sys_file_cache s) !! path) as [e|] eqn:Ee; [|done].
      destruct (sys_file_cache s) as [en l o n].
      apply (touch_wf {| fc_entries := en; fc_lru := l; fc_order := o; fc_next := n |} path en);
        [done| |apply (lw_size _ Hwf)].
      cbn in *. apply set_eq. intros q. rewrite elem_of_union, elem_of_singleton.
      split; [by right|]. intros [->|]; [|done]. by apply elem_of_dom.
    + wp_step. apply wp_os. intros [text|] w2 _; [|done]. by apply store_lru.
  - do 2 wp_step. apply wp_os. by intros [text|] w2 _.
Qed.

(** Files under [/proc], [/dev/cpuset] and [/dev/cpuctl] are read afresh
    every time, and reading them leaves the cache alone. *)
Lemma read_file_dynamic path s :
  is_dynamic_kernel_path path = true →
  wp (read_file path) (λ content s',
    ∃ now w1 text w2, k_now (sys_world s) = (now, w1) ∧ k_read path w1 = (text, w2)
      ∧ content = match text with Some t => strip_newlines t | None => EmptyString end
      ∧ s' = MkSys w2 (sys_file_cache s) (sys_cgroup_cache s) (sys_file_ttl_ms s)
               (sys_cgroup_ttl_ms s)) s.
Proof.
  intros Hd. unfold read_file. rewrite Hd. cbn [negb]. wp_step. apply wp_os. intros now w1 Hnow.
  do 3 wp_step. apply wp_os. intros text w2 Htext. cbn in *.
  destruct text; do 4 eexists; eauto.
Qed.
End FileCacheInvariant.

(** ** The cgroup cache *)

Lemma process_key_pid pid : is_valid_pid pid = true → key_pid (process_cgroup_key pid) = pid.
Proof.
  unfold is_valid_pid, key_pid, process_cgroup_key, to_uint32. intros H.
  assert (0 < pid ≤ INT_MAX) as [Hp Hm] by lia. unfold INT_MAX in *.
  rewrite Z.mod_small by lia. rewrite Z.shiftr_div_pow2 by lia.
  rewrite Z.div_small by lia. cbn. apply to_int32_id. unfold in_int, INT_MIN, INT_MAX. lia.
Qed.

Lemma thread_key_value pid tid :
  is_valid_pid pid = true → is_valid_tid tid = true →
  thread_cgroup_key pid tid = pid * 2 ^ 32 + tid.
Proof.
  unfold is_valid_pid, is_valid_tid, thread_cgroup_key, to_uint32, INT_MAX. intros Hp Ht.
  rewrite !Z.mod_small by lia. apply shiftl_lor_add; lia.
Qed.

Lemma thread_key_pid pid tid :
  is_valid_pid pid = true → is_valid_tid tid = true →
  key_pid (thread_cgroup_key pid tid) = pid.
Proof.
  intros Hp Ht. unfold key_pid. rewrite thread_key_value by done.
  unfold is_valid_pid, is_valid_tid, INT_MAX in *.
  rewrite Z.shiftr_div_pow2 by lia. rewrite Z.div_add_l, Z.div_small, Z.add_0_r by lia.
  rewrite to_int32_id by (unfold in_int, INT_MIN, INT_MAX; lia).
  destruct (Z.eqb_spec pid 0); [lia|done].
Qed.

Lemma trim_cgroup_cache_size now ttl cache :
  (size cache ≤ kMaxCgroupCacheSize)%nat →
  (size (trim_cgroup_cache now ttl cache) < kMaxCgroupCacheSize)%nat.
Proof.
  intros Hs. unfold trim_cgroup_cache.
  destruct (Nat.leb_spec kMaxCgroupCacheSize (size cache)); [|done].
  set (c := filter _ cache).
  assert (size c ≤ size cache)%nat by apply map_size_filter.
  destruct (Nat.leb_spec kMaxCgroupCacheSize (size c)); [|done].
  destruct (map_to_list c) as [|[k v] l] eqn:E.
  - apply map_to_list_empty_iff in E. rewrite E in *. unfold kMaxCgroupCacheSize in *.
    rewrite map_size_empty in *. lia.
  - assert (c !! k = Some v) as Hk by (apply elem_of_map_to_list; rewrite E; left).
    rewrite map_size_delete, Hk. cbn. unfold kMaxCgroupCacheSize in *. lia.
Qed.

Lemma invalidated_lookup {W} pid (s : Sys W) k :
  is_valid_pid pid = true →
  sys_cgroup_cache (invalidate_process_caches pid s).2 !! k =
    if decide (key_pid k.1 = pid) then None else sys_cgroup_cache s !! k.
Proof.
  intros Hp. unfold invalidate_process_caches. rewrite Hp. cbn.
  case_decide as Hk.
  - apply map_lookup_filter_None. right. intros ? _. cbn. tauto.
  - destruct (sys_cgroup_cache s !! k) as [e|] eqn:E.
    + by apply map_lookup_filter_Some.
    + apply map_lookup_filter_None. by left.
Qed.

(** ** The state a cgroup path stands for *)

(** The names Android gives the groups of an application's life cycle. *)
Definition state_words : list string := ["top-app"; "foreground"; "background"].

Lemma path_state_other path :
  cgroup_path_to_state path = CgOTHER ↔ Forall (λ w, contains w path = false) state_words.
Proof.
  unfold cgroup_path_to_state, state_words.
  assert (contains "background" path = false → contains "system-background" path = false) as Hsys.
  { intros Hb. apply not_true_is_false. intros (a & b & ->)%contains_iff.
    apply not_true_iff_false in Hb. apply Hb, contains_iff.
    exists (a +:+ "system-"), b. apply chars_inj. by rewrite !chars_app, <-!(assoc_L (++)). }
  rewrite !Forall_cons.
  destruct (contains "top-app" path), (contains "foreground" path), (contains "background" path);
    cbn; rewrite ?Hsys by done; naive_solver.
Qed.
