(* ===== verification/ConfigWatch.v ===== *)
(** * Noticing changes of the configuration file ([main.cpp])

    [get_file_mtime], the FNV-1a hash of [compute_config_hash] and
    [ConfigFileWatcher], with what they promise: two files that differ in one
    byte have different hashes, and the watcher reports a change exactly when
    an event it has read is about the configuration file or says that events
    were lost. *)

From S2P Require Import Prelude CppString Kernel FileUtils FileFacts Inotify.

(** ** The system calls

    [k_mtime]: [st_mtime] of a successful [stat].  [k_inotify_read] is one
    [read] of an inotify descriptor into a buffer. *)
Inductive inotify_read := InBytes (l : list ascii) | InAgain | InInterrupted | InError.

Class KernelWatch (W : Type) := {
  k_mtime : string → M W (option Z);
  k_inotify_init : M W (option Z);
  k_inotify_add_watch : Z → string → Z → M W (option Z);
  k_inotify_read : Z → M W inotify_read;
  (** How many more reads of a descriptor transfer something or are
      interrupted. *)
  k_inotify_budget : Z → W → nat }.

(** Documented behaviour of inotify: a descriptor has a queue of events, a
    [read] takes some of the oldest as whole records, and fails with [EAGAIN]
    when there are none; events may arrive at any time, but not for ever faster
    than they are read.  [in_healthy]: reading the descriptor does not fail. *)
Class WatchLaws (W : Type) `{KernelWatch W} := {
  in_queue : W → Z → list InotifyEvent;
  (** What arrives while a descriptor is read. *)
  in_arrivals : Z → W → list InotifyEvent;
  in_healthy : W → Z → Prop;
  in_budget fd w :
    match k_inotify_read fd w with
    | (InBytes _, w') | (InInterrupted, w') =>
        (k_inotify_budget fd w' < k_inotify_budget fd w)%nat
    | _ => True
    end;
  in_read fd w :
    in_healthy w fd →
    match k_inotify_read fd w with
    | (InBytes l, w') =>
        in_healthy w' fd
        ∧ ∃ evs, l = (evs ≫= event_bytes) ∧ evs ≠ [] ∧ Forall valid_event evs
            ∧ in_queue w fd ++ in_arrivals fd w = evs ++ in_queue w' fd
    | (InInterrupted, w') =>
        in_healthy w' fd ∧ in_queue w fd ++ in_arrivals fd w = in_queue w' fd
    | (InAgain, w') => in_queue w fd = []
    | (InError, _) => False
    end }.

(** ** The hash of a file *)

Definition fnv_offset_basis : Z := 1469598103934665603.
Definition fnv_prime : Z := 1099511628211.

Definition hash_byte (hash : Z) (c : ascii) : Z :=
  to_uint64 (Z.lxor hash (byte_value c) * fnv_prime).
Definition fnv_hash (l : list ascii) : Z := fold_left hash_byte l fnv_offset_basis.

(** *** One byte makes a difference

    The prime is odd, so multiplication by it can be undone modulo 2^64. *)
Definition fnv_inverse : Z := 14886173955864302971.

Lemma fnv_prime_inj a b :
  0 ≤ a < UINT64_MOD → 0 ≤ b < UINT64_MOD →
  to_uint64 (a * fnv_prime) = to_uint64 (b * fnv_prime) → a = b.
Proof.
  assert (∀ x, 0 ≤ x < UINT64_MOD → to_uint64 (to_uint64 (x * fnv_prime) * fnv_inverse) = x) as Hinv.
  { intros x Hx. unfold to_uint64. rewrite Zmult_mod_idemp_l, <-Z.mul_assoc.
    rewrite <-Zmult_mod_idemp_r.
    assert ((fnv_prime * fnv_inverse) `mod` UINT64_MOD = 1) as -> by (by vm_compute).
    rewrite Z.mul_1_r. by apply Z.mod_small. }
  intros Ha Hb Heq. by rewrite <-(Hinv a Ha), <-(Hinv b Hb), Heq.
Qed.

Lemma lxor_range h b : 0 ≤ h < UINT64_MOD → 0 ≤ b < 256 → 0 ≤ Z.lxor h b < UINT64_MOD.
Proof.
  intros Hh Hb. change UINT64_MOD with (2 ^ 64) in *. split; [by apply Z.lxor_nonneg; lia|].
  destruct (Z.eq_dec (Z.lxor h b) 0) as [->|Hne]; [lia|].
  assert (0 < Z.lxor h b) by (assert (0 ≤ Z.lxor h b) by (apply Z.lxor_nonneg; lia); lia).
  apply Z.log2_lt_pow2; [done|]. eapply Z.le_lt_trans; [apply Z.log2_lxor; lia|].
  apply Z.max_lub_lt; [|].
  - destruct (Z.eq_dec h 0) as [->|]; [done|]. apply Z.log2_lt_pow2; lia.
  - destruct (Z.eq_dec b 0) as [->|]; [done|]. apply Z.log2_lt_pow2; lia.
Qed.

Definition hash_range (h : Z) : Prop := 0 ≤ h < UINT64_MOD.
Lemma hash_byte_range h c : hash_range (hash_byte h c).
Proof. unfold hash_range, hash_byte, to_uint64. by apply Z.mod_pos_bound. Qed.

Lemma hash_byte_inj h h' c c' :
  hash_range h → hash_range h' → hash_byte h c = hash_byte h' c' →
  Z.lxor h (byte_value c) = Z.lxor h' (byte_value c').
Proof. intros Hh Hh' Heq. apply fnv_prime_inj; [apply lxor_range..|done]; done || apply byte_value_range. Qed.

Lemma fold_hash_range l h : hash_range h → hash_range (fold_left hash_byte l h).
Proof. intros Hh. apply fold_left_inv; [|done]. intros a b _. apply hash_byte_range. Qed.

Lemma fold_hash_inj l h h' :
  hash_range h → hash_range h' → fold_left hash_byte l h = fold_left hash_byte l h' → h = h'.
Proof.
  revert h h'. induction l as [|c l IH]; intros h h' Hh Hh'; cbn [fold_left]; [done|].
  intros Heq%IH; [|apply hash_byte_range..]. apply hash_byte_inj in Heq; [|done..].
  apply (f_equal (λ z, Z.lxor z (byte_value c))) in Heq.
  by rewrite !Z.lxor_assoc, !Z.lxor_nilpotent, !Z.lxor_0_r in Heq.
Qed.

Lemma fnv_hash_byte a c c' b :
  fnv_hash (a ++ c :: b) = fnv_hash (a ++ c' :: b) → c = c'.
Proof.
  unfold fnv_hash. rewrite !fold_left_app. cbn [fold_left].
  intros H%fold_hash_inj; [|apply hash_byte_range..].
  assert (hash_range (fold_left hash_byte a fnv_offset_basis)) as Hr by (by apply fold_hash_range).
  apply hash_byte_inj in H; [|done..]. set (h := fold_left _ _ _) in *.
  apply (f_equal (Z.lxor h)) in H. rewrite <-!Z.lxor_assoc, !Z.lxor_nilpotent, !Z.lxor_0_l in H.
  by apply byte_value_inj.
Qed.

Section Files.
Context {W : Type} `{!Kernel W} `{!KernelWatch W}.

Definition get_file_mtime (path : string) : M (Sys W) Z :=
  r ← os (k_mtime path); mret (default 0 r).

(** The bytes are read through an [std::ifstream], past the file cache. *)
Definition compute_config_hash (path : string) : M (Sys W) Z :=
  r ← os (k_read path);
  mret match r with None => 0 | Some text => fnv_hash (chars text) end.

(** ** The watcher *)

Record ConfigFileWatcher := {
  cw_config_path : string;
  cw_watch_dir : string;
  cw_watch_basename : string;
  cw_inotify_fd : option Z;
  cw_watch_fd : option Z;
  cw_config_changed : bool }.

Definition new_watcher (config_path : string) : ConfigFileWatcher :=
  let l := chars config_path in
  let '(dir, base) :=
    match rfind_char "/"%char l with
    | None => (".", config_path)
    | Some pos => (str (take pos l), str (drop (S pos) l))
    end in
  {| cw_config_path := config_path; cw_watch_dir := dir; cw_watch_basename := base;
     cw_inotify_fd := None; cw_watch_fd := None; cw_config_changed := false |}.

Definition with_fds (fd watch : option Z) (w : ConfigFileWatcher) : ConfigFileWatcher :=
  {| cw_config_path := cw_config_path w; cw_watch_dir := cw_watch_dir w;
     cw_watch_basename := cw_watch_basename w; cw_inotify_fd := fd; cw_watch_fd := watch;
     cw_config_changed := cw_config_changed w |}.
Definition with_changed (changed : bool) (w : ConfigFileWatcher) : ConfigFileWatcher :=
  {| cw_config_path := cw_config_path w; cw_watch_dir := cw_watch_dir w;
     cw_watch_basename := cw_watch_basename w; cw_inotify_fd := cw_inotify_fd w;
     cw_watch_fd := cw_watch_fd w; cw_config_changed := changed |}.

Definition stop_watcher (w : ConfigFileWatcher) : M (Sys W) ConfigFileWatcher :=
  match cw_inotify_fd w with Some fd => os (k_close fd) | None => mret tt end;;
  mret (with_fds None None w).

Definition kWatchMask : Z :=
  foldr Z.lor 0 [IN_MODIFY; IN_CLOSE_WRITE; IN_MOVED_TO; IN_ATTRIB; IN_DELETE_SELF; IN_MOVE_SELF;
                 IN_IGNORED; IN_Q_OVERFLOW].

Definition start_watcher (w : ConfigFileWatcher) : M (Sys W) (bool * ConfigFileWatcher) :=
  w ← stop_watcher w;
  fd ← os k_inotify_init;
  match fd with
  | None => mret (false, w)
  | Some fd =>
      watch ← os (k_inotify_add_watch fd (cw_watch_dir w) kWatchMask);
      match watch with
      | None => os (k_close fd);; mret (false, with_fds None None w)
      | Some watch => mret (true, with_fds (Some fd) (Some watch) w)
      end
  end.

(** One event: whether the configuration changed, and whether the watch has to
    be set up again. *)
Definition change_event (basename : string) (ev : InotifyEvent) : bool :=
  has_flag IN_Q_OVERFLOW ev
  || ((0 <? ev_len ev) && bool_decide (basename = ev_name ev)
      && has_flag (foldr Z.lor 0 [IN_MODIFY; IN_CLOSE_WRITE; IN_MOVED_TO; IN_ATTRIB]) ev).
Definition rewatch_event (ev : InotifyEvent) : bool :=
  has_flag (foldr Z.lor 0 [IN_IGNORED; IN_DELETE_SELF; IN_MOVE_SELF]) ev.

(** The outer loop: a [read] per round, until there is nothing left ([None]: the
    fuel is used up). *)
Fixpoint drain_events (fuel : nat) (fd : Z) (basename : string) (rewatch changed : bool)
    : M (Sys W) (option (bool * bool)) :=
  match fuel with
  | O => mret None
  | S fuel' =>
      r ← os (k_inotify_read fd);
      match r with
      | InAgain => mret (Some (rewatch, changed))
      | InInterrupted => drain_events fuel' fd basename rewatch changed
      | InError | InBytes [] => mret (Some (true, changed))
      | InBytes l =>
          let '(evs, truncated) := read_buffer l in
          drain_events fuel' fd basename (rewatch || existsb rewatch_event evs || truncated)
            (changed || existsb (change_event basename) evs)
      end
  end.

Definition check_and_clear (w : ConfigFileWatcher) : M (Sys W) (option bool * ConfigFileWatcher) :=
  '(_, w) ← (if bool_decide (cw_inotify_fd w = None) then start_watcher w else mret (true, w));
  match cw_inotify_fd w with
  | Some fd =>
      world ← gets sys_world;
      r ← drain_events (S (k_inotify_budget fd world)) fd (cw_watch_basename w) false
            (cw_config_changed w);
      match r with
      | None => mret (None, w)
      | Some (rewatch, changed) =>
          w ← (if (rewatch : bool) then
                 w ← stop_watcher w; '(_, w) ← start_watcher w; mret w
               else mret w);
          mret (Some changed, with_changed false w)
      end
  | None => mret (Some false, w)
  end.
End Files.

(** ** What the watcher reports *)

Section Facts.
Context {W : Type} `{!Kernel W} `{!KernelWatch W} `{!WatchLaws W}.
Implicit Types s : Sys W.

Lemma event_bytes_nonempty ev : event_bytes ev ≠ [].
Proof. done. Qed.

Lemma read_buffer_exact evs :
  Forall valid_event evs → read_buffer (evs ≫= event_bytes) = (evs, false).
Proof.
  intros H. rewrite <-(app_nil_r (evs ≫= event_bytes)), read_buffer_events by done.
  cbn. by rewrite app_nil_r.
Qed.

(** The budget of reads is fuel enough. *)
Lemma drain_ends fuel fd basename rewatch changed s :
  (k_inotify_budget fd (sys_world s) < fuel)%nat →
  wp (drain_events fuel fd basename rewatch changed) (λ r _, r ≠ None) s.
Proof.
  revert rewatch changed s. induction fuel as [|fuel IH]; intros rewatch changed s Hf; [lia|].
  cbn [drain_events]. wp_step. apply wp_os. intros r w E.
  pose proof (in_budget fd (sys_world s)) as Hb. rewrite E in Hb.
  destruct r as [[|c l]| | |]; [by wp_step| |by wp_step| |by wp_step].
  - destruct (read_buffer (c :: l)) as [evs truncated]. apply IH. cbn. lia.
  - apply IH. cbn. lia.
Qed.

Lemma drain_reports fuel fd basename rewatch changed s :
  (k_inotify_budget fd (sys_world s) < fuel)%nat → in_healthy (sys_world s) fd →
  wp (drain_events fuel fd basename rewatch changed) (λ r _, ∃ rewatch' more,
    r = Some (rewatch', changed
                        || existsb (change_event basename) (in_queue (sys_world s) fd ++ more))
    ∧ ((∀ w, in_arrivals fd w = []) → more = [])) s.
Proof.
  revert rewatch changed s. induction fuel as [|fuel IH]; intros rewatch changed s Hf Hh; [lia|].
  cbn [drain_events]. wp_step. apply wp_os. intros r w E.
  pose proof (in_budget fd (sys_world s)) as Hb. rewrite E in Hb.
  pose proof (in_read fd (sys_world s) Hh) as Hr. rewrite E in Hr.
  destruct r as [l| | |]; [| |destruct Hr as [Hh' Hq]|done].
  - destruct Hr as (Hh' & evs & -> & Hne & Hv & Hq).
    destruct (evs ≫= event_bytes) as [|c l] eqn:El.
    { destruct evs as [|ev evs]; [done|]. by apply app_nil in El as [El%event_bytes_nonempty _]. }
    rewrite <-El, read_buffer_exact by done.
    eapply wp_mono; [apply IH; cbn; [lia|done]|]. cbn. intros r _ (rewatch' & more' & -> & Hm).
    exists rewatch', (in_arrivals fd (sys_world s) ++ more'). split.
    + do 2 f_equal. rewrite (assoc_L (++)), Hq, <-(assoc_L (++)).
      rewrite (existsb_app _ evs). by rewrite orb_assoc.
    + intros Hquiet. by rewrite Hquiet, Hm.
  - wp_step. exists rewatch, []. rewrite Hr. cbn. by rewrite orb_false_r.
  - eapply wp_mono; [apply IH; cbn; [lia|done]|]. cbn. intros r _ (rewatch' & more' & -> & Hm).
    exists rewatch', (in_arrivals fd (sys_world s) ++ more'). split; [by rewrite (assoc_L (++)), Hq|].
    intros Hquiet. by rewrite Hquiet, Hm.
Qed.

Lemma check_and_clear_reports w fd s :
  cw_inotify_fd w = Some fd → in_healthy (sys_world s) fd →
  wp (check_and_clear w) (λ r _, ∃ more,
    r.1 = Some (cw_config_changed w
                || existsb (change_event (cw_watch_basename w)) (in_queue (sys_world s) fd ++ more))
    ∧ ((∀ world, in_arrivals fd world = []) → more = [])
    ∧ cw_config_changed r.2 = false) s.
Proof.
  intros Hfd Hh. unfold check_and_clear. rewrite bool_decide_eq_false_2 by (by rewrite Hfd).
  wp_step. wp_step. rewrite Hfd. wp_step. wp_step. wp_step.
  eapply wp_mono; [apply drain_reports; [lia|done]|]. intros r s1 (rewatch & more & -> & Hm).
  wp_step. eapply wp_mono with (Q := λ _ _, True); [by apply wp_unfold|]. intros w' s2 _. wp_step.
  by exists more.
Qed.

Lemma check_and_clear_ends w s : wp (check_and_clear w) (λ r _, r.1 ≠ None) s.
Proof.
  unfold check_and_clear. wp_step. eapply wp_mono with (Q := λ _ _, True); [by apply wp_unfold|].
  intros [opened w'] s1 _. destruct (cw_inotify_fd w') as [fd|]; [|by wp_step].
  wp_step. wp_step. wp_step. eapply wp_mono; [apply drain_ends; lia|].
  intros [[rewatch changed]|] s2 Hr; [|done].
  wp_step. eapply wp_mono with (Q := λ _ _, True); [by apply wp_unfold|]. intros w2 s3 _. by wp_step.
Qed.
End Facts.
