(* ===== verification/CpuMask.v ===== *)
(** * CPU masks ([utils/cpu_mask.hpp])

    A [cpu_set_t] is the integer whose bit [i] is CPU [i]; vectors of CPUs are
    lists. *)

From S2P Require Import Prelude CppString ConfigTypes Kernel FileUtils FileFacts.

(** ** Sets and vectors *)

Definition CPU_ISSET (cpu : Z) (set : cpu_set) : bool := Z.testbit set cpu.
Definition CPU_SET (cpu : Z) (set : cpu_set) : cpu_set := Z.setbit set cpu.

Definition from_vector (cpus : list Z) : cpu_set :=
  fold_left (λ set cpu,
    if (0 <=? cpu) && (cpu <? CPU_SETSIZE) then CPU_SET cpu set else set) cpus 0.

Definition to_vector (set : cpu_set) : list Z :=
  filter (λ i, CPU_ISSET i set = true) (seqZ 0 CPU_SETSIZE).

(** ** Printing *)

(** What follows the first element: [prev] is the element before. *)
Fixpoint render_cpus (prev : Z) (sorted : list Z) : list ascii :=
  match sorted with
  | [] => []
  | cpu :: rest =>
      (if cpu =? prev + 1
       then match rest with
            | next :: _ => if next =? cpu + 1 then [] else "-"%char :: chars (to_string cpu)
            | [] => "-"%char :: chars (to_string cpu)
            end
       else ","%char :: chars (to_string cpu))
      ++ render_cpus cpu rest
  end.

Definition cpus_to_string (cpus : list Z) : string :=
  match sort_ints cpus with
  | [] => EmptyString
  | cpu :: rest => str (chars (to_string cpu) ++ render_cpus cpu rest)
  end.

Definition cpu_set_to_string (set : cpu_set) : string := cpus_to_string (to_vector set).

(** ** The list of allowed CPUs in a [status] text *)

Definition is_blank (c : ascii) : bool := bool_decide (c = " "%char ∨ c = TAB).

Fixpoint skip_blanks (l : list ascii) : list ascii :=
  match l with
  | c :: l' => if is_blank c then skip_blanks l' else l
  | [] => []
  end.

(** The text before the next comma, and what follows it ([None]: no comma). *)
Definition cut_comma (l : list ascii) : list ascii * option (list ascii) :=
  match find_char ","%char l with
  | Some comma => (take comma l, Some (drop (S comma) l))
  | None => (l, None)
  end.

(** One CPU or one range; [None] when it is invalid or [std::stoi] throws. *)
Definition parse_cpu_item (item : list ascii) : option (list Z) :=
  match find_char "-"%char item with
  | Some (S _ as dash) =>
      start_cpu ← stoi (take dash item);
      end_cpu ← stoi (drop (S dash) item);
      if (start_cpu <? 0) || (end_cpu <? start_cpu) || (CPU_SETSIZE <=? end_cpu) then None
      else Some (seqZ start_cpu (end_cpu - start_cpu + 1))
  | _ =>
      cpu ← stoi item;
      if (cpu <? 0) || (CPU_SETSIZE <=? cpu) then None else Some [cpu]
  end.

(** Every round consumes at least one character, so the length of the text is
    fuel enough. *)
Fixpoint parse_cpu_items (fuel : nat) (cpus : list Z) (l : list ascii) : option (list Z) :=
  match fuel with
  | O => Some cpus
  | S fuel' =>
      match skip_blanks l with
      | [] => Some cpus
      | l' =>
          let '(item, rest) := cut_comma l' in
          more ← parse_cpu_item item;
          match rest with
          | None => Some (cpus ++ more)
          | Some rest => parse_cpu_items fuel' (cpus ++ more) rest
          end
      end
  end.

Definition parse_cpu_list (value : list ascii) : option (list Z) :=
  parse_cpu_items (length value) [] value.

(** The vector of the first [Cpus_allowed_list] line with a colon; empty when
    there is none or its value is malformed. *)
Fixpoint allowed_list (lines : list (list ascii)) : list Z :=
  match lines with
  | [] => []
  | line :: lines' =>
      if starts_with "Cpus_allowed_list" (str line)
      then match find_char ":"%char line with
           | None => allowed_list lines'
           | Some pos => default [] (parse_cpu_list (drop (S pos) line))
           end
      else allowed_list lines'
  end.

(** ** Affinity of a thread *)

Section Affinity.
Context {W : Type} `{!Kernel W}.

Definition set_affinity_mask (tid : Z) (set : cpu_set) : M (Sys W) bool :=
  os (k_sched_setaffinity tid set).

Definition set_affinity (tid : Z) (cpus : list Z) : M (Sys W) bool :=
  match cpus with
  | [] => mret true
  | _ => set_affinity_mask tid (from_vector cpus)
  end.

Definition get_affinity_from_status (tid : Z) : M (Sys W) (list Z) :=
  set ← os (k_sched_getaffinity tid);
  match set with
  | Some set => mret (to_vector set)
  | None =>
      content ← read_file (proc_path tid "status");
      mret (allowed_list (getlines LF (chars content)))
  end.

Definition is_affinity_changed (tid : Z) (expected : list Z) : M (Sys W) bool :=
  match expected with
  | [] => mret true
  | _ =>
      current ← os (k_sched_getaffinity tid);
      match current with
      | Some current => mret (negb (current =? from_vector expected))
      | None =>
          fallback ← get_affinity_from_status tid;
          mret (match fallback with
                | [] => true
                | _ => negb (from_vector fallback =? from_vector expected)
                end)
      end
  end.
End Affinity.

(** ** Sets and vectors agree *)

Lemma from_vector_testbit cpus i :
  0 ≤ i → CPU_ISSET i (from_vector cpus) = true ↔ i ∈ cpus ∧ i < CPU_SETSIZE.
Proof.
  intros Hi. unfold from_vector, CPU_ISSET, CPU_SET.
  assert (∀ set, Z.testbit (fold_left (λ set cpu,
      if (0 <=? cpu) && (cpu <? CPU_SETSIZE) then Z.setbit set cpu else set) cpus set) i = true
    ↔ Z.testbit set i = true ∨ i ∈ cpus ∧ i < CPU_SETSIZE) as H.
  { induction cpus as [|c cpus IH]; intros set; simpl.
    - rewrite elem_of_nil. tauto.
    - rewrite IH, elem_of_cons. clear IH.
      destruct (Z.leb_spec 0 c), (Z.ltb_spec c CPU_SETSIZE); simpl.
      + rewrite Z.setbit_eqb by done. rewrite orb_true_iff, Z.eqb_eq.
        intuition (subst; auto).
      + intuition (subst; auto; lia).
      + intuition (subst; auto; lia).
      + intuition (subst; auto; lia). }
  rewrite H, Z.testbit_0_l. naive_solver.
Qed.

Lemma to_vector_elem set i : i ∈ to_vector set ↔ 0 ≤ i < CPU_SETSIZE ∧ CPU_ISSET i set = true.
Proof. unfold to_vector. rewrite list_elem_of_filter, elem_of_seqZ. tauto. Qed.

Lemma to_vector_sorted set : StronglySorted Z.lt (to_vector set).
Proof. apply StronglySorted_filter, seqZ_sorted. Qed.

Lemma to_vector_range set : Forall (λ c, 0 ≤ c < CPU_SETSIZE) (to_vector set).
Proof. apply Forall_forall. by intros c [? _]%to_vector_elem. Qed.

Lemma to_vector_from_vector cpus :
  StronglySorted Z.lt cpus → Forall (λ c, 0 ≤ c < CPU_SETSIZE) cpus →
  to_vector (from_vector cpus) = cpus.
Proof.
  intros Hs Hr. apply sorted_lt_ext; [apply to_vector_sorted|done|].
  intros i. rewrite to_vector_elem. rewrite Forall_forall in Hr. split.
  - intros [Hi Hset]. apply from_vector_testbit in Hset; [tauto|lia].
  - intros Hin. split; [by apply Hr|]. apply Hr in Hin as Hi.
    apply from_vector_testbit; [lia|]. split; [done|lia].
Qed.

Lemma from_vector_to_vector set :
  0 ≤ set < 2 ^ CPU_SETSIZE → from_vector (to_vector set) = set.
Proof.
  intros Hset. apply Z.bits_inj'. intros i Hi. apply eq_true_iff_eq.
  change (CPU_ISSET i (from_vector (to_vector set)) = true ↔ CPU_ISSET i set = true).
  rewrite from_vector_testbit, to_vector_elem by done. split; [tauto|].
  intros Hbit. assert (i < CPU_SETSIZE) as Hlt; [|done].
  destruct (Z.lt_ge_cases i CPU_SETSIZE) as [|Hge]; [done|]. exfalso.
  unfold CPU_ISSET in Hbit. by rewrite (testbit_high set CPU_SETSIZE i) in Hbit.
Qed.

Lemma from_vector_eq_iff cpus1 cpus2 :
  Forall (λ c, 0 ≤ c < CPU_SETSIZE) cpus1 → Forall (λ c, 0 ≤ c < CPU_SETSIZE) cpus2 →
  from_vector cpus1 = from_vector cpus2 ↔ ∀ c, c ∈ cpus1 ↔ c ∈ cpus2.
Proof.
  intros H1 H2. rewrite Forall_forall in H1, H2. split.
  - intros Heq. assert (∀ c, 0 ≤ c < CPU_SETSIZE → c ∈ cpus1 ↔ c ∈ cpus2) as H.
    { intros c Hc. pose proof (from_vector_testbit cpus1 c) as E1.
      pose proof (from_vector_testbit cpus2 c) as E2. rewrite Heq in E1. intuition lia. }
    intros c. split; intros Hin; apply H; auto.
  - intros Hiff. apply Z.bits_inj'. intros i Hi. apply eq_true_iff_eq.
    change (CPU_ISSET i (from_vector cpus1) = true ↔ CPU_ISSET i (from_vector cpus2) = true).
    rewrite !from_vector_testbit by done. by rewrite Hiff.
Qed.

(** ** Printing and parsing back *)

(** The maximal runs of consecutive CPUs: first and last of each; the current
    run started at [a] and has reached [prev]. *)
Fixpoint runs_from (a prev : Z) (l : list Z) : list (Z * Z) :=
  match l with
  | [] => [(a, prev)]
  | c :: l' => if c =? prev + 1 then runs_from a c l' else (a, prev) :: runs_from c c l'
  end.

Definition render_run (r : Z * Z) : list ascii :=
  chars (to_string r.1) ++ (if r.1 <? r.2 then "-"%char :: chars (to_string r.2) else []).

Fixpoint join_comma (items : list (list ascii)) : list ascii :=
  match items with
  | [] => []
  | [item] => item
  | item :: items' => item ++ ","%char :: join_comma items'
  end.

Lemma join_comma_cons item items :
  items ≠ [] → join_comma (item :: items) = item ++ ","%char :: join_comma items.
Proof. by destruct items. Qed.

Lemma runs_from_nonempty a prev l : runs_from a prev l ≠ [].
Proof. revert a prev. induction l; intros; simpl; [done|]. by case_match. Qed.

(** What the printer has not yet written of the run it is in. *)
Definition pending (a prev : Z) (l : list Z) : list ascii :=
  if (a <? prev) && negb (match l with next :: _ => next =? prev + 1 | [] => false end)
  then "-"%char :: chars (to_string prev) else [].

(** The printer writes the runs separated by commas. *)
Lemma render_cpus_runs l a prev :
  a ≤ prev → StronglySorted Z.lt (prev :: l) →
  join_comma (render_run <$> runs_from a prev l) =
    chars (to_string a) ++ pending a prev l ++ render_cpus prev l.
Proof.
  revert a prev. induction l as [|c l IH]; intros a prev Ha Hs; cbn [runs_from render_cpus].
  { unfold render_run, pending. simpl. by destruct (a <? prev); rewrite ?app_nil_r. }
  apply StronglySorted_inv in Hs as [Hs Hlt]. apply Forall_cons in Hlt as [Hc _].
  unfold pending at 1. destruct (Z.eqb_spec c (prev + 1)) as [->|Hne].
  - rewrite IH by (done || lia). simpl. rewrite andb_false_r. simpl. f_equal.
    unfold pending. rewrite (proj2 (Z.ltb_lt a (prev + 1))) by lia. simpl.
    destruct l as [|n l]; simpl; [done|]. by destruct (n =? prev + 1 + 1).
  - rewrite fmap_cons, join_comma_cons by (intros ?%fmap_nil_inv; by eapply runs_from_nonempty).
    rewrite IH by (done || lia). unfold render_run at 1, pending. simpl.
    rewrite andb_true_r, Z.ltb_irrefl. simpl.
    by destruct (a <? prev); simpl; rewrite <-?(assoc_L (++)).
Qed.

Definition expand_run (r : Z * Z) : list Z := seqZ r.1 (r.2 - r.1 + 1).

Lemma runs_from_expand l a prev :
  a ≤ prev → concat (expand_run <$> runs_from a prev l) = seqZ a (prev - a + 1) ++ l.
Proof.
  revert a prev. induction l as [|c l IH]; intros a prev Ha; simpl; [done|].
  destruct (Z.eqb_spec c (prev + 1)) as [->|Hne]; simpl.
  - rewrite IH by lia. replace (prev + 1 - a + 1) with ((prev - a + 1) + 1) by lia.
    rewrite (seqZ_app a (prev - a + 1) 1), <-(assoc_L (++)) by lia.
    f_equal. simpl. f_equal. lia.
  - rewrite IH by lia. unfold expand_run. simpl. f_equal.
    by replace (c - c + 1) with 1 by lia.
Qed.

Lemma runs_from_range l a prev :
  0 ≤ a ≤ prev → StronglySorted Z.lt (prev :: l) → Forall (λ c, c < CPU_SETSIZE) (prev :: l) →
  Forall (λ r, 0 ≤ r.1 ≤ r.2 ∧ r.2 < CPU_SETSIZE) (runs_from a prev l).
Proof.
  revert a prev. induction l as [|c l IH]; intros a prev Ha Hs Hr; simpl;
    apply Forall_cons in Hr as [Hp Hr].
  { repeat constructor; simpl; lia. }
  apply StronglySorted_inv in Hs as [Hs Hlt]. apply Forall_cons in Hlt as [Hc _].
  destruct (c =? prev + 1).
  - apply IH; [lia|done|done].
  - constructor; [simpl; lia|]. apply IH; [lia|done|done].
Qed.

Lemma parse_render_run r :
  0 ≤ r.1 ≤ r.2 → r.2 < CPU_SETSIZE → parse_cpu_item (render_run r) = Some (expand_run r).
Proof.
  destruct r as [a b]. unfold parse_cpu_item, render_run, expand_run. simpl. intros Hab Hb.
  unfold CPU_SETSIZE in *.
  assert ("-"%char ∉ chars (to_string a)) as Hd by (apply digits_no_char; [lia|done]).
  pose proof (to_string_nonempty a ltac:(lia)) as Hne.
  destruct (Z.ltb_spec a b) as [Hlt|Hge].
  - rewrite find_char_here by done.
    destruct (chars (to_string a)) as [|x l] eqn:E; [done|]. cbn [length].
    replace (S (length l)) with (length (x :: l)) by done. rewrite <-E.
    rewrite take_app_length.
    replace (S (length (chars (to_string a)))) with (length (chars (to_string a) ++ ["-"%char]))
      by (rewrite length_app; simpl; lia).
    replace (chars (to_string a) ++ "-"%char :: chars (to_string b))
      with ((chars (to_string a) ++ ["-"%char]) ++ chars (to_string b))
      by (by rewrite <-(assoc_L (++))).
    rewrite drop_app_length.
    rewrite !stoi_to_string by (unfold INT_MAX; lia). simpl.
    destruct (Z.ltb_spec a 0), (Z.ltb_spec b a), (Z.leb_spec 1024 b); simpl; try lia. done.
  - rewrite app_nil_r, find_char_none by done. rewrite stoi_to_string by (unfold INT_MAX; lia).
    simpl. destruct (Z.ltb_spec a 0), (Z.leb_spec 1024 a); simpl; try lia.
    by replace (b - a + 1) with 1 by lia.
Qed.

(** The text of a run starts with a digit and holds no comma. *)
Lemma render_run_shape r :
  0 ≤ r.1 ≤ r.2 →
  ","%char ∉ render_run r ∧ ∃ c l, render_run r = c :: l ∧ is_blank c = false.
Proof.
  destruct r as [a b]. unfold render_run. simpl. intros Hab. split.
  - apply not_elem_of_app. split; [by apply digits_no_char; [lia|]|].
    destruct (a <? b); [|apply not_elem_of_nil]. apply not_elem_of_cons.
    split; [done|]. by apply digits_no_char; [lia|].
  - destruct (to_string_digits a ltac:(lia)) as (ds & -> & Hne & Hall & _).
    destruct ds as [|c ds]; [done|]. simpl. do 2 eexists. split; [done|].
    apply Forall_cons in Hall as [Hc _]. unfold is_blank. apply bool_decide_eq_false.
    intros [->| ->]; by destruct Hc.
Qed.

Lemma skip_blanks_nonblank c l : is_blank c = false → skip_blanks (c :: l) = c :: l.
Proof. intros H. simpl. by rewrite H. Qed.

Lemma parse_cpu_items_runs rs fuel acc :
  rs ≠ [] → Forall (λ r, 0 ≤ r.1 ≤ r.2 ∧ r.2 < CPU_SETSIZE) rs →
  (length (join_comma (render_run <$> rs)) ≤ fuel)%nat →
  parse_cpu_items fuel acc (join_comma (render_run <$> rs)) =
    Some (acc ++ concat (expand_run <$> rs)).
Proof.
  revert rs acc. induction fuel as [|fuel IH]; intros rs acc Hne Hr Hf.
  { destruct rs as [|r rs]; [done|]. apply Forall_cons in Hr as [[Hr1 Hr2] _].
    destruct (render_run_shape r Hr1) as (_ & c & l & Heq & _).
    destruct rs; simpl in Hf; rewrite Heq in Hf; simpl in Hf; lia. }
  destruct rs as [|r rs]; [done|]. apply Forall_cons in Hr as [[Hr1 Hr2] Hr].
  destruct (render_run_shape r Hr1) as (Hcomma & c & l & Heq & Hblank).
  destruct rs as [|r' rs].
  - cbn [fmap list_fmap join_comma concat] in *. cbn [parse_cpu_items].
    rewrite Heq, skip_blanks_nonblank by done. rewrite <-Heq.
    unfold cut_comma. rewrite find_char_none by done. rewrite parse_render_run by done.
    simpl. by rewrite app_nil_r.
  - rewrite fmap_cons in *. rewrite join_comma_cons in * by done.
    cbn [parse_cpu_items]. rewrite Heq. cbn [app]. rewrite skip_blanks_nonblank by done.
    change (c :: l ++ ?t) with ((c :: l) ++ t). rewrite <-Heq.
    unfold cut_comma. rewrite find_char_here by done. rewrite take_app_length.
    rewrite parse_render_run by done. cbn [mbind option_bind].
    replace (S (length (render_run r))) with (length (render_run r ++ [","%char]))
      by (rewrite length_app; simpl; lia).
    replace (render_run r ++ ","%char :: join_comma (render_run <$> r' :: rs))
      with ((render_run r ++ [","%char]) ++ join_comma (render_run <$> r' :: rs))
      by (by rewrite <-(assoc_L (++))).
    rewrite drop_app_length. rewrite IH; [|done|done|].
    + by rewrite <-(assoc_L (++)).
    + rewrite length_app in Hf. cbn [length] in Hf. lia.
Qed.

Lemma parse_cpu_list_to_string cpus :
  StronglySorted Z.lt cpus → Forall (λ c, 0 ≤ c < CPU_SETSIZE) cpus →
  parse_cpu_list (chars (cpus_to_string cpus)) = Some cpus.
Proof.
  intros Hs Hr. unfold cpus_to_string.
  rewrite sort_ints_id by by apply StronglySorted_lt_le.
  destruct cpus as [|c l]; [done|]. rewrite chars_str.
  apply Forall_cons in Hr as Hc. destruct Hc as [Hc _].
  pose proof (render_cpus_runs l c c (Z.le_refl c) Hs) as Heq. unfold pending in Heq.
  rewrite Z.ltb_irrefl in Heq. simpl in Heq. rewrite <-Heq.
  unfold parse_cpu_list. rewrite parse_cpu_items_runs; [|apply runs_from_nonempty| |done].
  - rewrite runs_from_expand by lia. by replace (c - c + 1) with 1 by lia.
  - apply runs_from_range; [lia|done|]. eapply Forall_impl; [exact Hr|]. simpl. lia.
Qed.

Lemma skip_blanks_length l : (length (skip_blanks l) ≤ length l)%nat.
Proof. induction l as [|c l IH]; simpl; [done|]. destruct (is_blank c); simpl; lia. Qed.

(** More fuel than the length of the text changes nothing. *)
Lemma parse_cpu_items_fuel fuel acc l :
  (length l ≤ fuel)%nat → parse_cpu_items (S fuel) acc l = parse_cpu_items fuel acc l.
Proof.
  revert acc l. induction fuel as [|fuel IH]; intros acc l Hl.
  { destruct l; [done|simpl in Hl; lia]. }
  cbn [parse_cpu_items] in IH |- *. pose proof (skip_blanks_length l) as Hle.
  destruct (skip_blanks l) as [|c l']; [done|].
  unfold cut_comma. destruct (find_char ","%char (c :: l')); [|done].
  destruct (parse_cpu_item _); [|done]. cbn [mbind option_bind].
  apply IH. rewrite length_drop. simpl in *. lia.
Qed.

Lemma parse_cpu_list_tab l : parse_cpu_list (TAB :: l) = parse_cpu_list l.
Proof. unfold parse_cpu_list. rewrite <-(parse_cpu_items_fuel (length l)) by done. done. Qed.

Definition allowed_line (cpus : list Z) : list ascii :=
  chars "Cpus_allowed_list:" ++ TAB :: chars (cpus_to_string cpus).

Lemma allowed_list_roundtrip cpus before after :
  StronglySorted Z.lt cpus → Forall (λ c, 0 ≤ c < CPU_SETSIZE) cpus →
  Forall (λ l, starts_with "Cpus_allowed_list" (str l) = false) before →
  allowed_list (before ++ allowed_line cpus :: after) = cpus.
Proof.
  intros Hs Hr Hb. induction Hb as [|l before Hl _ IH]; simpl; [|by rewrite Hl].
  by rewrite parse_cpu_list_tab, parse_cpu_list_to_string.
Qed.

(** ** Comparing with what the kernel reports *)

Section AffinityFacts.
Context {W : Type} `{!Kernel W}.

(** When the kernel reports the affinity, the answer is whether some CPU is
    allowed but not expected or the other way round. *)
Lemma is_affinity_changed_spec tid expected (s : Sys W) set w :
  expected ≠ [] → Forall (λ c, 0 ≤ c < CPU_SETSIZE) expected →
  k_sched_getaffinity tid (sys_world s) = (Some set, w) → 0 ≤ set < 2 ^ CPU_SETSIZE →
  wp (is_affinity_changed tid expected) (λ changed _,
    changed = false ↔ ∀ c, 0 ≤ c → CPU_ISSET c set = true ↔ c ∈ expected) s.
Proof.
  intros Hne Hr Hget Hset. unfold is_affinity_changed. destruct expected as [|e l]; [done|].
  wp_step. apply wp_os. rewrite Hget. intros _ _ [= <- <-]. wp_step.
  rewrite negb_false_iff, Z.eqb_eq. rewrite <-(from_vector_to_vector set) at 1 by done.
  rewrite from_vector_eq_iff; [|by apply Forall_forall; intros c [? _]%to_vector_elem|done].
  rewrite Forall_forall in Hr. split; intros H c.
  - intros Hc. rewrite <-H, to_vector_elem. split; [|tauto]. intros Hbit. split; [|done].
    split; [done|]. destruct (Z.lt_ge_cases c CPU_SETSIZE) as [|Hge]; [done|].
    unfold CPU_ISSET in Hbit. by rewrite (testbit_high set CPU_SETSIZE c) in Hbit.
  - rewrite to_vector_elem. split.
    + intros [[Hc _] Hbit]. by apply H.
    + intros Hin. pose proof (Hr c Hin) as Hrange. split; [done|]. apply H; [lia|done].
Qed.
End AffinityFacts.
