(* ===== verification/CgroupInit.v ===== *)
(** * Creating the cgroups ([core/cgroup_init.hpp])

    [init] creates the cpuset group of every CPU mask and the cpuctl group of
    every limited thread rule, and writes their control files through a
    transaction: when any of it fails, the values that were there before are
    written back.  [report_stale_groups] only writes to the log and is left
    out. *)

From S2P Require Import Prelude CppString ConfigTypes Kernel FileUtils CpuMask.

(** ** The transaction *)

(** [ControlFileTransaction]. *)
Record Transaction := {
  tx_finalized : bool;
  tx_original : gmap string string;
  tx_order : list string }.

Definition new_transaction : Transaction :=
  {| tx_finalized := false; tx_original := ∅; tx_order := [] |}.

Definition tx_snapshot (path original : string) (t : Transaction) : Transaction :=
  {| tx_finalized := tx_finalized t; tx_original := <[path := original]> (tx_original t);
     tx_order := tx_order t ++ [path] |}.
Definition tx_finalize (t : Transaction) : Transaction :=
  {| tx_finalized := true; tx_original := tx_original t; tx_order := tx_order t |}.

Section Transaction.
Context {W : Type} `{!Kernel W}.

Definition tx_write (path value : string) (rollback_required : bool) (t : Transaction)
    : M (Sys W) (bool * Transaction) :=
  if rollback_required && bool_decide (tx_original t !! path = None)
  then
    original ← read_file path;
    if decide (original = EmptyString) then mret (false, t)
    else
      ok ← write_kernel_control_file path value;
      mret (ok, tx_snapshot path original t)
  else ok ← write_kernel_control_file path value; mret (ok, t).

(** The loop of [rollback], over the paths latest first. *)
Fixpoint rollback_paths (paths : list string) (original : gmap string string)
    : M (Sys W) bool :=
  match paths with
  | [] => mret true
  | path :: rest =>
      ok ← match original !! path with
           | None => mret true
           | Some value => write_kernel_control_file path value
           end;
      restored ← rollback_paths rest original;
      mret ((ok : bool) && restored)
  end.

Definition rollback (t : Transaction) : M (Sys W) (bool * Transaction) :=
  if tx_finalized t then mret (true, t)
  else
    success ← rollback_paths (reverse (tx_order t)) (tx_original t);
    mret (success, tx_finalize t).

Definition commit (t : Transaction) : Transaction := tx_finalize t.
End Transaction.

(** ** What the configuration needs *)

Definition resolve_limit_value (configured : option Z) (inherited : string) : string :=
  match configured with Some v => to_string v | None => inherited end.

Definition cpuset_group_requires_rollback (cpus mems : string) : bool :=
  negb (bool_decide (cpus = EmptyString)) && negb (bool_decide (mems = EmptyString)).

Definition requires_cpuset (config : Config) : bool :=
  let sched := cfg_sched config in
  existsb (λ rule, existsb (λ thread_rule,
    let class := tr_affinity_class thread_rule in
    if bool_decide (class = EmptyString) || bool_decide (class = "auto") then false
    else
      match sc_affinity sched !! class with
      | None => false
      | Some scene =>
          negb (bool_decide (as_bg scene = EmptyString))
          || negb (bool_decide (as_fg scene = EmptyString))
          || negb (bool_decide (as_top scene = EmptyString))
      end) (pr_thread_rules rule)) (sc_rules sched).

Definition requires_cpuctl (config : Config) : bool :=
  existsb (λ rule, existsb tr_enable_limit (pr_thread_rules rule)) (sc_rules (cfg_sched config)).

Definition cpuset_parent_path : string := "/dev/cpuset/top-app".
Definition cpuset_group_path (mask_name : string) : string :=
  cpuset_parent_path +:+ "/ReUperf_" +:+ mask_name.
Definition cpuctl_root : string := "/dev/cpuctl/ReUperf".

(** The entries of a [std::map<std::string, ...>] in the order of its
    iterators. *)
Definition key_le {A} (a b : string * A) : Prop := String.leb a.1 b.1 = true.
#[export] Instance key_le_dec {A} : RelDecision (@key_le A).
Proof. intros a b. unfold key_le. apply _. Defined.
Definition map_entries {A} (m : gmap string A) : list (string * A) :=
  merge_sort key_le (map_to_list m).

Section Init.
Context {W : Type} `{!Kernel W}.

(** Five attempts, five milliseconds apart. *)
Fixpoint ensure_cgroup_file (max_retries : nat) (path : string) : M (Sys W) bool :=
  match max_retries with
  | O => mret false
  | S retries =>
      exists_ ← file_exists path;
      if (exists_ : bool) then mret true
      else os (k_sleep_ms 5);; ensure_cgroup_file retries path
  end.
Definition ensure_cgroup_file_exists : string → M (Sys W) bool := ensure_cgroup_file 5.

(** ** cpuset *)

(** [cpu_exclusive] and [mem_exclusive], where they exist. *)
Definition disable_exclusive (child_path filename : string) (rollback_required : bool)
    (t : Transaction) : M (Sys W) (bool * Transaction) :=
  let control_file := child_path +:+ "/" +:+ filename in
  exists_ ← file_exists control_file;
  if negb exists_ then mret (true, t) else tx_write control_file "0" rollback_required t.

(** One round of the loop over the masks; [false]: counted as failed. *)
Definition init_cpuset_group (name : string) (cpus : list Z) (parent_mems : string)
    (t : Transaction) : M (Sys W) (bool * Transaction) :=
  let child_path := cpuset_group_path name in
  group_was_ready ←
    (dir_exists child_path <&&>
       (cpus ← read_file (child_path +:+ "/cpus");
        mems ← read_file (child_path +:+ "/mems");
        mret (cpuset_group_requires_rollback cpus mems)));
  made ← mkdir_recursive child_path;
  if negb made then mret (false, t)
  else
    present ← (ensure_cgroup_file_exists (child_path +:+ "/cpus")
               <&&> ensure_cgroup_file_exists (child_path +:+ "/mems")
               <&&> ensure_cgroup_file_exists (child_path +:+ "/tasks"));
    if negb present then mret (false, t)
    else
      let cpus_str := cpus_to_string cpus in
      if decide (cpus_str = EmptyString) then mret (false, t)
      else
        '(ok, t) ← tx_write (child_path +:+ "/cpus") cpus_str group_was_ready t;
        if negb ok then mret (false, t)
        else
          '(ok, t) ← tx_write (child_path +:+ "/mems") parent_mems group_was_ready t;
          if negb ok then mret (false, t)
          else
            '(ok1, t) ← disable_exclusive child_path "cpu_exclusive" group_was_ready t;
            '(ok2, t) ← disable_exclusive child_path "mem_exclusive" group_was_ready t;
            mret ((ok1 : bool) && ok2, t).

Fixpoint init_cpuset_groups (masks : list (string * list Z)) (parent_mems : string)
    (failed : nat) (t : Transaction) : M (Sys W) (nat * Transaction) :=
  match masks with
  | [] => mret (failed, t)
  | (name, cpus) :: rest =>
      '(ok, t) ← init_cpuset_group name cpus parent_mems t;
      init_cpuset_groups rest parent_mems (if (ok : bool) then failed else S failed) t
  end.

Definition init_cpuset (config : Config) (t : Transaction) : M (Sys W) (bool * Transaction) :=
  if negb (requires_cpuset config) then mret (true, t)
  else
    root ← dir_exists "/dev/cpuset";
    if negb root then mret (false, t)
    else
      let base_path := cpuset_parent_path in
      available ← (dir_exists base_path <&&> file_exists (base_path +:+ "/cpus"));
      if negb available then mret (false, t)
      else
        parent_cpus ← read_file (base_path +:+ "/cpus");
        if decide (parent_cpus = EmptyString) then mret (false, t)
        else
          parent_mems ← read_file (base_path +:+ "/mems");
          if decide (parent_mems = EmptyString) then mret (false, t)
          else
            '(failed, t) ← init_cpuset_groups (map_entries (sc_cpumask (cfg_sched config)))
                             parent_mems 0 t;
            mret ((failed =? 0)%nat, t).

(** ** cpuctl *)

Definition write_optional_limit (child_path parent_path filename : string)
    (configured : option Z) (t : Transaction) : M (Sys W) (bool * Transaction) :=
  let child_file := child_path +:+ "/" +:+ filename in
  exists_ ← file_exists child_file;
  if negb exists_ then mret (bool_decide (configured = None), t)
  else
    inherited ← match configured with
                | Some _ => mret (Some EmptyString)
                | None =>
                    v ← read_file (parent_path +:+ "/" +:+ filename);
                    mret (if decide (v = EmptyString) then None else Some v)
                end;
    match inherited with
    | None => mret (false, t)
    | Some inherited => tx_write child_file (resolve_limit_value configured inherited) true t
    end.

(** The rounds of the loops over the thread rules and over the rules; the
    numbers count the failures. *)
Definition init_cpuctl_group (rule_path : string) (i : nat) (rule : ThreadRule) (t : Transaction)
    : M (Sys W) (bool * Transaction) :=
  if negb (tr_enable_limit rule) then mret (true, t)
  else
    let sub_path := rule_path +:+ "/A" +:+ to_string (Z.of_nat i + 1) in
    made ← mkdir_recursive sub_path;
    if negb made then mret (false, t)
    else
      '(ok1, t) ← write_optional_limit sub_path rule_path "cpu.uclamp.max" (tr_uclamp_max rule) t;
      '(ok2, t) ← write_optional_limit sub_path rule_path "cpu.shares" (tr_cpu_share rule) t;
      mret ((ok1 : bool) && ok2, t).

Fixpoint init_thread_rules (rule_path : string) (i : nat) (rules : list ThreadRule)
    (failed : nat) (t : Transaction) : M (Sys W) (nat * Transaction) :=
  match rules with
  | [] => mret (failed, t)
  | rule :: rest =>
      '(ok, t) ← init_cpuctl_group rule_path i rule t;
      init_thread_rules rule_path (S i) rest (if (ok : bool) then failed else S failed) t
  end.

Fixpoint init_cpuctl_rules (rules : list ProcessRule) (failed : nat) (t : Transaction)
    : M (Sys W) (nat * Transaction) :=
  match rules with
  | [] => mret (failed, t)
  | rule :: rest =>
      let rule_path := cpuctl_root +:+ "/" +:+ pr_name rule in
      made ← mkdir_recursive rule_path;
      if negb made then init_cpuctl_rules rest (S failed) t
      else
        '(failed, t) ← init_thread_rules rule_path 0 (pr_thread_rules rule) failed t;
        init_cpuctl_rules rest failed t
  end.

Definition init_cpuctl (config : Config) (t : Transaction) : M (Sys W) (bool * Transaction) :=
  if negb (requires_cpuctl config) then mret (true, t)
  else
    root ← dir_exists "/dev/cpuctl";
    if negb root then mret (false, t)
    else
      made ← mkdir_recursive cpuctl_root;
      if negb made then mret (false, t)
      else
        '(failed, t) ← init_cpuctl_rules (sc_rules (cfg_sched config)) 0 t;
        mret ((failed =? 0)%nat, t).

(** ** Both, and the roll-back *)

Definition init_groups (config : Config) : M (Sys W) (bool * Transaction) :=
  '(ok, t) ← init_cpuset config new_transaction;
  if negb ok then mret (false, t) else init_cpuctl config t.

(** Whether the groups are ready, and what the roll-back returned when they are
    not. *)
Definition init_outcome (config : Config) : M (Sys W) (bool * bool) :=
  '(ok, t) ← init_groups config;
  if (ok : bool) then let _ := commit t in mret (true, true)
  else '(restored, _) ← rollback t; mret (false, restored).

Definition init (config : Config) : M (Sys W) bool :=
  '(ok, _) ← init_outcome config; mret ok.
End Init.
