(* ===== verification/CgroupFacts.v ===== *)
(** * What the initialisation of the cgroups does to control files

    [ControlView] is the documented behaviour of the control files of a cgroup
    file system.  When the initialisation fails and its roll-back succeeds,
    every control file that was usable before shows what it showed before; when
    it succeeds, every cpuset group has its CPUs and the parent's memory
    nodes. *)

From S2P Require Import Prelude CppString ConfigTypes Kernel FileUtils FileFacts CpuMask CgroupInit.

(** Control files: [ctl] is what reading one gives, [fd_path] the file an open
    descriptor writes to, and [canonical] holds of the texts that a control
    file shows.  A write is taken as a whole or not at all, changes no other
    file, and of a canonical text it is shown afterwards.  A new directory
    changes no file that was there, and there is nothing to read in a directory
    that is not there. *)
Class ControlView (W : Type) `{Kernel W} := {
  ctl : W → string → option string;
  fd_path : W → Z → option string;
  canonical : string → Prop;
  ctl_now w p : ctl (k_now w).2 p = ctl w p;
  ctl_sleep ms w p : ctl (k_sleep_ms ms w).2 p = ctl w p;
  ctl_stat q w p : ctl (k_stat q w).2 p = ctl w p;
  ctl_close fd w p : ctl (k_close fd w).2 p = ctl w p;
  ctl_read q w p : (k_read q w).1 = ctl w q ∧ ctl (k_read q w).2 p = ctl w p;
  ctl_mkdir q w p : is_Some (ctl w p) → ctl (k_mkdir q w).2 p = ctl w p;
  ctl_open q w p :
    ctl (k_open q false w).2 p = ctl w p
    ∧ ∀ fd, (k_open q false w).1 = Some fd → fd_path (k_open q false w).2 fd = Some q;
  ctl_write fd l w q :
    fd_path w fd = Some q →
    match k_write fd l w with
    | (Wrote n, w') =>
        n = Z.of_nat (length l) ∧ (∀ p, p ≠ q → ctl w' p = ctl w p)
        ∧ (canonical (str l) → strip_newlines <$> ctl w' q = Some (str l))
    | (_, w') => (∀ p, ctl w' p = ctl w p) ∧ fd_path w' fd = Some q
    end;
  ctl_canonical w p c : ctl w p = Some c → canonical (strip_newlines c);
  ctl_directory d f w : d ≠ EmptyString → (k_stat d w).1 ≠ Some true → ctl w (d +:+ "/" +:+ f) = None }.

(** A list of CPUs is shown in the form in which the program writes it: the list
    format of the control files. *)
Class CpuListView (W : Type) `{ControlView W} :=
  ctl_cpu_list cpus :
    cpus ≠ [] → StronglySorted Z.lt cpus → Forall (λ c, 0 ≤ c < CPU_SETSIZE) cpus →
    canonical (cpus_to_string cpus).

Section View.
Context {W : Type} `{!Kernel W} `{!ControlView W}.
Implicit Types s : Sys W.

(** What the program sees of a control file. *)
Definition shows s (p : string) : option string := strip_newlines <$> ctl (sys_world s) p.

(** Of the files outside [P], those that are there stay as they are. *)
Definition touches (P : string → Prop) s s' : Prop :=
  ∀ p c, ¬ P p → shows s p = Some c → shows s' p = Some c.

#[export] Instance touches_preorder P : PreOrder (touches P).
Proof. split; [by intros s p c|]. intros s1 s2 s3 H1 H2 p c Hp H. eauto. Qed.

Lemma touches_weaken (P Q : string → Prop) s s' :
  (∀ p, P p → Q p) → touches P s s' → touches Q s s'.
Proof. intros HPQ H p c Hp. apply H. auto. Qed.

Definition same s s' : Prop := ∀ p, shows s' p = shows s p.
Lemma same_touches P s s' : same s s' → touches P s s'.
Proof. intros H p c _ Hs. by rewrite H. Qed.

Lemma same_then P s1 s2 s3 : same s1 s2 → touches P s2 s3 → touches P s1 s3.
Proof. intros H1 H2 p c Hp Hs. apply H2; [done|]. by rewrite H1. Qed.
Lemma then_same P s1 s2 s3 : touches P s1 s2 → same s2 s3 → touches P s1 s3.
Proof. intros H1 H2 p c Hp Hs. rewrite H2. by apply H1. Qed.

Lemma wp_os_same {A} (op : M W A) (Q : A → Sys W → Prop) s :
  (∀ w p, ctl (op w).2 p = ctl w p) →
  (∀ a s', same s s' → a = (op (sys_world s)).1 → Q a s') → wp (os op) Q s.
Proof.
  intros Hop HQ. apply wp_os. intros a w E. apply HQ; [|by rewrite E].
  intros p. unfold shows. cbn. specialize (Hop (sys_world s) p). rewrite E in Hop. cbn in Hop.
  by rewrite Hop.
Qed.

Lemma wp_dir_exists p s :
  wp (dir_exists p) (λ b s', same s s' ∧ 
    (b = false → p ≠ EmptyString → ∀ f, shows s (p +:+ "/" +:+ f) = None)) s.
Proof.
  unfold dir_exists. wp_step. apply wp_os_same; [apply ctl_stat|]. intros r s' Hs ->. wp_step.
  split; [done|]. intros Hb Hp f. unfold shows. rewrite ctl_directory; [done..|].
  by destruct (k_stat p (sys_world s)).1 as [[]|].
Qed.
Lemma wp_file_exists p s : wp (file_exists p) (λ _ s', same s s') s.
Proof.
  unfold file_exists. wp_step. apply wp_os_same; [apply ctl_stat|]. intros r s' Hs _. by wp_step.
Qed.

Lemma wp_read_control p s :
  is_dynamic_kernel_path p = true →
  wp (read_file p) (λ c s', same s s' ∧ c = default EmptyString (shows s p)
                            ∧ (c ≠ EmptyString → canonical c)) s.
Proof.
  intros Hp. eapply wp_mono; [by apply read_file_dynamic|].
  intros c s' (now & w1 & text & w2 & Hnow & Hread & -> & ->).
  pose proof (ctl_now (sys_world s)) as H1. rewrite Hnow in H1. cbn in H1.
  destruct (ctl_read p w1 p) as [H2 _]. rewrite Hread in H2. cbn in H2.
  split; [|split].
  - intros q. unfold shows. cbn. destruct (ctl_read p w1 q) as [_ H3]. rewrite Hread in H3.
    cbn in H3. by rewrite H3, H1.
  - unfold shows. rewrite <-H1, <-H2. by destruct text.
  - intros Hc. destruct text as [text|]; [|done]. symmetry in H2. by eapply ctl_canonical.
Qed.

Lemma wp_make_dir p s : wp (make_dir p) (λ _ s', touches (λ _, False) s s') s.
Proof.
  unfold make_dir. wp_step. apply wp_os. intros r w E. wp_step. intros q c _ Hq.
  unfold shows in *. cbn. pose proof (ctl_mkdir p (sys_world s) q) as Hm. rewrite E in Hm.
  cbn in Hm. rewrite Hm; [done|]. by destruct (ctl (sys_world s) q).
Qed.
Lemma wp_make_dirs dirs s : wp (make_dirs dirs) (λ _ s', touches (λ _, False) s s') s.
Proof.
  revert s. induction dirs as [|d dirs IH]; intros s; cbn [make_dirs]; [by wp_step|].
  wp_step. eapply wp_mono; [apply wp_dir_exists|]. intros present s1 [H1 _].
  apply (same_touches (λ _, False)) in H1. wp_step.
  - eapply wp_mono; [apply IH|]. intros ? s2 H2. by etrans.
  - wp_step. eapply wp_mono; [apply wp_make_dir|]. intros ok s2 H2. wp_step.
    + eapply wp_mono; [apply IH|]. intros ? s3 H3. etrans; [exact H1|]. by etrans.
    + wp_step. by etrans.
Qed.
Lemma wp_mkdir_recursive p s : wp (mkdir_recursive p) (λ _ s', touches (λ _, False) s s') s.
Proof.
  unfold mkdir_recursive. wp_step. eapply wp_mono; [apply wp_dir_exists|].
  intros present s1 [H1 _]. apply (same_touches (λ _, False)) in H1. wp_step; [by wp_step|].
  wp_step. eapply wp_mono; [apply wp_make_dirs|]. intros parents s2 H2. wp_step; [wp_step; etrans; [exact H1|exact H2]|].
  wp_step. eapply wp_mono; [apply wp_dir_exists|]. intros present' s3 [H3 _].
  apply (same_touches (λ _, False)) in H3.
  assert (touches (λ _, False) s s3) by (etrans; [exact H1|]; etrans; [exact H2|exact H3]).
  wp_step; [by wp_step|]. eapply wp_mono; [apply wp_make_dir|]. intros ? s4 H4. by etrans.
Qed.

(** ** Writing a control file *)

Lemma write_loop_control fuel fd p l s :
  fd_path (sys_world s) fd = Some p →
  wp (write_loop fuel fd l) (λ r s', (∀ q, q ≠ p → shows s' q = shows s q)
    ∧ (r = Some true → l ≠ [] → canonical (str l) → shows s' p = Some (str l))) s.
Proof.
  revert s. induction fuel as [|fuel IH]; intros s Hfd; (destruct l as [|c l]; [by cbn; apply wp_ret|]); [by apply wp_ret|].
  cbn [write_loop]. set (t := c :: l) in *. wp_step. apply wp_os. intros r w E.
  pose proof (ctl_write fd t (sys_world s) p Hfd) as Hw. rewrite E in Hw.
  destruct r as [n| |].
  - destruct Hw as (-> & Hq & Hp). destruct (Z.eqb_spec (Z.of_nat (length t)) 0) as [H0|_]; [done|].
    assert (drop (Z.to_nat (Z.of_nat (length t))) t = []) as ->.
    { rewrite Nat2Z.id. apply drop_all. }
    destruct fuel; cbn [write_loop]; wp_step; unfold shows; cbn;
      (split; [intros q Hne; by rewrite Hq|]); intros _ _ Hc; by apply Hp.
  - destruct Hw as [Hq Hfd']. eapply wp_mono; [by apply IH|]. intros r s' [H1 H2]. split; [|done].
    intros q Hne. rewrite H1 by done. unfold shows. cbn. by rewrite Hq.
  - wp_step. unfold shows. cbn. split; [|done]. intros q _. by rewrite (proj1 Hw).
Qed.

Lemma write_control p v s :
  wp (write_kernel_control_file p v) (λ ok s', (∀ q, q ≠ p → shows s' q = shows s q)
    ∧ (ok = true → v ≠ EmptyString → canonical v → shows s' p = Some v)) s.
Proof.
  unfold write_kernel_control_file, write_open_file. wp_step. apply wp_os. intros r w E.
  pose proof (λ q, ctl_open p (sys_world s) q) as Ho. rewrite E in Ho. cbn in Ho.
  set (s1 := MkSys w _ _ _ _).
  assert (same s s1) as H1 by (intros q; unfold shows; cbn; by rewrite (proj1 (Ho q))).
  destruct r as [fd|]; [|by wp_step]. do 3 wp_step.
  eapply wp_mono; [apply (write_loop_control _ fd p); by apply (Ho p)|].
  intros written s2 [H2 H3]. wp_step. apply wp_os_same; [apply ctl_close|]. intros ? s3 Hs3 _.
  assert (∀ q, q ≠ p → shows s3 q = shows s q) as Hq by (intros q Hne; by rewrite Hs3, H2).
  destruct written as [[]|]; wp_steps; [|by split..].
  apply wp_modify. wp_step. split; [intros q Hne; by rewrite <-Hq|]. intros _ Hv Hc.
  transitivity (shows s3 p); [done|]. rewrite Hs3, H3; [by rewrite str_chars|done| |by rewrite str_chars].
  by destruct v.
Qed.
End View.

(** ** Maps in the order of their keys *)

Lemma map_entries_permutation {A} (m : gmap string A) : map_entries m ≡ₚ map_to_list m.
Proof. apply merge_sort_Permutation. Qed.
Lemma map_entries_nodup {A} (m : gmap string A) : NoDup (map_entries m).*1.
Proof. rewrite map_entries_permutation. apply NoDup_fst_map_to_list. Qed.
Lemma map_entries_elem {A} (m : gmap string A) k x : (k, x) ∈ map_entries m ↔ m !! k = Some x.
Proof. rewrite map_entries_permutation. apply elem_of_map_to_list. Qed.

(** ** The transaction *)

(** The control files of the cpuset group of a mask that [init] may write. *)
Definition group_files : list string := ["cpus"; "mems"; "cpu_exclusive"; "mem_exclusive"].
Definition group_file (name f : string) : string := cpuset_group_path name +:+ "/" +:+ f.
Definition in_group (name p : string) : Prop := ∃ f, f ∈ group_files ∧ p = group_file name f.

Lemma group_file_dynamic name f : is_dynamic_kernel_path (group_file name f) = true.
Proof.
  apply orb_true_iff. left. apply orb_true_iff. right. apply prefix_app_iff.
  by eexists.
Qed.

Lemma group_files_no_slash f : f ∈ group_files → "/"%char ∉ chars f.
Proof.
  intros Hf. apply (bool_decide_unpack _). revert f Hf.
  apply (proj1 (Forall_forall (λ f, bool_decide ("/"%char ∉ chars f)) group_files)).
  repeat constructor.
Qed.

(** The last component of a path. *)
Lemma last_component_inj a b f g :
  "/"%char ∉ chars f → "/"%char ∉ chars g →
  a +:+ "/" +:+ f = b +:+ "/" +:+ g → a = b ∧ f = g.
Proof.
  intros Hf Hg H. apply (f_equal (reverse ∘ chars)) in H. cbn in H.
  rewrite !chars_app, !reverse_app in H. cbn in H. rewrite <-!(assoc_L (++)) in H. cbn in H.
  apply sep_app_inj in H as [H1 H2]; [|by rewrite elem_of_reverse..].
  split; apply chars_inj; by apply (inj reverse).
Qed.

Lemma group_file_inj n m f g :
  f ∈ group_files → g ∈ group_files → group_file n f = group_file m g → n = m ∧ f = g.
Proof.
  intros Hf%group_files_no_slash Hg%group_files_no_slash H.
  apply last_component_inj in H as [H ->]; [|done..]. split; [|done].
  unfold cpuset_group_path in H. apply (f_equal chars) in H. rewrite !chars_app in H.
  apply app_inv_head, app_inv_head in H. by apply chars_inj.
Qed.

Section Rollback.
Context {W : Type} `{!Kernel W} `{!ControlView W}.
Implicit Types s : Sys W.
Variable s0 : Sys W.

(** A group that was not usable before: there is nothing to go back to. *)
Definition unready (name : string) : Prop :=
  default EmptyString (shows s0 (group_file name "cpus")) = EmptyString
  ∨ default EmptyString (shows s0 (group_file name "mems")) = EmptyString.
Definition released (p : string) : Prop := ∃ name, unready name ∧ in_group name p.

(** The files that must be as before when the transaction is rolled back are as
    before, or have their value recorded. *)
Record recoverable (t : Transaction) s : Prop := {
  rc_open : tx_finalized t = false;
  rc_files p c : shows s0 p = Some c → ¬ released p →
    shows s p = Some c ∨ tx_original t !! p = Some c;
  rc_original p c c' : shows s0 p = Some c → ¬ released p →
    tx_original t !! p = Some c' → c' = c;
  rc_order p c : tx_original t !! p = Some c → p ∈ tx_order t ∧ c ≠ EmptyString ∧ canonical c }.

Lemma recoverable_new : recoverable new_transaction s0.
Proof. split; cbn; [done|auto|by intros|intros p c H; by rewrite lookup_empty in H]. Qed.

Lemma recoverable_touches t s s' :
  recoverable t s → touches (λ _, False) s s' → recoverable t s'.
Proof.
  intros [Hf Hfi Ho Hor] Ht. split; try done. intros p c Hp Hr.
  destruct (Hfi p c Hp Hr) as [?|?]; [left|by right]. by apply Ht; [intros []|].
Qed.

Lemma tx_write_spec p v guarded t s :
  is_dynamic_kernel_path p = true → recoverable t s → (guarded = false → released p) →
  wp (tx_write p v guarded t) (λ r s',
    recoverable r.2 s' ∧ touches (eq p) s s'
    ∧ (r.1 = true → v ≠ EmptyString → canonical v → shows s' p = Some v)) s.
Proof.
  intros Hd Hj Hg. pose proof Hj as [Hf Hfi Ho Hor]. unfold tx_write.
  destruct (guarded && bool_decide (tx_original t !! p = None)) eqn:E.
  - apply andb_true_iff in E as [-> Hnone%bool_decide_eq_true].
    wp_step. eapply wp_mono; [by apply wp_read_control|]. intros c s1 (H1 & -> & Hc).
    assert (recoverable t s1) as Hj1 by (apply (recoverable_touches t s); [done|by apply same_touches]).
    wp_step; [wp_step; split; [done|]; split; [by apply same_touches|done]|].
    wp_step. eapply wp_mono; [apply write_control|]. intros ok s2 [H2 H3]. wp_step.
    assert (touches (eq p) s s2) as Ht.
    { intros q cq Hq Hs. rewrite H2, H1 by (intros ->; by apply Hq). done. }
    set (orig := default EmptyString (shows s p)) in *.
    split; [|done]. cbn. split; cbn; [done| | |].
    + intros q cq Hq Hr. destruct (decide (q = p)) as [->|Hne].
      * right. rewrite lookup_insert_eq. destruct (Hfi p cq Hq Hr) as [Hs|Hs]; [|congruence].
        unfold orig. by rewrite Hs.
      * rewrite lookup_insert_ne, H2, H1 by done. by apply Hfi.
    + intros q cq c' Hq Hr [[<- <-]|[_ Hl]]%lookup_insert_Some; [|by eapply Ho].
      destruct (Hfi p cq Hq Hr) as [Hs|Hs]; [|congruence]. unfold orig. by rewrite Hs.
    + intros q cq [[<- <-]|[_ Hl]]%lookup_insert_Some.
      * split; [set_solver|auto].
      * destruct (Hor q cq Hl) as (? & ? & ?). split; [set_solver|done].
  - wp_step. eapply wp_mono; [apply write_control|]. intros ok s1 [H1 H2]. wp_step. split.
    + split; try done. cbn. intros q cq Hq Hr. destruct (decide (q = p)) as [->|Hne].
      * right. destruct guarded; [|by destruct Hr; apply Hg]. cbn in E.
        apply bool_decide_eq_false in E. destruct (tx_original t !! p) as [c'|] eqn:El; [|done].
        f_equal. by eapply Ho.
      * rewrite H1 by done. by apply Hfi.
    + split; [|done]. intros q cq Hq Hs. by rewrite H1 by (intros ->; by apply Hq).
Qed.

Lemma rollback_paths_spec l original s :
  (∀ p c, original !! p = Some c → c ≠ EmptyString ∧ canonical c) →
  wp (rollback_paths l original) (λ ok s',
    (∀ p, p ∉ l ∨ original !! p = None → shows s' p = shows s p)
    ∧ (ok = true → ∀ p c, p ∈ l → original !! p = Some c → shows s' p = Some c)) s.
Proof.
  intros Ho. revert s. induction l as [|p l IH]; intros s; cbn [rollback_paths].
  { wp_step. split; [done|]. intros _ p c Hp. by apply elem_of_nil in Hp. }
  wp_step. eapply wp_mono with (Q := λ ok s1,
    (∀ q, q ≠ p ∨ original !! q = None → shows s1 q = shows s q)
    ∧ (ok = true → ∀ c, original !! p = Some c → shows s1 p = Some c)).
  { destruct (original !! p) as [v|] eqn:Ev.
    - eapply wp_mono; [apply write_control|]. intros ok s1 [H1 H2]. split.
      + intros q [Hq|Hq]; apply H1; [done|congruence].
      + intros Hok c [= <-]. destruct (Ho p v Ev). auto.
    - by wp_step. }
  intros ok s1 [H1 H2]. wp_step. eapply wp_mono; [apply IH|]. intros restored s2 [H3 H4].
  wp_step. split.
  - intros q Hq. rewrite H3, H1; [done|destruct Hq as [Hq|]; [left|by right]; set_solver..].
  - intros [Hok Hr]%andb_true_iff q c Hin Hq. destruct (decide (q ∈ l)) as [Hl|Hl]; [by apply H4|].
    apply elem_of_cons in Hin as [->|?]; [|done]. rewrite H3 by auto. by apply H2.
Qed.

(** Rolling back brings every file back that was usable before. *)
Lemma rollback_spec t s :
  recoverable t s →
  wp (rollback t) (λ r s', r.1 = true →
    ∀ p c, shows s0 p = Some c → ¬ released p → shows s' p = Some c) s.
Proof.
  intros [Hf Hfi Ho Hor]. unfold rollback. rewrite Hf. wp_step.
  eapply wp_mono; [apply rollback_paths_spec; intros p c Hp; by apply Hor in Hp as (_ & ? & ?)|].
  intros ok s1 [H1 H2]. wp_step. intros Hok p c Hp Hr.
  destruct (tx_original t !! p) as [c'|] eqn:El.
  - rewrite (Ho p c c' Hp Hr El) in El. apply H2; [done| |done].
    apply elem_of_reverse. by apply Hor in El as [? _].
  - destruct (Hfi p c Hp Hr) as [Hs|?]; [|congruence].
    rewrite H1; auto.
Qed.

(** ** The cpuset groups *)

Lemma wp_ensure n p s : wp (ensure_cgroup_file n p) (λ _ s', same s s') s.
Proof.
  revert s. induction n as [|n IH]; intros s; cbn [ensure_cgroup_file]; [by wp_step|].
  wp_step. eapply wp_mono; [apply wp_file_exists|]. intros b s1 H1. wp_step; [by wp_step|].
  wp_step. apply wp_os_same; [apply ctl_sleep|]. intros ? s2 H2 _.
  eapply wp_mono; [apply IH|]. intros ? s3 H3 q. by rewrite H3, H2, H1.
Qed.

(** The files of a group whose turn has not come are as they were. *)
Definition fresh (name : string) s : Prop :=
  ∀ f c, f ∈ group_files → shows s0 (group_file name f) = Some c →
    shows s (group_file name f) = Some c.

Lemma group_readiness name s :
  fresh name s →
  wp (dir_exists (cpuset_group_path name) <&&>
        (cpus ← read_file (group_file name "cpus");
         mems ← read_file (group_file name "mems");
         mret (cpuset_group_requires_rollback cpus mems)))
    (λ ready s', same s s' ∧ (ready = false → unready name)) s.
Proof.
  intros Hf. wp_step. eapply wp_mono; [apply wp_dir_exists|]. intros present s1 [H1 Hp].
  assert (∀ f, f ∈ group_files → default EmptyString (shows s (group_file name f)) = EmptyString →
    default EmptyString (shows s0 (group_file name f)) = EmptyString) as Hback.
  { intros f Hin Hs. destruct (shows s0 (group_file name f)) as [c|] eqn:E; [|done].
    by rewrite (Hf f c Hin E) in Hs. }
  destruct present.
  - wp_step. eapply wp_mono; [apply wp_read_control, group_file_dynamic|]. intros c1 s2 (H2 & -> & _).
    wp_step. eapply wp_mono; [apply wp_read_control, group_file_dynamic|]. intros c2 s3 (H3 & -> & _).
    wp_step. split; [intros q; by rewrite H3, H2, H1|]. rewrite H2, !H1.
    unfold cpuset_group_requires_rollback. intros [H|H]%andb_false_iff;
      apply negb_false_iff, bool_decide_eq_true in H; [left|right]; apply Hback; try done; set_solver.
  - wp_step. split; [done|]. intros _. left. apply Hback; [set_solver|].
    unfold group_file. by rewrite Hp.
Qed.

Lemma disable_exclusive_spec name f guarded t s :
  f ∈ group_files → recoverable t s → (guarded = false → unready name) →
  wp (disable_exclusive (cpuset_group_path name) f guarded t) (λ r s',
    recoverable r.2 s' ∧ touches (eq (group_file name f)) s s') s.
Proof.
  intros Hf Hj Hg. unfold disable_exclusive. cbv zeta. wp_step.
  eapply wp_mono; [apply wp_file_exists|]. intros b s1 H1.
  assert (recoverable t s1) as Hj1 by (apply (recoverable_touches t s); [done|by apply same_touches]).
  wp_step; [wp_step; split; [done|by apply same_touches]|].
  eapply wp_mono; [apply tx_write_spec; [apply group_file_dynamic|exact Hj1|]|].
  - intros Hg'. exists name. split; [by apply Hg|]. by exists f.
  - intros r s2 (H2 & H3 & _). split; [done|]. exact (same_then _ _ _ _ H1 H3).
Qed.

(** The files of a group, one after the other. *)
Lemma touches_group name f s s' :
  f ∈ group_files → touches (eq (group_file name f)) s s' → touches (in_group name) s s'.
Proof. intros Hf. apply touches_weaken. intros p <-. by exists f. Qed.

Lemma touches_keeps name f g c s s' :
  f ∈ group_files → g ∈ group_files → f ≠ g → touches (eq (group_file name f)) s s' →
  shows s (group_file name g) = Some c → shows s' (group_file name g) = Some c.
Proof. intros Hf Hg Hne Ht. apply Ht. by intros [_ ?]%(group_file_inj _ _ _ _ Hf Hg). Qed.

Definition group_set (name cpus mems : string) s : Prop :=
  shows s (group_file name "cpus") = Some cpus ∧ shows s (group_file name "mems") = Some mems.

Lemma init_cpuset_group_spec name cpus mems t s :
  recoverable t s → fresh name s → mems ≠ EmptyString →
  wp (init_cpuset_group name cpus mems t) (λ r s',
    recoverable r.2 s' ∧ touches (in_group name) s s'
    ∧ (r.1 = true → canonical (cpus_to_string cpus) → canonical mems →
       group_set name (cpus_to_string cpus) mems s')) s.
Proof.
  intros Hj Hf Hm. unfold init_cpuset_group. cbv zeta. wp_step.
  eapply wp_mono; [by apply (group_readiness name)|]. intros ready s1 [H1 Hr].
  assert (∀ f, f ∈ group_files → ready = false → released (group_file name f)) as Hrel.
  { intros f Hin Hready. exists name. split; [by apply Hr|]. by exists f. }
  wp_step. eapply wp_mono; [apply wp_mkdir_recursive|]. intros made s2 H2.
  assert (touches (λ _, False) s s2) as H02 by exact (same_then _ _ _ _ H1 H2).
  assert (touches (in_group name) s s2) as T2 by (by apply (touches_weaken (λ _, False))).
  pose proof (recoverable_touches t s s2 Hj H02) as Hj2.
  wp_step; [by wp_step|]. wp_step.
  eapply wp_mono with (Q := λ _ s3, same s2 s3).
  { wp_step. wp_step. eapply wp_mono; [apply wp_ensure|]. intros b1 s3 H3.
    destruct b1; [|wp_step; by wp_step].
    eapply wp_mono; [apply wp_ensure|]. intros b2 s4 H4. destruct b2; [|by wp_step; intros q; rewrite H4, H3].
    eapply wp_mono; [apply wp_ensure|]. intros b3 s5 H5 q. by rewrite H5, H4, H3. }
  intros present s3 H3.
  assert (touches (in_group name) s s3) as T3 by exact (then_same _ _ _ _ T2 H3).
  assert (recoverable t s3) as Hj3 by (apply (recoverable_touches t s2); [done|by apply same_touches]).
  wp_step; [by wp_step|]. wp_step; [by wp_step|]. wp_step.
  eapply wp_mono; [apply (tx_write_spec (group_file name "cpus"));
    [apply group_file_dynamic|done|apply Hrel; set_solver]|].
  intros [ok1 t1] s4 (Hj4 & T4 & V4). cbn in Hj4, V4.
  assert (touches (in_group name) s s4) as T04
    by (etrans; [exact T3|]; eapply (touches_group name "cpus"); [set_solver|done]).
  wp_step; [by wp_step|]. wp_step.
  eapply wp_mono; [apply (tx_write_spec (group_file name "mems"));
    [apply group_file_dynamic|done|apply Hrel; set_solver]|].
  intros [ok2 t2] s5 (Hj5 & T5 & V5). cbn in Hj5, V5.
  assert (touches (in_group name) s s5) as T05
    by (etrans; [exact T04|]; eapply (touches_group name "mems"); [set_solver|done]).
  wp_step; [by wp_step|]. wp_step.
  eapply wp_mono; [apply (disable_exclusive_spec name "cpu_exclusive"); [set_solver|done|done]|].
  intros [ok3 t3] s6 [Hj6 T6]. wp_step.
  eapply wp_mono; [apply (disable_exclusive_spec name "mem_exclusive"); [set_solver|done|done]|].
  intros [ok4 t4] s7 [Hj7 T7]. wp_step. split; [done|]. split.
  - etrans; [exact T05|]. etrans; eapply touches_group; [|exact T6| |exact T7]; set_solver.
  - intros _ Hc Hcm. destruct ok1, ok2; try done. split.
    + eapply (touches_keeps name "mem_exclusive"); [set_solver..|done|exact T7|].
      eapply (touches_keeps name "cpu_exclusive"); [set_solver..|done|exact T6|].
      eapply (touches_keeps name "mems"); [set_solver..|done|exact T5|]. by apply V4.
    + eapply (touches_keeps name "mem_exclusive"); [set_solver..|done|exact T7|].
      eapply (touches_keeps name "cpu_exclusive"); [set_solver..|done|exact T6|]. by apply V5.
Qed.

Lemma in_group_other n m p : n ≠ m → in_group n p → ¬ in_group m p.
Proof. intros Hne (f & Hf & ->) (g & Hg & [? _]%group_file_inj); done. Qed.

Lemma group_set_touches n m c1 c2 s s' :
  n ≠ m → touches (in_group m) s s' → group_set n c1 c2 s → group_set n c1 c2 s'.
Proof.
  intros Hne Ht [H1 H2].
  split; apply Ht; try done; apply (in_group_other n m); try done; eexists; split; try done; set_solver.
Qed.

Lemma init_cpuset_groups_spec masks mems failed t s :
  NoDup masks.*1 → recoverable t s → (∀ name, name ∈ masks.*1 → fresh name s) →
  mems ≠ EmptyString →
  wp (init_cpuset_groups masks mems failed t) (λ r s',
    recoverable r.2 s' ∧ (failed ≤ r.1)%nat
    ∧ touches (λ p, ∃ name, name ∈ masks.*1 ∧ in_group name p) s s'
    ∧ (r.1 = failed → canonical mems → ∀ name cpus, (name, cpus) ∈ masks →
       canonical (cpus_to_string cpus) → group_set name (cpus_to_string cpus) mems s')) s.
Proof.
  intros Hn Hj Hf Hm. revert failed t s Hn Hj Hf.
  induction masks as [|[name cpus] masks IH]; intros failed t s Hn Hj Hf; cbn [init_cpuset_groups].
  { wp_step. cbn. split_and!; [done|lia|done|]. intros _ _ name cpus Hin. by apply elem_of_nil in Hin. }
  cbn [fmap list_fmap] in Hn, Hf. apply NoDup_cons in Hn as [Hnin Hn]. cbn in Hnin.
  wp_step. eapply wp_mono; [apply (init_cpuset_group_spec name); [done|apply Hf; set_solver|done]|].
  intros [ok t1] s1 (H1 & T1 & V1). cbn in H1, V1.
  eapply wp_mono; [apply (IH _ t1 s1 Hn H1)|].
  - intros n Hin f c Hff Hs0. apply T1; [|apply (Hf n); [set_solver|done..]].
    apply (in_group_other n name); [set_solver|by exists f].
  - intros [failed' t2] s2 (H2 & L2 & T2 & V2). cbn in H2, L2, V2 |- *. split_and!.
    + done.
    + destruct ok; lia.
    + etrans; [eapply touches_weaken; [|exact T1]|eapply touches_weaken; [|exact T2]]; cbn.
      * intros p Hp. exists name. split; [set_solver|done].
      * intros p (n & Hin & Hp). exists n. split; [set_solver|done].
    + intros -> Hcm n c Hin Hcc. destruct ok; [|lia].
      apply elem_of_cons in Hin as [[= -> ->]|Hin]; [|by apply V2].
      destruct (V1 eq_refl Hcc Hcm) as [G1 G2]. split; apply T2; try done.
      * intros (n & Hin & Hp). eapply (in_group_other name n); [set_solver| |exact Hp].
        exists "cpus". split; [set_solver|done].
      * intros (n & Hin & Hp). eapply (in_group_other name n); [set_solver| |exact Hp].
        exists "mems". split; [set_solver|done].
Qed.

(** The memory nodes of the parent. *)
Definition parent_mems_file : string := cpuset_parent_path +:+ "/mems".

Lemma init_cpuset_spec config t s :
  recoverable t s → same s0 s →
  wp (init_cpuset config t) (λ r s',
    recoverable r.2 s'
    ∧ (r.1 = true → requires_cpuset config = true →
       ∃ mems, shows s0 parent_mems_file = Some mems
         ∧ ∀ name cpus, sc_cpumask (cfg_sched config) !! name = Some cpus →
             canonical (cpus_to_string cpus) → group_set name (cpus_to_string cpus) mems s')) s.
Proof.
  intros Hj Hsame. unfold init_cpuset. cbv zeta.
  assert (∀ s', same s s' → recoverable t s') as Hq.
  { intros s' Hs. apply (recoverable_touches t s); [done|by apply same_touches]. }
  assert (∀ s', recoverable t s' → recoverable t s' ∧ (false = true → requires_cpuset config = true →
       ∃ mems, shows s0 parent_mems_file = Some mems
         ∧ ∀ name cpus, sc_cpumask (cfg_sched config) !! name = Some cpus →
             canonical (cpus_to_string cpus) → group_set name (cpus_to_string cpus) mems s')) as Hno
    by done.
  wp_step; [wp_step; split; [done|]; intros _ Hr; by rewrite Hr in Heqb|].
  wp_step. eapply wp_mono; [apply wp_dir_exists|]. intros root s1 [H1 _].
  wp_step; [wp_step; by apply Hno, Hq|]. wp_step.
  eapply wp_mono with (Q := λ _ s2, same s s2).
  { wp_step. eapply wp_mono; [apply wp_dir_exists|]. intros b s2 [H2 _]. wp_step.
    - eapply wp_mono; [apply wp_file_exists|]. intros ? s3 H3 q. by rewrite H3, H2, H1.
    - wp_step. intros q. by rewrite H2, H1. }
  intros available s2 H2. wp_step; [wp_step; by apply Hno, Hq|]. wp_step.
  eapply wp_mono; [by apply wp_read_control|]. intros cpus s3 (H3 & _ & _).
  assert (same s s3) as H03 by (intros q; by rewrite H3, H2).
  wp_step; [wp_step; by apply Hno, Hq|]. wp_step.
  eapply wp_mono; [by apply wp_read_control|]. intros mems s4 (H4 & Hmems & Hcm).
  assert (same s s4) as H04 by (intros q; by rewrite H4, H03).
  wp_step; [wp_step; by apply Hno, Hq|]. wp_step.
  assert (shows s0 parent_mems_file = Some mems) as Hpm.
  { rewrite <-Hsame, <-H03. unfold parent_mems_file. rewrite Hmems in *. by destruct (shows s3 _). }
  eapply wp_mono; [apply init_cpuset_groups_spec; [apply map_entries_nodup|by apply Hq| |done]|].
  { intros name _ f c _ Hs. by rewrite H04, Hsame. }
  intros [failed t'] s5 (H5 & _ & _ & V5). cbn in H5, V5. wp_step. cbn. split; [done|].
  intros ->%Nat.eqb_eq _. exists mems. split; [done|]. intros name c Hl Hc.
  apply V5; [done|by apply Hcm| |done]. by apply map_entries_elem.
Qed.

(** ** The cpuctl groups *)

Definition in_cpuctl (p : string) : Prop := starts_with "/dev/cpuctl/" p = true.

Lemma write_optional_limit_spec sub_path rule_path f configured t s :
  in_cpuctl (sub_path +:+ "/" +:+ f) → is_dynamic_kernel_path (rule_path +:+ "/" +:+ f) = true →
  recoverable t s →
  wp (write_optional_limit sub_path rule_path f configured t) (λ r s',
    recoverable r.2 s' ∧ touches in_cpuctl s s') s.
Proof.
  intros Hin Hd Hj. unfold write_optional_limit. cbv zeta. wp_step.
  eapply wp_mono; [apply wp_file_exists|]. intros b s1 H1.
  assert (∀ s', same s s' → recoverable t s' ∧ touches in_cpuctl s s') as Hq.
  { intros s' Hs. split; [apply (recoverable_touches t s); [done|]|]; by apply same_touches. }
  wp_step; [wp_step; by apply Hq|]. wp_step.
  eapply wp_mono with (Q := λ _ s2, same s s2).
  { destruct configured; [by wp_step|]. wp_step. eapply wp_mono; [by apply wp_read_control|].
    intros v s2 (H2 & _). wp_step. intros q. by rewrite H2, H1. }
  intros inherited s2 H2. wp_step; [|wp_step; by apply Hq].
  eapply wp_mono; [apply tx_write_spec; [|by apply Hq|done]|].
  - unfold is_dynamic_kernel_path. unfold in_cpuctl in Hin. rewrite Hin. apply orb_true_r.
  - intros r s4 (H3 & H4 & _). split; [done|]. eapply same_then; [exact H2|].
    eapply touches_weaken; [|exact H4]. by intros p <-.
Qed.

Definition limits_spec (op : Transaction → M (Sys W) (nat * Transaction)) : Prop :=
  ∀ t s, recoverable t s → wp (op t) (λ r s', recoverable r.2 s' ∧ touches in_cpuctl s s') s.

Lemma init_cpuctl_group_spec name i rule t s :
  recoverable t s →
  wp (init_cpuctl_group (cpuctl_root +:+ "/" +:+ name) i rule t) (λ r s',
    recoverable r.2 s' ∧ touches in_cpuctl s s') s.
Proof.
  intros Hj. unfold init_cpuctl_group. cbv zeta. wp_step; [by wp_step|]. wp_step.
  eapply wp_mono; [apply wp_mkdir_recursive|]. intros made s1 H1.
  assert (touches in_cpuctl s s1) as T1 by (by apply (touches_weaken (λ _, False))).
  pose proof (recoverable_touches t s s1 Hj H1) as Hj1. wp_step; [by wp_step|]. wp_step.
  eapply wp_mono; [apply write_optional_limit_spec; [done|done|done]|].
  intros [ok1 t1] s2 [H2 T2]. wp_step.
  eapply wp_mono; [apply write_optional_limit_spec; [done|done|done]|].
  intros [ok2 t2] s3 [H3 T3]. wp_step. split; [done|]. etrans; [exact T1|]. etrans; [exact T2|exact T3].
Qed.

Lemma init_thread_rules_spec name i rules failed :
  limits_spec (init_thread_rules (cpuctl_root +:+ "/" +:+ name) i rules failed).
Proof.
  revert i failed. induction rules as [|rule rules IH]; intros i failed t s Hj;
    cbn [init_thread_rules]; [by wp_step|].
  wp_step. eapply wp_mono; [by apply init_cpuctl_group_spec|]. intros [ok t1] s1 [H1 T1].
  eapply wp_mono; [by apply IH|]. intros r s2 [H2 T2]. split; [done|]. etrans; [exact T1|exact T2].
Qed.

Lemma init_cpuctl_rules_spec rules failed : limits_spec (init_cpuctl_rules rules failed).
Proof.
  revert failed. induction rules as [|rule rules IH]; intros failed t s Hj;
    cbn [init_cpuctl_rules]; [by wp_step|]. cbv zeta.
  wp_step. eapply wp_mono; [apply wp_mkdir_recursive|]. intros made s1 H1.
  assert (touches in_cpuctl s s1) as T1 by (by apply (touches_weaken (λ _, False))).
  pose proof (recoverable_touches t s s1 Hj H1) as Hj1. wp_step.
  - eapply wp_mono; [by apply IH|]. intros r s2 [H2 T2]. split; [done|]. etrans; [exact T1|exact T2].
  - wp_step. eapply wp_mono; [by apply init_thread_rules_spec|]. intros [failed' t1] s2 [H2 T2].
    eapply wp_mono; [by apply IH|]. intros r s3 [H3 T3]. split; [done|].
    etrans; [exact T1|]. etrans; [exact T2|exact T3].
Qed.

Lemma init_cpuctl_spec config t s :
  recoverable t s →
  wp (init_cpuctl config t) (λ r s', recoverable r.2 s' ∧ touches in_cpuctl s s') s.
Proof.
  intros Hj. unfold init_cpuctl. wp_step; [by wp_step|]. wp_step.
  eapply wp_mono; [apply wp_dir_exists|]. intros root s1 [H1 _].
  assert (touches (λ _, False) s s1) as T1 by (by apply same_touches).
  pose proof (recoverable_touches t s s1 Hj T1) as Hj1.
  assert (touches in_cpuctl s s1) as T1' by (by apply same_touches).
  wp_step; [by wp_step|]. wp_step. eapply wp_mono; [apply wp_mkdir_recursive|].
  intros made s2 H2. pose proof (recoverable_touches t s1 s2 Hj1 H2) as Hj2.
  assert (touches in_cpuctl s s2) as T2
    by (etrans; [exact T1'|]; by apply (touches_weaken (λ _, False))).
  wp_step; [by wp_step|]. wp_step. eapply wp_mono; [by apply init_cpuctl_rules_spec|].
  intros [failed t'] s3 [H3 T3]. wp_step. split; [done|]. etrans; [exact T2|exact T3].
Qed.

(** ** The whole *)

Lemma group_file_not_cpuctl name f : ¬ in_cpuctl (group_file name f).
Proof. by vm_compute. Qed.

Lemma init_outcome_spec config :
  wp (init_outcome config) (λ r s',
    (r.1 = false → r.2 = true →
     ∀ p c, shows s0 p = Some c → ¬ released p → shows s' p = Some c)
    ∧ (r.1 = true → requires_cpuset config = true →
       ∃ mems, shows s0 parent_mems_file = Some mems
         ∧ ∀ name cpus, sc_cpumask (cfg_sched config) !! name = Some cpus →
             canonical (cpus_to_string cpus) →
             group_set name (cpus_to_string cpus) mems s')) s0.
Proof.
  unfold init_outcome, init_groups. wp_step. wp_step.
  eapply wp_mono; [apply (init_cpuset_spec config); [apply recoverable_new|done]|].
  intros [ok1 t1] s1 [H1 V1]. cbn in H1, V1.
  assert (∀ t s, recoverable t s → wp ('(restored, _) ← rollback t; mret (false, restored))
    (λ (r : bool * bool) s', (r.1 = false → r.2 = true →
       ∀ p c, shows s0 p = Some c → ¬ released p → shows s' p = Some c)
     ∧ (r.1 = true → requires_cpuset config = true → ∃ mems, shows s0 parent_mems_file = Some mems
         ∧ ∀ name cpus, sc_cpumask (cfg_sched config) !! name = Some cpus →
             canonical (cpus_to_string cpus) →
             group_set name (cpus_to_string cpus) mems s')) s) as Hback.
  { intros t s Hj. wp_step. eapply wp_mono; [by apply rollback_spec|].
    intros [restored t'] s' Hr. wp_step. split; [intros _; exact Hr|done]. }
  destruct ok1; cbn [negb]; [|wp_step; by apply Hback].
  eapply wp_mono; [by apply init_cpuctl_spec|]. intros [ok2 t2] s2 [H2 T2]. cbn in H2.
  destruct ok2; [|by apply Hback]. cbv zeta. wp_step. split; [done|]. intros _ Hreq.
  destruct (V1 eq_refl Hreq) as (mems & Hm & Hset). exists mems. split; [done|].
  intros name cpus Hl Hc. destruct (Hset name cpus Hl Hc) as [G1 G2].
  split; apply T2; try done; apply group_file_not_cpuctl.
Qed.
End Rollback.
