(* ===== verification/ThreadMatcher.v ===== *)
(** * Matching threads against the rules ([core/thread_matcher.hpp])

    The compiled rules, the rule search of [match_impl] and the result cache
    it keeps in sixteen buckets.  Regular expressions and the hash of strings
    are parameters: [RegexEngine] and [StringHash]. *)

From S2P Require Import Prelude CppString ConfigTypes Kernel.

(** [std::regex]: compiling with or without [icase] ([None]: [regex_error]),
    and [std::regex_search] ([None]: it throws [regex_error]). *)
Class RegexEngine (R : Type) := {
  regex_compile : string → bool → option R;
  regex_search : string → R → option bool }.

(** [std::hash<std::string>]. *)
Class StringHash := string_hash : string → Z.

(** ** Results *)

Record MatchResult := {
  mr_matched : bool;
  mr_affinity_class : string;
  mr_prio_class : string;
  mr_cpumask_name : string;
  mr_uclamp_max : option Z;
  mr_cpu_share : option Z;
  mr_enable_limit : bool;
  mr_effective_state : ProcessState;
  mr_matched_rule_name : string;
  mr_thread_rule_index : Z;
  mr_pinned : bool;
  mr_topfore : bool }.

Definition no_match (state : ProcessState) : MatchResult := {|
  mr_matched := false; mr_affinity_class := EmptyString; mr_prio_class := EmptyString;
  mr_cpumask_name := EmptyString; mr_uclamp_max := None; mr_cpu_share := None;
  mr_enable_limit := false; mr_effective_state := state; mr_matched_rule_name := EmptyString;
  mr_thread_rule_index := -1; mr_pinned := false; mr_topfore := false |}.

Definition empty (s : string) : bool := bool_decide (s = EmptyString).

Definition has_resolved_affinity (result : MatchResult) : bool :=
  negb (empty (mr_affinity_class result)) && negb (bool_decide (mr_affinity_class result = "auto"))
  && negb (empty (mr_cpumask_name result)).

Definition should_dispatch_background_process (result : MatchResult)
    (has_baseline kernel_thread : bool) : bool :=
  if kernel_thread && negb has_baseline
     && bool_decide (mr_matched_rule_name result = "Default rule")
  then false
  else mr_matched result || has_baseline.

Definition should_restore_managed_component (previously_managed currently_managed : bool) : bool :=
  previously_managed && negb currently_managed.

Definition should_restore_managed_affinity (previous : option MatchResult)
    (current : MatchResult) : bool :=
  match previous with
  | Some p => should_restore_managed_component (has_resolved_affinity p)
                (has_resolved_affinity current)
  | None => false
  end.

Definition should_restore_managed_priority (previous_priority current_priority : Z) : bool :=
  should_restore_managed_component (negb (previous_priority =? 0)) (negb (current_priority =? 0)).

Definition should_restore_managed_limit (previous : option MatchResult)
    (current : MatchResult) : bool :=
  match previous with
  | Some p => should_restore_managed_component (mr_enable_limit p) (mr_enable_limit current)
  | None => false
  end.

Definition is_result_equal (a b : MatchResult) : bool :=
  bool_decide (mr_matched a = mr_matched b)
  && bool_decide (mr_affinity_class a = mr_affinity_class b)
  && bool_decide (mr_prio_class a = mr_prio_class b)
  && bool_decide (mr_cpumask_name a = mr_cpumask_name b)
  && bool_decide (mr_effective_state a = mr_effective_state b)
  && bool_decide (mr_enable_limit a = mr_enable_limit b)
  && bool_decide (mr_uclamp_max a = mr_uclamp_max b)
  && bool_decide (mr_cpu_share a = mr_cpu_share b)
  && (mr_thread_rule_index a =? mr_thread_rule_index b)
  && bool_decide (mr_matched_rule_name a = mr_matched_rule_name b)
  && bool_decide (mr_pinned a = mr_pinned b)
  && bool_decide (mr_topfore a = mr_topfore b).

(** ** Compiled rules *)

Section Rules.
Context {R : Type} `{!RegexEngine R}.

(** [ctr_pattern] is [None] for a main-thread rule, whose pattern is never
    searched. *)
Record CompiledThreadRule := {
  ctr_rule : ThreadRule;
  ctr_pattern : option R;
  ctr_source_rule_index : nat;
  ctr_is_main_thread_rule : bool }.

Record CompiledProcessRule := {
  cr_rule : ProcessRule;
  cr_pattern : R;
  cr_thread_rules : list CompiledThreadRule }.

Definition kMaxRegexLength : nat := 500.

Record RegexPattern := { rp_pattern : string; rp_case_insensitive : bool }.

Definition parse_regex_pattern (pattern : string) : RegexPattern :=
  if starts_with "(?i)" pattern
  then {| rp_pattern := str (drop 4 (chars pattern)); rp_case_insensitive := true |}
  else {| rp_pattern := pattern; rp_case_insensitive := false |}.

(** Whether [icase] is among the flags. *)
Definition regex_flags_for (pattern : RegexPattern) (base_icase : bool) : bool :=
  rp_case_insensitive pattern || base_icase.

Definition kMetacharacters : list ascii := chars "\^$.|?*+()[]{}".

(** The [strchr] of the source also finds the terminating NUL. *)
Definition is_metacharacter (c : ascii) : bool :=
  bool_decide (c ∈ kMetacharacters ∨ c = NUL).

Fixpoint escape_chars (value : list ascii) : list ascii :=
  match value with
  | [] => []
  | c :: value' =>
      (if is_metacharacter c then ["\"%char] else []) ++ c :: escape_chars value'
  end.
Definition escape_regex_literal (value : string) : string := str (escape_chars (chars value)).

Definition expand_process_regex (regex_str launcher : string) : string :=
  if decide (regex_str = "/HOME_PACKAGE/")
  then "^" +:+ escape_regex_literal launcher +:+ "$" else regex_str.

Definition expand_thread_regex (keyword process_name : string) : string :=
  if decide (keyword = "/MAIN_THREAD/") then process_name else keyword.

(** One thread rule; [None] when it is skipped. *)
Definition compile_thread_rule (base_icase : bool) (source_rule_index : nat) (tr : ThreadRule)
    : option CompiledThreadRule :=
  let thread_regex := parse_regex_pattern (tr_keyword tr) in
  if decide (rp_pattern thread_regex = "/MAIN_THREAD/")
  then Some {| ctr_rule := tr; ctr_pattern := None;
               ctr_source_rule_index := source_rule_index; ctr_is_main_thread_rule := true |}
  else
    let tk := expand_thread_regex (rp_pattern thread_regex) EmptyString in
    if (kMaxRegexLength <? length (chars tk))%nat then None
    else
      match regex_compile tk (regex_flags_for thread_regex base_icase) with
      | None => None
      | Some pattern =>
          Some {| ctr_rule := tr; ctr_pattern := Some pattern;
                  ctr_source_rule_index := source_rule_index;
                  ctr_is_main_thread_rule := false |}
      end.

Fixpoint compile_thread_rules (base_icase : bool) (index : nat) (rules : list ThreadRule)
    : list CompiledThreadRule :=
  match rules with
  | [] => []
  | tr :: rules' =>
      match compile_thread_rule base_icase index tr with
      | Some ctr => [ctr]
      | None => []
      end ++ compile_thread_rules base_icase (S index) rules'
  end.

Definition compile_process_rule (base_icase : bool) (launcher_package : string)
    (rule : ProcessRule) : option CompiledProcessRule :=
  let process_regex := parse_regex_pattern (pr_regex_str rule) in
  let expanded := expand_process_regex (rp_pattern process_regex) launcher_package in
  if (kMaxRegexLength <? length (chars expanded))%nat then None
  else
    match regex_compile expanded (regex_flags_for process_regex base_icase) with
    | None => None
    | Some pattern =>
        Some {| cr_rule := rule; cr_pattern := pattern;
                cr_thread_rules := compile_thread_rules base_icase 0 (pr_thread_rules rule) |}
    end.

Record ThreadMatcher := {
  tm_config : Config;
  tm_launcher_package : string;
  tm_compiled_rules : list CompiledProcessRule }.

Definition new_matcher (config : Config) : ThreadMatcher := {|
  tm_config := config;
  tm_launcher_package := cfg_launcher_package config;
  tm_compiled_rules :=
    omap (compile_process_rule (sc_case_insensitive (cfg_sched config))
            (cfg_launcher_package config)) (sc_rules (cfg_sched config)) |}.
End Rules.
Arguments CompiledThreadRule : clear implicits.
Arguments CompiledProcessRule : clear implicits.
Arguments ThreadMatcher : clear implicits.

(** ** Resolving classes *)

Section Resolve.
Context {R : Type}.
Implicit Types m : ThreadMatcher R.

Definition get_cpumask_name_for_affinity m (affinity_class : string)
    (effective_state : ProcessState) : string :=
  if empty affinity_class || bool_decide (affinity_class = "auto") then EmptyString
  else
    match sc_affinity (cfg_sched (tm_config m)) !! affinity_class with
    | None => EmptyString
    | Some scene => scene_mask scene effective_state
    end.

Definition get_cpus_for_affinity m (affinity_class : string)
    (effective_state : ProcessState) : list Z :=
  let cpumask_name := get_cpumask_name_for_affinity m affinity_class effective_state in
  if empty cpumask_name then []
  else default [] (sc_cpumask (cfg_sched (tm_config m)) !! cpumask_name).

Definition get_prio_value m (prio_class : string) (state : ProcessState) : Z :=
  if empty prio_class || bool_decide (prio_class = "auto") then 0
  else
    match sc_prio (cfg_sched (tm_config m)) !! prio_class with
    | None => 0
    | Some scene => scene_prio scene state
    end.
End Resolve.

(** ** The rule search *)

Section Search.
Context {R : Type} `{!RegexEngine R}.

(** A rule matches when the command line or the process name does; a search
    that throws makes the rule be passed over. *)
Definition process_rule_matches (cmdline proc_name : string) (cr : CompiledProcessRule R)
    : bool :=
  match (if empty cmdline then Some false else regex_search cmdline (cr_pattern cr)) with
  | None => false
  | Some cmdline_matched =>
      match regex_search proc_name (cr_pattern cr) with
      | None => false
      | Some process_name_matched => cmdline_matched || process_name_matched
      end
  end.

Definition find_process_rule (cmdline proc_name : string)
    (rules : list (CompiledProcessRule R)) : option (CompiledProcessRule R) :=
  find (process_rule_matches cmdline proc_name) rules.

Definition thread_rule_matches (thread_name : string) (is_main_thread : bool)
    (ctr : CompiledThreadRule R) : bool :=
  if ctr_is_main_thread_rule ctr then is_main_thread
  else match ctr_pattern ctr with
       | Some pattern => default false (regex_search thread_name pattern)
       | None => false
       end.

Definition find_thread_rule (thread_name : string) (is_main_thread : bool)
    (rules : list (CompiledThreadRule R)) : option (CompiledThreadRule R) :=
  find (thread_rule_matches thread_name is_main_thread) rules.

Definition rule_effective_state (rule : ProcessRule) (actual_state : ProcessState)
    : ProcessState :=
  if pr_pinned rule then TOP
  else if pr_topfore rule && bool_decide (actual_state = FG) then TOP
  else actual_state.

(** The part of [match_impl] after a process rule was found. *)
Definition matched_result (m : ThreadMatcher R) (cr : CompiledProcessRule R)
    (thread_name : string) (actual_state : ProcessState) (is_main_thread : bool)
    : MatchResult :=
  let rule := cr_rule cr in
  let effective_state := rule_effective_state rule actual_state in
  let found := find_thread_rule thread_name is_main_thread (cr_thread_rules cr) in
  let affinity_class :=
    match found with Some c => tr_affinity_class (ctr_rule c) | None => EmptyString end in
  {| mr_matched := true;
     mr_affinity_class := affinity_class;
     mr_prio_class :=
       match found with Some c => tr_prio_class (ctr_rule c) | None => EmptyString end;
     mr_cpumask_name := get_cpumask_name_for_affinity m affinity_class effective_state;
     mr_uclamp_max := match found with Some c => tr_uclamp_max (ctr_rule c) | None => None end;
     mr_cpu_share := match found with Some c => tr_cpu_share (ctr_rule c) | None => None end;
     mr_enable_limit :=
       match found with Some c => tr_enable_limit (ctr_rule c) | None => false end;
     mr_effective_state := effective_state;
     mr_matched_rule_name := pr_name rule;
     mr_thread_rule_index :=
       match found with Some c => to_int32 (Z.of_nat (ctr_source_rule_index c)) | None => -1 end;
     mr_pinned := pr_pinned rule;
     mr_topfore := pr_topfore rule |}.
End Search.

(** ** The result cache *)

Record ProcessCacheEntry := {
  pce_matched_rule_name : string;
  pce_affinity_class : string;
  pce_prio_class : string;
  pce_cpumask_name : string;
  pce_uclamp_max : option Z;
  pce_cpu_share : option Z;
  pce_enable_limit : bool;
  pce_effective_state : ProcessState;
  pce_thread_rule_index : Z;
  pce_pinned : bool;
  pce_topfore : bool;
  pce_timestamp : Z }.

Definition cache_entry_of (r : MatchResult) (timestamp : Z) : ProcessCacheEntry := {|
  pce_matched_rule_name := mr_matched_rule_name r;
  pce_affinity_class := mr_affinity_class r;
  pce_prio_class := mr_prio_class r;
  pce_cpumask_name := mr_cpumask_name r;
  pce_uclamp_max := mr_uclamp_max r;
  pce_cpu_share := mr_cpu_share r;
  pce_enable_limit := mr_enable_limit r;
  pce_effective_state := mr_effective_state r;
  pce_thread_rule_index := mr_thread_rule_index r;
  pce_pinned := mr_pinned r;
  pce_topfore := mr_topfore r;
  pce_timestamp := timestamp |}.

Definition cached_result (e : ProcessCacheEntry) : MatchResult := {|
  mr_matched := true;
  mr_affinity_class := pce_affinity_class e;
  mr_prio_class := pce_prio_class e;
  mr_cpumask_name := pce_cpumask_name e;
  mr_uclamp_max := pce_uclamp_max e;
  mr_cpu_share := pce_cpu_share e;
  mr_enable_limit := pce_enable_limit e;
  mr_effective_state := pce_effective_state e;
  mr_matched_rule_name := pce_matched_rule_name e;
  mr_thread_rule_index := pce_thread_rule_index e;
  mr_pinned := pce_pinned e;
  mr_topfore := pce_topfore e |}.

Definition kMaxProcessCacheEntriesPerBucket : nat := 256.
Definition kCacheBuckets : Z := 16.

Notation Bucket := (gmap string ProcessCacheEntry).

(** The matcher's changing state: its buckets, next to the world its clock
    readings come from. *)
Record MatcherState (W : Type) := MkMatcherState {
  ms_world : W;
  ms_process_cache : gmap Z Bucket }.
Arguments MkMatcherState {W} _ _.
Arguments ms_world {W} _.
Arguments ms_process_cache {W} _.

(** [std::min_element] by timestamp, in the iteration order of the map. *)
Definition min_element (cache : Bucket) : option string :=
  fst <$> foldl (λ best kv,
    match best with
    | None => Some kv
    | Some b => if pce_timestamp kv.2 <? pce_timestamp b.2 then Some kv else Some b
    end) None (map_to_list cache).

Definition cache_key (proc_name thread_name cmdline : string) (actual_state : ProcessState)
    (is_main_thread : bool) : string :=
  proc_name +:+ "#|#" +:+ thread_name +:+ "#|#" +:+ cmdline +:+ "#|#"
  +:+ to_string (state_code actual_state) +:+ "#|#"
  +:+ to_string (if is_main_thread then 1 else 0).

Section Cache.
Context {W : Type} `{!Kernel W} `{!StringHash}.

Definition matcher_now : M (MatcherState W) Z :=
  λ s, let '(t, w) := k_now (ms_world s) in (t, MkMatcherState w (ms_process_cache s)).

Definition get_cache_bucket (key : string) : Z := string_hash key `mod` kCacheBuckets.

Definition bucket_of (key : string) (s : MatcherState W) : Bucket :=
  default ∅ (ms_process_cache s !! get_cache_bucket key).
Definition set_bucket (key : string) (b : Bucket) : M (MatcherState W) unit :=
  modify (λ s, MkMatcherState (ms_world s)
                 (<[get_cache_bucket key := b]> (ms_process_cache s))).

Definition get_cached_process_result (ttl : Z) (key : string)
    : M (MatcherState W) (option ProcessCacheEntry) :=
  cache ← gets (bucket_of key);
  match cache !! key with
  | None => mret None
  | Some e =>
      now ← matcher_now;
      if to_ms (now - pce_timestamp e) <? ttl then mret (Some e)
      else _ ← set_bucket key (delete key cache); mret None
  end.

(** Drops the expired entries, then the oldest one if the bucket is full. *)
Definition make_room (ttl now : Z) (key : string) (cache : Bucket) : Bucket :=
  let cache := filter (λ kv, to_ms (now - pce_timestamp kv.2) < ttl) cache in
  if bool_decide (cache !! key = None)
     && (kMaxProcessCacheEntriesPerBucket <=? size cache)%nat
  then match min_element cache with Some oldest => delete oldest cache | None => cache end
  else cache.

Definition cache_process_result (ttl : Z) (key : string) (entry : ProcessCacheEntry)
    : M (MatcherState W) unit :=
  now ← matcher_now;
  cache ← gets (bucket_of key);
  set_bucket key (<[key := entry]> (make_room ttl now key cache)).
End Cache.

(** ** [match_impl] *)

Section Match.
Context {R : Type} `{!RegexEngine R} {W : Type} `{!Kernel W} `{!StringHash}.

Definition match_impl (m : ThreadMatcher R) (proc_name thread_name : string)
    (actual_state : ProcessState) (cmdline : string) (is_main_thread : bool)
    : M (MatcherState W) MatchResult :=
  let key := cache_key proc_name thread_name cmdline actual_state is_main_thread in
  let ttl := process_cache_ttl_ms (sc_timing (cfg_sched (tm_config m))) in
  if decide (proc_name = "[dead]") then
    cache ← gets (bucket_of key);
    _ ← set_bucket key (delete key cache);
    mret (no_match actual_state)
  else
    cached ← get_cached_process_result ttl key;
    match cached with
    | Some e => mret (cached_result e)
    | None =>
        match find_process_rule cmdline proc_name (tm_compiled_rules m) with
        | None => mret (no_match actual_state)
        | Some cr =>
            let result := matched_result m cr thread_name actual_state is_main_thread in
            if empty (mr_matched_rule_name result) then mret result
            else
              timestamp ← matcher_now;
              _ ← cache_process_result ttl key (cache_entry_of result timestamp);
              mret result
        end
    end.

Definition match_thread (m : ThreadMatcher R) (proc_name thread_name : string)
    (actual_state : ProcessState) (pid tid : Z) (cmdline : string)
    : M (MatcherState W) MatchResult :=
  match_impl m proc_name thread_name actual_state cmdline (tid =? pid).

Definition match_process_only (m : ThreadMatcher R) (proc_name thread_name : string)
    (actual_state : ProcessState) (cmdline : string) : M (MatcherState W) MatchResult :=
  match_impl m proc_name thread_name actual_state cmdline true.
End Match.
