(* ===== verification/LiteralRegex.v ===== *)
(** * A concrete regular expression engine

    The fragment of ECMAScript without alternatives, classes, groups and
    quantifiers: ordinary characters, escaped metacharacters, and the anchors
    at the two ends.  Other patterns are reported as [regex_error].  It
    instantiates the interface [RegexEngine], gives the meaning of what
    [escape_regex_literal] produces, and runs the witnesses. *)

From S2P Require Import Prelude CppString ConfigTypes ThreadMatcher.

Record Literal := {
  lit_start : bool;
  lit_end : bool;
  lit_icase : bool;
  lit_text : list ascii }.

Definition lower (c : ascii) : ascii :=
  let n := N_of_ascii c in
  if (65 <=? n)%N && (n <=? 90)%N then ascii_of_N (n + 32) else c.

(** The characters up to the end, and whether the end anchor closes them. *)
Fixpoint lit_scan (l : list ascii) : option (list ascii * bool) :=
  match l with
  | [] => Some ([], false)
  | c :: l' =>
      if decide (c = "\"%char) then
        match l' with
        | [] => None
        | d :: l'' => if is_metacharacter d then prod_map (cons d) id <$> lit_scan l'' else None
        end
      else if decide (c = "$"%char ∧ l' = []) then Some ([], true)
      else if is_metacharacter c then None
      else prod_map (cons c) id <$> lit_scan l'
  end.

Definition lit_compile (pattern : string) (icase : bool) : option Literal :=
  let '(start, body) :=
    match chars pattern with
    | c :: l => if decide (c = "^"%char) then (true, l) else (false, c :: l)
    | [] => (false, [])
    end in
  '(text, stop) ← lit_scan body;
  Some {| lit_start := start; lit_end := stop; lit_icase := icase; lit_text := text |}.

Definition same_char (icase : bool) (a b : ascii) : bool :=
  if icase then bool_decide (lower a = lower b) else bool_decide (a = b).

(** The text matches at the beginning of [s]. *)
Fixpoint lit_here (icase stop : bool) (text s : list ascii) : bool :=
  match text, s with
  | [], [] => true
  | [], _ :: _ => negb stop
  | c :: text', d :: s' => same_char icase c d && lit_here icase stop text' s'
  | _ :: _, [] => false
  end.

Fixpoint lit_anywhere (icase stop : bool) (text s : list ascii) : bool :=
  lit_here icase stop text s
  || match s with [] => false | _ :: s' => lit_anywhere icase stop text s' end.

Definition lit_search (s : string) (p : Literal) : option bool :=
  Some (if lit_start p then lit_here (lit_icase p) (lit_end p) (lit_text p) (chars s)
        else lit_anywhere (lit_icase p) (lit_end p) (lit_text p) (chars s)).

#[export] Instance literal_engine : RegexEngine Literal :=
  {| regex_compile := lit_compile; regex_search := lit_search |}.

(** An escaped text stands for itself. *)
Lemma lit_scan_escape l : lit_scan (escape_chars l ++ ["$"%char]) = Some (l, true).
Proof.
  induction l as [|c l IH]; [done|]. cbn [escape_chars].
  destruct (is_metacharacter c) eqn:Hm; cbn [app].
  - cbn [lit_scan]. rewrite decide_True by done. by rewrite Hm, IH.
  - cbn [lit_scan]. rewrite decide_False.
    2: { intros ->. done. }
    rewrite decide_False.
    2: { intros [-> _]. done. }
    by rewrite Hm, IH.
Qed.

Lemma lit_here_exact text s : lit_here false true text s = bool_decide (s = text).
Proof.
  revert s. induction text as [|c text IH]; intros [|d s]; try done.
  cbn [lit_here]. rewrite IH. unfold same_char. apply eq_true_iff_eq.
  rewrite andb_true_iff, !bool_decide_eq_true. naive_solver.
Qed.

(** What [/HOME_PACKAGE/] expands to matches the launcher's package name and
    nothing else. *)
Lemma home_package_exact launcher :
  ∃ p, regex_compile (expand_process_regex "/HOME_PACKAGE/" launcher) false = Some p
    ∧ ∀ s, regex_search s p = Some (bool_decide (s = launcher)).
Proof.
  exists {| lit_start := true; lit_end := true; lit_icase := false; lit_text := chars launcher |}.
  split.
  - unfold expand_process_regex. cbn [regex_compile literal_engine].
    rewrite decide_True by done. unfold lit_compile, escape_regex_literal.
    rewrite !chars_app, chars_str. cbn [chars String.list_ascii_of_string app].
    rewrite decide_True by done. change (chars "$") with ["$"%char].
    by rewrite lit_scan_escape.
  - intros s. cbn. unfold lit_search. cbn. rewrite lit_here_exact. f_equal.
    apply bool_decide_ext. split; [apply chars_inj|by intros ->].
Qed.
