(* ===== verification/MatcherFacts.v ===== *)
(** * Properties of the matcher

    The reference semantics of the rules, the correctness of the cached
    matcher with respect to it, and the bound of the cache. *)

From S2P Require Import Prelude CppString CgroupName ConfigTypes ConfigParser Kernel ThreadMatcher.

(** ** Reference semantics: the first matching rule, without a cache *)

Section Spec.
Context {R : Type} `{!RegexEngine R}.

Definition match_spec (m : ThreadMatcher R) (proc_name thread_name : string)
    (actual_state : ProcessState) (cmdline : string) (is_main_thread : bool) : MatchResult :=
  if decide (proc_name = "[dead]") then no_match actual_state
  else
    match find_process_rule cmdline proc_name (tm_compiled_rules m) with
    | None => no_match actual_state
    | Some cr => matched_result m cr thread_name actual_state is_main_thread
    end.

(** A compiled thread rule is the source rule its index names. *)
Lemma compile_thread_rules_source base_icase i rules (ctr : CompiledThreadRule R) :
  ctr ∈ compile_thread_rules base_icase i rules →
  ∃ k, ctr_source_rule_index ctr = (i + k)%nat ∧ rules !! k = Some (ctr_rule ctr).
Proof.
  revert i. induction rules as [|tr rules IH]; intros i; cbn [compile_thread_rules].
  { by intros ?%elem_of_nil. }
  rewrite elem_of_app. intros [Hin|Hin].
  - exists 0%nat. destruct (compile_thread_rule base_icase i tr) as [c|] eqn:E;
      [|by apply elem_of_nil in Hin].
    apply list_elem_of_singleton in Hin as ->. unfold compile_thread_rule in E.
    repeat case_match; simplify_eq/=; (split; [lia|done]).
  - apply IH in Hin as (k & Hk & Hl). exists (S k). split; [lia|done].
Qed.

Lemma new_matcher_rule cfg (cr : CompiledProcessRule R) :
  cr ∈ tm_compiled_rules (new_matcher cfg) →
  cr_rule cr ∈ sc_rules (cfg_sched cfg)
  ∧ cr_thread_rules cr = compile_thread_rules (sc_case_insensitive (cfg_sched cfg)) 0
                           (pr_thread_rules (cr_rule cr)).
Proof.
  cbn. intros (rule & Hin & Hc)%list_elem_of_omap. unfold compile_process_rule in Hc.
  repeat case_match; simplify_eq/=. done.
Qed.

(** The result is taken from one process rule and, when some thread rule of
    it applies, from that thread rule. *)
Definition result_of_rule (rule : ProcessRule) (actual_state : ProcessState) (r : MatchResult)
    : Prop :=
  mr_matched_rule_name r = pr_name rule
  ∧ mr_effective_state r = rule_effective_state rule actual_state
  ∧ mr_pinned r = pr_pinned rule ∧ mr_topfore r = pr_topfore rule
  ∧ match pr_thread_rules rule !! Z.to_nat (mr_thread_rule_index r) with
    | Some t =>
        mr_thread_rule_index r = -1 ∨
        (mr_affinity_class r = tr_affinity_class t ∧ mr_prio_class r = tr_prio_class t
         ∧ mr_uclamp_max r = tr_uclamp_max t ∧ mr_cpu_share r = tr_cpu_share t
         ∧ mr_enable_limit r = tr_enable_limit t)
    | None => mr_thread_rule_index r = -1
    end
  ∧ (mr_thread_rule_index r = -1 →
     mr_affinity_class r = EmptyString ∧ mr_prio_class r = EmptyString
     ∧ mr_enable_limit r = false).

Lemma match_spec_source cfg proc_name thread_name actual_state cmdline main :
  Forall (λ r, Z.of_nat (length (pr_thread_rules r)) ≤ INT_MAX) (sc_rules (cfg_sched cfg)) →
  let r := match_spec (new_matcher cfg) proc_name thread_name actual_state cmdline main in
  mr_matched r = true →
  ∃ rule, rule ∈ sc_rules (cfg_sched cfg) ∧ result_of_rule rule actual_state r.
Proof.
  intros Hlen r. unfold r, match_spec. case_decide; [done|].
  destruct (find_process_rule _ _ _) as [cr|] eqn:E; [|done]. intros _.
  apply find_elem in E as [[Hrule Hthreads]%new_matcher_rule _].
  exists (cr_rule cr). split; [done|]. unfold result_of_rule, matched_result.
  cbn. do 4 (split; [done|]).
  destruct (find_thread_rule _ _ _) as [ctr|] eqn:Ef.
  - apply find_elem in Ef as [Hin _]. rewrite Hthreads in Hin.
    apply compile_thread_rules_source in Hin as (k & Hk & Hl). simpl in Hk.
    rewrite Forall_forall in Hlen. apply Hlen in Hrule. apply lookup_lt_Some in Hl as Hlt.
    rewrite Hk, to_int32_id by (unfold in_int, INT_MIN, INT_MAX in *; lia).
    rewrite Nat2Z.id, Hl. split; [by right|]. lia.
  - split; [|done]. case_match; auto.
Qed.
End Spec.

(** ** Cache keys *)

Notation HASH := ("#"%char) (only parsing).

(** Strings that cannot imitate the separator of the key. *)
Definition plain (s : string) : Prop := HASH ∉ chars s.

Lemma to_string_plain z : 0 ≤ z → plain (to_string z).
Proof.
  intros Hz Hin. destruct (to_string_digits z Hz) as (ds & Heq & _ & Hall & _).
  rewrite Heq in Hin. rewrite Forall_forall in Hall. by apply Hall in Hin as [? ?].
Qed.

Lemma state_code_nonneg st : 0 ≤ state_code st.
Proof. by destruct st. Qed.

Lemma cache_key_chars p t c st main :
  chars (cache_key p t c st main) =
    chars p ++ HASH :: "|"%char :: HASH :: chars t ++ HASH :: "|"%char :: HASH :: chars c
    ++ HASH :: "|"%char :: HASH :: chars (to_string (state_code st))
    ++ HASH :: "|"%char :: HASH :: chars (to_string (if main : bool then 1 else 0)).
Proof. unfold cache_key. by rewrite !chars_app. Qed.

Lemma cache_key_count p t c st main :
  count_char HASH (chars (cache_key p t c st main)) =
    (count_char HASH (chars p) + count_char HASH (chars t) + count_char HASH (chars c) + 8)%nat.
Proof.
  rewrite cache_key_chars.
  assert (∀ l, count_char HASH (HASH :: "|"%char :: HASH :: l) = (2 + count_char HASH l)%nat)
    as Hsep by done.
  rewrite !count_char_app, !Hsep, !count_char_app, !Hsep, !count_char_app, !Hsep,
    !count_char_app, !Hsep.
  rewrite (proj2 (count_char_zero _ (chars (to_string (state_code st))))).
  2: { apply to_string_plain, state_code_nonneg. }
  rewrite (proj2 (count_char_zero _ (chars (to_string (if main then 1 else 0))))).
  2: { apply to_string_plain. by destruct main. }
  lia.
Qed.

(** A key made from plain strings has one origin. *)
Lemma cache_key_inj p t c st main p' t' c' st' main' :
  plain p → plain t → plain c →
  cache_key p' t' c' st' main' = cache_key p t c st main →
  p' = p ∧ t' = t ∧ c' = c ∧ st' = st ∧ main' = main.
Proof.
  intros Hp Ht Hc Heq.
  pose proof (cache_key_count p t c st main) as Hn.
  rewrite <-Heq, cache_key_count in Hn.
  rewrite (proj2 (count_char_zero _ _) Hp), (proj2 (count_char_zero _ _) Ht),
    (proj2 (count_char_zero _ _) Hc) in Hn.
  assert (plain p') as Hp' by (apply count_char_zero; lia).
  assert (plain t') as Ht' by (apply count_char_zero; lia).
  assert (plain c') as Hc' by (apply count_char_zero; lia).
  apply (f_equal chars) in Heq. rewrite !cache_key_chars in Heq.
  apply sep_app_inj in Heq as [Ep Heq]; [|done|done]. apply chars_inj in Ep as ->.
  injection Heq as Heq.
  apply sep_app_inj in Heq as [Et Heq]; [|done|done]. apply chars_inj in Et as ->.
  injection Heq as Heq.
  apply sep_app_inj in Heq as [Ec Heq]; [|done|done]. apply chars_inj in Ec as ->.
  injection Heq as Heq.
  apply sep_app_inj in Heq as [Es Heq]; [|apply to_string_plain, state_code_nonneg..].
  injection Heq as Heq.
  split_and!; [done|done|done| |].
  - apply chars_inj in Es. by destruct st, st'.
  - by destruct main, main'.
Qed.

(** ** Making room *)

Lemma min_element_spec (cache : Bucket) :
  cache ≠ ∅ → ∃ key e, min_element cache = Some key ∧ cache !! key = Some e
    ∧ ∀ key' e', cache !! key' = Some e' → pce_timestamp e ≤ pce_timestamp e'.
Proof.
  intros Hne. unfold min_element.
  set (f := λ (best : option (string * ProcessCacheEntry)) (kv : string * ProcessCacheEntry), _).
  assert (∀ l best, let seen := from_option (λ b, [b]) [] best ++ l in seen ≠ [] →
    ∃ kv, foldl f best l = Some kv ∧ kv ∈ seen
      ∧ ∀ kv', kv' ∈ seen → pce_timestamp kv.2 ≤ pce_timestamp kv'.2) as Hfold.
  { induction l as [|x l IH]; intros best seen Hseen.
    - destruct best as [b|]; [|done]. exists b. split; [done|]. split; [left|].
      intros kv' Hin. simpl in Hin. apply list_elem_of_singleton in Hin as ->. lia.
    - simpl. destruct best as [b|]; simpl.
      + destruct (Z.ltb_spec (pce_timestamp x.2) (pce_timestamp b.2)) as [Hlt|Hge].
        * destruct (IH (Some x)) as (kv & -> & Hin & Hmin); [done|]. simpl in *.
          exists kv. split; [done|]. split; [set_solver|].
          intros kv' [->|Hk]%elem_of_cons; [|by apply Hmin].
          specialize (Hmin x). lapply Hmin; [lia|left].
        * destruct (IH (Some b)) as (kv & -> & Hin & Hmin); [done|]. simpl in *.
          exists kv. split; [done|]. split; [set_solver|].
          intros kv' [->|[->|Hk]%elem_of_cons]%elem_of_cons.
          -- apply Hmin. left.
          -- specialize (Hmin b). lapply Hmin; [lia|left].
          -- apply Hmin. by right.
      + destruct (IH (Some x)) as (kv & -> & Hin & Hmin); [done|]. simpl in *. eauto. }
  destruct (Hfold (map_to_list cache) None) as ([key e] & -> & Hin & Hmin).
  - simpl. by intros ?%map_to_list_empty_iff.
  - exists key, e. split; [done|]. split; [by apply elem_of_map_to_list|].
    intros key' e' He'. apply (Hmin (key', e')). by apply elem_of_map_to_list.
Qed.

Lemma make_room_bound ttl now key bucket e :
  (size bucket ≤ kMaxProcessCacheEntriesPerBucket)%nat →
  (size (<[key := e]> (make_room ttl now key bucket)) ≤ kMaxProcessCacheEntriesPerBucket)%nat.
Proof.
  intros Hs. unfold make_room. set (f := filter _ bucket).
  assert (size f ≤ size bucket)%nat by apply map_size_filter.
  rewrite map_size_insert. destruct (f !! key) as [e'|] eqn:E.
  - rewrite bool_decide_eq_false_2 by done. cbn [andb]. rewrite E. unfold id. lia.
  - rewrite bool_decide_eq_true_2 by done. cbn [andb].
    destruct (Nat.leb_spec kMaxProcessCacheEntriesPerBucket (size f)) as [Hle|Hlt].
    + destruct (min_element_spec f) as (k & ek & -> & Hk & _).
      { intros ->. rewrite map_size_empty in Hle.
        unfold kMaxProcessCacheEntriesPerBucket in Hle. lia. }
      assert (size (delete k f) = Nat.pred (size f)) as Hd by by rewrite map_size_delete, Hk.
      unfold kMaxProcessCacheEntriesPerBucket in *.
      destruct (delete k f !! key); unfold id; lia.
    + rewrite E. lia.
Qed.

(** ** The cached matcher *)

Section CachedMatcher.
Context {R : Type} `{!RegexEngine R} {W : Type} `{!Kernel W} `{!StringHash}.
Variable m : ThreadMatcher R.
Implicit Types s : MatcherState W.

Definition on_buckets (P : Z → Bucket → Prop) s : Prop :=
  ∀ b bucket, ms_process_cache s !! b = Some bucket → P b bucket.

Lemma bucket_of_inv (P : Z → Bucket → Prop) key s :
  (∀ b, P b ∅) → on_buckets P s → P (get_cache_bucket key) (bucket_of key s).
Proof.
  intros He Hs. unfold bucket_of. destruct (ms_process_cache s !! _) eqn:E; [by apply Hs|].
  apply He.
Qed.

Lemma set_bucket_inv (P : Z → Bucket → Prop) key bucket s :
  on_buckets P s → P (get_cache_bucket key) bucket →
  wp (set_bucket key bucket) (λ _, on_buckets P) s.
Proof.
  intros Hs Hb. unfold set_bucket. wp_step. intros b bucket'. cbn.
  intros [[<- <-]|[_ ?]]%lookup_insert_Some; [done|by apply Hs].
Qed.

Lemma matcher_now_inv (P : Z → Bucket → Prop) s :
  on_buckets P s → wp matcher_now (λ _, on_buckets P) s.
Proof. intros Hs. unfold wp, matcher_now. by destruct (k_now (ms_world s)). Qed.

(** Whatever holds of every entry stays so, when the entry a match stores
    satisfies it and it survives deletions. *)
Lemma match_impl_inv (P : Z → Bucket → Prop) (Q : MatchResult → Prop) p t st c main :
  let key := cache_key p t c st main in
  let spec := match_spec m p t st c main in
  (∀ b, P b ∅) →
  (∀ b bucket k, P b bucket → P b (delete k bucket)) →
  (∀ ttl now bucket ts, P (get_cache_bucket key) bucket → p ≠ "[dead]" →
     mr_matched spec = true →
     P (get_cache_bucket key)
       (<[key := cache_entry_of spec ts]> (make_room ttl now key bucket))) →
  Q spec →
  (∀ bucket e, P (get_cache_bucket key) bucket → bucket !! key = Some e → Q (cached_result e)) →
  ∀ s, on_buckets P s →
    wp (match_impl m p t st c main) (λ r s', Q r ∧ on_buckets P s') s.
Proof.
  intros key spec Hempty Hdel Hins Hspec Hhit s Hs. unfold match_impl. fold key. cbv zeta.
  unfold spec, match_spec in *. case_decide as Hdead.
  - do 3 wp_step. eapply wp_mono; [apply (set_bucket_inv P); [done|]|].
    + apply Hdel. by apply bucket_of_inv.
    + intros [] s' Hs'. wp_step. done.
  - wp_step. unfold get_cached_process_result. do 2 wp_step.
    pose proof (bucket_of_inv P key s Hempty Hs) as Hb.
    eapply wp_mono with (Q := λ r s', on_buckets P s' ∧ ∀ e, r = Some e → Q (cached_result e)).
    { destruct (bucket_of key s !! key) as [e|] eqn:E; [|by wp_step].
      wp_step. eapply wp_mono; [by apply matcher_now_inv|]. intros now s1 Hs1. cbv beta.
      wp_step; [wp_step; split; [done|intros ? [= <-]; exact (Hhit _ _ Hb E)]|].
      wp_step. eapply wp_mono; [apply (set_bucket_inv P); [done|by apply Hdel]|].
      intros [] s2 Hs2. by wp_step. }
    intros [e|] s0 [Hs0 Hq]; cbv beta iota; [wp_step; auto|]. clear Hq.
    destruct (find_process_rule c p (tm_compiled_rules m)) as [cr|]; [|by wp_step].
    set (r := matched_result m cr t st main) in *.
    destruct (empty (mr_matched_rule_name r)); [by wp_step|].
    wp_step. eapply wp_mono; [by apply matcher_now_inv|]. intros ts s1 Hs1. cbv beta.
    wp_step. unfold cache_process_result.
    wp_step. eapply wp_mono; [by apply (matcher_now_inv P)|]. intros now s2 Hs2. cbv beta.
    do 2 wp_step. eapply wp_mono; [apply (set_bucket_inv P); [done|]|].
    + apply Hins; [by apply bucket_of_inv|done|done].
    + intros [] s3 Hs3. by wp_step.
Qed.

(** *** Correctness *)

(** Every cached entry is, up to its timestamp, the reference result of some
    inputs with its key, and lies in the bucket of its key. *)
Definition entry_origin (key : string) (e : ProcessCacheEntry) : Prop :=
  ∃ p t st c main, key = cache_key p t c st main
    ∧ mr_matched (match_spec m p t st c main) = true
    ∧ cached_result e = match_spec m p t st c main.
Definition cache_ok : MatcherState W → Prop :=
  on_buckets (λ b bucket, ∀ key e, bucket !! key = Some e →
    b = get_cache_bucket key ∧ entry_origin key e).

Lemma cached_result_of r ts : mr_matched r = true → cached_result (cache_entry_of r ts) = r.
Proof. destruct r. simpl. by intros ->. Qed.

Lemma make_room_sub ttl now key bucket : make_room ttl now key bucket ⊆ bucket.
Proof.
  unfold make_room. set (f := filter _ bucket).
  assert (f ⊆ bucket) as Hf by apply map_filter_subseteq.
  destruct (_ && _); [|done]. destruct (min_element f); [|done].
  by etrans; [apply delete_subseteq|].
Qed.

Lemma match_impl_correct p t st c main s :
  cache_ok s →
  wp (match_impl m p t st c main) (λ r s', cache_ok s' ∧
    (plain p → plain t → plain c → r = match_spec m p t st c main)) s.
Proof.
  intros Hok. eapply wp_mono; [eapply (match_impl_inv
    (λ b bucket, ∀ key e, bucket !! key = Some e → b = get_cache_bucket key ∧ entry_origin key e)
    (λ r, plain p → plain t → plain c → r = match_spec m p t st c main))|].
  - done.
  - intros b bucket k Hb key e [_ He]%lookup_delete_Some. by apply Hb.
  - intros ttl now bucket ts Hb Hp Hm key e [[<- <-]|[_ He]]%lookup_insert_Some.
    + split; [done|]. exists p, t, st, c, main. split; [done|]. split; [done|].
      by apply cached_result_of.
    + eapply Hb, lookup_weaken; [exact He|apply make_room_sub].
  - done.
  - intros bucket e Hb He. apply Hb in He as [_ (p' & t' & st' & c' & main' & Hk & _ & ->)].
    intros Hp Ht Hc. symmetry in Hk. by apply cache_key_inj in Hk as (-> & -> & -> & -> & ->).
  - exact Hok.
  - simpl. tauto.
Qed.

(** *** Bound of the cache *)

Definition cache_bounded : MatcherState W → Prop :=
  on_buckets (λ _ bucket, size bucket ≤ kMaxProcessCacheEntriesPerBucket)%nat.

Lemma match_impl_bounded p t st c main s :
  cache_bounded s → wp (match_impl m p t st c main) (λ _, cache_bounded) s.
Proof.
  intros Hs. eapply wp_mono; [eapply (match_impl_inv
    (λ _ bucket, size bucket ≤ kMaxProcessCacheEntriesPerBucket)%nat (λ _, True))|].
  - intros _. by rewrite map_size_empty; unfold kMaxProcessCacheEntriesPerBucket; lia.
  - intros _ bucket k Hb. rewrite map_size_delete. destruct (bucket !! k); simpl; lia.
  - intros ttl now bucket ts Hb _ _. by apply make_room_bound.
  - done.
  - done.
  - exact Hs.
  - simpl. tauto.
Qed.
End CachedMatcher.

(** ** Comparing results *)

Lemma is_result_equal_spec a b : is_result_equal a b = true ↔ a = b.
Proof.
  unfold is_result_equal. rewrite !andb_true_iff, !bool_decide_eq_true, Z.eqb_eq.
  destruct a, b; simpl. split; [intros; destruct_and?; congruence|by intros [=]; subst].
Qed.

(** ** Resolving classes of an accepted configuration *)

Section ResolveFacts.
Context {R : Type} `{!RegexEngine R}.
Variable cfg : Config.
Hypothesis Hwf : wf_sched (cfg_sched cfg).

Lemma get_cpus_sound (m : ThreadMatcher R) cls st :
  tm_config m = cfg →
  let name := get_cpumask_name_for_affinity m cls st in
  let cpus := get_cpus_for_affinity m cls st in
  (name = EmptyString ∧ cpus = []) ∨
  (name ≠ EmptyString ∧ sc_cpumask (cfg_sched cfg) !! name = Some cpus
   ∧ wf_cpumask name cpus).
Proof.
  intros Hm name cpus. unfold cpus, get_cpus_for_affinity. fold name. rewrite Hm.
  unfold empty. case_bool_decide as Hn; [by left|]. right. split; [done|].
  assert (is_Some (sc_cpumask (cfg_sched cfg) !! name)) as [l Hl].
  { unfold name, get_cpumask_name_for_affinity in *. rewrite Hm in *.
    destruct (_ || _); [done|].
    destruct (sc_affinity (cfg_sched cfg) !! cls) as [scene|] eqn:E; [|done].
    by destruct (wf_affinity _ Hwf cls scene E st). }
  rewrite Hl. split; [done|]. by apply (wf_masks _ Hwf).
Qed.

Lemma get_prio_valid (m : ThreadMatcher R) cls st :
  tm_config m = cfg → is_valid_prio_value (get_prio_value m cls st) = true.
Proof.
  intros Hm. unfold get_prio_value. rewrite Hm. destruct (_ || _); [done|].
  destruct (sc_prio (cfg_sched cfg) !! cls) as [scene|] eqn:E; [|done].
  by apply (wf_prio _ Hwf cls scene E).
Qed.

(** A resolved affinity always has CPUs to apply. *)
Lemma resolved_has_cpus proc_name thread_name st cmdline main :
  let m := new_matcher cfg in
  let r := match_spec m proc_name thread_name st cmdline main in
  has_resolved_affinity r = true →
  wf_cpumask (mr_cpumask_name r)
    (get_cpus_for_affinity m (mr_affinity_class r) (mr_effective_state r)).
Proof.
  intros m r Hr. unfold has_resolved_affinity, empty in Hr.
  rewrite !andb_true_iff, !negb_true_iff, !bool_decide_eq_false in Hr.
  destruct Hr as [[Hc Ha] Hn].
  assert (mr_cpumask_name r =
    get_cpumask_name_for_affinity m (mr_affinity_class r) (mr_effective_state r)) as Heq.
  { unfold r, match_spec in *. case_decide; [done|].
    by destruct (find_process_rule _ _ _). }
  rewrite Heq in *.
  destruct (get_cpus_sound m (mr_affinity_class r) (mr_effective_state r) eq_refl)
    as [[? _]|(_ & _ & H)]; done.
Qed.
End ResolveFacts.
