(* ===== verification/ThreadCache.v ===== *)
(** * The thread cache ([core/thread_cache.hpp])

    One entry per process and thread number: the identity (start times), the
    last match, what the scheduler applied, and the baseline to restore.  The
    operations run under one mutex, so each is one function on the map. *)

From S2P Require Import Prelude CppString ConfigTypes ThreadMatcher.

Record ThreadBaseline := {
  tb_affinity : list Z;
  tb_has_affinity : bool;
  tb_scheduler_policy : Z;
  tb_scheduler_priority : Z;
  tb_nice : Z;
  tb_has_scheduler : bool;
  tb_cpuset_path : string;
  tb_has_cpuset_path : bool;
  tb_cpuctl_path : string;
  tb_has_cpuctl_path : bool }.

Definition empty_baseline : ThreadBaseline := {|
  tb_affinity := []; tb_has_affinity := false; tb_scheduler_policy := -1;
  tb_scheduler_priority := 0; tb_nice := 0; tb_has_scheduler := false;
  tb_cpuset_path := EmptyString; tb_has_cpuset_path := false;
  tb_cpuctl_path := EmptyString; tb_has_cpuctl_path := false |}.

Record StoredThreadBaseline := {
  stb_pid : Z;
  stb_tid : Z;
  stb_process_start_time : Z;
  stb_thread_start_time : Z;
  stb_baseline : ThreadBaseline }.

Record ManagedComponents := {
  mc_affinity : bool;
  mc_priority : bool;
  mc_cpuctl : bool }.
Definition no_components : ManagedComponents :=
  {| mc_affinity := false; mc_priority := false; mc_cpuctl := false |}.

Record ThreadCacheEntry := MkEntry {
  tce_pid : Z;
  tce_tid : Z;
  tce_process_start_time : Z;
  tce_thread_start_time : Z;
  tce_thread_name : string;
  tce_cmdline : string;
  tce_actual_state : ProcessState;
  tce_result : MatchResult;
  tce_applied_result : option MatchResult;
  tce_managed_components : ManagedComponents;
  tce_cpuset_base : string;
  tce_cpuctl_base : string;
  tce_baseline : option ThreadBaseline }.

(** The word hashed for a key. *)
Definition key_word (key : Z * Z) : Z :=
  Z.lor (Z.shiftl (to_uint32 key.1) 32) (to_uint32 key.2).

Notation ThreadCache := (gmap (Z * Z) ThreadCacheEntry).

(** The identity of a thread: the start times of its process and itself. *)
Definition identity (e : ThreadCacheEntry) : Z * Z :=
  (tce_process_start_time e, tce_thread_start_time e).

(** ** Operations *)

Module Cache.

Definition lookup (pid tid process_start_time thread_start_time : Z)
    (thread_name cmdline : string) (actual_state : ProcessState) (cache : ThreadCache)
    : option ThreadCacheEntry :=
  match cache !! (pid, tid) with
  | None => None
  | Some e =>
      if negb (tce_process_start_time e =? process_start_time)
         || negb (tce_thread_start_time e =? thread_start_time)
      then None
      else if bool_decide (tce_thread_name e = thread_name)
              && bool_decide (tce_cmdline e = cmdline)
              && bool_decide (tce_actual_state e = actual_state)
      then Some e else None
  end.

Definition update (pid tid process_start_time thread_start_time : Z)
    (thread_name cmdline : string) (actual_state : ProcessState) (result : MatchResult)
    (cpuset_base cpuctl_base : string) (cache : ThreadCache) : ThreadCache :=
  let fresh :=
    MkEntry pid tid process_start_time thread_start_time thread_name cmdline actual_state
      result None no_components cpuset_base cpuctl_base None in
  match cache !! (pid, tid) with
  | Some e =>
      if (tce_process_start_time e =? process_start_time)
         && (tce_thread_start_time e =? thread_start_time)
      then <[(pid, tid) :=
             MkEntry (tce_pid e) (tce_tid e) (tce_process_start_time e)
               (tce_thread_start_time e) thread_name cmdline actual_state result
               (tce_applied_result e) (tce_managed_components e) cpuset_base cpuctl_base
               (tce_baseline e)]> cache
      else <[(pid, tid) := fresh]> cache
  | None => <[(pid, tid) := fresh]> cache
  end.

Definition with_applied (r : option MatchResult) (e : ThreadCacheEntry) : ThreadCacheEntry :=
  MkEntry (tce_pid e) (tce_tid e) (tce_process_start_time e) (tce_thread_start_time e)
    (tce_thread_name e) (tce_cmdline e) (tce_actual_state e) (tce_result e) r
    (tce_managed_components e) (tce_cpuset_base e) (tce_cpuctl_base e) (tce_baseline e).
Definition with_components (c : ManagedComponents) (e : ThreadCacheEntry) : ThreadCacheEntry :=
  MkEntry (tce_pid e) (tce_tid e) (tce_process_start_time e) (tce_thread_start_time e)
    (tce_thread_name e) (tce_cmdline e) (tce_actual_state e) (tce_result e)
    (tce_applied_result e) c (tce_cpuset_base e) (tce_cpuctl_base e) (tce_baseline e).
Definition with_baseline (b : option ThreadBaseline) (e : ThreadCacheEntry) : ThreadCacheEntry :=
  MkEntry (tce_pid e) (tce_tid e) (tce_process_start_time e) (tce_thread_start_time e)
    (tce_thread_name e) (tce_cmdline e) (tce_actual_state e) (tce_result e)
    (tce_applied_result e) (tce_managed_components e) (tce_cpuset_base e) (tce_cpuctl_base e) b.

Definition get_applied_result (pid tid : Z) (cache : ThreadCache) : option MatchResult :=
  cache !! (pid, tid) ≫= tce_applied_result.
Definition update_applied_result (pid tid : Z) (result : MatchResult) : ThreadCache → ThreadCache :=
  alter (with_applied (Some result)) (pid, tid).
Definition clear_applied_result (pid tid : Z) : ThreadCache → ThreadCache :=
  alter (with_applied None) (pid, tid).

Definition get_managed_components (pid tid : Z) (cache : ThreadCache) : ManagedComponents :=
  match cache !! (pid, tid) with
  | Some e => tce_managed_components e
  | None => no_components
  end.
Definition set_managed_components (pid tid : Z) (components : ManagedComponents)
    : ThreadCache → ThreadCache :=
  alter (with_components components) (pid, tid).
Definition clear_managed_components (pid tid : Z) : ThreadCache → ThreadCache :=
  set_managed_components pid tid no_components.

(** What [set_baseline] makes of a baseline that is already there: each part
    is taken only where it was missing. *)
Definition merge_baseline (existing baseline : ThreadBaseline) : ThreadBaseline :=
  let aff := negb (tb_has_affinity existing) && tb_has_affinity baseline in
  let sch := negb (tb_has_scheduler existing) && tb_has_scheduler baseline in
  let set := negb (tb_has_cpuset_path existing) && tb_has_cpuset_path baseline in
  let ctl := negb (tb_has_cpuctl_path existing) && tb_has_cpuctl_path baseline in
  {| tb_affinity := if aff then tb_affinity baseline else tb_affinity existing;
     tb_has_affinity := if aff then true else tb_has_affinity existing;
     tb_scheduler_policy :=
       if sch then tb_scheduler_policy baseline else tb_scheduler_policy existing;
     tb_scheduler_priority :=
       if sch then tb_scheduler_priority baseline else tb_scheduler_priority existing;
     tb_nice := if sch then tb_nice baseline else tb_nice existing;
     tb_has_scheduler := if sch then true else tb_has_scheduler existing;
     tb_cpuset_path := if set then tb_cpuset_path baseline else tb_cpuset_path existing;
     tb_has_cpuset_path := if set then true else tb_has_cpuset_path existing;
     tb_cpuctl_path := if ctl then tb_cpuctl_path baseline else tb_cpuctl_path existing;
     tb_has_cpuctl_path := if ctl then true else tb_has_cpuctl_path existing |}.

Definition set_baseline (pid tid : Z) (baseline : ThreadBaseline) : ThreadCache → ThreadCache :=
  alter (λ e, with_baseline (Some match tce_baseline e with
                                  | None => baseline
                                  | Some existing => merge_baseline existing baseline
                                  end) e) (pid, tid).

Definition get_baseline (pid tid : Z) (cache : ThreadCache) : option ThreadBaseline :=
  cache !! (pid, tid) ≫= tce_baseline.
Definition clear_baseline (pid tid : Z) : ThreadCache → ThreadCache :=
  alter (with_baseline None) (pid, tid).

Definition get_pids_with_baselines (cache : ThreadCache) : gset Z :=
  list_to_set (omap (λ kv, (λ _, tce_pid kv.2) <$> tce_baseline kv.2) (map_to_list cache)).

Definition has_baseline_for_pid (pid : Z) (cache : ThreadCache) : bool :=
  existsb (λ kv, (tce_pid kv.2 =? pid) && bool_decide (is_Some (tce_baseline kv.2)))
    (map_to_list cache).

Definition get_all_baselines (cache : ThreadCache) : list StoredThreadBaseline :=
  omap (λ kv,
    let e : ThreadCacheEntry := kv.2 in
    match tce_baseline e with
    | Some b => Some {| stb_pid := tce_pid e; stb_tid := tce_tid e;
                        stb_process_start_time := tce_process_start_time e;
                        stb_thread_start_time := tce_thread_start_time e; stb_baseline := b |}
    | None => None
    end) (map_to_list cache).

Definition identity_snapshot (cache : ThreadCache) : gmap (Z * Z) (Z * Z) := identity <$> cache.

(** Whether the sweep after a scan keeps an entry. *)
Definition retains (live_processes : gmap Z Z) (live_threads : gmap (Z * Z) Z)
    (scan_start_identities : gmap (Z * Z) (Z * Z)) (key : Z * Z) (e : ThreadCacheEntry) : bool :=
  match scan_start_identities !! key with
  | None => true
  | Some (process_start, thread_start) =>
      if negb (process_start =? tce_process_start_time e)
         || negb (thread_start =? tce_thread_start_time e)
      then true
      else
        match live_processes !! tce_pid e with
        | None => false
        | Some start =>
            if negb (start =? tce_process_start_time e) then false
            else
              match live_threads !! key with
              | Some live_start => live_start =? tce_thread_start_time e
              | None => bool_decide (is_Some (tce_baseline e))
              end
        end
  end.

Definition retain_live_threads (live_processes : gmap Z Z) (live_threads : gmap (Z * Z) Z)
    (scan_start_identities : gmap (Z * Z) (Z * Z)) (cache : ThreadCache) : ThreadCache :=
  filter (λ kv, retains live_processes live_threads scan_start_identities kv.1 kv.2 = true) cache.

Definition clear_scheduling_state (e : ThreadCacheEntry) : option ThreadCacheEntry :=
  match tce_baseline e with
  | None => None
  | Some b =>
      Some (MkEntry (tce_pid e) (tce_tid e) (tce_process_start_time e)
              (tce_thread_start_time e) EmptyString EmptyString (tce_actual_state e)
              (tce_result e) None no_components (tce_cpuset_base e) (tce_cpuctl_base e) (Some b))
  end.
Definition clear_scheduling_state_preserving_baselines (cache : ThreadCache) : ThreadCache :=
  omap clear_scheduling_state cache.

Definition erase_thread_if_identity (pid tid process_start_time thread_start_time : Z)
    (cache : ThreadCache) : ThreadCache :=
  match cache !! (pid, tid) with
  | Some e =>
      if (tce_process_start_time e =? process_start_time)
         && (tce_thread_start_time e =? thread_start_time)
      then delete (pid, tid) cache else cache
  | None => cache
  end.

Definition reset_for_pid (pid : Z) (cache : ThreadCache) : ThreadCache :=
  filter (λ kv, kv.1.1 ≠ pid) cache.

Definition clear (cache : ThreadCache) : ThreadCache := ∅.

End Cache.

(** ** Properties *)

(** Every entry is stored under its own numbers. *)
Definition keyed (cache : ThreadCache) : Prop :=
  map_Forall (λ key e, key = (tce_pid e, tce_tid e)) cache.

#[export] Instance keyed_dec cache : Decision (keyed cache).
Proof. unfold keyed. apply _. Defined.

Lemma keyed_alter f key cache :
  (∀ e, tce_pid (f e) = tce_pid e ∧ tce_tid (f e) = tce_tid e) →
  keyed cache → keyed (alter f key cache).
Proof.
  intros Hf Hk k e. destruct (decide (k = key)) as [->|Hne].
  - rewrite lookup_alter_eq. intros (e' & He' & ->)%fmap_Some. destruct (Hf e') as [-> ->].
    by apply Hk.
  - rewrite lookup_alter_ne by done. apply Hk.
Qed.

Lemma keyed_filter P `{∀ x, Decision (P x)} cache : keyed cache → keyed (filter P cache).
Proof. intros Hk k e [He _]%map_lookup_filter_Some. by apply Hk. Qed.

Lemma update_keyed pid tid ps ts name cmd st r cb ub cache :
  keyed cache → keyed (Cache.update pid tid ps ts name cmd st r cb ub cache).
Proof.
  intros Hk. unfold Cache.update.
  destruct (cache !! (pid, tid)) as [e|] eqn:E; [destruct (_ && _)|];
    apply map_Forall_insert_2; try done. by apply Hk in E.
Qed.

(** What the cache says of a thread after [update]: the new match, and the old
    baseline, applied result and components exactly when the identity is the
    same. *)
Lemma update_lookup pid tid ps ts name cmd st r cb ub cache :
  let cache' := Cache.update pid tid ps ts name cmd st r cb ub cache in
  (∀ key, key ≠ (pid, tid) → cache' !! key = cache !! key)
  ∧ ∃ e, cache' !! (pid, tid) = Some e
    ∧ identity e = (ps, ts) ∧ tce_result e = r ∧ tce_thread_name e = name
    ∧ tce_cmdline e = cmd ∧ tce_actual_state e = st ∧ tce_cpuset_base e = cb
    ∧ tce_cpuctl_base e = ub
    ∧ match cache !! (pid, tid) with
      | Some old =>
          if decide (identity old = (ps, ts))
          then tce_baseline e = tce_baseline old ∧ tce_applied_result e = tce_applied_result old
               ∧ tce_managed_components e = tce_managed_components old
          else tce_baseline e = None ∧ tce_applied_result e = None
               ∧ tce_managed_components e = no_components
      | None => tce_baseline e = None ∧ tce_applied_result e = None
                ∧ tce_managed_components e = no_components
      end.
Proof.
  intros cache'. unfold cache', Cache.update, identity.
  destruct (cache !! (pid, tid)) as [old|]; cbn.
  - destruct (Z.eqb_spec (tce_process_start_time old) ps) as [Hp|Hp];
      destruct (Z.eqb_spec (tce_thread_start_time old) ts) as [Ht|Ht]; cbn;
      (split; [intros; by apply lookup_insert_ne|]); eexists;
      (split; [apply lookup_insert_eq|]); cbn; try rewrite Hp, Ht;
      (case_decide; [|]); naive_solver.
  - split; [intros; by apply lookup_insert_ne|]. eexists.
    split; [apply lookup_insert_eq|]. naive_solver.
Qed.

(** [lookup] answers exactly when everything it was asked about agrees. *)
Lemma lookup_spec pid tid ps ts name cmd st cache e :
  Cache.lookup pid tid ps ts name cmd st cache = Some e ↔
  cache !! (pid, tid) = Some e ∧ identity e = (ps, ts)
    ∧ tce_thread_name e = name ∧ tce_cmdline e = cmd ∧ tce_actual_state e = st.
Proof.
  unfold Cache.lookup, identity. destruct (cache !! (pid, tid)) as [e'|]; [|naive_solver].
  destruct (Z.eqb_spec (tce_process_start_time e') ps);
    destruct (Z.eqb_spec (tce_thread_start_time e') ts); cbn; [|naive_solver..].
  repeat case_bool_decide; naive_solver.
Qed.

(** *** Baselines *)

(** Each part of a baseline that is present stays as it is. *)
Definition baseline_extends (b b' : ThreadBaseline) : Prop :=
  (tb_has_affinity b = true → tb_has_affinity b' = true ∧ tb_affinity b' = tb_affinity b)
  ∧ (tb_has_scheduler b = true → tb_has_scheduler b' = true
      ∧ tb_scheduler_policy b' = tb_scheduler_policy b
      ∧ tb_scheduler_priority b' = tb_scheduler_priority b ∧ tb_nice b' = tb_nice b)
  ∧ (tb_has_cpuset_path b = true → tb_has_cpuset_path b' = true
      ∧ tb_cpuset_path b' = tb_cpuset_path b)
  ∧ (tb_has_cpuctl_path b = true → tb_has_cpuctl_path b' = true
      ∧ tb_cpuctl_path b' = tb_cpuctl_path b).

#[export] Instance baseline_extends_preorder : PreOrder baseline_extends.
Proof.
  split.
  - intros b. unfold baseline_extends. tauto.
  - intros b1 b2 b3. unfold baseline_extends. intuition congruence.
Qed.

Lemma merge_baseline_spec b b' :
  baseline_extends b (Cache.merge_baseline b b')
  ∧ tb_has_affinity (Cache.merge_baseline b b') = tb_has_affinity b || tb_has_affinity b'
  ∧ tb_has_scheduler (Cache.merge_baseline b b') = tb_has_scheduler b || tb_has_scheduler b'
  ∧ tb_has_cpuset_path (Cache.merge_baseline b b') = tb_has_cpuset_path b || tb_has_cpuset_path b'
  ∧ tb_has_cpuctl_path (Cache.merge_baseline b b') = tb_has_cpuctl_path b || tb_has_cpuctl_path b'.
Proof.
  unfold baseline_extends, Cache.merge_baseline. cbn.
  destruct (tb_has_affinity b), (tb_has_scheduler b), (tb_has_cpuset_path b),
    (tb_has_cpuctl_path b), (tb_has_affinity b'), (tb_has_scheduler b'),
    (tb_has_cpuset_path b'), (tb_has_cpuctl_path b'); cbn; naive_solver.
Qed.

(** [cache'] remembers every baseline of [cache] whose thread it still knows
    under the same identity, part by part. *)
Definition baselines_kept (cache cache' : ThreadCache) : Prop :=
  ∀ key e b, cache !! key = Some e → tce_baseline e = Some b →
  ∀ e', cache' !! key = Some e' → identity e' = identity e →
  ∃ b', tce_baseline e' = Some b' ∧ baseline_extends b b'.

Lemma set_baseline_kept pid tid b cache :
  baselines_kept cache (Cache.set_baseline pid tid b cache).
Proof.
  intros key e b0 He Hb e' He' _. unfold Cache.set_baseline in He'.
  destruct (decide (key = (pid, tid))) as [->|Hne].
  - rewrite lookup_alter_eq, He in He'. injection He' as <-. cbn. rewrite Hb.
    eexists. split; [done|]. apply merge_baseline_spec.
  - rewrite lookup_alter_ne in He' by done. simplify_eq. by exists b0.
Qed.

(** Missing parts are taken from the further baseline. *)
Lemma set_baseline_parts pid tid b cache e :
  cache !! (pid, tid) = Some e →
  ∃ b', Cache.get_baseline pid tid (Cache.set_baseline pid tid b cache) = Some b'
    ∧ tb_has_affinity b' = from_option tb_has_affinity false (tce_baseline e) || tb_has_affinity b
    ∧ tb_has_scheduler b' =
        from_option tb_has_scheduler false (tce_baseline e) || tb_has_scheduler b
    ∧ tb_has_cpuset_path b' =
        from_option tb_has_cpuset_path false (tce_baseline e) || tb_has_cpuset_path b
    ∧ tb_has_cpuctl_path b' =
        from_option tb_has_cpuctl_path false (tce_baseline e) || tb_has_cpuctl_path b.
Proof.
  intros He. unfold Cache.get_baseline, Cache.set_baseline. rewrite lookup_alter_eq, He. cbn.
  destruct (tce_baseline e) as [b0|]; eexists; (split; [done|]); [|done].
  apply merge_baseline_spec.
Qed.

Lemma update_baselines_kept pid tid ps ts name cmd st r cb ub cache :
  baselines_kept cache (Cache.update pid tid ps ts name cmd st r cb ub cache).
Proof.
  intros key e b He Hb e' He' Hid.
  destruct (update_lookup pid tid ps ts name cmd st r cb ub cache)
    as (Hother & e0 & He0 & Hid0 & _ & _ & _ & _ & _ & _ & Hrest).
  destruct (decide (key = (pid, tid))) as [->|Hne].
  - rewrite He0 in He'. injection He' as <-. rewrite He in Hrest.
    rewrite decide_True in Hrest by congruence. destruct Hrest as [-> _]. by exists b.
  - rewrite Hother in He' by done. simplify_eq. by exists b.
Qed.

(** *** The sweep after a scan *)

(** An entry may be dropped only if it was there, under this identity, when
    the scan began, and either its process is gone or has been replaced, or
    its thread number was recycled, or the thread was not seen and there is
    nothing to restore. *)
Definition droppable (live_processes : gmap Z Z) (live_threads : gmap (Z * Z) Z)
    (at_start : gmap (Z * Z) (Z * Z)) (key : Z * Z) (e : ThreadCacheEntry) : Prop :=
  at_start !! key = Some (identity e)
  ∧ (live_processes !! tce_pid e ≠ Some (tce_process_start_time e)
     ∨ (∃ start, live_threads !! key = Some start ∧ start ≠ tce_thread_start_time e)
     ∨ (live_threads !! key = None ∧ tce_baseline e = None)).

Lemma retains_spec lp lt start key e :
  Cache.retains lp lt start key e = true ↔ ¬ droppable lp lt start key e.
Proof.
  unfold Cache.retains, droppable, identity.
  destruct (start !! key) as [[ps ts]|]; [|naive_solver].
  destruct (Z.eqb_spec ps (tce_process_start_time e)) as [->|Hps]; cbn; [|naive_solver].
  destruct (Z.eqb_spec ts (tce_thread_start_time e)) as [->|Hts]; cbn; [|naive_solver].
  destruct (lp !! tce_pid e) as [p|]; [|naive_solver].
  destruct (Z.eqb_spec p (tce_process_start_time e)) as [->|Hp]; cbn; [|naive_solver].
  destruct (lt !! key) as [t|].
  - rewrite Z.eqb_eq. destruct (decide (t = tce_thread_start_time e)) as [->|]; naive_solver.
  - rewrite bool_decide_eq_true. destruct (tce_baseline e); naive_solver.
Qed.

Lemma retain_live_threads_lookup lp lt start cache key e :
  Cache.retain_live_threads lp lt start cache !! key = Some e ↔
  cache !! key = Some e ∧ ¬ droppable lp lt start key e.
Proof. unfold Cache.retain_live_threads. rewrite map_lookup_filter_Some. by rewrite retains_spec. Qed.

(** *** Queries over all entries *)

Lemma get_pids_with_baselines_spec cache pid :
  pid ∈ Cache.get_pids_with_baselines cache ↔
  ∃ key e, cache !! key = Some e ∧ tce_pid e = pid ∧ is_Some (tce_baseline e).
Proof.
  unfold Cache.get_pids_with_baselines. rewrite elem_of_list_to_set, list_elem_of_omap. split.
  - intros ([key e] & Hin%elem_of_map_to_list & Hf). cbn in Hf.
    destruct (tce_baseline e) eqn:E; [|done]. injection Hf as <-.
    exists key, e. rewrite E. eauto.
  - intros (key & e & He & <- & [b Hb]). exists (key, e).
    split; [by apply elem_of_map_to_list|]. cbn. by rewrite Hb.
Qed.

Lemma has_baseline_for_pid_spec cache pid :
  Cache.has_baseline_for_pid pid cache = true ↔ pid ∈ Cache.get_pids_with_baselines cache.
Proof.
  rewrite get_pids_with_baselines_spec. unfold Cache.has_baseline_for_pid.
  rewrite existsb_exists. split.
  - intros ([key e] & Hin & [Hp%Z.eqb_eq Hb%bool_decide_eq_true]%andb_true_iff). cbn in *.
    apply list_elem_of_In, elem_of_map_to_list in Hin. eauto.
  - intros (key & e & He & <- & Hb). exists (key, e). split.
    + by apply list_elem_of_In, elem_of_map_to_list.
    + cbn. rewrite Z.eqb_refl. by apply bool_decide_eq_true.
Qed.

Lemma get_all_baselines_spec cache stored :
  stored ∈ Cache.get_all_baselines cache ↔
  ∃ key e, cache !! key = Some e ∧ tce_baseline e = Some (stb_baseline stored)
    ∧ tce_pid e = stb_pid stored ∧ tce_tid e = stb_tid stored
    ∧ identity e = (stb_process_start_time stored, stb_thread_start_time stored).
Proof.
  unfold Cache.get_all_baselines. rewrite list_elem_of_omap. split.
  - intros ([key e] & Hin%elem_of_map_to_list & Hf). cbn in Hf.
    destruct (tce_baseline e) as [b|] eqn:E; [|done]. injection Hf as <-. eauto 10.
  - intros (key & e & He & Hb & Hp & Ht & Hid). exists (key, e).
    split; [by apply elem_of_map_to_list|]. cbn. rewrite Hb.
    destruct stored. unfold identity in Hid. cbn in *. congruence.
Qed.

(** A configuration reload keeps what must be restored and forgets the rest. *)
Lemma clear_scheduling_state_lookup cache key :
  Cache.clear_scheduling_state_preserving_baselines cache !! key =
    cache !! key ≫= Cache.clear_scheduling_state.
Proof. apply lookup_omap. Qed.

Lemma clear_scheduling_state_baselines cache key :
  (Cache.clear_scheduling_state_preserving_baselines cache !! key ≫= tce_baseline)
    = (cache !! key ≫= tce_baseline).
Proof.
  rewrite clear_scheduling_state_lookup. destruct (cache !! key) as [e|]; [|done]. cbn.
  unfold Cache.clear_scheduling_state. by destruct (tce_baseline e).
Qed.

(** After a reload no lookup of a named thread is answered from the cache, so
    every thread is matched against the new rules. *)
Lemma reload_misses pid tid ps ts name cmd st cache :
  name ≠ EmptyString →
  Cache.lookup pid tid ps ts name cmd st
    (Cache.clear_scheduling_state_preserving_baselines cache) = None.
Proof.
  intros Hn. destruct (Cache.lookup _ _ _ _ _ _ _ _) as [e|] eqn:E; [|done].
  apply lookup_spec in E as (He & _ & Hname & _). rewrite clear_scheduling_state_lookup in He.
  destruct (cache !! (pid, tid)) as [e0|]; [|done]. cbn in He.
  unfold Cache.clear_scheduling_state in He. destruct (tce_baseline e0); [|done].
  injection He as <-. by cbn in Hname.
Qed.

(** *** Keys *)

Lemma key_word_inj k1 k2 :
  in_int k1.1 → in_int k1.2 → in_int k2.1 → in_int k2.2 →
  key_word k1 = key_word k2 → k1 = k2.
Proof.
  destruct k1 as [a b], k2 as [c d]. cbn. unfold key_word, to_uint32, in_int, INT_MIN, INT_MAX.
  cbn [fst snd]. intros Ha Hb Hc Hd.
  pose proof (Z.mod_pos_bound a 4294967296). pose proof (Z.mod_pos_bound b 4294967296).
  pose proof (Z.mod_pos_bound c 4294967296). pose proof (Z.mod_pos_bound d 4294967296).
  rewrite !shiftl_lor_add by lia. intros Heq.
  assert (a `mod` 4294967296 = c `mod` 4294967296) as Hac by lia.
  assert (b `mod` 4294967296 = d `mod` 4294967296) as Hbd by lia.
  clear Heq. f_equal; [clear Hbd|clear Hac]; Z.to_euclidean_division_equations; lia.
Qed.
