(* ===== verification/Env.v ===== *)
(** * The state a worker runs in

    The operating system with the file caches, the thread cache, the buckets
    of the matcher's result cache, the group checks of the cpuset setter and
    the schedule tables of one worker, and how the operations of each part are
    lifted to the whole. *)

From S2P Require Import Prelude CppString ConfigTypes Kernel FileUtils FileFacts ThreadMatcher.
From S2P Require Import ThreadCache.

(** [CpusetSetter::GroupCheck]. *)
Record GroupCheck := { gc_ready : bool; gc_checked_at : Z }.

(** [ScanWorker::TaskKey]: process, thread and their start times. *)
Notation TaskKey := (Z * Z * Z * Z)%type.

(** The tables of [ScanWorker] that pace the work on a thread. *)
Record ScheduleState := {
  last_schedule_time : gmap TaskKey Z;
  last_schedule_state : gmap TaskKey ProcessState;
  next_cgroup_check_time : gmap TaskKey Z;
  schedule_counter : nat;
  cgroup_check_counter : nat }.

Definition init_schedule : ScheduleState := {|
  last_schedule_time := ∅; last_schedule_state := ∅; next_cgroup_check_time := ∅;
  schedule_counter := 0; cgroup_check_counter := 0 |}.

Record Env (W : Type) := MkEnv {
  env_sys : Sys W;
  env_cache : ThreadCache;
  env_buckets : gmap Z Bucket;
  env_group_checks : gmap string GroupCheck;
  env_schedule : ScheduleState }.
Arguments MkEnv {W} _ _ _ _ _.
Arguments env_sys {W} _.
Arguments env_cache {W} _.
Arguments env_buckets {W} _.
Arguments env_group_checks {W} _.
Arguments env_schedule {W} _.

Definition init_env {W} (w : W) : Env W := MkEnv (init_sys w) ∅ ∅ ∅ init_schedule.

Section Lift.
Context {W : Type}.

(** Operations of the file layer. *)
Definition on_sys {A} (op : M (Sys W) A) : M (Env W) A :=
  λ e, let '(a, s) := op (env_sys e) in
       (a, MkEnv s (env_cache e) (env_buckets e) (env_group_checks e) (env_schedule e)).

(** Operations of the matcher. *)
Definition on_matcher {A} (op : M (MatcherState W) A) : M (Env W) A :=
  λ e, let sys := env_sys e in
       let '(a, m) := op (MkMatcherState (sys_world sys) (env_buckets e)) in
       (a, MkEnv (MkSys (ms_world m) (sys_file_cache sys) (sys_cgroup_cache sys)
                    (sys_file_ttl_ms sys) (sys_cgroup_ttl_ms sys))
             (env_cache e) (ms_process_cache m) (env_group_checks e) (env_schedule e)).

(** A query and an update of the thread cache. *)
Definition ask_cache {A} (f : ThreadCache → A) : M (Env W) A := gets (λ e, f (env_cache e)).
Definition on_cache (f : ThreadCache → ThreadCache) : M (Env W) unit :=
  modify (λ e, MkEnv (env_sys e) (f (env_cache e)) (env_buckets e) (env_group_checks e)
                 (env_schedule e)).

Definition on_group_checks (f : gmap string GroupCheck → gmap string GroupCheck)
    : M (Env W) unit :=
  modify (λ e, MkEnv (env_sys e) (env_cache e) (env_buckets e) (f (env_group_checks e))
                 (env_schedule e)).

Definition on_schedule {A} (f : ScheduleState → A * ScheduleState) : M (Env W) A :=
  λ e, let '(a, s) := f (env_schedule e) in
       (a, MkEnv (env_sys e) (env_cache e) (env_buckets e) (env_group_checks e) s).

Lemma wp_on_sys {A} (op : M (Sys W) A) Q e :
  wp op (λ a s, Q a (MkEnv s (env_cache e) (env_buckets e) (env_group_checks e)
                       (env_schedule e))) (env_sys e) →
  wp (on_sys op) Q e.
Proof. unfold wp, on_sys. by destruct (op (env_sys e)). Qed.

Lemma wp_ask_cache {A} (f : ThreadCache → A) (Q : A → Env W → Prop) e :
  Q (f (env_cache e)) e → wp (ask_cache f) Q e.
Proof. done. Qed.

Lemma wp_on_cache f (Q : unit → Env W → Prop) e :
  Q tt (MkEnv (env_sys e) (f (env_cache e)) (env_buckets e) (env_group_checks e)
          (env_schedule e)) →
  wp (on_cache f) Q e.
Proof. done. Qed.
End Lift.
