(* ===== verification/Setters.v ===== *)
(** * Applying a result to a thread

    [scheduler/cpuset_setter.hpp], [scheduler/priority_setter.hpp] and
    [scheduler/cpuctl_setter.hpp]. *)

From S2P Require Import Prelude CppString ConfigTypes Kernel FileUtils FileFacts CpuMask.
From S2P Require Import ThreadMatcher ThreadCache Env.

(** ** Cpusets and affinity *)

Record AffinityTakeoverResult := {
  at_pre_affinity_succeeded : bool;
  at_initial_cpuset_succeeded : bool;
  at_recovery_pre_parent_affinity_succeeded : bool;
  at_parent_cpuset_succeeded : bool;
  at_recovery_pre_target_affinity_succeeded : bool;
  at_cpuset_succeeded : bool;
  at_post_affinity_succeeded : bool;
  at_cpuset_verified : bool;
  at_affinity_verified : bool;
  at_attempts : Z }.

Definition no_takeover : AffinityTakeoverResult := {|
  at_pre_affinity_succeeded := false; at_initial_cpuset_succeeded := false;
  at_recovery_pre_parent_affinity_succeeded := false; at_parent_cpuset_succeeded := false;
  at_recovery_pre_target_affinity_succeeded := false; at_cpuset_succeeded := false;
  at_post_affinity_succeeded := false; at_cpuset_verified := false;
  at_affinity_verified := false; at_attempts := 0 |}.

Definition takeover_success (r : AffinityTakeoverResult) : bool :=
  at_cpuset_verified r && at_affinity_verified r.

(** Assignments to the members of a result. *)
Definition set_attempted r := {|
  at_pre_affinity_succeeded := at_pre_affinity_succeeded r;
  at_initial_cpuset_succeeded := at_initial_cpuset_succeeded r;
  at_recovery_pre_parent_affinity_succeeded := at_recovery_pre_parent_affinity_succeeded r;
  at_parent_cpuset_succeeded := at_parent_cpuset_succeeded r;
  at_recovery_pre_target_affinity_succeeded := at_recovery_pre_target_affinity_succeeded r;
  at_cpuset_succeeded := at_cpuset_succeeded r;
  at_post_affinity_succeeded := at_post_affinity_succeeded r;
  at_cpuset_verified := at_cpuset_verified r; at_affinity_verified := at_affinity_verified r;
  at_attempts := at_attempts r + 1 |}.
Definition set_pre b r := {|
  at_pre_affinity_succeeded := b;
  at_initial_cpuset_succeeded := at_initial_cpuset_succeeded r;
  at_recovery_pre_parent_affinity_succeeded := at_recovery_pre_parent_affinity_succeeded r;
  at_parent_cpuset_succeeded := at_parent_cpuset_succeeded r;
  at_recovery_pre_target_affinity_succeeded := at_recovery_pre_target_affinity_succeeded r;
  at_cpuset_succeeded := at_cpuset_succeeded r;
  at_post_affinity_succeeded := at_post_affinity_succeeded r;
  at_cpuset_verified := at_cpuset_verified r; at_affinity_verified := at_affinity_verified r;
  at_attempts := at_attempts r |}.
Definition set_initial b r := {|
  at_pre_affinity_succeeded := at_pre_affinity_succeeded r;
  at_initial_cpuset_succeeded := b;
  at_recovery_pre_parent_affinity_succeeded := at_recovery_pre_parent_affinity_succeeded r;
  at_parent_cpuset_succeeded := at_parent_cpuset_succeeded r;
  at_recovery_pre_target_affinity_succeeded := at_recovery_pre_target_affinity_succeeded r;
  at_cpuset_succeeded := b;
  at_post_affinity_succeeded := at_post_affinity_succeeded r;
  at_cpuset_verified := at_cpuset_verified r; at_affinity_verified := at_affinity_verified r;
  at_attempts := at_attempts r |}.
Definition set_pre_parent b r := {|
  at_pre_affinity_succeeded := at_pre_affinity_succeeded r;
  at_initial_cpuset_succeeded := at_initial_cpuset_succeeded r;
  at_recovery_pre_parent_affinity_succeeded := b;
  at_parent_cpuset_succeeded := at_parent_cpuset_succeeded r;
  at_recovery_pre_target_affinity_succeeded := at_recovery_pre_target_affinity_succeeded r;
  at_cpuset_succeeded := at_cpuset_succeeded r;
  at_post_affinity_succeeded := at_post_affinity_succeeded r;
  at_cpuset_verified := at_cpuset_verified r; at_affinity_verified := at_affinity_verified r;
  at_attempts := at_attempts r |}.
Definition set_parent b r := {|
  at_pre_affinity_succeeded := at_pre_affinity_succeeded r;
  at_initial_cpuset_succeeded := at_initial_cpuset_succeeded r;
  at_recovery_pre_parent_affinity_succeeded := at_recovery_pre_parent_affinity_succeeded r;
  at_parent_cpuset_succeeded := b;
  at_recovery_pre_target_affinity_succeeded := at_recovery_pre_target_affinity_succeeded r;
  at_cpuset_succeeded := at_cpuset_succeeded r;
  at_post_affinity_succeeded := at_post_affinity_succeeded r;
  at_cpuset_verified := at_cpuset_verified r; at_affinity_verified := at_affinity_verified r;
  at_attempts := at_attempts r |}.
Definition set_pre_target b r := {|
  at_pre_affinity_succeeded := at_pre_affinity_succeeded r;
  at_initial_cpuset_succeeded := at_initial_cpuset_succeeded r;
  at_recovery_pre_parent_affinity_succeeded := at_recovery_pre_parent_affinity_succeeded r;
  at_parent_cpuset_succeeded := at_parent_cpuset_succeeded r;
  at_recovery_pre_target_affinity_succeeded := b;
  at_cpuset_succeeded := at_cpuset_succeeded r;
  at_post_affinity_succeeded := at_post_affinity_succeeded r;
  at_cpuset_verified := at_cpuset_verified r; at_affinity_verified := at_affinity_verified r;
  at_attempts := at_attempts r |}.
Definition set_cpuset b r := {|
  at_pre_affinity_succeeded := at_pre_affinity_succeeded r;
  at_initial_cpuset_succeeded := at_initial_cpuset_succeeded r;
  at_recovery_pre_parent_affinity_succeeded := at_recovery_pre_parent_affinity_succeeded r;
  at_parent_cpuset_succeeded := at_parent_cpuset_succeeded r;
  at_recovery_pre_target_affinity_succeeded := at_recovery_pre_target_affinity_succeeded r;
  at_cpuset_succeeded := b;
  at_post_affinity_succeeded := at_post_affinity_succeeded r;
  at_cpuset_verified := at_cpuset_verified r; at_affinity_verified := at_affinity_verified r;
  at_attempts := at_attempts r |}.
Definition set_post b r := {|
  at_pre_affinity_succeeded := at_pre_affinity_succeeded r;
  at_initial_cpuset_succeeded := at_initial_cpuset_succeeded r;
  at_recovery_pre_parent_affinity_succeeded := at_recovery_pre_parent_affinity_succeeded r;
  at_parent_cpuset_succeeded := at_parent_cpuset_succeeded r;
  at_recovery_pre_target_affinity_succeeded := at_recovery_pre_target_affinity_succeeded r;
  at_cpuset_succeeded := at_cpuset_succeeded r;
  at_post_affinity_succeeded := b;
  at_cpuset_verified := at_cpuset_verified r; at_affinity_verified := at_affinity_verified r;
  at_attempts := at_attempts r |}.
Definition set_verified cpuset affinity r := {|
  at_pre_affinity_succeeded := at_pre_affinity_succeeded r;
  at_initial_cpuset_succeeded := at_initial_cpuset_succeeded r;
  at_recovery_pre_parent_affinity_succeeded := at_recovery_pre_parent_affinity_succeeded r;
  at_parent_cpuset_succeeded := at_parent_cpuset_succeeded r;
  at_recovery_pre_target_affinity_succeeded := at_recovery_pre_target_affinity_succeeded r;
  at_cpuset_succeeded := at_cpuset_succeeded r;
  at_post_affinity_succeeded := at_post_affinity_succeeded r;
  at_cpuset_verified := cpuset; at_affinity_verified := affinity;
  at_attempts := at_attempts r |}.

(** [run_takeover_sequence], generic in its operations.  [break] out of an
    attempt ends the loop: an attempt returns the result so far and whether
    the loop goes on. *)
Section Takeover.
Context {S : Type}.
Context (set_affinity_operation move_target_operation move_parent_operation
         verify_cpuset_operation verify_affinity_operation identity_operation : M S bool).

(** [if (!identity_operation()) break;] *)
Definition guard (r : AffinityTakeoverResult)
    (k : M S (AffinityTakeoverResult * bool)) : M S (AffinityTakeoverResult * bool) :=
  ok ← identity_operation; if (ok : bool) then k else mret (r, false).

Definition takeover_finish (r : AffinityTakeoverResult)
    : M S (AffinityTakeoverResult * bool) :=
  guard r (
  post ← set_affinity_operation;
  let r := set_post post r in
  guard r (
  cpuset ← verify_cpuset_operation;
  affinity ← verify_affinity_operation;
  let r := set_verified cpuset affinity r in
  mret (r, negb (takeover_success r)))).

Definition takeover_recovery (r : AffinityTakeoverResult)
    : M S (AffinityTakeoverResult * bool) :=
  guard r (
  b ← set_affinity_operation;
  let r := set_pre_parent b r in
  guard r (
  b ← move_parent_operation;
  let r := set_parent b r in
  guard r (
  b ← set_affinity_operation;
  let r := set_pre_target b r in
  guard r (
  b ← move_target_operation;
  takeover_finish (set_cpuset b r))))).

Definition takeover_attempt (r : AffinityTakeoverResult)
    : M S (AffinityTakeoverResult * bool) :=
  guard r (
  let r := set_attempted r in
  pre ← set_affinity_operation;
  let r := set_pre pre r in
  guard r (
  initial ← move_target_operation;
  let r := set_initial initial r in
  if initial then takeover_finish r else takeover_recovery r)).

Fixpoint takeover_loop (attempts : nat) (r : AffinityTakeoverResult)
    : M S AffinityTakeoverResult :=
  match attempts with
  | O => mret r
  | Datatypes.S attempts' =>
      x ← takeover_attempt r;
      if (x.2 : bool) then takeover_loop attempts' x.1 else mret x.1
  end.

Definition run_takeover_sequence (max_attempts : nat) : M S AffinityTakeoverResult :=
  takeover_loop max_attempts no_takeover.
End Takeover.

(** The three reads every [identity] lambda performs, with [&&]. *)
Definition identity_matches {W} `{!Kernel W} (pid tid process_start_time thread_start_time : Z)
    : M (Env W) bool :=
  (p ← on_sys (get_process_start_time pid); mret (p =? process_start_time))
  <&&> (t ← on_sys (get_thread_start_time pid tid); mret (t =? thread_start_time))
  <&&> on_sys (is_thread_in_process pid tid).

Section Cpuset.
Context {R W : Type} `{!Kernel W}.
Variable matcher : ThreadMatcher R.
Variable timing : TimingConfig.

Definition check_group (path : string) (now : Z) : M (Env W) bool :=
  cpus ← on_sys (read_file (path +:+ "/cpus"));
  mems ← on_sys (read_file (path +:+ "/mems"));
  tasks_ready ← on_sys (file_exists (path +:+ "/tasks"));
  let ready := negb (empty cpus) && negb (empty mems) && tasks_ready in
  _ ← on_group_checks (<[path := {| gc_ready := ready; gc_checked_at := now |}]>);
  mret ready.

Definition is_group_ready (path : string) : M (Env W) bool :=
  now ← on_sys (os k_now);
  checks ← gets env_group_checks;
  match checks !! path with
  | Some g =>
      if now - gc_checked_at g <? cpuset_group_check_ttl_ms timing * 1000000
      then mret (gc_ready g) else check_group path now
  | None => check_group path now
  end.

Definition invalidate_group (path : string) : M (Env W) unit := on_group_checks (delete path).

(** The retry loop; [left] attempts remain. *)
Fixpoint write_tasks_retry (left : nat) (path : string) (tid : Z) : M (Env W) bool :=
  match left with
  | O => mret false
  | S left' =>
      ok ← on_sys (write_kernel_control_file (path +:+ "/tasks") (to_string tid));
      if (ok : bool) then mret true
      else
        _ ← (if negb (left' =? 0)%nat && (0 <? cpuset_retry_interval_ms timing)
             then on_sys (os (k_sleep_ms (cpuset_retry_interval_ms timing))) else mret tt);
        write_tasks_retry left' path tid
  end.

Definition target_group (cpumask_name : string) : string :=
  "/dev/cpuset/top-app/ReUperf_" +:+ cpumask_name.

Definition move_to_cpuset_cgroup (tid : Z) (cpumask_name : string) : M (Env W) bool :=
  if tid <=? 0 then mret false
  else if empty cpumask_name then mret true
  else
    let path := target_group cpumask_name in
    ready ← is_group_ready path;
    if negb ready then mret false
    else
      moved ← write_tasks_retry (Z.to_nat (cpuset_retry_count timing)) path tid;
      if (moved : bool) then mret true
      else _ ← invalidate_group path; mret false.

Definition move_to_top_app_parent (tid : Z) : M (Env W) bool :=
  if tid <=? 0 then mret false
  else on_sys (write_cgroup_tasks "/dev/cpuset/top-app" tid).

Definition restore_affinity (tid : Z) (cpus : list Z) : M (Env W) bool :=
  if (tid <=? 0) || bool_decide (cpus = []) then mret false
  else on_sys (set_affinity tid cpus).

Definition restore_cpuset_cgroup (tid : Z) (cgroup_path : string) : M (Env W) bool :=
  if (tid <=? 0) || empty cgroup_path then mret false
  else on_sys (write_cgroup_tasks cgroup_path tid).

Definition verify_cpuset (pid tid : Z) (cpumask_name : string) : M (Env W) bool :=
  paths ← on_sys (get_thread_cgroup_paths_uncached pid tid);
  mret (tcp_readable paths
        && bool_decide (tcp_cpuset paths = "/top-app/ReUperf_" +:+ cpumask_name)).

Definition verify_affinity (tid : Z) (cpus : list Z) : M (Env W) bool :=
  changed ← on_sys (is_affinity_changed tid cpus); mret (negb changed).

(** [CpusetSetter::apply_with_result]. *)
Definition cpuset_apply_with_result (pid tid : Z) (result : MatchResult)
    (process_start_time thread_start_time : Z) : M (Env W) AffinityTakeoverResult :=
  if tid <=? 0 then mret no_takeover
  else if negb (mr_matched result) || negb (has_resolved_affinity result)
  then mret (set_verified true true no_takeover)
  else
    match get_cpus_for_affinity matcher (mr_affinity_class result)
            (mr_effective_state result) with
    | [] => mret no_takeover
    | expected_cpus =>
        let mask := mr_cpumask_name result in
        run_takeover_sequence
          (on_sys (set_affinity tid expected_cpus))
          (move_to_cpuset_cgroup tid mask)
          (move_to_top_app_parent tid)
          (verify_cpuset pid tid mask)
          (verify_affinity tid expected_cpus)
          (identity_matches pid tid process_start_time thread_start_time)
          2
    end.
End Cpuset.

(** ** Scheduling policy and priority *)

Definition SCHED_NORMAL : Z := 0.
Definition SCHED_FIFO : Z := 1.
Definition SCHED_BATCH : Z := 3.
Definition SCHED_IDLE : Z := 5.

Record CurrentSched := { cs_policy : Z; cs_prio : Z }.

(** The policies whose priority is a nice value. *)
Definition is_nice_policy (policy : Z) : bool :=
  (policy =? SCHED_NORMAL) || (policy =? SCHED_BATCH) || (policy =? SCHED_IDLE).

Definition expected_policy_for_priority (expected_prio : Z) : option Z :=
  if expected_prio =? 0 then None
  else if (1 <=? expected_prio) && (expected_prio <=? 98) then Some SCHED_FIFO
  else if (100 <=? expected_prio) && (expected_prio <=? 139) then Some SCHED_NORMAL
  else if expected_prio =? -1 then Some SCHED_NORMAL
  else if expected_prio =? -2 then Some SCHED_BATCH
  else if expected_prio =? -3 then Some SCHED_IDLE
  else None.

Section Priority.
Context {R W : Type} `{!Kernel W}.
Variable matcher : ThreadMatcher R.

(** The policy, the real-time priority and the nice value, and whether all
    of them could be read. *)
Definition capture_scheduler_baseline (tid : Z) : M (Env W) (bool * (Z * Z * Z)) :=
  policy ← on_sys (os (k_sched_getscheduler tid));
  if policy <? 0 then mret (false, (policy, 0, 0))
  else
    param ← on_sys (os (k_sched_getparam tid));
    match param with
    | None => mret (false, (policy, 0, 0))
    | Some priority =>
        if is_nice_policy policy then
          nice ← on_sys (os (k_getpriority tid));
          match nice with
          | None => mret (false, (policy, priority, -1))
          | Some nice => mret (true, (policy, priority, nice))
          end
        else mret (true, (policy, priority, 0))
    end.

Definition get_current_sched (tid : Z) : M (Env W) CurrentSched :=
  policy ← on_sys (os (k_sched_getscheduler tid));
  if policy <? 0 then mret {| cs_policy := policy; cs_prio := 0 |}
  else
    param ← on_sys (os (k_sched_getparam tid));
    let prio := default 0 param in
    if is_nice_policy policy then
      nice ← on_sys (os (k_getpriority tid));
      mret {| cs_policy := policy;
              cs_prio := match nice with Some n => n + 120 | None => prio end |}
    else mret {| cs_policy := policy; cs_prio := prio |}.

Definition is_sched_changed (tid expected_prio : Z) : M (Env W) bool :=
  curr ← get_current_sched tid;
  mret (if cs_policy curr <? 0 then true
        else if match expected_policy_for_priority expected_prio with
                | Some p => negb (cs_policy curr =? p)
                | None => false
                end then true
        else if (1 <=? expected_prio) && (expected_prio <=? 98)
        then negb (cs_prio curr =? expected_prio)
        else if (100 <=? expected_prio) && (expected_prio <=? 139)
        then negb (cs_prio curr =? expected_prio)
        else false).

Definition set_nice_value (tid nice : Z) : M (Env W) bool := on_sys (os (k_setpriority tid nice)).

Definition set_scheduler (tid policy priority : Z) : M (Env W) bool :=
  on_sys (os (k_sched_setscheduler tid policy priority)).

Definition set_priority (tid prio_value : Z) : M (Env W) bool :=
  if tid <=? 0 then mret false
  else if prio_value =? 0 then mret true
  else if (1 <=? prio_value) && (prio_value <=? 98)
  then set_scheduler tid SCHED_FIFO prio_value
  else if (100 <=? prio_value) && (prio_value <=? 139)
  then set_scheduler tid SCHED_NORMAL 0 <&&> set_nice_value tid (prio_value - 120)
  else if prio_value =? -1 then set_scheduler tid SCHED_NORMAL 0
  else if prio_value =? -2 then set_scheduler tid SCHED_BATCH 0
  else if prio_value =? -3 then set_scheduler tid SCHED_IDLE 0
  else mret false.

Definition restore_scheduler (tid policy priority nice : Z) : M (Env W) bool :=
  if (tid <=? 0) || (policy <? 0) then mret false
  else
    ok ← set_scheduler tid policy priority;
    if negb ok then mret false
    else if is_nice_policy policy then set_nice_value tid nice
    else mret true.

(** [PrioritySetter::apply_with_result]. *)
Definition priority_apply_with_result (tid : Z) (result : MatchResult) : M (Env W) bool :=
  if negb (mr_matched result) then mret true
  else
    let prio := get_prio_value matcher (mr_prio_class result) (mr_effective_state result) in
    if prio =? 0 then mret true else set_priority tid prio.
End Priority.

(** ** Cpuctl groups *)

Definition get_cpuctl_base (state : ProcessState) : string := "/dev/cpuctl".

(** The group of a rule's thread rule, below the cpuctl mount. *)
Definition cpuctl_group (rule_name : string) (thread_rule_index : Z) : string :=
  "/ReUperf/" +:+ rule_name +:+ "/A" +:+ to_string (thread_rule_index + 1).

Section Cpuctl.
Context {W : Type} `{!Kernel W}.

Definition restore_cpuctl_cgroup (tid : Z) (cgroup_path : string) : M (Env W) bool :=
  if (tid <=? 0) || empty cgroup_path then mret false
  else on_sys (write_cgroup_tasks cgroup_path tid).

Definition migrate_thread (tid : Z) (group_path : string) : M (Env W) bool :=
  present ← on_sys (dir_exists group_path);
  if negb present then mret false else on_sys (write_cgroup_tasks group_path tid).

(** [CpuctlSetter::apply_with_result]. *)
Definition cpuctl_apply_with_result (tid : Z) (result : MatchResult) : M (Env W) bool :=
  if negb (mr_matched result) || negb (mr_enable_limit result) then mret true
  else if mr_thread_rule_index result <? 0 then mret false
  else migrate_thread tid ("/dev/cpuctl" +:+ cpuctl_group (mr_matched_rule_name result)
                                               (mr_thread_rule_index result)).
End Cpuctl.
