(* ===== verification/Tracing.v ===== *)
(** * What an operation asks of the operating system

    [adds Φ m]: whatever the state, every call [m] makes satisfies [Φ].  The
    lemmas follow the structure of the code, from the file layer up to the
    setters. *)

From S2P Require Import Prelude CppString ConfigTypes Kernel FileUtils FileFacts CpuMask.
From S2P Require Import ThreadMatcher ThreadCache Env Setters.

Section Adds.
Context {S : Type} (trace : S → list kcall) (Φ : kcall → Prop).

Definition adds {A} (m : M S A) : Prop :=
  ∀ s, wp m (λ _ s', ∃ new, trace s' = new ++ trace s ∧ Forall Φ new) s.

Lemma adds_ret {A} (a : A) : adds (mret a).
Proof. intros s. apply wp_ret. by exists []. Qed.
Lemma adds_gets {A} (f : S → A) : adds (gets f).
Proof. intros s. apply wp_gets. by exists []. Qed.
Lemma adds_bind {A B} (m : M S A) (f : A → M S B) :
  adds m → (∀ a, adds (f a)) → adds (m ≫= f).
Proof.
  intros Hm Hf s. apply wp_bind. eapply wp_mono; [apply Hm|].
  intros a s1 (n1 & H1 & F1). eapply wp_mono; [apply Hf|].
  intros b s2 (n2 & H2 & F2). exists (n2 ++ n1). rewrite H2, H1, (assoc_L (++)).
  split; [done|]. by apply Forall_app.
Qed.
Lemma adds_andM (a b : M S bool) : adds a → adds b → adds (andM a b).
Proof. intros Ha Hb. apply adds_bind; [done|]. intros []; [done|apply adds_ret]. Qed.
Lemma adds_modify (f : S → S) : (∀ s, trace (f s) = trace s) → adds (modify f).
Proof. intros H s. apply wp_modify. by exists []. Qed.
End Adds.

Definition sys_trace {W} (s : Sys (Traced W)) : list kcall := tr_calls (sys_world s).
Definition env_trace {W} (e : Env (Traced W)) : list kcall := sys_trace (env_sys e).

(** Decomposes an [adds] goal along the code; the leaves are left to the
    lemmas of the called operations. *)
Ltac adds_step :=
  lazymatch goal with
  | |- adds _ _ (mbind _ _) => apply adds_bind; [|intros ?]
  | |- adds _ _ (mret _) => apply adds_ret
  | |- adds _ _ (gets _) => apply adds_gets
  | |- adds _ _ (andM _ _) => apply adds_andM
  | |- adds _ _ (let _ := _ in _) => cbv zeta
  | |- adds _ _ (if ?b then _ else _) => destruct b eqn:?
  | |- adds _ _ (match ?x with _ => _ end) => destruct x eqn:?
  end.
Ltac adds_steps := repeat adds_step.

Section SysAdds.
Context {W : Type} `{!Kernel W} `{!KernelLaws W}.
Variable Φ : kcall → Prop.
Hypothesis Φ_now : ∀ t, Φ (KNow t).
Notation sadds := (adds (@sys_trace W) Φ).

(** One recorded call. *)
Lemma adds_call {A} (op : M W A) (call : A → kcall) :
  (∀ a, Φ (call a)) → sadds (os (traced op call)).
Proof.
  intros H s. apply wp_os. intros a w. unfold traced.
  destruct (op (tr_world (sys_world s))) as [a' w'] eqn:E. intros [= <- <-].
  exists [call a']. split; [done|]. by repeat constructor.
Qed.

Lemma adds_on_file_cache f : sadds (on_file_cache f).
Proof. apply adds_modify. done. Qed.
Lemma adds_on_cgroup_cache f : sadds (on_cgroup_cache f).
Proof. apply adds_modify. done. Qed.

Lemma adds_now : sadds (os k_now).
Proof. by apply adds_call. Qed.

Lemma adds_read path : (∀ r, Φ (KRead path r)) → sadds (os (k_read path)).
Proof. intros H. by apply adds_call. Qed.
Lemma adds_open path c : (∀ r, Φ (KOpen path c r)) → sadds (os (k_open path c)).
Proof. intros H. by apply adds_call. Qed.
Lemma adds_close fd : Φ (KClose fd) → sadds (os (k_close fd)).
Proof. intros H. by apply adds_call. Qed.

Lemma adds_read_file path : (∀ r, Φ (KRead path r)) → sadds (read_file path).
Proof.
  intros H. unfold read_file. adds_steps; auto using adds_now, adds_read, adds_on_file_cache.
Qed.

Lemma adds_stat path : (∀ r, Φ (KStat path r)) → sadds (os (k_stat path)).
Proof. intros H. by apply adds_call. Qed.
Lemma adds_file_exists path : (∀ r, Φ (KStat path r)) → sadds (file_exists path).
Proof. intros H. unfold file_exists. adds_steps. by apply adds_stat. Qed.
Lemma adds_dir_exists path : (∀ r, Φ (KStat path r)) → sadds (dir_exists path).
Proof. intros H. unfold dir_exists. adds_steps. by apply adds_stat. Qed.

Lemma adds_write_loop fuel fd content l :
  (∀ s r, s `suffix_of` content → Φ (KWrite fd s r)) → l `suffix_of` content →
  sadds (write_loop fuel fd l).
Proof.
  intros H. revert l. induction fuel as [|fuel IH]; intros l Hl.
  - destruct l; apply adds_ret.
  - destruct l as [|c l]; [apply adds_ret|]. cbn [write_loop]. adds_steps.
    + apply adds_call. intros r. by apply H.
    + apply IH. etrans; [|exact Hl]. by apply suffix_drop.
    + by apply IH.
Qed.

Lemma adds_write_open_file path content create :
  (∀ r, Φ (KOpen path create r)) →
  (∀ fd s r, s `suffix_of` chars content → Φ (KWrite fd s r)) →
  (∀ fd, Φ (KClose fd)) →
  sadds (write_open_file path content create).
Proof.
  intros Ho Hw Hc. unfold write_open_file, invalidate_file_cache.
  adds_steps; auto using adds_open, adds_close, adds_on_file_cache.
  eapply adds_write_loop; [by apply Hw|done].
Qed.

Lemma adds_get_process_start_time pid :
  (∀ r, Φ (KRead (proc_path pid "stat") r)) → sadds (get_process_start_time pid).
Proof. intros. unfold get_process_start_time. adds_steps. by apply adds_read_file. Qed.
Lemma adds_get_thread_start_time pid tid :
  (∀ r, Φ (KRead (task_path pid tid "stat") r)) → sadds (get_thread_start_time pid tid).
Proof. intros. unfold get_thread_start_time. adds_steps. by apply adds_read_file. Qed.
Lemma adds_is_thread_in_process pid tid :
  (∀ r, Φ (KRead (task_path pid tid "status") r)) → sadds (is_thread_in_process pid tid).
Proof. intros. unfold is_thread_in_process. adds_steps. by apply adds_read_file. Qed.
Lemma adds_thread_cgroups pid tid :
  (∀ r, Φ (KRead (task_path pid tid "cgroup") r)) →
  sadds (get_thread_cgroup_paths_uncached pid tid).
Proof. intros. unfold get_thread_cgroup_paths_uncached. adds_steps. by apply adds_read_file. Qed.

Lemma adds_set_affinity tid cpus :
  (∀ s r, Φ (KSetAffinity tid s r)) → sadds (set_affinity tid cpus).
Proof. intros. unfold set_affinity, set_affinity_mask. adds_steps. by apply adds_call. Qed.
Lemma adds_get_affinity tid :
  (∀ r, Φ (KGetAffinity tid r)) → (∀ r, Φ (KRead (proc_path tid "status") r)) →
  sadds (get_affinity_from_status tid).
Proof.
  intros. unfold get_affinity_from_status. adds_steps; [by apply adds_call|].
  by apply adds_read_file.
Qed.
Lemma adds_is_affinity_changed tid cpus :
  (∀ r, Φ (KGetAffinity tid r)) → (∀ r, Φ (KRead (proc_path tid "status") r)) →
  sadds (is_affinity_changed tid cpus).
Proof.
  intros. unfold is_affinity_changed. adds_steps; [by apply adds_call|].
  by apply adds_get_affinity.
Qed.
End SysAdds.

Section EnvAdds.
Context {R W : Type} `{!Kernel W} `{!KernelLaws W}.
Variable Φ : kcall → Prop.
Hypothesis Φ_now : ∀ t, Φ (KNow t).
Notation sadds := (adds (@sys_trace W) Φ).
Notation eadds := (adds (@env_trace W) Φ).

Lemma adds_on_sys {A} (m : M (Sys (Traced W)) A) : sadds m → eadds (on_sys m).
Proof. intros H e. apply wp_on_sys. exact (H (env_sys e)). Qed.
Lemma adds_ask_cache {A} (f : ThreadCache → A) : eadds (ask_cache f).
Proof. apply adds_gets. Qed.
Lemma adds_on_cache f : eadds (on_cache f).
Proof. apply adds_modify. done. Qed.
Lemma adds_on_group_checks f : eadds (on_group_checks f).
Proof. apply adds_modify. done. Qed.
Lemma adds_on_schedule {A} (f : ScheduleState → A * ScheduleState) : eadds (on_schedule f).
Proof. intros e. unfold wp, on_schedule. destruct (f _). by exists []. Qed.

(** The matcher only reads the clock. *)
Lemma adds_on_matcher `{!RegexEngine R} `{!StringHash} (m : ThreadMatcher R) p t st pid tid c :
  eadds (on_matcher (match_thread m p t st pid tid c)).
Proof.
  assert (adds (λ s : MatcherState (Traced W), tr_calls (ms_world s)) Φ
    (match_thread m p t st pid tid c)) as Hadds.
  { assert (adds (λ s : MatcherState (Traced W), tr_calls (ms_world s)) Φ matcher_now) as Hnow.
    { intros [w b]. unfold wp, matcher_now. cbn. unfold traced. destruct (k_now _) as [t0 w0].
      exists [KNow t0]. split; [done|]. by repeat constructor. }
    unfold match_thread, match_impl, get_cached_process_result, cache_process_result, set_bucket.
    adds_steps; try done; by apply adds_modify. }
  intros e. unfold wp, on_matcher.
  specialize (Hadds (MkMatcherState (sys_world (env_sys e)) (env_buckets e))).
  unfold wp in Hadds. destruct (match_thread m p t st pid tid c _) as [r s']. exact Hadds.
Qed.

Lemma adds_identity_matches pid tid ps ts :
  (∀ r, Φ (KRead (proc_path pid "stat") r)) → (∀ r, Φ (KRead (task_path pid tid "stat") r)) →
  (∀ r, Φ (KRead (task_path pid tid "status") r)) →
  eadds (identity_matches pid tid ps ts).
Proof.
  intros. unfold identity_matches. adds_steps; apply adds_on_sys.
  - by apply adds_get_process_start_time.
  - by apply adds_get_thread_start_time.
  - by apply adds_is_thread_in_process.
Qed.

(** Moving a thread by writing its number to a [tasks] file. *)
Definition allows_tasks_write (tid : Z) : Prop :=
  (∀ path r, Φ (KOpen path false r)) ∧ (∀ fd, Φ (KClose fd))
  ∧ (∀ fd s r, s `suffix_of` chars (to_string tid) → Φ (KWrite fd s r)).

Lemma adds_write_tid path tid :
  allows_tasks_write tid → sadds (write_kernel_control_file path (to_string tid)).
Proof. intros (? & ? & ?). by apply adds_write_open_file. Qed.

Section Group.
Variable timing : TimingConfig.
Hypothesis Φ_group : ∀ path r, Φ (KRead ("/dev/cpuset/" +:+ path) r).
Hypothesis Φ_stat : ∀ path r, Φ (KStat path r).
Hypothesis Φ_sleep : ∀ ms, Φ (KSleep ms).

Lemma adds_is_group_ready name : eadds (is_group_ready timing (target_group name)).
Proof.
  assert (∀ now, eadds (check_group (target_group name) now)) as Hcheck.
  { intros now. unfold check_group. adds_steps.
    1, 2: apply adds_on_sys, adds_read_file; [done|]; intros r; apply Φ_group.
    - apply adds_on_sys, adds_file_exists. auto.
    - apply adds_on_group_checks. }
  unfold is_group_ready. adds_steps; [|done..]. apply adds_on_sys. by apply adds_now.
Qed.

Lemma adds_move_to_cpuset tid name :
  allows_tasks_write tid → eadds (move_to_cpuset_cgroup timing tid name).
Proof.
  intros Hw. unfold move_to_cpuset_cgroup, invalidate_group. adds_steps;
    auto using adds_is_group_ready, adds_on_group_checks.
  generalize (Z.to_nat (cpuset_retry_count timing)) as n.
  induction n as [|n IH]; cbn [write_tasks_retry]; [apply adds_ret|].
  adds_steps; [by apply adds_on_sys, adds_write_tid| |done].
  apply adds_on_sys. by apply adds_call.
Qed.
End Group.

Lemma adds_write_cgroup_tasks path tid :
  allows_tasks_write tid → eadds (on_sys (write_cgroup_tasks path tid)).
Proof. intros Hw. apply adds_on_sys. by apply adds_write_tid. Qed.

Lemma adds_move_to_top_app_parent tid :
  allows_tasks_write tid → eadds (move_to_top_app_parent tid).
Proof. intros Hw. unfold move_to_top_app_parent. adds_steps. by apply adds_write_cgroup_tasks. Qed.
Lemma adds_restore_cpuset tid path :
  allows_tasks_write tid → eadds (restore_cpuset_cgroup tid path).
Proof. intros Hw. unfold restore_cpuset_cgroup. adds_steps. by apply adds_write_cgroup_tasks. Qed.
Lemma adds_restore_cpuctl tid path :
  allows_tasks_write tid → eadds (restore_cpuctl_cgroup tid path).
Proof. intros Hw. unfold restore_cpuctl_cgroup. adds_steps. by apply adds_write_cgroup_tasks. Qed.
Lemma adds_restore_affinity tid cpus :
  (∀ s r, Φ (KSetAffinity tid s r)) → eadds (restore_affinity tid cpus).
Proof.
  intros Hw. unfold restore_affinity. adds_steps. apply adds_on_sys. by apply adds_set_affinity.
Qed.
Lemma adds_cpuctl_apply tid result :
  allows_tasks_write tid → (∀ path r, Φ (KStat path r)) →
  eadds (cpuctl_apply_with_result tid result).
Proof.
  intros Hw Hs. unfold cpuctl_apply_with_result, migrate_thread. adds_steps.
  - apply adds_on_sys, adds_dir_exists. auto.
  - by apply adds_write_cgroup_tasks.
Qed.

Lemma adds_set_scheduler tid policy prio :
  (∀ r, Φ (KSetScheduler tid policy prio r)) → eadds (set_scheduler tid policy prio).
Proof. intros. apply adds_on_sys. by apply adds_call. Qed.
Lemma adds_set_nice tid nice :
  (∀ r, Φ (KSetPriority tid nice r)) → eadds (set_nice_value tid nice).
Proof. intros. apply adds_on_sys. by apply adds_call. Qed.
Lemma adds_priority_apply (matcher : ThreadMatcher R) tid result :
  (∀ p q r, Φ (KSetScheduler tid p q r)) → (∀ n r, Φ (KSetPriority tid n r)) →
  eadds (priority_apply_with_result matcher tid result).
Proof.
  intros. unfold priority_apply_with_result, set_priority.
  adds_steps; auto using adds_set_scheduler, adds_set_nice.
Qed.
Lemma adds_restore_scheduler tid policy prio nice :
  (∀ p q r, Φ (KSetScheduler tid p q r)) → (∀ n r, Φ (KSetPriority tid n r)) →
  eadds (restore_scheduler tid policy prio nice).
Proof.
  intros. unfold restore_scheduler. adds_steps; auto using adds_set_scheduler, adds_set_nice.
Qed.

Lemma adds_get_sched tid :
  (∀ p, Φ (KGetScheduler tid p)) → (∀ p, Φ (KGetParam tid p)) → (∀ p, Φ (KGetPriority tid p)) →
  eadds (capture_scheduler_baseline tid) ∧ eadds (get_current_sched tid).
Proof.
  intros H1 H2 H3.
  assert (eadds (on_sys (os (k_sched_getscheduler tid)))) by by apply adds_on_sys, adds_call.
  assert (eadds (on_sys (os (k_sched_getparam tid)))) by by apply adds_on_sys, adds_call.
  assert (eadds (on_sys (os (k_getpriority tid)))) by by apply adds_on_sys, adds_call.
  unfold capture_scheduler_baseline, get_current_sched. split; adds_steps; done.
Qed.
End EnvAdds.
