(* ===== verification/SetterFacts.v ===== *)
(** * Properties of the setters

    The takeover sequence: identity checks between all changes, bounded
    attempts, and what success means; scheduling policies: what a priority
    value asks for and what the drift check accepts; cpuctl group names. *)

From S2P Require Import Prelude CppString CgroupName ConfigTypes ConfigParser Kernel FileUtils.
From S2P Require Import FileFacts CpuMask ThreadMatcher ThreadCache Env Setters Tracing.

(** ** The takeover sequence *)

Section TakeoverFacts.
Context {S : Type} (set_op target_op parent_op verify_c verify_a identity_op : M S bool).
Notation loop := (takeover_loop set_op target_op parent_op verify_c verify_a identity_op).

(** *** Identity before every change

    [F] stands for "the identity has just been checked": only a positive
    check establishes it, every change needs it and uses it up. *)
Section Protocol.
Variables I F : S → Prop.
Hypothesis Hid : ∀ s, I s → wp identity_op (λ ok s', I s' ∧ (ok = true → F s')) s.
Hypothesis Hset : ∀ s, F s → wp set_op (λ _, I) s.
Hypothesis Htarget : ∀ s, F s → wp target_op (λ _, I) s.
Hypothesis Hparent : ∀ s, F s → wp parent_op (λ _, I) s.
Hypothesis Hvc : keeps I verify_c.
Hypothesis Hva : keeps I verify_a.

Lemma guard_protocol r (k : M S (AffinityTakeoverResult * bool)) :
  (∀ s, I s → F s → wp k (λ _, I) s) → keeps I (guard identity_op r k).
Proof.
  intros Hk s Hs. unfold guard. wp_step. eapply wp_mono; [by apply Hid|].
  intros [] s' [Hi Hc]; cbv beta iota; [by auto|by wp_step].
Qed.

Lemma change_protocol {A B} (m : M S A) (f : A → M S B) :
  (∀ s, F s → wp m (λ _, I) s) → (∀ a, keeps I (f a)) →
  ∀ s, I s → F s → wp (m ≫= f) (λ _, I) s.
Proof. intros Hm Hf s _ Hs. wp_step. eapply wp_mono; [by apply Hm|]. intros. by apply Hf. Qed.

Lemma finish_protocol r : keeps I (takeover_finish set_op verify_c verify_a identity_op r).
Proof.
  apply guard_protocol, change_protocol; [done|]. intros b.
  apply guard_protocol. intros s Hs _. revert s Hs. fold (keeps I (A := AffinityTakeoverResult * bool)).
  apply keeps_bind; [done|]. intros c. apply keeps_bind; [done|]. intros a. apply keeps_ret.
Qed.

Lemma attempt_protocol r :
  keeps I (takeover_attempt set_op target_op parent_op verify_c verify_a identity_op r).
Proof.
  apply guard_protocol, change_protocol; [done|]. intros pre.
  apply guard_protocol, change_protocol; [done|]. intros []; [apply finish_protocol|].
  do 4 (apply guard_protocol, change_protocol; [done|]; intros ?). apply finish_protocol.
Qed.

Lemma takeover_protocol n r : keeps I (loop n r).
Proof.
  revert r. induction n as [|n IH]; intros r; cbn [takeover_loop]; [apply keeps_ret|].
  apply keeps_bind; [apply attempt_protocol|]. intros [r' []]; [apply IH|apply keeps_ret].
Qed.
End Protocol.

(** *** Attempts and success *)

(** What holds whatever the operations answer. *)
Lemma any_bind {A B} (m : M S A) (f : A → M S B) Q s :
  (∀ a s', wp (f a) Q s') → wp (m ≫= f) Q s.
Proof. intros H. wp_step. apply wp_unfold. auto. Qed.
Lemma any_guard r (k : M S (AffinityTakeoverResult * bool)) Q s :
  (∀ s', Q (r, false) s') → (∀ s', wp k Q s') → wp (guard identity_op r k) Q s.
Proof. intros Hr Hk. unfold guard. apply any_bind. intros [] s'; [done|by wp_step]. Qed.

(** What one attempt can do to the result it was given. *)
Definition attempt_post (n : Z) (x : AffinityTakeoverResult * bool) (s : S) : Prop :=
  (at_attempts x.1 = n ∨ at_attempts x.1 = n + 1)
  ∧ (x.2 = true → takeover_success x.1 = false).

Lemma finish_result n r s :
  at_attempts r = n + 1 →
  wp (takeover_finish set_op verify_c verify_a identity_op r) (attempt_post n) s.
Proof.
  intros Hn. assert (∀ r s', at_attempts r = n + 1 → attempt_post n (r, false) s') as Hstop.
  { intros r' s' ?. split; [by right|done]. }
  apply any_guard; [auto|]. intros s1. apply any_bind. intros b s2.
  apply any_guard; [auto|]. intros s3. apply any_bind. intros c s4.
  apply any_bind. intros a s5. wp_step. split; [by right|]. by intros ?%negb_true_iff.
Qed.

Lemma attempt_result r s :
  wp (takeover_attempt set_op target_op parent_op verify_c verify_a identity_op r)
    (attempt_post (at_attempts r)) s.
Proof.
  set (n := at_attempts r).
  assert (∀ r s', at_attempts r = n + 1 → attempt_post n (r, false) s') as Hstop.
  { intros r' s' ?. split; [by right|done]. }
  apply any_guard; [split; [by left|done]|]. intros s1. apply any_bind. intros b s2.
  apply any_guard; [auto|]. intros s3. apply any_bind. intros [] s4.
  { by apply finish_result. }
  do 4 (apply any_guard; [auto|]; intros ?; apply any_bind; intros ? ?).
  by apply finish_result.
Qed.

Lemma takeover_attempts n r s :
  wp (loop n r) (λ r' _, at_attempts r ≤ at_attempts r' ≤ at_attempts r + Z.of_nat n) s.
Proof.
  revert r s. induction n as [|n IH]; intros r s; cbn [takeover_loop]; [wp_step; lia|].
  wp_step. eapply wp_mono; [apply attempt_result|]. intros [r' []] s' [Hn _]; cbn [fst snd] in *.
  - eapply wp_mono; [apply IH|]. cbn. intros. lia.
  - wp_step. lia.
Qed.

(** Success means that both verifications of the last attempt answered yes:
    whatever a positive cpuset verification establishes and the affinity
    verification keeps, and whatever that establishes, holds at the end. *)
Section Success.
Variables VC VA : S → Prop.
Hypothesis Hvc : ∀ s, wp verify_c (λ b s', b = true → VC s') s.
Hypothesis Hva_keeps : keeps VC verify_a.
Hypothesis Hva : ∀ s, wp verify_a (λ b s', b = true → VA s') s.

Lemma attempt_success r s :
  takeover_success r = false →
  wp (takeover_attempt set_op target_op parent_op verify_c verify_a identity_op r)
    (λ x s', takeover_success x.1 = true → VC s' ∧ VA s') s.
Proof.
  intros Hr.
  set (Q := λ (x : AffinityTakeoverResult * bool) s',
    takeover_success x.1 = true → VC s' ∧ VA s').
  assert (∀ r s', takeover_success r = false → Q (r, false) s') as Hstop.
  { intros r' s' H. unfold Q. cbn. congruence. }
  assert (∀ r0 s0, takeover_success r0 = false →
    wp (takeover_finish set_op verify_c verify_a identity_op r0) Q s0) as Hfinish.
  { intros r0 s0 H0. apply any_guard; [auto|]. intros s1. apply any_bind. intros b s2.
    apply any_guard; [auto|]. intros s3.
    wp_step. eapply wp_mono; [apply Hvc|]. intros c s4 Hc. cbv beta. destruct c.
    - wp_step. eapply wp_mono; [apply wp_and; [apply Hva_keeps; by apply Hc|apply Hva]|].
      intros a s5 [H5 Ha]. wp_step. unfold Q. cbn. auto.
    - apply any_bind. intros a s5. wp_step. by apply Hstop. }
  apply any_guard; [auto|]. intros s1. apply any_bind. intros b s2.
  apply any_guard; [auto|]. intros s3. apply any_bind. intros [] s4; [by apply Hfinish|].
  do 4 (apply any_guard; [auto|]; intros ?; apply any_bind; intros ? ?). by apply Hfinish.
Qed.

Lemma takeover_success_sound n s :
  wp (run_takeover_sequence set_op target_op parent_op verify_c verify_a identity_op n)
    (λ r s', takeover_success r = true → VC s' ∧ VA s') s.
Proof.
  unfold run_takeover_sequence. assert (takeover_success no_takeover = false) as Hr by done.
  revert Hr s. generalize no_takeover as r. induction n as [|n IH]; intros r Hr s;
    cbn [takeover_loop]; [wp_step; congruence|].
  wp_step. eapply wp_mono; [apply wp_and; [by apply attempt_success|apply attempt_result]|].
  intros [r' []] s' [Hs [_ Hgo]]; cbn [fst snd] in *; [by apply IH; apply Hgo|by wp_step].
Qed.
End Success.
End TakeoverFacts.

(** ** Priorities *)

(** What a priority value stands for: a policy, a real-time priority and, where
    the value fixes it, a nice value. *)
Definition priority_plan (prio_value : Z) : option (Z * Z * option Z) :=
  if (1 <=? prio_value) && (prio_value <=? 98) then Some (SCHED_FIFO, prio_value, None)
  else if (100 <=? prio_value) && (prio_value <=? 139)
  then Some (SCHED_NORMAL, 0, Some (prio_value - 120))
  else if prio_value =? -1 then Some (SCHED_NORMAL, 0, None)
  else if prio_value =? -2 then Some (SCHED_BATCH, 0, None)
  else if prio_value =? -3 then Some (SCHED_IDLE, 0, None)
  else None.

(** A configuration accepts exactly [0] and the values with a plan. *)
Lemma valid_prio_plan v : is_valid_prio_value v = true ↔ v = 0 ∨ is_Some (priority_plan v).
Proof.
  unfold is_valid_prio_value, priority_plan.
  destruct (Z.eqb_spec v 0) as [->|H0]; [naive_solver|].
  destruct ((1 <=? v) && (v <=? 98)); [naive_solver|].
  destruct ((100 <=? v) && (v <=? 139)); [naive_solver|].
  destruct (v =? -1); [naive_solver|]. destruct (v =? -2); [naive_solver|].
  destruct (v =? -3); cbn; [naive_solver|]. split; [done|]. intros [?|[? [=]]]. done.
Qed.

Lemma expected_policy_plan v :
  expected_policy_for_priority v = (λ p, p.1.1) <$> priority_plan v.
Proof.
  unfold expected_policy_for_priority, priority_plan.
  destruct (Z.eqb_spec v 0) as [->|H0]; [done|]. by repeat case_match.
Qed.

Section PriorityFacts.
Context {W : Type} `{!Kernel W}.

(** [set_priority] carries out the plan, and refuses what has none without
    asking the system anything. *)
Lemma set_priority_plan tid v (e : Env W) :
  0 < tid → v ≠ 0 →
  set_priority tid v e =
    match priority_plan v with
    | Some (policy, prio, None) => set_scheduler tid policy prio e
    | Some (policy, prio, Some nice) =>
        (set_scheduler tid policy prio <&&> set_nice_value tid nice) e
    | None => (false, e)
    end.
Proof.
  intros Ht Hv. unfold set_priority, priority_plan.
  destruct (Z.leb_spec tid 0); [lia|]. destruct (Z.eqb_spec v 0); [done|].
  by repeat case_match.
Qed.

Context `{!SchedLaws W}.
Definition view (tid : Z) (e : Env W) : option (Z * Z * Z) :=
  sched_view (sys_world (env_sys e)) tid.

Lemma view_set tid policy prio e p q n :
  view tid e = Some (p, q, n) →
  wp (set_scheduler tid policy prio)
    (λ ok e', ok = true → view tid e' = Some (policy, prio, n)) e.
Proof.
  intros Hv. apply wp_on_sys, wp_os. intros ok w Hset ->. by eapply sched_set.
Qed.
Lemma view_nice tid nice e p q n :
  view tid e = Some (p, q, n) →
  wp (set_nice_value tid nice) (λ ok e', ok = true → view tid e' = Some (p, q, nice)) e.
Proof. intros Hv. apply wp_on_sys, wp_os. intros ok w Hset ->. by eapply sched_nice. Qed.

(** After a successful [set_priority] the attributes are those of the plan. *)
Lemma set_priority_view tid v e p q n policy prio nice :
  0 < tid → v ≠ 0 → view tid e = Some (p, q, n) →
  priority_plan v = Some (policy, prio, nice) →
  wp (set_priority tid v)
    (λ ok e', ok = true → view tid e' = Some (policy, prio, default n nice)) e.
Proof.
  intros Ht Hv He Hp. unfold wp. rewrite set_priority_plan by done. rewrite Hp.
  destruct nice as [nice|]; [|by eapply view_set].
  change (wp (set_scheduler tid policy prio <&&> set_nice_value tid nice)
    (λ ok e', ok = true → view tid e' = Some (policy, prio, nice)) e).
  wp_step. eapply wp_mono; [by eapply view_set|]. intros [] e' H; cbv beta iota; [|by wp_step].
  eapply view_nice. by apply H.
Qed.

(** What the queries answer in a state with a known view. *)
Lemma get_current_sched_view tid e p q n :
  view tid e = Some (p, q, n) → 0 ≤ p →
  wp (get_current_sched tid) (λ c _, cs_policy c = p
    ∧ cs_prio c = if is_nice_policy p then n + 120 else q) e.
Proof.
  intros Hv Hp. unfold get_current_sched. wp_step. apply wp_on_sys, wp_os.
  destruct (sched_getscheduler tid _ p q n Hv) as (w1 & E1 & H1). rewrite E1. intros _ _ [= <- <-].
  destruct (Z.ltb_spec p 0); [lia|]. wp_step. apply wp_on_sys, wp_os. cbn [env_sys sys_world].
  destruct (sched_getparam tid _ p q n H1) as (w2 & E2 & H2). rewrite E2. intros _ _ [= <- <-].
  destruct (is_nice_policy p); [|by wp_step].
  wp_step. apply wp_on_sys, wp_os. cbn [env_sys sys_world].
  destruct (sched_getpriority tid _ p q n H2) as (w3 & E3 & H3). rewrite E3.
  intros _ _ [= <- <-]. by wp_step.
Qed.

(** The drift check accepts what a successful [set_priority] left behind. *)
Lemma set_then_not_changed tid v e p q n :
  0 < tid → v ≠ 0 → is_valid_prio_value v = true → view tid e = Some (p, q, n) →
  wp (set_priority tid v) (λ ok e', ok = true →
    wp (is_sched_changed tid v) (λ changed _, changed = false) e') e.
Proof.
  intros Ht Hv Hvalid He. apply valid_prio_plan in Hvalid as [?|[[[policy prio] nice] Hp]]; [done|].
  eapply wp_mono; [by eapply set_priority_view|]. intros ok e' H Hok. apply H in Hok.
  assert (0 ≤ policy) as Hpol.
  { unfold priority_plan in Hp. repeat case_match; simplify_eq; done. }
  unfold is_sched_changed. wp_step.
  eapply wp_mono; [by eapply get_current_sched_view|]. intros c e2 [Hc1 Hc2]. cbv beta. wp_step.
  rewrite Hc1, Hc2, expected_policy_plan, Hp. cbn [fmap option_fmap option_map fst].
  rewrite Z.eqb_refl. destruct (Z.ltb_spec policy 0); [lia|]. cbn [negb].
  unfold priority_plan in Hp.
  destruct ((1 <=? v) && (v <=? 98)) eqn:H1; [injection Hp as <- <- <-; cbn; by rewrite Z.eqb_refl|].
  destruct ((100 <=? v) && (v <=? 139)) eqn:H2; [|done]. injection Hp as <- <- <-. cbn.
  replace (v - 120 + 120) with v by lia. by rewrite Z.eqb_refl.
Qed.

(** Restoring a captured scheduler brings policy and real-time priority back,
    and the nice value where the policy has one. *)
Lemma capture_restore tid e p q n :
  0 < tid → 0 ≤ p → view tid e = Some (p, q, n) →
  wp (capture_scheduler_baseline tid) (λ captured _,
    captured.1 = true ∧
    ∀ e' p' q' n', view tid e' = Some (p', q', n') →
    wp (restore_scheduler tid captured.2.1.1 captured.2.1.2 captured.2.2) (λ ok e'',
      ok = true → view tid e'' = Some (p, q, if is_nice_policy p then n else n')) e') e.
Proof.
  intros Ht Hp Hv.
  assert (∀ m e' p' q' n', view tid e' = Some (p', q', n') → (is_nice_policy p = true → m = n) →
    wp (restore_scheduler tid p q m) (λ ok e'', ok = true →
      view tid e'' = Some (p, q, if is_nice_policy p then n else n')) e') as Hrestore.
  { intros m e' p' q' n' He' Hm. unfold restore_scheduler.
    destruct (Z.leb_spec tid 0); [lia|]. destruct (Z.ltb_spec p 0); [lia|]. cbn [orb]. wp_step.
    eapply wp_mono; [by eapply view_set|]. intros [] e2 H2; cbn [negb]; [|by wp_step].
    destruct (is_nice_policy p); [|wp_step; by intros _; apply H2].
    rewrite Hm by done. eapply view_nice. by apply H2. }
  unfold capture_scheduler_baseline. wp_step. apply wp_on_sys, wp_os.
  destruct (sched_getscheduler tid _ p q n Hv) as (w1 & E1 & H1). rewrite E1. intros _ _ [= <- <-].
  destruct (Z.ltb_spec p 0); [lia|]. wp_step. apply wp_on_sys, wp_os. cbn [env_sys sys_world].
  destruct (sched_getparam tid _ p q n H1) as (w2 & E2 & H2). rewrite E2. intros _ _ [= <- <-].
  destruct (is_nice_policy p) eqn:Enice.
  - wp_step. apply wp_on_sys, wp_os. cbn [env_sys sys_world].
    destruct (sched_getpriority tid _ p q n H2) as (w3 & E3 & H3). rewrite E3.
    intros _ _ [= <- <-]. wp_step. split; [done|]. cbn. intros. by eapply Hrestore.
  - wp_step. split; [done|]. cbn. intros. by eapply Hrestore.
Qed.
End PriorityFacts.

(** ** Group names *)

Lemma to_string_inj x y : to_string x = to_string y → x = y.
Proof. apply pretty_Z_inj. Qed.

(** Different rules and thread rules have different groups. *)
Lemma cpuctl_group_inj r1 i1 r2 i2 :
  safe_name r1 → safe_name r2 → cpuctl_group r1 i1 = cpuctl_group r2 i2 → r1 = r2 ∧ i1 = i2.
Proof.
  intros H1 H2 Heq. apply (f_equal chars) in Heq. unfold cpuctl_group in Heq.
  rewrite !chars_app in Heq. apply app_inv_head in Heq.
  change (chars "/A") with ["/"%char; "A"%char] in Heq. cbn [app] in Heq.
  apply sep_app_inj in Heq as [Er Heq]; [|by apply safe_name_slash..].
  apply chars_inj in Er as ->. injection Heq as Heq. apply chars_inj, to_string_inj in Heq. split; [done|lia].
Qed.

(** A word without a slash that occurs in a path occurs in one of its
    components. *)
Lemma contains_slash n a b :
  "/"%char ∉ chars n →
  contains n (a +:+ String "/"%char b) = contains n a || contains n b.
Proof.
  intros Hn. apply eq_true_iff_eq. rewrite orb_true_iff, !contains_iff. split.
  - intros (x & y & Heq). apply (f_equal chars) in Heq. rewrite !chars_app in Heq.
    change (chars (String "/" b)) with ("/"%char :: chars b) in Heq.
    apply app_eq_app in Heq as [k [[Ha Hy]|[Hx Hb]]].
    + left. apply app_eq_app in Hy as [[|d j] [[Hk Hj]|[Hk Hj]]].
      * exists x, EmptyString. apply chars_inj. rewrite !chars_app, Ha, Hk. cbn.
        by rewrite !app_nil_r.
      * exists x, EmptyString. apply chars_inj. rewrite !chars_app, Ha, Hk. cbn.
        by rewrite !app_nil_r.
      * injection Hj as <- _. exfalso. apply Hn. rewrite Hk. set_solver.
      * exists x, (str (d :: j)). apply chars_inj. rewrite !chars_app, chars_str. congruence.
    + right. destruct k as [|d k].
      * destruct (chars n) as [|c l] eqn:E.
        -- exists EmptyString, b. apply chars_inj. by rewrite !chars_app, E.
        -- injection Hb as <- _. exfalso. apply Hn. left.
      * injection Hb as <- Hb. exists (str k), y. apply chars_inj.
        by rewrite !chars_app, chars_str.
  - intros [(x & y & ->)|(x & y & ->)].
    + exists x, (y +:+ String "/" b). apply chars_inj. by rewrite !chars_app, <-!(assoc_L (++)).
    + exists (a +:+ String "/" x), y. apply chars_inj. rewrite !chars_app.
      change (chars (String "/" ?s)) with ("/"%char :: chars s).
      by rewrite <-!(assoc_L (++)), !chars_app.
Qed.

Lemma contains_elem n s c : contains n s = true → c ∈ chars n → c ∈ chars s.
Proof. intros (a & b & ->)%contains_iff Hc. rewrite !chars_app. set_solver. Qed.

(** The number of a thread rule's group holds no word with an [o]. *)
Lemma group_number_word w i :
  0 ≤ i → "o"%char ∈ chars w → contains w ("A" +:+ to_string (i + 1)) = false.
Proof.
  intros Hi Ho. apply not_true_is_false. intros H. apply contains_elem with (c := "o"%char) in H; [|done].
  rewrite chars_app in H. apply elem_of_app in H as [H|H]; [cbn in H; set_solver|].
  revert H. apply digits_no_char; [lia|done].
Qed.

Lemma cpuctl_group_word w rule i :
  0 ≤ i → "o"%char ∈ chars w → "/"%char ∉ chars w → contains w "ReUperf" = false →
  contains w (cpuctl_group rule i) = contains w rule.
Proof.
  intros Hi Ho Hs Hr.
  replace (cpuctl_group rule i) with
    (EmptyString +:+ String "/" ("ReUperf" +:+ String "/" (rule +:+ String "/"
       ("A" +:+ to_string (i + 1))))) by done.
  rewrite !contains_slash by done. rewrite Hr, group_number_word by done.
  destruct w as [|c w]; [by apply elem_of_nil in Ho|].
  change (contains (String c w) EmptyString) with false. cbn [orb]. by rewrite orb_false_r.
Qed.

(** The state ReUperf reads off its own cpuctl group is the one the rule's name
    would stand for as a path. *)
Lemma own_group_info rule i cpuset_path :
  0 ≤ i →
  cgroup_paths_to_state_info (cpuctl_group rule i) cpuset_path =
    {| csi_state := cgroup_path_to_state rule; csi_reuperf_owned := true |}.
Proof.
  intros Hi.
  assert (cgroup_path_to_state (cpuctl_group rule i) = cgroup_path_to_state rule) as Hst.
  { unfold cgroup_path_to_state.
    rewrite !cpuctl_group_word; by (done || lia || apply (bool_decide_unpack _)). }
  unfold cgroup_paths_to_state_info. rewrite Hst.
  assert (starts_with "/ReUperf/" (cpuctl_group rule i) = true) as ->.
  { apply prefix_app_iff. by eexists. }
  cbn [orb]. case_decide as Hd; [done|]. cbv iota. f_equal.
  by destruct (cgroup_path_to_state rule); try (exfalso; by apply Hd).
Qed.
