(* ===== verification/ScanWorker.v ===== *)
(** * The scan worker ([core/scan_worker.hpp])

    The task queue of a worker, the pacing of repeated work, and
    [process_dispatch_task] with everything it calls.  One task is processed
    at a time; the queue is the interface to the dispatching thread. *)

From S2P Require Import Prelude CppString ConfigTypes Kernel FileUtils FileFacts CpuMask.
From S2P Require Import ThreadMatcher ThreadCache Env Setters.

(** [std::hash<int>] and [std::hash<uint64_t>], with values of [size_t]. *)
Class IntHash := { hash_int : Z → Z; hash_u64 : Z → Z }.

Definition should_throttle_same_state_schedule (same_state : bool)
    (elapsed_ms min_interval_ms : Z) : bool :=
  same_state && (elapsed_ms <? min_interval_ms).

Definition should_run_managed_cgroup_check (manages_cpuset manages_cpuctl cadence_due : bool)
    : bool :=
  (manages_cpuset || manages_cpuctl) && cadence_due.

Record DispatchTask := {
  dt_pid : Z;
  dt_tid : Z;
  dt_process_start_time : Z;
  dt_thread_start_time : Z;
  dt_thread_name : string;
  dt_state : ProcessState;
  dt_cpuset_base : string;
  dt_proc_name : string;
  dt_cmdline : string }.

Definition task_key (task : DispatchTask) : TaskKey :=
  (dt_pid task, dt_tid task, dt_process_start_time task, dt_thread_start_time task).

(** [TaskKeyHash], in 64-bit arithmetic. *)
Definition hash_mix (hash h : Z) : Z :=
  Z.lxor hash
    (to_uint64 (to_uint64 h + 2654435769 + to_uint64 (Z.shiftl hash 6) + Z.shiftr hash 2)).
Definition task_key_hash `{!IntHash} (key : TaskKey) : Z :=
  let '(pid, tid, process_start_time, thread_start_time) := key in
  hash_mix (hash_mix (hash_mix (to_uint64 (hash_int pid)) (hash_int tid))
              (hash_u64 process_start_time)) (hash_u64 thread_start_time).

(** ** The queue *)

Module Queue.

(** [running_], [task_queue_] and [pending_tasks_]. *)
Record WorkerQueue := {
  wq_running : bool;
  wq_started : bool;
  wq_task_queue : list TaskKey;
  wq_pending : gmap TaskKey DispatchTask }.

Inductive EnqueueResult := Queued | Updated | QueueFull | Stopped.

Definition kMaxQueuedTasks : nat := 4096.

Definition new_worker : WorkerQueue :=
  {| wq_running := false; wq_started := false; wq_task_queue := []; wq_pending := ∅ |}.

(** [start], once the configurations are set. *)
Definition start (q : WorkerQueue) : WorkerQueue :=
  if wq_started q then q
  else {| wq_running := true; wq_started := true; wq_task_queue := wq_task_queue q;
          wq_pending := wq_pending q |}.

Definition stop (q : WorkerQueue) : WorkerQueue :=
  {| wq_running := false; wq_started := false; wq_task_queue := []; wq_pending := ∅ |}.

Definition enqueue (task : DispatchTask) (q : WorkerQueue) : EnqueueResult * WorkerQueue :=
  let key := task_key task in
  if negb (wq_running q) then (Stopped, q)
  else
    match wq_pending q !! key with
    | Some _ =>
        (Updated, {| wq_running := wq_running q; wq_started := wq_started q;
                     wq_task_queue := wq_task_queue q;
                     wq_pending := <[key := task]> (wq_pending q) |})
    | None =>
        if (kMaxQueuedTasks <=? length (wq_task_queue q))%nat then (QueueFull, q)
        else
          (Queued, {| wq_running := wq_running q; wq_started := wq_started q;
                      wq_task_queue := wq_task_queue q ++ [key];
                      wq_pending := <[key := task]> (wq_pending q) |})
    end.

(** What one round of [worker_loop] takes out of the queue. *)
Definition take_task (q : WorkerQueue) : option DispatchTask * WorkerQueue :=
  match wq_task_queue q with
  | [] => (None, q)
  | key :: rest =>
      match wq_pending q !! key with
      | None =>
          (None, {| wq_running := wq_running q; wq_started := wq_started q;
                    wq_task_queue := rest; wq_pending := wq_pending q |})
      | Some task =>
          (Some task, {| wq_running := wq_running q; wq_started := wq_started q;
                         wq_task_queue := rest; wq_pending := delete key (wq_pending q) |})
      end
  end.

End Queue.

(** ** Pacing *)

Definition kScheduleCleanupThreshold : nat := 500.

Section Pacing.
Variable timing : TimingConfig.

Definition cleanup_expired_schedule_times (now : Z) (s : ScheduleState) : ScheduleState :=
  let expired t := schedule_cleanup_interval_ms timing <? to_ms (now - t) in
  let expired_key key :=
    match last_schedule_time s !! key with Some t => expired t | None => false end in
  {| last_schedule_time := filter (λ kv, expired kv.2 = false) (last_schedule_time s);
     last_schedule_state := filter (λ kv, expired_key kv.1 = false) (last_schedule_state s);
     next_cgroup_check_time :=
       filter (λ kv, now - kv.2 ≤ schedule_cleanup_interval_ms timing * 1000000)
         (next_cgroup_check_time s);
     schedule_counter := schedule_counter s;
     cgroup_check_counter := cgroup_check_counter s |}.

(** Whether the task is skipped, and the tables afterwards. *)
Definition should_skip_schedule (task : DispatchTask) (now : Z) (s : ScheduleState)
    : bool * ScheduleState :=
  let key := task_key task in
  let same_state := bool_decide (last_schedule_state s !! key = Some (dt_state task)) in
  let throttled :=
    match last_schedule_time s !! key with
    | Some t => should_throttle_same_state_schedule same_state (to_ms (now - t))
                  (min_schedule_interval_ms timing)
    | None => false
    end in
  if throttled then (true, s)
  else
    let counter := S (schedule_counter s) in
    let due := (kScheduleCleanupThreshold <=? counter)%nat in
    let s' := {| last_schedule_time := <[key := now]> (last_schedule_time s);
                 last_schedule_state := <[key := dt_state task]> (last_schedule_state s);
                 next_cgroup_check_time := next_cgroup_check_time s;
                 schedule_counter := if due then O else counter;
                 cgroup_check_counter := cgroup_check_counter s |} in
    (false, if due then cleanup_expired_schedule_times now s' else s').

Definition should_check_cgroup `{!IntHash} (task : DispatchTask) (now : Z) (s : ScheduleState)
    : bool * ScheduleState :=
  let key := task_key task in
  let interval := cgroup_check_interval_ms timing in
  let with_next t := {| last_schedule_time := last_schedule_time s;
                        last_schedule_state := last_schedule_state s;
                        next_cgroup_check_time := <[key := t]> (next_cgroup_check_time s);
                        schedule_counter := schedule_counter s;
                        cgroup_check_counter := cgroup_check_counter s |} in
  if interval =? 0 then (true, s)
  else
    match next_cgroup_check_time s !! key with
    | None =>
        let stagger_ms := task_key_hash key `mod` to_uint64 interval in
        (stagger_ms =? 0, with_next (now + stagger_ms * 1000000))
    | Some t =>
        if now <? t then (false, s)
        else
          let s' := with_next (now + interval * 1000000) in
          let counter := S (cgroup_check_counter s) in
          let due := (kScheduleCleanupThreshold <=? counter)%nat in
          let s' := {| last_schedule_time := last_schedule_time s';
                       last_schedule_state := last_schedule_state s';
                       next_cgroup_check_time := next_cgroup_check_time s';
                       schedule_counter := schedule_counter s';
                       cgroup_check_counter := if due then O else counter |} in
          (true, if due then cleanup_expired_schedule_times now s' else s')
    end.
End Pacing.

(** Runs a function of the clock and the schedule tables. *)
Definition paced {W} `{!Kernel W} {A} (f : Z → ScheduleState → A * ScheduleState) : M (Env W) A :=
  now ← on_sys (os k_now); on_schedule (f now).

(** ** Processing a task *)

Section Worker.
Context {R W : Type} `{!RegexEngine R} `{!Kernel W} `{!StringHash} `{!IntHash}.
(** The matcher, the timing of the worker and that of its cpuset setter. *)
Variable matcher : ThreadMatcher R.
Variable timing : TimingConfig.
Variable cpuset_timing : TimingConfig.

Definition is_current_task_identity (task : DispatchTask) : M (Env W) bool :=
  identity_matches (dt_pid task) (dt_tid task) (dt_process_start_time task)
    (dt_thread_start_time task).

Definition erase_task_identity (task : DispatchTask) : M (Env W) unit :=
  on_cache (Cache.erase_thread_if_identity (dt_pid task) (dt_tid task)
              (dt_process_start_time task) (dt_thread_start_time task)).

Definition is_cgroup_changed (task : DispatchTask) (result : MatchResult) : M (Env W) bool :=
  let check_cpuset := has_resolved_affinity result in
  let check_cpuctl := mr_enable_limit result && (0 <=? mr_thread_rule_index result) in
  cadence_due ← (if check_cpuset || check_cpuctl
                 then paced (should_check_cgroup timing task) else mret false);
  if negb (should_run_managed_cgroup_check check_cpuset check_cpuctl cadence_due)
  then mret false
  else
    paths ← on_sys (get_thread_cgroup_paths_uncached (dt_pid task) (dt_tid task));
    mret (if negb (tcp_readable paths) then true
          else if check_cpuset
                  && negb (bool_decide (tcp_cpuset paths =
                            "/top-app/ReUperf_" +:+ mr_cpumask_name result))
          then true
          else check_cpuctl
               && negb (bool_decide (tcp_cpuctl paths =
                     cpuctl_group (mr_matched_rule_name result) (mr_thread_rule_index result)))).

Definition needs_affinity_management (result : MatchResult) : bool :=
  has_resolved_affinity result.
Definition needs_priority_management (result : MatchResult) : bool :=
  negb (get_prio_value matcher (mr_prio_class result) (mr_effective_state result) =? 0).
Definition needs_managed_state (result : MatchResult) : bool :=
  mr_matched result && (needs_affinity_management result || needs_priority_management result
                        || mr_enable_limit result).

Definition capture_baseline_if_needed (task : DispatchTask) : M (Env W) unit :=
  affinity ← on_sys (get_affinity_from_status (dt_tid task));
  captured ← capture_scheduler_baseline (dt_tid task);
  cgroups ← on_sys (get_thread_cgroup_paths_uncached (dt_pid task) (dt_tid task));
  let '(has_scheduler, (policy, priority, nice)) := captured in
  let has_cpuset := negb (empty (tcp_cpuset cgroups)) in
  let has_cpuctl := negb (empty (tcp_cpuctl cgroups)) in
  let baseline :=
    {| tb_affinity := affinity; tb_has_affinity := negb (bool_decide (affinity = []));
       tb_scheduler_policy := policy; tb_scheduler_priority := priority; tb_nice := nice;
       tb_has_scheduler := has_scheduler;
       tb_cpuset_path :=
         if has_cpuset then "/dev/cpuset" +:+ tcp_cpuset cgroups else EmptyString;
       tb_has_cpuset_path := has_cpuset;
       tb_cpuctl_path :=
         if has_cpuctl then "/dev/cpuctl" +:+ tcp_cpuctl cgroups else EmptyString;
       tb_has_cpuctl_path := has_cpuctl |} in
  current ← is_current_task_identity task;
  if (current : bool)
  then on_cache (Cache.set_baseline (dt_pid task) (dt_tid task) baseline) else mret tt.

(** One part of a baseline: the identity is checked, then the part is
    restored.  [None] when the identity was lost. *)
Definition restore_part (task : DispatchTask) (has : bool) (restore : M (Env W) bool)
    : M (Env W) (option bool) :=
  if has then
    current ← is_current_task_identity task;
    if negb current then mret None else ok ← restore; mret (Some ok)
  else mret (Some true).

Definition restore_affinity_baseline (task : DispatchTask) (baseline : ThreadBaseline)
    : M (Env W) bool :=
  r1 ← restore_part task (tb_has_cpuset_path baseline)
         (restore_cpuset_cgroup (dt_tid task) (tb_cpuset_path baseline));
  match r1 with
  | None => mret false
  | Some ok1 =>
      r2 ← restore_part task (tb_has_affinity baseline)
             (restore_affinity (dt_tid task) (tb_affinity baseline));
      match r2 with
      | None => mret false
      | Some ok2 => if ok1 && ok2 then is_current_task_identity task else mret false
      end
  end.

Definition restore_scheduler_baseline (task : DispatchTask) (baseline : ThreadBaseline)
    : M (Env W) bool :=
  current ← is_current_task_identity task;
  if negb current then mret false
  else if negb (tb_has_scheduler baseline) then mret false
  else
    ok ← restore_scheduler (dt_tid task) (tb_scheduler_policy baseline)
           (tb_scheduler_priority baseline) (tb_nice baseline);
    if negb ok then mret false else is_current_task_identity task.

Definition restore_cpuctl_baseline (task : DispatchTask) (baseline : ThreadBaseline)
    : M (Env W) bool :=
  current ← is_current_task_identity task;
  if negb current then mret false
  else if negb (tb_has_cpuctl_path baseline) then mret false
  else
    ok ← restore_cpuctl_cgroup (dt_tid task) (tb_cpuctl_path baseline);
    if negb ok then mret false else is_current_task_identity task.

(** [if (!is_current_task_identity(task)) { erase; return; }] *)
Definition while_current (task : DispatchTask) (k : M (Env W) unit) : M (Env W) unit :=
  current ← is_current_task_identity task;
  if (current : bool) then k else erase_task_identity task.

Definition restore_baseline (task : DispatchTask) : M (Env W) unit :=
  let pid := dt_pid task in
  let tid := dt_tid task in
  baseline ← ask_cache (Cache.get_baseline pid tid);
  match baseline with
  | None =>
      _ ← on_cache (Cache.clear_applied_result pid tid);
      on_cache (Cache.clear_managed_components pid tid)
  | Some baseline =>
      while_current task (
      r1 ← (if tb_has_cpuctl_path baseline then restore_cpuctl_baseline task baseline
            else mret true);
      while_current task (
      r2 ← (if tb_has_scheduler baseline then restore_scheduler_baseline task baseline
            else mret true);
      while_current task (
      r3 ← restore_affinity_baseline task baseline;
      while_current task (
      if (r1 : bool) && r2 && r3 then
        _ ← on_cache (Cache.clear_baseline pid tid);
        _ ← on_cache (Cache.clear_applied_result pid tid);
        on_cache (Cache.clear_managed_components pid tid)
      else mret tt))))
  end.

(** Drops a component that is no longer wanted: on failure the whole
    application stops, otherwise it goes on without the component. *)
Definition drop_component (task : DispatchTask) (needed : bool) (restore : M (Env W) bool)
    (managed without : ManagedComponents) (k : ManagedComponents → M (Env W) unit)
    : M (Env W) unit :=
  if needed then
    ok ← restore;
    if negb ok then mret tt
    else
      _ ← on_cache (Cache.set_managed_components (dt_pid task) (dt_tid task) without);
      k without
  else k managed.

Definition without_affinity (m : ManagedComponents) : ManagedComponents :=
  {| mc_affinity := false; mc_priority := mc_priority m; mc_cpuctl := mc_cpuctl m |}.
Definition without_priority (m : ManagedComponents) : ManagedComponents :=
  {| mc_affinity := mc_affinity m; mc_priority := false; mc_cpuctl := mc_cpuctl m |}.
Definition without_cpuctl (m : ManagedComponents) : ManagedComponents :=
  {| mc_affinity := mc_affinity m; mc_priority := mc_priority m; mc_cpuctl := false |}.

(** The baseline has what the requested components need. *)
Definition baseline_suffices (needs_affinity needs_priority needs_cpuctl : bool)
    (b : ThreadBaseline) : bool :=
  negb (needs_affinity && (negb (tb_has_affinity b) || negb (tb_has_cpuset_path b)))
  && negb (needs_priority && negb (tb_has_scheduler b))
  && negb (needs_cpuctl && negb (tb_has_cpuctl_path b)).

(** The three operations and the bookkeeping after them. *)
Definition apply_components (task : DispatchTask) (result : MatchResult)
    (managed : ManagedComponents) : M (Env W) unit :=
  let pid := dt_pid task in
  let tid := dt_tid task in
  affinity_result ← cpuset_apply_with_result matcher cpuset_timing pid tid result
                      (dt_process_start_time task) (dt_thread_start_time task);
  while_current task (
  priority_applied ← priority_apply_with_result matcher tid result;
  while_current task (
  cpuctl_applied ← cpuctl_apply_with_result tid result;
  let managed :=
    {| mc_affinity := mc_affinity managed || needs_affinity_management result;
       mc_priority := mc_priority managed || needs_priority_management result;
       mc_cpuctl := mc_cpuctl managed || mr_enable_limit result |} in
  let affinity_applied :=
    negb (needs_affinity_management result) || takeover_success affinity_result in
  while_current task (
  _ ← on_cache (Cache.set_managed_components pid tid managed);
  if affinity_applied && priority_applied && cpuctl_applied
  then on_cache (Cache.update_applied_result pid tid result)
  else while_current task (mret tt)))).

Definition apply_result (task : DispatchTask) (result : MatchResult) : M (Env W) unit :=
  let pid := dt_pid task in
  let tid := dt_tid task in
  if negb (needs_managed_state result) then restore_baseline task
  else
    _ ← capture_baseline_if_needed task;
    baseline ← ask_cache (Cache.get_baseline pid tid);
    let needs_affinity := needs_affinity_management result in
    let needs_priority := needs_priority_management result in
    match baseline with
    | None => mret tt
    | Some baseline =>
        if negb (baseline_suffices needs_affinity needs_priority (mr_enable_limit result)
                   baseline)
        then mret tt
        else
          managed ← ask_cache (Cache.get_managed_components pid tid);
          drop_component task (should_restore_managed_component (mc_affinity managed)
                                 needs_affinity)
            (restore_affinity_baseline task baseline) managed (without_affinity managed)
            (λ managed,
          drop_component task (should_restore_managed_component (mc_priority managed)
                                 needs_priority)
            (restore_scheduler_baseline task baseline) managed (without_priority managed)
            (λ managed,
          drop_component task (should_restore_managed_component (mc_cpuctl managed)
                                 (mr_enable_limit result))
            (restore_cpuctl_baseline task baseline) managed (without_cpuctl managed)
            (λ managed, apply_components task result managed)))
    end.

(** Whether what was applied before still holds; each source of drift is
    looked at. *)
Definition drifted (task : DispatchTask) (applied : MatchResult) : M (Env W) bool :=
  affinity_changed ←
    (if needs_affinity_management applied
     then on_sys (is_affinity_changed (dt_tid task)
            (get_cpus_for_affinity matcher (mr_affinity_class applied)
               (mr_effective_state applied)))
     else mret false);
  let expected_prio :=
    get_prio_value matcher (mr_prio_class applied) (mr_effective_state applied) in
  sched_changed ←
    (if expected_prio =? 0 then mret false else is_sched_changed (dt_tid task) expected_prio);
  cgroup_changed ← is_cgroup_changed task applied;
  mret (affinity_changed || sched_changed || cgroup_changed).

Definition process_dispatch_task (task : DispatchTask) : M (Env W) unit :=
  let pid := dt_pid task in
  let tid := dt_tid task in
  current ← is_current_task_identity task;
  if negb current then erase_task_identity task
  else
    skip ← paced (should_skip_schedule timing task);
    if (skip : bool) then mret tt
    else
      entry ← ask_cache (Cache.lookup pid tid (dt_process_start_time task)
                (dt_thread_start_time task) (dt_thread_name task) (dt_cmdline task)
                (dt_state task));
      match entry with
      | Some entry =>
          applied ← ask_cache (Cache.get_applied_result pid tid);
          match applied with
          | Some applied =>
              if is_result_equal applied (tce_result entry) then
                if negb (needs_managed_state applied) then mret tt
                else
                  changed ← drifted task applied;
                  if negb changed then mret tt else apply_result task (tce_result entry)
              else apply_result task (tce_result entry)
          | None => apply_result task (tce_result entry)
          end
      | None =>
          result ← on_matcher (match_thread matcher (dt_proc_name task) (dt_thread_name task)
                     (dt_state task) pid tid (dt_cmdline task));
          let cpuctl_base := get_cpuctl_base (mr_effective_state result) in
          _ ← on_cache (Cache.update pid tid (dt_process_start_time task)
                (dt_thread_start_time task) (dt_thread_name task) (dt_cmdline task)
                (dt_state task) result (dt_cpuset_base task) cpuctl_base);
          apply_result task result
      end.
End Worker.
