(* ===== verification/ScanCursor.v ===== *)
(** * Budgeted enumeration of threads ([core/scan_cursor.hpp])

    The state of the main loop's scans, the time budget of a pass, and the
    cursor that enumerates the threads of a process and can be resumed by the
    next pass. *)

From S2P Require Import Prelude CppString ConfigTypes Kernel FileUtils ThreadMatcher ThreadCache.
From S2P Require Import ScanWorker.

(** ** Directory streams and the clock

    [readdir]: a name, the end of the stream, or an error. *)
Inductive readdir_result := DirEntry (name : string) | DirEnd | DirError.

Class KernelScan (W : Type) := {
  k_opendir : string → M W (option Z);
  k_readdir : Z → M W readdir_result;
  k_closedir : Z → M W unit;
  k_sleep_us : Z → M W unit;
  (** How many more readings of the clock can come before a deadline. *)
  k_ticks : Z → W → nat }.

(** The clock is monotonic and advances: only finitely many readings come before
    a deadline, and no other call brings the deadline further away. *)
Class ScanLaws (W : Type) `{Kernel W} `{KernelScan W} := {
  ticks_now d w :
    let '(t, w') := k_now w in
    (k_ticks d w' ≤ k_ticks d w)%nat ∧ (t < d → (k_ticks d w' < k_ticks d w)%nat);
  ticks_read d p w : (k_ticks d (k_read p w).2 ≤ k_ticks d w)%nat;
  ticks_opendir d p w : (k_ticks d (k_opendir p w).2 ≤ k_ticks d w)%nat;
  ticks_readdir d h w : (k_ticks d (k_readdir h w).2 ≤ k_ticks d w)%nat;
  ticks_closedir d h w : (k_ticks d (k_closedir h w).2 ≤ k_ticks d w)%nat;
  ticks_sleep d us w : (k_ticks d (k_sleep_us us w).2 ≤ k_ticks d w)%nat }.

(** ** The budget of a pass *)

Record ScanBudget := {
  bd_deadline : Z;
  bd_batch_size : Z;
  bd_batch_yield_us : Z;
  bd_thread_reads : Z }.

(** What a pass of the main loop works on: the system, the buckets of the
    matcher, the thread cache, the workers' queues, the budget of the pass and
    the flag [full_rescan_needed]. *)
Record Main (W : Type) := MkMain {
  mn_sys : Sys W;
  mn_buckets : gmap Z Bucket;
  mn_cache : ThreadCache;
  mn_workers : list Queue.WorkerQueue;
  mn_budget : ScanBudget;
  mn_rescan : bool }.
Arguments MkMain {W} _ _ _ _ _ _.
Arguments mn_sys {W} _.
Arguments mn_buckets {W} _.
Arguments mn_cache {W} _.
Arguments mn_workers {W} _.
Arguments mn_budget {W} _.
Arguments mn_rescan {W} _.

Section Lift.
Context {W : Type}.

Definition main_sys {A} (op : M (Sys W) A) : M (Main W) A :=
  λ m, let '(a, s) := op (mn_sys m) in
       (a, MkMain s (mn_buckets m) (mn_cache m) (mn_workers m) (mn_budget m) (mn_rescan m)).

Definition main_matcher {A} (op : M (MatcherState W) A) : M (Main W) A :=
  λ m, let sys := mn_sys m in
       let '(a, s) := op (MkMatcherState (sys_world sys) (mn_buckets m)) in
       (a, MkMain (MkSys (ms_world s) (sys_file_cache sys) (sys_cgroup_cache sys)
                     (sys_file_ttl_ms sys) (sys_cgroup_ttl_ms sys))
             (ms_process_cache s) (mn_cache m) (mn_workers m) (mn_budget m) (mn_rescan m)).

Definition main_cache (f : ThreadCache → ThreadCache) : M (Main W) unit :=
  modify (λ m, MkMain (mn_sys m) (mn_buckets m) (f (mn_cache m)) (mn_workers m) (mn_budget m)
                 (mn_rescan m)).

Definition main_budget (f : ScanBudget → ScanBudget) : M (Main W) unit :=
  modify (λ m, MkMain (mn_sys m) (mn_buckets m) (mn_cache m) (mn_workers m) (f (mn_budget m))
                 (mn_rescan m)).

Definition main_workers (f : list Queue.WorkerQueue → list Queue.WorkerQueue)
    : M (Main W) unit :=
  modify (λ m, MkMain (mn_sys m) (mn_buckets m) (mn_cache m) (f (mn_workers m)) (mn_budget m)
                 (mn_rescan m)).

(** [full_rescan_needed.store(b)]. *)
Definition set_rescan (b : bool) : M (Main W) unit :=
  modify (λ m, MkMain (mn_sys m) (mn_buckets m) (mn_cache m) (mn_workers m) (mn_budget m) b).

Lemma wp_main_sys {A} (op : M (Sys W) A) (Q : A → Main W → Prop) m :
  wp op (λ a s, Q a (MkMain s (mn_buckets m) (mn_cache m) (mn_workers m) (mn_budget m)
                       (mn_rescan m))) (mn_sys m) →
  wp (main_sys op) Q m.
Proof. unfold wp, main_sys. by destruct (op (mn_sys m)). Qed.
End Lift.

Section Cursor.
Context {W : Type} `{!Kernel W} `{!KernelScan W}.

Definition new_budget (budget_us configured_batch_size configured_batch_yield_us : Z)
    : M (Main W) unit :=
  now ← main_sys (os k_now);
  main_budget (λ _, {| bd_deadline := now + budget_us * 1000;
                       bd_batch_size := Z.max configured_batch_size 1;
                       bd_batch_yield_us := Z.max configured_batch_yield_us 0;
                       bd_thread_reads := 0 |}).

Definition exhausted : M (Main W) bool :=
  now ← main_sys (os k_now);
  gets (λ m, bd_deadline (mn_budget m) <=? now).

Definition after_thread_read : M (Main W) unit :=
  main_budget (λ b, {| bd_deadline := bd_deadline b; bd_batch_size := bd_batch_size b;
                       bd_batch_yield_us := bd_batch_yield_us b;
                       bd_thread_reads := to_uint64 (bd_thread_reads b + 1) |});;
  b ← gets mn_budget;
  if (0 <? bd_batch_yield_us b) && (bd_thread_reads b `mod` bd_batch_size b =? 0)
  then main_sys (os (k_sleep_us (bd_batch_yield_us b)))
  else mret tt.

(** ** Reading a directory

    The loop the three enumerations share: entries whose name is a valid number
    are collected until the stream or the budget ends. *)
Inductive stream_outcome := EndOfStream | ReadError | OutOfBudget | OutOfFuel.

Fixpoint read_entries (fuel : nat) (dir : Z) (ids : list Z)
    : M (Main W) (stream_outcome * list Z) :=
  match fuel with
  | O => mret (OutOfFuel, ids)
  | S fuel' =>
      over ← exhausted;
      if (over : bool) then mret (OutOfBudget, ids)
      else
        entry ← main_sys (os (k_readdir dir));
        match entry with
        | DirEnd => mret (EndOfStream, ids)
        | DirError => mret (ReadError, ids)
        | DirEntry name =>
            after_thread_read;;
            read_entries fuel' dir
              match parse_id (chars name) with Some id => ids ++ [id] | None => ids end
        end
  end.

(** A clock reading per entry, and one that finds the budget used up. *)
Definition stream_fuel (m : Main W) : nat :=
  S (k_ticks (bd_deadline (mn_budget m)) (sys_world (mn_sys m))).

(** [std::sort] and [std::unique] on a vector of numbers. *)
Fixpoint unique_ints (l : list Z) : list Z :=
  match l with
  | x :: (y :: _) as rest => if x =? y then unique_ints rest else x :: unique_ints rest
  | _ => l
  end.
Definition sorted_unique (l : list Z) : list Z := unique_ints (sort_ints l).

(** ** The cursor *)

Record ScanCursor := {
  cr_pid : Z;
  cr_task_dir : option Z;
  cr_complete : bool;
  cr_tids : list Z;
  cr_tid_index : nat;
  cr_process_name : option string;
  cr_process_start_time : option Z;
  cr_cmdline : option string }.

(** The members [..._loaded] say whether the values are present. *)
Definition empty_cursor : ScanCursor :=
  {| cr_pid := 0; cr_task_dir := None; cr_complete := false; cr_tids := []; cr_tid_index := 0;
     cr_process_name := None; cr_process_start_time := None; cr_cmdline := None |}.

Definition close_dir (dir : option Z) : M (Main W) unit :=
  match dir with Some h => main_sys (os (k_closedir h)) | None => mret tt end.

Definition reset_cursor (c : ScanCursor) : M (Main W) ScanCursor :=
  close_dir (cr_task_dir c);; mret empty_cursor.

Definition begin_pid (next_pid : Z) (c : ScanCursor) : M (Main W) ScanCursor :=
  close_dir (cr_task_dir c);;
  mret {| cr_pid := next_pid; cr_task_dir := None; cr_complete := false; cr_tids := [];
          cr_tid_index := 0; cr_process_name := None; cr_process_start_time := None;
          cr_cmdline := None |}.

Definition with_stream (dir : option Z) (complete : bool) (tids : list Z) (index : nat)
    (c : ScanCursor) : ScanCursor :=
  {| cr_pid := cr_pid c; cr_task_dir := dir; cr_complete := complete; cr_tids := tids;
     cr_tid_index := index; cr_process_name := cr_process_name c;
     cr_process_start_time := cr_process_start_time c; cr_cmdline := cr_cmdline c |}.

Definition with_index (index : nat) (c : ScanCursor) : ScanCursor :=
  with_stream (cr_task_dir c) (cr_complete c) (cr_tids c) index c.

Definition with_identity (name : option string) (start : option Z) (cmdline : option string)
    (c : ScanCursor) : ScanCursor :=
  {| cr_pid := cr_pid c; cr_task_dir := cr_task_dir c; cr_complete := cr_complete c;
     cr_tids := cr_tids c; cr_tid_index := cr_tid_index c; cr_process_name := name;
     cr_process_start_time := start; cr_cmdline := cmdline |}.

(** ["/proc/" + std::to_string(pid) + "/task"]. *)
Definition task_dir_path (pid : Z) : string := proc_path pid "task".

(** One pass over an open stream of thread numbers. *)
Definition read_tids (dir : Z) (tids : list Z)
    : M (Main W) (bool * option Z * list Z) :=
  fuel ← gets stream_fuel;
  '(outcome, ids) ← read_entries fuel dir tids;
  match outcome with
  | EndOfStream => close_dir (Some dir);; mret (true, None, sorted_unique ids)
  | ReadError => close_dir (Some dir);; mret (true, None, [])
  | OutOfBudget | OutOfFuel => mret (false, Some dir, ids)
  end.

Definition enumerate_tids (c : ScanCursor) : M (Main W) (bool * ScanCursor) :=
  if cr_complete c then mret (true, c)
  else if cr_pid c <=? 0 then mret (false, c)
  else
    opened ←
      match cr_task_dir c with
      | Some dir => mret (Some (dir, cr_tids c))
      | None =>
          dir ← main_sys (os (k_opendir (task_dir_path (cr_pid c))));
          mret ((λ d, (d, [])) <$> dir)
      end;
    match opened with
    | None => mret (true, with_stream None true (cr_tids c) (cr_tid_index c) c)
    | Some (dir, tids) =>
        '(complete, dir', tids') ← read_tids dir tids;
        mret (complete, with_stream dir' complete tids'
                          (if (complete : bool) then 0%nat else cr_tid_index c) c)
    end.
End Cursor.
