(* ===== verification/LauncherFinder.v ===== *)
(** * Finding the launcher ([core/launcher_finder.hpp])

    [find] asks the package service for the activities that handle HOME and
    chooses among the packages it names.  [execute_command] runs a shell
    command with a time limit and a limit on its output; the child's own code
    up to [exec] is outside the model. *)

From S2P Require Import Prelude CppString Kernel FileUtils ScanCursor.

(** ** Package names *)

Definition tolower (c : ascii) : ascii :=
  let n := N_of_ascii c in
  if ((65 <=? n) && (n <=? 90))%N then ascii_of_N (n + 32) else c.
Definition isalpha (c : ascii) : bool :=
  let n := N_of_ascii (tolower c) in ((97 <=? n) && (n <=? 122))%N.
Definition isalnum (c : ascii) : bool := isalpha c || isdigit c.

Definition is_home_package (pkg : string) : bool :=
  let lower := str (tolower <$> chars pkg) in contains "home" lower || contains "launcher" lower.

(** The loop: [segment_start], [has_separator] and what is left. *)
Fixpoint scan_package (segment_start has_separator : bool) (l : list ascii) : bool :=
  match l with
  | [] => has_separator && negb segment_start
  | c :: l' =>
      if decide (c = "."%char) then
        if segment_start then false else scan_package true true l'
      else if segment_start then
        if negb (isalpha c) then false else scan_package false has_separator l'
      else if negb (isalnum c) && negb (bool_decide (c = "_"%char)) then false
      else scan_package false has_separator l'
  end.

Definition is_valid_package (pkg : string) : bool :=
  let l := chars pkg in
  if bool_decide (l = []) || (128 <? length l)%nat || bool_decide (head l = Some "."%char)
     || bool_decide (last l = Some "."%char)
  then false
  else scan_package true false l.

(** ** The output of a query *)

(** [std::string::find] of a text. *)
Fixpoint find_text (needle l : list ascii) : option nat :=
  if bool_decide (take (length needle) l = needle) then Some O
  else match l with [] => None | _ :: l' => S <$> find_text needle l' end.

(** Takes the line ends off the end. *)
Definition CR : ascii := "013"%char.
Fixpoint drop_eols (l : list ascii) : list ascii :=
  match l with
  | c :: l' => if decide (c = LF ∨ c = CR) then drop_eols l' else l
  | [] => []
  end.
Definition strip_eols (l : list ascii) : list ascii := rev (drop_eols (rev l)).

Definition package_of_line (line : list ascii) : option string :=
  match find_text (chars "packageName=") line with
  | None => None
  | Some pos =>
      let pkg := str (strip_eols (drop (pos + 12) line)) in
      if is_valid_package pkg then Some pkg else None
  end.

Definition packages_of (result : string) : list string :=
  omap package_of_line (getlines LF (chars result)).

(** ** The choice *)

Record Choice := { ch_home : string; ch_android_home : string; ch_other : string }.

Definition no_choice : Choice :=
  {| ch_home := EmptyString; ch_android_home := EmptyString; ch_other := EmptyString |}.

Definition first_of (old new : string) : string := if decide (old = EmptyString) then new else old.

Definition consider (c : Choice) (pkg : string) : Choice :=
  let is_home := is_home_package pkg in
  let starts_com_android := starts_with "com.android" pkg in
  if is_home && negb starts_com_android
  then {| ch_home := first_of (ch_home c) pkg; ch_android_home := ch_android_home c;
          ch_other := ch_other c |}
  else if is_home && starts_com_android
  then {| ch_home := ch_home c; ch_android_home := first_of (ch_android_home c) pkg;
          ch_other := ch_other c |}
  else {| ch_home := ch_home c; ch_android_home := ch_android_home c;
          ch_other := first_of (ch_other c) pkg |}.

Definition choose (candidates : list string) : string :=
  let c := fold_left consider candidates no_choice in
  if decide (ch_home c ≠ EmptyString) then ch_home c
  else if decide (ch_android_home c ≠ EmptyString) then ch_android_home c
  else if decide (ch_other c ≠ EmptyString) then ch_other c
  else "com.miui.home".

(** ** Running a command *)

Inductive poll_outcome := PollReady | PollTimeout | PollEintr | PollError.
Inductive pipe_read := PipeBytes (l : list ascii) | PipeEof | PipeAgain | PipeEintr | PipeError.
Inductive wait_outcome := WaitExited (status : Z) | WaitRunning | WaitEintr | WaitNoChild | WaitError.

Class KernelProcess (W : Type) := {
  k_pipe : M W (option (Z * Z));
  (** [fork] of a child that runs the command, as the parent sees it. *)
  k_fork : string → Z * Z → M W (option Z);
  k_setpgid : Z → M W unit;
  k_set_nonblock : Z → M W bool;
  k_poll : Z → Z → M W poll_outcome;
  k_pipe_read : Z → M W pipe_read;
  (** [waitpid], with [WNOHANG] or not. *)
  k_waitpid : Z → bool → M W wait_outcome;
  k_kill : Z → Z → M W unit;
  (** How many more of these calls a signal may interrupt. *)
  k_signal_budget : W → nat }.

Definition kMaxOutputSize : nat := Z.to_nat 65536.
Definition SIGTERM : Z := 15.
Definition SIGKILL : Z := 9.

Section Command.
Context {W : Type} `{!Kernel W} `{!KernelScan W} `{!KernelProcess W}.

(** The loop of ten attempts; [true]: the function returns. *)
Fixpoint await_exit (attempts : nat) (child_pid : Z) : M (Sys W) bool :=
  match attempts with
  | O => mret false
  | S attempts' =>
      r ← os (k_waitpid child_pid true);
      match r with
      | WaitExited _ | WaitNoChild | WaitError => mret true
      | WaitRunning | WaitEintr => os (k_sleep_us 10000);; await_exit attempts' child_pid
      end
  end.

(** [waitpid] until no signal interrupts it ([false]: the fuel is used up). *)
Fixpoint reap (fuel : nat) (child_pid : Z) : M (Sys W) bool :=
  match fuel with
  | O => mret false
  | S fuel' =>
      r ← os (k_waitpid child_pid false);
      match r with WaitEintr => reap fuel' child_pid | _ => mret true end
  end.

Definition terminate_child (child_pid : Z) : M (Sys W) bool :=
  os (k_kill (- child_pid) SIGTERM);;
  gone ← await_exit 10 child_pid;
  if (gone : bool) then mret true
  else
    os (k_kill (- child_pid) SIGKILL);;
    w ← gets sys_world;
    reap (S (k_signal_budget w)) child_pid.

(** [terminate_child] and a return; [None]: its fuel is used up. *)
Definition terminate_and_return {A} (child_pid : Z) (a : A) : M (Sys W) (option A) :=
  ended ← terminate_child child_pid;
  mret (if (ended : bool) then Some a else None).

(** The inner loop: everything the pipe has now. *)
Inductive pipe_state := PipeOpen | PipeClosed | TooLarge | PipeFuel.
Fixpoint read_pipe (fuel : nat) (fd : Z) (result : list ascii)
    : M (Sys W) (pipe_state * list ascii) :=
  match fuel with
  | O => mret (PipeFuel, result)
  | S fuel' =>
      r ← os (k_pipe_read fd);
      match r with
      | PipeBytes l =>
          if (kMaxOutputSize <? length result + length l)%nat then mret (TooLarge, result)
          else read_pipe fuel' fd (result ++ l)
      | PipeEof | PipeError => mret (PipeClosed, result)
      | PipeAgain => mret (PipeOpen, result)
      | PipeEintr => read_pipe fuel' fd result
      end
  end.

(** The outer loop. *)
Inductive command_state := CommandClosed | TimedOut | OutputTooLarge | IoFailed | CommandFuel.
Fixpoint collect_output (fuel : nat) (fd deadline : Z) (result : list ascii)
    : M (Sys W) (command_state * list ascii) :=
  match fuel with
  | O => mret (CommandFuel, result)
  | S fuel' =>
      now ← os k_now;
      if deadline <=? now then mret (TimedOut, result)
      else
        r ← os (k_poll fd (to_ms (deadline - now)));
        match r with
        | PollTimeout => mret (TimedOut, result)
        | PollEintr => collect_output fuel' fd deadline result
        | PollError => mret (IoFailed, result)
        | PollReady =>
            w ← gets sys_world;
            '(state, result) ← read_pipe (S (kMaxOutputSize + k_signal_budget w)) fd result;
            match state with
            | PipeOpen => collect_output fuel' fd deadline result
            | PipeClosed => mret (CommandClosed, result)
            | TooLarge => mret (OutputTooLarge, result)
            | PipeFuel => mret (CommandFuel, result)
            end
        end
  end.

(** Waits for the child: whether its output counts; [None]: no fuel. *)
Fixpoint wait_for_exit (fuel : nat) (child_pid deadline : Z) : M (Sys W) (option bool) :=
  match fuel with
  | O => mret None
  | S fuel' =>
      r ← os (k_waitpid child_pid true);
      match r with
      | WaitExited _ => mret (Some true)
      | WaitEintr => wait_for_exit fuel' child_pid deadline
      | WaitNoChild | WaitError => mret (Some false)
      | WaitRunning =>
          now ← os k_now;
          if deadline <=? now then terminate_and_return child_pid false
          else os (k_sleep_us 10000);; wait_for_exit fuel' child_pid deadline
      end
  end.

(** [None]: a loop ran out of fuel, which [command_ends] excludes. *)
Definition execute_command (cmd : string) (timeout_ms : Z) : M (Sys W) (option string) :=
  pipe ← os k_pipe;
  match pipe with
  | None => mret (Some EmptyString)
  | Some (read_fd, write_fd) =>
      child ← os (k_fork cmd (read_fd, write_fd));
      match child with
      | None => os (k_close read_fd);; os (k_close write_fd);; mret (Some EmptyString)
      | Some child_pid =>
          os (k_setpgid child_pid);;
          os (k_close write_fd);;
          nonblock ← os (k_set_nonblock read_fd);
          if negb nonblock
          then os (k_close read_fd);; terminate_and_return child_pid EmptyString
          else
            now ← os k_now;
            let deadline := now + timeout_ms * 1000000 in
            w ← gets sys_world;
            '(state, result) ← collect_output (S (k_ticks deadline w)) read_fd deadline [];
            os (k_close read_fd);;
            match state with
            | CommandFuel => mret None
            | TimedOut | OutputTooLarge | IoFailed => terminate_and_return child_pid EmptyString
            | CommandClosed =>
                w ← gets sys_world;
                exited ← wait_for_exit (S (k_ticks deadline w + k_signal_budget w)) child_pid
                           deadline;
                mret match exited with
                     | None => None
                     | Some false => Some EmptyString
                     | Some true => Some (str (strip_eols result))
                     end
            end
      end
  end.

Definition resolve_command : string :=
  "cmd package resolve-activity -a android.intent.action.MAIN -c android.intent.category.HOME 2>/dev/null | grep 'packageName='".
Definition query_command : string :=
  "cmd package query-activities -a android.intent.action.MAIN -c android.intent.category.HOME 2>/dev/null | grep 'packageName='".

Definition find_launcher : M (Sys W) string :=
  result ← execute_command resolve_command 5000;
  let candidates := packages_of (default EmptyString result) in
  match candidates with
  | [] =>
      result ← execute_command query_command 5000;
      mret (choose (packages_of (default EmptyString result)))
  | _ => mret (choose candidates)
  end.
End Command.
