(* ===== verification/LauncherFacts.v ===== *)
(** * What the launcher finder returns

    The package names it accepts, the choice among them, and the end of a
    command it runs. *)

From S2P Require Import Prelude CppString Kernel FileUtils FileFacts ScanCursor LauncherFinder.

(** ** Package names

    Identifiers separated by dots. *)
Definition word_char (c : ascii) : bool := isalnum c || bool_decide (c = "_"%char).
Definition identifier (l : list ascii) : Prop :=
  ∃ c l', l = c :: l' ∧ isalpha c = true ∧ Forall (λ x, word_char x = true) l'.
Definition dotted (segs : list (list ascii)) : list ascii := segs ≫= cons "."%char.

Lemma dot_no_word c : word_char c = true → c ≠ "."%char.
Proof. by intros H ->. Qed.
Lemma alpha_word c : isalpha c = true → word_char c = true.
Proof. intros H. unfold word_char, isalnum. by rewrite H. Qed.

Lemma scan_word c l has_separator :
  word_char c = true → scan_package false has_separator (c :: l) = scan_package false has_separator l.
Proof.
  intros Hc. cbn. rewrite decide_False by (by apply dot_no_word).
  rewrite <-negb_orb. change (isalnum c || _) with (word_char c). by rewrite Hc.
Qed.

Lemma scan_words word l has_separator :
  Forall (λ x, word_char x = true) word →
  scan_package false has_separator (word ++ l) = scan_package false has_separator l.
Proof. induction 1; cbn [app]; [done|]. by rewrite scan_word. Qed.

Lemma scan_identifier seg l has_separator :
  identifier seg → scan_package true has_separator (seg ++ l) = scan_package false has_separator l.
Proof.
  intros (c & l' & -> & Hc & Hl). cbn [app scan_package].
  rewrite decide_False by (by apply dot_no_word, alpha_word). rewrite Hc. by apply scan_words.
Qed.

Lemma scan_dotted segs has_separator :
  Forall identifier segs →
  scan_package false has_separator (dotted segs) = has_separator || bool_decide (segs ≠ []).
Proof.
  intros Hs. revert has_separator. induction Hs as [|seg segs Hseg _ IH]; intros hs.
  { cbn. by rewrite andb_true_r, orb_false_r. }
  cbn [dotted mbind list_bind app]. change (segs ≫= cons "."%char) with (dotted segs).
  cbn [scan_package]. rewrite decide_True by done. rewrite scan_identifier, IH by done.
  by rewrite orb_true_r.
Qed.

(** Reading a text the loop accepts gives its identifiers back. *)
Lemma scan_package_inv l :
  (∀ hs, scan_package false hs l = true → ∃ word segs, l = word ++ dotted segs
     ∧ Forall (λ x, word_char x = true) word ∧ Forall identifier segs ∧ (hs = true ∨ segs ≠ []))
  ∧ ∀ hs, scan_package true hs l = true → ∃ seg segs, l = seg ++ dotted segs
     ∧ identifier seg ∧ Forall identifier segs ∧ (hs = true ∨ segs ≠ []).
Proof.
  induction l as [|c l [IHf IHt]].
  { split; intros hs; cbn; [|by rewrite andb_false_r].
    intros [Hs _]%andb_true_iff. exists [], []. split_and!; [done|constructor|constructor|by left]. }
  split; intros hs; cbn [scan_package]; case_decide as Hd.
  - subst c. intros (seg & segs & -> & Hseg & Hsegs & _)%IHt. exists [], (seg :: segs).
    split_and!; [done|done|by constructor|by right].
  - rewrite <-negb_orb. change (isalnum c || _) with (word_char c).
    destruct (word_char c) eqn:Ec; [|done]. intros (word & segs & -> & Hw & Hsegs & Hor)%IHf.
    exists (c :: word), segs. split_and!; [done|by constructor|done|done].
  - done.
  - destruct (isalpha c) eqn:Ec; [|done]. cbn [negb].
    intros (word & segs & -> & Hw & Hsegs & Hor)%IHf. exists (c :: word), segs.
    split_and!; [done| |done|done]. by exists c, word.
Qed.

Lemma identifier_head seg l : identifier seg → head (seg ++ l) ≠ Some "."%char.
Proof. intros (c & l' & -> & Hc & _) [= ->]. done. Qed.

Lemma dotted_last seg segs : identifier seg → Forall identifier segs →
  last (seg ++ dotted segs) ≠ Some "."%char.
Proof.
  intros Hseg Hs. revert seg Hseg. induction Hs as [|s segs Hs _ IH]; intros seg Hseg.
  - cbn. rewrite app_nil_r. destruct Hseg as (c & l & -> & Hc & Hl).
    assert (Forall (λ x, word_char x = true) (c :: l)) as Hall
      by (constructor; [by apply alpha_word|done]).
    intros Hlast. apply last_Some_elem_of in Hlast. by apply (proj1 (Forall_forall _ _) Hall) in Hlast.
  - cbn [dotted mbind list_bind app]. change (segs ≫= cons "."%char) with (dotted segs).
    specialize (IH s Hs). destruct Hs as (c & l & -> & Hc & Hl). cbn [app] in *.
    by rewrite last_app_cons, last_cons_cons.
Qed.

Lemma is_valid_package_exact pkg :
  is_valid_package pkg = true ↔
  (length (chars pkg) ≤ 128)%nat
  ∧ ∃ first rest, chars pkg = first ++ dotted rest ∧ rest ≠ [] ∧ Forall identifier (first :: rest).
Proof.
  unfold is_valid_package. split.
  - destruct (_ || _ || _ || _) eqn:E; [done|]. intros H.
    apply orb_false_iff in E as [[[_ E%Nat.ltb_ge]%orb_false_iff _]%orb_false_iff _].
    split; [done|]. apply (proj2 (scan_package_inv _)) in H as (seg & segs & Heq & Hseg & Hs & [|Hne]);
      [done|]. exists seg, segs. split_and!; [done|done|by constructor].
  - intros (Hlen & first & rest & Heq & Hne & [Hf Hr]%Forall_cons).
    rewrite bool_decide_eq_false_2 by (rewrite Heq; by destruct Hf as (c & l & -> & _)).
    destruct (Nat.ltb_spec 128 (length (chars pkg))) as [|_]; [lia|].
    rewrite Heq. rewrite bool_decide_eq_false_2 by (by apply identifier_head).
    rewrite bool_decide_eq_false_2 by (by apply dotted_last). cbn [orb].
    rewrite scan_identifier, scan_dotted by done. by apply bool_decide_eq_true.
Qed.

(** ** The choice *)

Lemma first_of_find (P : string → bool) l old :
  Forall (λ p, p ≠ EmptyString) l →
  fold_left (λ s p, if P p then first_of s p else s) l old
  = if decide (old = EmptyString) then default EmptyString (find P l) else old.
Proof.
  intros Hl. revert old. induction Hl as [|p l Hp _ IH]; intros old; cbn [fold_left find].
  - by case_decide.
  - rewrite IH. unfold first_of. destruct (P p).
    + destruct (decide (old = EmptyString)); [by rewrite decide_False|by rewrite decide_False].
    + done.
Qed.

Definition is_home (p : string) : bool := is_home_package p.
Definition is_android (p : string) : bool := starts_with "com.android" p.

Lemma consider_parts l c :
  fold_left consider l c =
  {| ch_home := fold_left (λ s p, if is_home p && negb (is_android p) then first_of s p else s) l
                  (ch_home c);
     ch_android_home := fold_left (λ s p, if is_home p && is_android p then first_of s p else s) l
                          (ch_android_home c);
     ch_other := fold_left (λ s p, if negb (is_home p) then first_of s p else s) l (ch_other c) |}.
Proof.
  revert c. induction l as [|p l IH]; intros c; cbn [fold_left]; [by destruct c|]. rewrite IH.
  unfold consider. fold (is_home p) (is_android p). by destruct (is_home p), (is_android p).
Qed.

Lemma choose_preference l :
  Forall (λ p, p ≠ EmptyString) l →
  choose l =
  match find (λ p, is_home p && negb (is_android p)) l with
  | Some p => p
  | None =>
      match find (λ p, is_home p && is_android p) l with
      | Some p => p
      | None => default "com.miui.home" (find (λ p, negb (is_home p)) l)
      end
  end.
Proof.
  intros Hl. unfold choose. rewrite consider_parts. cbn [ch_home ch_android_home ch_other no_choice].
  rewrite !first_of_find by done. rewrite !(decide_True (P := EmptyString = EmptyString)) by done.
  assert (∀ P, match find P l with Some p => p ≠ EmptyString | None => True end) as Hfind.
  { intros P. destruct (find P l) as [p|] eqn:E; [|done]. apply find_elem in E as [Hin _].
    by apply (proj1 (Forall_forall _ _) Hl). }
  assert (∀ P (d : string), (if decide (default EmptyString (find P l) ≠ EmptyString)
    then default EmptyString (find P l) else d) = match find P l with Some p => p | None => d end) as H.
  { intros P d. specialize (Hfind P). destruct (find P l); cbn; by case_decide. }
  rewrite !H. by destruct (find (λ p, negb (is_home p)) l).
Qed.

Lemma package_of_line_valid line p : package_of_line line = Some p → is_valid_package p = true.
Proof.
  unfold package_of_line. destruct (find_text _ _); [|done]. cbv zeta.
  destruct (is_valid_package _) eqn:E; [|done]. by intros [= <-].
Qed.
Lemma packages_valid result : Forall (λ p, is_valid_package p = true) (packages_of result).
Proof.
  apply Forall_forall. intros p (line & _ & Hp)%list_elem_of_omap. by eapply package_of_line_valid.
Qed.
Lemma valid_nonempty p : is_valid_package p = true → p ≠ EmptyString.
Proof. by intros H ->. Qed.

Lemma choose_valid l :
  Forall (λ p, is_valid_package p = true) l → is_valid_package (choose l) = true.
Proof.
  intros Hl. rewrite choose_preference by (eapply Forall_impl; [exact Hl|]; apply valid_nonempty).
  assert (∀ P p, find P l = Some p → is_valid_package p = true) as H.
  { intros P p [Hin _]%find_elem. by apply (proj1 (Forall_forall _ _) Hl). }
  destruct (find (λ p, is_home p && negb (is_android p)) l) eqn:E1; [by eapply H|].
  destruct (find (λ p, is_home p && is_android p) l) eqn:E2; [by eapply H|].
  destruct (find (λ p, negb (is_home p)) l) eqn:E3; [by eapply H|by vm_compute].
Qed.

(** ** The end of a command *)

(** The clock of [ScanLaws] is not set back by the calls that deal with the
    child, signals are finitely many, and a [read] transfers at least a byte. *)
Class ProcessLaws (W : Type) `{Kernel W} `{KernelScan W} `{KernelProcess W} := {
  pl_now w : (k_signal_budget (k_now w).2 ≤ k_signal_budget w)%nat;
  pl_sleep us w : (k_signal_budget (k_sleep_us us w).2 ≤ k_signal_budget w)%nat;
  pl_poll d fd ms w : (k_ticks d (k_poll fd ms w).2 ≤ k_ticks d w)%nat;
  pl_read d fd w :
    (k_ticks d (k_pipe_read fd w).2 ≤ k_ticks d w)%nat
    ∧ (k_signal_budget (k_pipe_read fd w).2 ≤ k_signal_budget w)%nat
    ∧ match (k_pipe_read fd w).1 with
      | PipeBytes l => l ≠ []
      | PipeEintr => (k_signal_budget (k_pipe_read fd w).2 < k_signal_budget w)%nat
      | _ => True
      end;
  pl_wait d pid nohang w :
    (k_ticks d (k_waitpid pid nohang w).2 ≤ k_ticks d w)%nat
    ∧ (k_signal_budget (k_waitpid pid nohang w).2 ≤ k_signal_budget w)%nat
    ∧ ((k_waitpid pid nohang w).1 = WaitEintr →
       (k_signal_budget (k_waitpid pid nohang w).2 < k_signal_budget w)%nat) }.

Section Command.
Context {W : Type} `{!Kernel W} `{!KernelScan W} `{!KernelProcess W} `{!ScanLaws W} `{!ProcessLaws W}.
Implicit Types s : Sys W.

(** A call of the system: its result and the world after it. *)
Lemma wp_os_run {A} (op : M W A) (Q : A → Sys W → Prop) s :
  Q (op (sys_world s)).1 (MkSys (op (sys_world s)).2 (sys_file_cache s) (sys_cgroup_cache s)
                            (sys_file_ttl_ms s) (sys_cgroup_ttl_ms s)) →
  wp (os op) Q s.
Proof. intros HQ. apply wp_os. intros a w E. by rewrite E in HQ. Qed.

Lemma reap_ends fuel pid s :
  (k_signal_budget (sys_world s) < fuel)%nat → wp (reap fuel pid) (λ r _, r = true) s.
Proof.
  revert s. induction fuel as [|fuel IH]; intros s Hf; [lia|]. cbn [reap]. wp_step.
  apply wp_os_run. destruct (pl_wait 0 pid false (sys_world s)) as (_ & _ & Hw).
  destruct (k_waitpid pid false (sys_world s)).1; try by wp_step.
  apply IH. cbn. specialize (Hw eq_refl). lia.
Qed.

Lemma terminate_ends pid s : wp (terminate_child pid) (λ r _, r = true) s.
Proof.
  unfold terminate_child. wp_step. apply wp_os_run. wp_step. apply wp_any. intros [] s1; [by wp_step|].
  cbv beta iota. wp_step. apply wp_os_run. wp_step. wp_step. apply reap_ends. lia.
Qed.

Lemma terminate_returns {A} pid (a : A) s : wp (terminate_and_return pid a) (λ r _, r = Some a) s.
Proof.
  unfold terminate_and_return. wp_step. eapply wp_mono; [apply terminate_ends|].
  intros ended s' ->. by wp_step.
Qed.

Lemma read_pipe_ends fuel d fd result s :
  (kMaxOutputSize - length result + k_signal_budget (sys_world s) < fuel)%nat →
  (length result ≤ kMaxOutputSize)%nat →
  wp (read_pipe fuel fd result) (λ r s', r.1 ≠ PipeFuel ∧ (length r.2 ≤ kMaxOutputSize)%nat
    ∧ (k_ticks d (sys_world s') ≤ k_ticks d (sys_world s))%nat) s.
Proof.
  revert result s. induction fuel as [|fuel IH]; intros result s Hf Hl; [lia|]. cbn [read_pipe].
  wp_step. apply wp_os_run. destruct (pl_read d fd (sys_world s)) as (Ht & Hb & Hr).
  destruct (k_pipe_read fd (sys_world s)).1 as [l| | | |]; try by wp_step.
  - destruct (Nat.ltb_spec kMaxOutputSize (length result + length l)); [by wp_step|].
    assert (length l ≠ 0)%nat by (by destruct l).
    eapply wp_mono; [apply IH; cbn; rewrite length_app; lia|]. cbn.
    intros r s' (H1 & H2 & H3). split_and!; [done|done|lia].
  - eapply wp_mono; [apply IH; cbn; lia|]. cbn. intros r s' (H1 & H2 & H3). split_and!; [done|done|lia].
Qed.

Lemma collect_ends fuel fd d result s :
  (k_ticks d (sys_world s) < fuel)%nat → (length result ≤ kMaxOutputSize)%nat →
  wp (collect_output fuel fd d result) (λ r _, r.1 ≠ CommandFuel ∧ (length r.2 ≤ kMaxOutputSize)%nat) s.
Proof.
  revert result s. induction fuel as [|fuel IH]; intros result s Hf Hl; [lia|].
  cbn [collect_output]. wp_step. apply wp_os_run.
  pose proof (ticks_now d (sys_world s)) as Hn. destruct (k_now (sys_world s)) as [now w1].
  destruct Hn as [_ Hn]. cbn [fst snd]. destruct (Z.leb_spec d now); [by wp_step|].
  specialize (Hn ltac:(lia)). wp_step. apply wp_os_run. cbn [sys_world].
  pose proof (pl_poll d fd (to_ms (d - now)) w1) as Hp.
  destruct (k_poll fd (to_ms (d - now)) w1).1; try by wp_step.
  - wp_step. wp_step. wp_step. eapply wp_mono; [apply (read_pipe_ends _ d); cbn; lia|].
    cbn. intros [state result'] s' (H1 & H2 & H3). cbn in H1, H2.
    destruct state; try by wp_step. apply IH; lia.
  - apply IH; [cbn; lia|done].
Qed.

Lemma wait_ends fuel pid d s :
  (k_ticks d (sys_world s) + k_signal_budget (sys_world s) < fuel)%nat →
  wp (wait_for_exit fuel pid d) (λ r _, r ≠ None) s.
Proof.
  revert s. induction fuel as [|fuel IH]; intros s Hf; [lia|]. cbn [wait_for_exit]. wp_step.
  apply wp_os_run. destruct (pl_wait d pid true (sys_world s)) as (Ht & Hb & Hw).
  destruct (k_waitpid pid true (sys_world s)).1; try by wp_step.
  - wp_step. apply wp_os_run. cbn [sys_world].
    set (w1 := (k_waitpid pid true (sys_world s)).2) in *.
    pose proof (ticks_now d w1) as Hn. pose proof (pl_now w1) as Hb1.
    destruct (k_now w1) as [now w2]. destruct Hn as [_ Hn]. cbn [fst snd] in *.
    destruct (Z.leb_spec d now); [eapply wp_mono; [apply terminate_returns|by intros r ? ->]|].
    specialize (Hn ltac:(lia)). wp_step. apply wp_os_run. apply IH. cbn.
    pose proof (ticks_sleep d 10000 w2). pose proof (pl_sleep 10000 w2). lia.
  - apply IH. cbn. specialize (Hw eq_refl). lia.
Qed.

Lemma length_strip_eols l : (length (strip_eols l) ≤ length l)%nat.
Proof.
  unfold strip_eols. rewrite length_rev, <-(length_rev l). generalize (rev l) as r.
  intros r. induction r as [|c r IH]; cbn; [done|]. case_decide; cbn; lia.
Qed.

(** A command ends, with at most so many bytes of output. *)
Lemma command_ends cmd timeout_ms s :
  wp (execute_command cmd timeout_ms) (λ r _, ∃ text, r = Some text
    ∧ (length (chars text) ≤ kMaxOutputSize)%nat) s.
Proof.
  unfold execute_command.
  assert (∃ text, Some EmptyString = Some text ∧ (length (chars text) ≤ kMaxOutputSize)%nat) as Hempty
    by (exists EmptyString; split; [done|cbn; lia]).
  assert (∀ pid s', wp (terminate_and_return pid EmptyString) (λ r _, ∃ text, r = Some text
    ∧ (length (chars text) ≤ kMaxOutputSize)%nat) s') as Hkill.
  { intros pid s'. eapply wp_mono; [apply terminate_returns|]. by intros r ? ->. }
  wp_step. apply wp_any. intros [[read_fd write_fd]|] s1; [|by wp_step]. cbv beta iota.
  wp_step. apply wp_any. intros [pid|] s2; [|do 2 (wp_step; apply wp_any; intros ? ?); by wp_step].
  cbv beta iota. do 3 (wp_step; apply wp_any; intros ? ?). wp_step.
  { wp_step. apply wp_any. intros ? ?. apply Hkill. }
  wp_step. apply wp_any. intros now s3. cbv zeta. wp_step. wp_step. wp_step.
  eapply wp_mono; [apply collect_ends; [lia|cbn; lia]|]. intros [state result] s4 [H1 H2].
  cbn in H1, H2. wp_step. apply wp_any. intros ? s5.
  destruct state; [|apply Hkill..|done].
  wp_step. wp_step. wp_step. eapply wp_mono; [apply wait_ends; lia|]. intros [[]|] s6 Hr; [..|done];
    wp_step; [|done]. eexists. split; [done|]. rewrite chars_str.
  pose proof (length_strip_eols result). lia.
Qed.

(** What [find_launcher] returns is the choice among the packages of the first
    query that names any. *)
Definition launcher_candidates s : list string :=
  let '(first, s1) := execute_command resolve_command 5000 s in
  let '(second, _) := execute_command query_command 5000 s1 in
  if bool_decide (packages_of (default EmptyString first) = [])
  then packages_of (default EmptyString second) else packages_of (default EmptyString first).

Lemma find_launcher_choice s : (find_launcher s).1 = choose (launcher_candidates s).
Proof.
  unfold find_launcher, launcher_candidates. unfold mbind, M_bind.
  destruct (execute_command resolve_command 5000 s) as [first s1]. cbv beta zeta.
  destruct (packages_of (default EmptyString first)) as [|p l] eqn:E1.
  - by destruct (execute_command query_command 5000 s1) as [second s2].
  - by destruct (execute_command query_command 5000 s1) as [second s2].
Qed.

Lemma launcher_candidates_valid s : Forall (λ p, is_valid_package p = true) (launcher_candidates s).
Proof.
  unfold launcher_candidates. destruct (execute_command resolve_command 5000 s) as [first s1].
  destruct (execute_command query_command 5000 s1) as [second s2].
  case_bool_decide; apply packages_valid.
Qed.
End Command.
