(* ===== verification/Dispatch.v ===== *)
(** * Dispatching threads to the workers ([main.cpp])

    [dispatch_pids_to_workers] goes through the threads of a set of processes,
    reads the identity of each and gives it to the worker its identity selects.
    It stops when the budget is used up and continues where it stopped. *)

From S2P Require Import Prelude CppString ConfigTypes Kernel FileUtils ThreadMatcher ThreadCache.
From S2P Require Import ScanWorker ScanCursor.

(** The elements of a [std::set<int>] in the order of its iterators. *)
Definition set_elements (s : gset Z) : list Z := sort_ints (elements s).

(** From [lower_bound(pid)] on. *)
Definition elements_from (pid : Z) (s : gset Z) : list Z :=
  filter (λ p, pid ≤ p) (set_elements s).

Section Dispatch.
Context {W : Type} `{!Kernel W} `{!KernelScan W} `{!IntHash}.

(** The hash that selects a worker, in 64-bit arithmetic. *)
Definition worker_hash (pid tid process_start_time thread_start_time : Z) : Z :=
  let h := to_uint64 (hash_int pid) in
  let h := hash_mix h (hash_int tid) in
  let h := hash_mix h (hash_u64 process_start_time) in
  hash_mix h (hash_u64 thread_start_time).

Definition worker_index (task : DispatchTask) (workers : nat) : nat :=
  Z.to_nat (worker_hash (dt_pid task) (dt_tid task) (dt_process_start_time task)
              (dt_thread_start_time task) `mod` Z.of_nat workers).

(** [workers[worker_idx]->enqueue(task)]; the index is always in range. *)
Definition enqueue_to_worker (task : DispatchTask) : M (Main W) Queue.EnqueueResult :=
  λ m, let idx := worker_index task (length (mn_workers m)) in
       match mn_workers m !! idx with
       | None => (Queue.Stopped, m)
       | Some q =>
           let '(r, q') := Queue.enqueue task q in
           (r, MkMain (mn_sys m) (mn_buckets m) (mn_cache m) (<[idx := q']> (mn_workers m))
                 (mn_budget m) (mn_rescan m))
       end.

(** Where the loops over processes and threads stand: what the cursor is, and
    which threads were dispatched in this cycle. *)
Record Progress := { pg_cursor : ScanCursor; pg_processed : gset Z }.
Definition at_cursor (c : ScanCursor) (processed : gset Z) : Progress :=
  {| pg_cursor := c; pg_processed := processed |}.

(** What happened to one thread: go on with the next, with the thread now
    dispatched or not; stop and try the thread again; or stop because the
    process was replaced. *)
Inductive thread_outcome := ThreadSkipped | ThreadQueued | ThreadAgain | ProcessReplaced.

(** The identity holds: the task is offered to its worker. *)
Definition offer_task (task : DispatchTask) : M (Main W) thread_outcome :=
  over ← exhausted;
  if (over : bool) then mret ThreadAgain
  else
    result ← enqueue_to_worker task;
    match result with
    | Queue.QueueFull | Queue.Stopped => set_rescan true;; mret ThreadAgain
    | Queue.Queued | Queue.Updated => mret ThreadQueued
    end.

Definition dispatch_thread (pid tid : Z) (process_start_time : Z) (process_name cmdline : string)
    (state : ProcessState) (cpuset_base : string) : M (Main W) thread_outcome :=
  thread_name ← main_sys (get_thread_name pid tid);
  after_thread_read;;
  if decide (thread_name = "[dead]") then mret ThreadSkipped
  else
    over ← exhausted;
    if (over : bool) then mret ThreadAgain
    else
      thread_start_time ← main_sys (get_thread_start_time pid tid);
      after_thread_read;;
      if thread_start_time =? 0 then mret ThreadSkipped
      else
        verified ← main_sys (get_process_start_time pid);
        after_thread_read;;
        if negb (verified =? process_start_time)
        then set_rescan true;; mret ProcessReplaced
        else
          offer_task
            {| dt_pid := pid; dt_tid := tid; dt_process_start_time := process_start_time;
               dt_thread_start_time := thread_start_time; dt_thread_name := thread_name;
               dt_state := state; dt_cpuset_base := cpuset_base;
               dt_proc_name := process_name; dt_cmdline := cmdline |}.

(** The loop over the threads that are left; [true]: the function returns. *)
Fixpoint dispatch_threads (pid process_start_time : Z) (process_name cmdline : string)
    (state : ProcessState) (cpuset_base : string) (tids : list Z) (c : ScanCursor)
    (processed : gset Z) : M (Main W) (bool * Progress) :=
  match tids with
  | [] => mret (false, at_cursor c processed)
  | tid :: rest =>
      let next := with_index (S (cr_tid_index c)) c in
      let go := dispatch_threads pid process_start_time process_name cmdline state cpuset_base
                  rest next in
      over ← exhausted;
      if (over : bool) then mret (true, at_cursor c processed)
      else if decide (tid ∈ processed) then go processed
      else
        outcome ← dispatch_thread pid tid process_start_time process_name cmdline state
                    cpuset_base;
        match outcome with
        | ThreadSkipped => go processed
        | ThreadQueued => go ({[tid]} ∪ processed)
        | ThreadAgain => mret (true, at_cursor c processed)
        | ProcessReplaced =>
            c' ← reset_cursor c;
            mret (true, at_cursor c' processed)
        end
  end.

(** The name, the start time and the command line of the process, read once per
    cursor; [None]: the budget ended before one of them. *)
Definition load_process_name (pid : Z) (c : ScanCursor) : M (Main W) (string * ScanCursor) :=
  match cr_process_name c with
  | Some name => mret (name, c)
  | None =>
      name ← main_sys (get_process_name_from_status pid);
      after_thread_read;;
      mret (name, with_identity (Some name) (cr_process_start_time c) (cr_cmdline c) c)
  end.

Definition load_process_start (pid : Z) (c : ScanCursor) : M (Main W) (Z * ScanCursor) :=
  match cr_process_start_time c with
  | Some start => mret (start, c)
  | None =>
      start ← main_sys (get_process_start_time pid);
      after_thread_read;;
      mret (start, with_identity (cr_process_name c) (Some start) (cr_cmdline c) c)
  end.

Definition load_cmdline (pid : Z) (c : ScanCursor) : M (Main W) (string * ScanCursor) :=
  match cr_cmdline c with
  | Some cmdline => mret (cmdline, c)
  | None =>
      cmdline ← main_sys (get_process_cmdline pid);
      after_thread_read;;
      mret (cmdline, with_identity (cr_process_name c) (cr_process_start_time c) (Some cmdline) c)
  end.

(** The body of the loop over processes; [true]: the function returns. *)
Definition dispatch_process (pid : Z) (state : ProcessState) (cpuset_base : string)
    (p : Progress) : M (Main W) (bool * Progress) :=
  let processed := pg_processed p in
  c ← (if negb (cr_pid (pg_cursor p) =? pid) then begin_pid pid (pg_cursor p)
       else mret (pg_cursor p));
  '(complete, c) ← enumerate_tids c;
  if negb complete then mret (true, at_cursor c processed)
  else
    over ← exhausted;
    if (over : bool) then mret (true, at_cursor c processed)
    else
      '(name, c) ← load_process_name pid c;
      if decide (name = "[dead]")
      then c ← reset_cursor c; mret (false, at_cursor c processed)
      else
        over ← exhausted;
        if (over : bool) then mret (true, at_cursor c processed)
        else
          '(start, c) ← load_process_start pid c;
          if start =? 0 then c ← reset_cursor c; mret (false, at_cursor c processed)
          else
            over ← exhausted;
            if (over : bool) then mret (true, at_cursor c processed)
            else
              '(cmdline, c) ← load_cmdline pid c;
              '(stop, p) ← dispatch_threads pid start name cmdline state cpuset_base
                             (drop (cr_tid_index c) (cr_tids c)) c processed;
              if (stop : bool) then mret (true, p)
              else c ← reset_cursor (pg_cursor p); mret (false, at_cursor c (pg_processed p)).

Fixpoint dispatch_processes (pids : list Z) (state : ProcessState) (cpuset_base : string)
    (p : Progress) : M (Main W) (bool * Progress) :=
  match pids with
  | [] => mret (false, p)
  | pid :: rest =>
      '(stop, p) ← dispatch_process pid state cpuset_base p;
      if (stop : bool) then mret (true, p) else dispatch_processes rest state cpuset_base p
  end.

(** [true]: the pass is not finished. *)
Definition dispatch_pids_to_workers (pids : gset Z) (state : ProcessState) (cpuset_base : string)
    (p : Progress) : M (Main W) (bool * Progress) :=
  let stop_here := (c ← reset_cursor (pg_cursor p); mret (false, at_cursor c (pg_processed p))) in
  workers ← gets mn_workers;
  if bool_decide (workers = []) || bool_decide (pids = ∅) then stop_here
  else
    let at_pid := cr_pid (pg_cursor p) in
    match (if 0 <? at_pid then elements_from at_pid pids else set_elements pids) with
    | [] => stop_here
    | first :: rest =>
        c ← (if (0 <? at_pid) && negb (first =? at_pid) then reset_cursor (pg_cursor p)
             else mret (pg_cursor p));
        dispatch_processes (first :: rest) state cpuset_base (at_cursor c (pg_processed p))
    end.

Definition CPUSET_BASE : string := "/dev/cpuset".
Definition dispatch_pinned_to_workers (pids : gset Z) : Progress → M (Main W) (bool * Progress) :=
  dispatch_pids_to_workers pids TOP CPUSET_BASE.
Definition dispatch_topfore_to_workers (pids : gset Z) : Progress → M (Main W) (bool * Progress) :=
  dispatch_pids_to_workers pids TOP CPUSET_BASE.
Definition dispatch_top_app_to_workers (pids : gset Z) : Progress → M (Main W) (bool * Progress) :=
  dispatch_pids_to_workers pids TOP CPUSET_BASE.
Definition dispatch_foreground_to_workers (pids : gset Z)
    : Progress → M (Main W) (bool * Progress) :=
  dispatch_pids_to_workers pids FG CPUSET_BASE.
Definition dispatch_background_to_workers (pids : gset Z)
    : Progress → M (Main W) (bool * Progress) :=
  dispatch_pids_to_workers pids BG CPUSET_BASE.
End Dispatch.
