(* ===== verification/FullScan.v ===== *)
(** * The full scan ([main.cpp])

    [FullScanState] and [advance_full_scan]: enumerate /proc, identify each
    process, record its threads, classify it, and in the end sweep the thread
    cache.  A scan is suspended when the budget of a pass is used up and goes
    on in the next pass. *)

From S2P Require Import Prelude CppString ConfigTypes Kernel FileUtils ThreadMatcher ThreadCache.
From S2P Require Import ScanWorker ScanCursor.

(** The process a scan is at: the members [current_...], [task_dir],
    [tid_enumeration_complete] and [tid_index]. *)
Record ScanTarget := {
  cur_pid : Z;
  cur_process_start_time : Z;
  cur_proc_name : string;
  cur_cmdline : string;
  cur_state : ProcessState;
  cur_task_dir : option Z;
  cur_tids_complete : bool;
  cur_tids : list Z;
  cur_tid_index : nat }.

Definition no_target : ScanTarget :=
  {| cur_pid := 0; cur_process_start_time := 0; cur_proc_name := EmptyString;
     cur_cmdline := EmptyString; cur_state := BG; cur_task_dir := None;
     cur_tids_complete := false; cur_tids := []; cur_tid_index := 0 |}.

(** What the scan has found: the members from [live_processes] to
    [dead_pids] that the scan fills. *)
Record Findings := {
  live_processes : gmap Z Z;
  live_threads : gmap (Z * Z) Z;
  observed_states : gmap Z (Z * ProcessState);
  pinned_pids : gset Z;
  topfore_pids : gset Z;
  top_app_pids : gset Z;
  foreground_pids : gset Z;
  background_pids : gset Z;
  dead_pids : gset Z }.

Definition nothing_found : Findings :=
  {| live_processes := ∅; live_threads := ∅; observed_states := ∅; pinned_pids := ∅;
     topfore_pids := ∅; top_app_pids := ∅; foreground_pids := ∅; background_pids := ∅;
     dead_pids := ∅ |}.

Record FullScanState := {
  fs_active : bool;
  fs_proc_dir : option Z;
  fs_pids_complete : bool;
  fs_pids : list Z;
  fs_pid_index : nat;
  fs_target : ScanTarget;
  fs_baseline_pids : gset Z;
  fs_scan_start_identities : gmap (Z * Z) (Z * Z);
  fs_previous_states : gmap Z (Z * ProcessState);
  fs_found : Findings }.

Definition new_full_scan : FullScanState :=
  {| fs_active := false; fs_proc_dir := None; fs_pids_complete := false; fs_pids := [];
     fs_pid_index := 0; fs_target := no_target; fs_baseline_pids := ∅;
     fs_scan_start_identities := ∅; fs_previous_states := ∅; fs_found := nothing_found |}.

(** Updates of single members. *)
Definition with_proc_dir (dir : option Z) (complete : bool) (pids : list Z) (s : FullScanState)
    : FullScanState :=
  {| fs_active := fs_active s; fs_proc_dir := dir; fs_pids_complete := complete; fs_pids := pids;
     fs_pid_index := fs_pid_index s; fs_target := fs_target s;
     fs_baseline_pids := fs_baseline_pids s;
     fs_scan_start_identities := fs_scan_start_identities s;
     fs_previous_states := fs_previous_states s; fs_found := fs_found s |}.
Definition with_position (index : nat) (target : ScanTarget) (found : Findings)
    (s : FullScanState) : FullScanState :=
  {| fs_active := fs_active s; fs_proc_dir := fs_proc_dir s;
     fs_pids_complete := fs_pids_complete s; fs_pids := fs_pids s; fs_pid_index := index;
     fs_target := target; fs_baseline_pids := fs_baseline_pids s;
     fs_scan_start_identities := fs_scan_start_identities s;
     fs_previous_states := fs_previous_states s; fs_found := found |}.
Definition with_target (target : ScanTarget) (s : FullScanState) : FullScanState :=
  with_position (fs_pid_index s) target (fs_found s) s.
Definition with_found (found : Findings) (s : FullScanState) : FullScanState :=
  with_position (fs_pid_index s) (fs_target s) found s.
Definition set_active (active : bool) (s : FullScanState) : FullScanState :=
  {| fs_active := active; fs_proc_dir := fs_proc_dir s; fs_pids_complete := fs_pids_complete s;
     fs_pids := fs_pids s; fs_pid_index := fs_pid_index s; fs_target := fs_target s;
     fs_baseline_pids := fs_baseline_pids s;
     fs_scan_start_identities := fs_scan_start_identities s;
     fs_previous_states := fs_previous_states s; fs_found := fs_found s |}.

(** The process as it is when its identity was read. *)
Definition target_of (pid start : Z) (name cmdline : string) (state : ProcessState) : ScanTarget :=
  {| cur_pid := pid; cur_process_start_time := start; cur_proc_name := name;
     cur_cmdline := cmdline; cur_state := state; cur_task_dir := None;
     cur_tids_complete := false; cur_tids := []; cur_tid_index := 0 |}.
Definition with_tids (dir : option Z) (complete : bool) (tids : list Z) (index : nat)
    (t : ScanTarget) : ScanTarget :=
  {| cur_pid := cur_pid t; cur_process_start_time := cur_process_start_time t;
     cur_proc_name := cur_proc_name t; cur_cmdline := cur_cmdline t; cur_state := cur_state t;
     cur_task_dir := dir; cur_tids_complete := complete; cur_tids := tids;
     cur_tid_index := index |}.

Definition add_dead (pid : Z) (f : Findings) : Findings :=
  {| live_processes := live_processes f; live_threads := live_threads f;
     observed_states := observed_states f; pinned_pids := pinned_pids f;
     topfore_pids := topfore_pids f; top_app_pids := top_app_pids f;
     foreground_pids := foreground_pids f; background_pids := background_pids f;
     dead_pids := {[pid]} ∪ dead_pids f |}.

(** A process was identified, in a state. *)
Definition add_process (pid start : Z) (state : ProcessState) (f : Findings) : Findings :=
  {| live_processes := <[pid := start]> (live_processes f); live_threads := live_threads f;
     observed_states := <[pid := (start, state)]> (observed_states f);
     pinned_pids := pinned_pids f; topfore_pids := topfore_pids f;
     top_app_pids := match state with TOP => {[pid]} ∪ top_app_pids f | _ => top_app_pids f end;
     foreground_pids :=
       match state with FG => {[pid]} ∪ foreground_pids f | _ => foreground_pids f end;
     background_pids := background_pids f; dead_pids := dead_pids f |}.

(** [std::map::emplace] keeps what is there. *)
Definition add_thread (pid tid start : Z) (f : Findings) : Findings :=
  {| live_processes := live_processes f;
     live_threads :=
       match live_threads f !! (pid, tid) with
       | Some _ => live_threads f
       | None => <[(pid, tid) := start]> (live_threads f)
       end;
     observed_states := observed_states f; pinned_pids := pinned_pids f;
     topfore_pids := topfore_pids f; top_app_pids := top_app_pids f;
     foreground_pids := foreground_pids f; background_pids := background_pids f;
     dead_pids := dead_pids f |}.

(** The process turned out to be another one. *)
Definition forget_process (pid : Z) (f : Findings) : Findings :=
  {| live_processes := delete pid (live_processes f);
     live_threads := filter (λ kv, kv.1.1 ≠ pid) (live_threads f);
     observed_states := delete pid (observed_states f); pinned_pids := pinned_pids f ∖ {[pid]};
     topfore_pids := topfore_pids f ∖ {[pid]}; top_app_pids := top_app_pids f ∖ {[pid]};
     foreground_pids := foreground_pids f ∖ {[pid]};
     background_pids := background_pids f ∖ {[pid]}; dead_pids := dead_pids f |}.

(** What the rule of the process asks for. *)
Definition add_rule (pid : Z) (state : ProcessState) (background : bool) (result : MatchResult)
    (f : Findings) : Findings :=
  {| live_processes := live_processes f; live_threads := live_threads f;
     observed_states := observed_states f;
     pinned_pids := if mr_matched result && mr_pinned result
                    then {[pid]} ∪ pinned_pids f else pinned_pids f;
     topfore_pids := if mr_matched result && (mr_topfore result
                         && bool_decide (mr_effective_state result = TOP))
                     then {[pid]} ∪ topfore_pids f else topfore_pids f;
     top_app_pids := top_app_pids f; foreground_pids := foreground_pids f;
     background_pids := if bool_decide (state = BG) && background
                        then {[pid]} ∪ background_pids f else background_pids f;
     dead_pids := dead_pids f |}.

(** The state of a process: what its groups say, or, when the groups are
    ReUperf's own, what was last observed of the same process. *)
Definition state_of (cgroup : CgroupStateInfo) (previous : option (Z * ProcessState))
    (start : Z) : ProcessState :=
  match csi_state cgroup with
  | CgTOP => TOP
  | CgFG => FG
  | CgBG => BG
  | CgOTHER =>
      match previous with
      | Some (previous_start, state) =>
          if csi_reuperf_owned cgroup && (previous_start =? start) then state else BG
      | None => BG
      end
  end.

Section Scan.
Context {R W : Type} `{!RegexEngine R} `{!StringHash} `{!Kernel W} `{!KernelScan W}.

Definition clear_target (t : ScanTarget) : M (Main W) ScanTarget :=
  close_dir (cur_task_dir t);; mret no_target.

Definition reset_scan (s : FullScanState) : M (Main W) FullScanState :=
  close_dir (fs_proc_dir s);;
  clear_target (fs_target s);;
  mret new_full_scan.

Definition begin_scan (prior_states : gmap Z (Z * ProcessState)) (s : FullScanState)
    : M (Main W) FullScanState :=
  s ← reset_scan s;
  cache ← gets mn_cache;
  mret {| fs_active := true; fs_proc_dir := fs_proc_dir s;
          fs_pids_complete := fs_pids_complete s; fs_pids := fs_pids s;
          fs_pid_index := fs_pid_index s; fs_target := fs_target s;
          fs_baseline_pids := Cache.get_pids_with_baselines cache;
          fs_scan_start_identities := Cache.identity_snapshot cache;
          fs_previous_states := prior_states; fs_found := fs_found s |}.

Definition enumerate_pids (s : FullScanState) : M (Main W) (bool * FullScanState) :=
  if fs_pids_complete s then mret (true, s)
  else
    opened ←
      match fs_proc_dir s with
      | Some dir => mret (Some (dir, fs_pids s))
      | None =>
          dir ← main_sys (os (k_opendir "/proc"));
          mret ((λ d, (d, [])) <$> dir)
      end;
    match opened with
    | None => mret (false, s)
    | Some (dir, pids) =>
        fuel ← gets stream_fuel;
        '(outcome, ids) ← read_entries fuel dir pids;
        match outcome with
        | EndOfStream =>
            close_dir (Some dir);; mret (true, with_proc_dir None true (sorted_unique ids) s)
        | ReadError => close_dir (Some dir);; mret (false, with_proc_dir None false [] s)
        | OutOfBudget | OutOfFuel => mret (false, with_proc_dir (Some dir) false ids s)
        end
    end.

Definition enumerate_current_tids (t : ScanTarget) : M (Main W) (bool * ScanTarget) :=
  if cur_tids_complete t then mret (true, t)
  else
    opened ←
      match cur_task_dir t with
      | Some dir => mret (Some (dir, cur_tids t))
      | None =>
          dir ← main_sys (os (k_opendir (task_dir_path (cur_pid t))));
          mret ((λ d, (d, [])) <$> dir)
      end;
    match opened with
    | None => mret (true, with_tids None true (cur_tids t) (cur_tid_index t) t)
    | Some (dir, tids) =>
        '(complete, dir', tids') ← read_tids dir tids;
        mret (complete, with_tids dir' complete tids' (cur_tid_index t) t)
    end.

(** The scan comes to a process: [false] when it is skipped. *)
Definition identify_process (pid : Z) (s : FullScanState) : M (Main W) (bool * FullScanState) :=
  let skip found := with_position (S (fs_pid_index s)) no_target found s in
  clear_target (fs_target s);;
  start ← main_sys (get_process_start_time pid);
  after_thread_read;;
  if start =? 0 then mret (false, skip (fs_found s))
  else
    name ← main_sys (get_process_name_from_status pid);
    if decide (name = "[dead]") then mret (false, skip (add_dead pid (fs_found s)))
    else
      cmdline ← main_sys (get_process_cmdline pid);
      cgroup ← main_sys (get_cgroup_state_info pid);
      let state := state_of cgroup (fs_previous_states s !! pid) start in
      mret (true, with_position (fs_pid_index s) (target_of pid start name cmdline state)
                    (add_process pid start state (fs_found s)) s).

(** The threads that are left of the current process; [false]: out of budget. *)
Fixpoint record_threads (pid : Z) (tids : list Z) (s : FullScanState)
    : M (Main W) (bool * FullScanState) :=
  match tids with
  | [] => mret (true, s)
  | tid :: rest =>
      over ← exhausted;
      if (over : bool) then mret (false, s)
      else
        start ← main_sys (get_thread_start_time pid tid);
        after_thread_read;;
        let t := fs_target s in
        record_threads pid rest
          (with_position (fs_pid_index s)
             (with_tids (cur_task_dir t) (cur_tids_complete t) (cur_tids t)
                (S (cur_tid_index t)) t)
             (if start =? 0 then fs_found s else add_thread pid tid start (fs_found s)) s)
  end.

(** The identity is read once more: the same process is classified and the scan
    goes on; another process is looked at anew. *)
Definition finish_process (m : ThreadMatcher R) (pid : Z) (s : FullScanState)
    : M (Main W) FullScanState :=
  let t := fs_target s in
  verified ← main_sys (get_process_start_time pid);
  if negb (verified =? cur_process_start_time t)
  then
    t' ← clear_target t;
    mret (with_position (fs_pid_index s) t' (forget_process pid (fs_found s)) s)
  else
    result ← main_matcher (match_process_only m (cur_proc_name t) (cur_proc_name t)
                             (cur_state t) (cur_cmdline t));
    let background := should_dispatch_background_process result
                        (bool_decide (pid ∈ fs_baseline_pids s))
                        (bool_decide (cur_cmdline t = EmptyString)) in
    t' ← clear_target t;
    mret (with_position (S (fs_pid_index s)) t'
            (add_rule pid (cur_state t) background result (fs_found s)) s).

(** How a pass over the processes ends. *)
Inductive scan_outcome := ScanComplete | ScanSuspended | ScanFuel.

(** The body of the loop: [None] goes on with the loop. *)
Definition scan_step (m : ThreadMatcher R) (pid : Z) (s : FullScanState)
    : M (Main W) (option scan_outcome * FullScanState) :=
  over ← exhausted;
  if (over : bool) then mret (Some ScanSuspended, s)
  else
    '(go, s) ← (if negb (cur_pid (fs_target s) =? pid) then identify_process pid s
                else mret (true, s));
    if negb go then mret (None, s)
    else
      '(complete, t) ← enumerate_current_tids (fs_target s);
      let s := with_target t s in
      if negb complete then mret (Some ScanSuspended, s)
      else
        '(recorded, s) ← record_threads pid (drop (cur_tid_index t) (cur_tids t)) s;
        if negb recorded then mret (Some ScanSuspended, s)
        else
          over ← exhausted;
          if (over : bool) then mret (Some ScanSuspended, s)
          else s ← finish_process m pid s; mret (None, s).

Fixpoint scan_processes (fuel : nat) (m : ThreadMatcher R) (s : FullScanState)
    : M (Main W) (scan_outcome * FullScanState) :=
  match fs_pids s !! fs_pid_index s with
  | None => mret (ScanComplete, s)
  | Some pid =>
      match fuel with
      | O => mret (ScanFuel, s)
      | S fuel' =>
          '(outcome, s) ← scan_step m pid s;
          match outcome with
          | Some outcome => mret (outcome, s)
          | None => scan_processes fuel' m s
          end
      end
  end.

(** [true]: the scan is complete, and the thread cache was swept. *)
Definition advance_full_scan (m : ThreadMatcher R) (s : FullScanState)
    : M (Main W) (bool * FullScanState) :=
  if negb (fs_active s) then mret (false, s)
  else
    '(complete, s) ← enumerate_pids s;
    if negb complete then mret (false, s)
    else
      fuel ← gets stream_fuel;
      '(outcome, s) ← scan_processes fuel m s;
      match outcome with
      | ScanComplete =>
          main_cache (Cache.retain_live_threads (live_processes (fs_found s))
                        (live_threads (fs_found s)) (fs_scan_start_identities s));;
          mret (true, s)
      | ScanSuspended | ScanFuel => mret (false, s)
      end.
End Scan.
