(* ===== verification/ScanCycle.v ===== *)
(** * The scheduling pass of the main loop ([main.cpp])

    What one round of the loop does under the scheduler mutex: a part of the
    full cycle (scan, then dispatch in five phases), or the short pass over the
    processes in the foreground.  A cycle that is not finished asks for the
    next round by the flag [full_rescan_needed]. *)

From S2P Require Import Prelude CppString ConfigTypes Kernel FileUtils ThreadMatcher ThreadCache.
From S2P Require Import ScanWorker ScanCursor Dispatch FullScan.

(** [PidCache]: the set that its mutex protects. *)
Module PidCache.
Definition update (pids : gset Z) (_ : gset Z) : gset Z := pids.
Definition remove_pid (pid : Z) (pids : gset Z) : gset Z := pids ∖ {[pid]}.
Definition has_pid (pid : Z) (pids : gset Z) : bool := bool_decide (pid ∈ pids).
Definition clear (_ : gset Z) : gset Z := ∅.
End PidCache.

(** The variables of [main] that the passes share. *)
Record Cycle := {
  cy_top_cursor : ScanCursor;
  cy_pinned_cursor : ScanCursor;
  cy_topfore_cursor : ScanCursor;
  cy_foreground_cursor : ScanCursor;
  cy_background_cursor : ScanCursor;
  cy_phase : nat;
  cy_active : bool;
  cy_scan : FullScanState;
  cy_processed : gset Z;
  cy_pinned_cache : gset Z;
  cy_topfore_cache : gset Z;
  cy_top_app_pids : gset Z;
  cy_foreground_pids : gset Z;
  cy_background_pids : gset Z;
  cy_process_states : gmap Z (Z * ProcessState);
  cy_next_full_scan : Z }.

(** The variables of the cycle proper: phase, activity, scan, threads already
    dispatched, and when the next cycle is due. *)
Definition with_cycle (phase : nat) (active : bool) (scan : FullScanState) (processed : gset Z)
    (next : Z) (c : Cycle) : Cycle :=
  {| cy_top_cursor := cy_top_cursor c; cy_pinned_cursor := cy_pinned_cursor c;
     cy_topfore_cursor := cy_topfore_cursor c; cy_foreground_cursor := cy_foreground_cursor c;
     cy_background_cursor := cy_background_cursor c; cy_phase := phase; cy_active := active;
     cy_scan := scan; cy_processed := processed; cy_pinned_cache := cy_pinned_cache c;
     cy_topfore_cache := cy_topfore_cache c; cy_top_app_pids := cy_top_app_pids c;
     cy_foreground_pids := cy_foreground_pids c; cy_background_pids := cy_background_pids c;
     cy_process_states := cy_process_states c; cy_next_full_scan := next |}.
Definition with_phase (phase : nat) (c : Cycle) : Cycle :=
  with_cycle phase (cy_active c) (cy_scan c) (cy_processed c) (cy_next_full_scan c) c.
Definition with_scan (scan : FullScanState) (c : Cycle) : Cycle :=
  with_cycle (cy_phase c) (cy_active c) scan (cy_processed c) (cy_next_full_scan c) c.
Definition with_processed (processed : gset Z) (c : Cycle) : Cycle :=
  with_cycle (cy_phase c) (cy_active c) (cy_scan c) processed (cy_next_full_scan c) c.

Definition with_cursors (top pinned topfore foreground background : ScanCursor) (c : Cycle)
    : Cycle :=
  {| cy_top_cursor := top; cy_pinned_cursor := pinned; cy_topfore_cursor := topfore;
     cy_foreground_cursor := foreground; cy_background_cursor := background;
     cy_phase := cy_phase c; cy_active := cy_active c; cy_scan := cy_scan c;
     cy_processed := cy_processed c; cy_pinned_cache := cy_pinned_cache c;
     cy_topfore_cache := cy_topfore_cache c; cy_top_app_pids := cy_top_app_pids c;
     cy_foreground_pids := cy_foreground_pids c; cy_background_pids := cy_background_pids c;
     cy_process_states := cy_process_states c; cy_next_full_scan := cy_next_full_scan c |}.

(** What a completed scan leaves for the dispatching: [pinned_cache],
    [topfore_cache] and the [cached_...] sets. *)
Definition with_caches (pinned topfore top_app foreground background : gset Z)
    (states : gmap Z (Z * ProcessState)) (c : Cycle) : Cycle :=
  {| cy_top_cursor := cy_top_cursor c; cy_pinned_cursor := cy_pinned_cursor c;
     cy_topfore_cursor := cy_topfore_cursor c; cy_foreground_cursor := cy_foreground_cursor c;
     cy_background_cursor := cy_background_cursor c; cy_phase := cy_phase c;
     cy_active := cy_active c; cy_scan := cy_scan c; cy_processed := cy_processed c;
     cy_pinned_cache := pinned; cy_topfore_cache := topfore; cy_top_app_pids := top_app;
     cy_foreground_pids := foreground; cy_background_pids := background;
     cy_process_states := states; cy_next_full_scan := cy_next_full_scan c |}.

(** The cursor of a phase, and the phase's cursor replaced. *)
Definition phase_cursor (phase : nat) (c : Cycle) : ScanCursor :=
  match phase with
  | 0 => cy_top_cursor c
  | 1 => cy_pinned_cursor c
  | 2 => cy_topfore_cursor c
  | 3 => cy_foreground_cursor c
  | _ => cy_background_cursor c
  end%nat.
Definition set_phase_cursor (phase : nat) (cursor : ScanCursor) (c : Cycle) : Cycle :=
  match phase with
  | 0 => with_cursors cursor (cy_pinned_cursor c) (cy_topfore_cursor c) (cy_foreground_cursor c)
           (cy_background_cursor c) c
  | 1 => with_cursors (cy_top_cursor c) cursor (cy_topfore_cursor c) (cy_foreground_cursor c)
           (cy_background_cursor c) c
  | 2 => with_cursors (cy_top_cursor c) (cy_pinned_cursor c) cursor (cy_foreground_cursor c)
           (cy_background_cursor c) c
  | 3 => with_cursors (cy_top_cursor c) (cy_pinned_cursor c) (cy_topfore_cursor c) cursor
           (cy_background_cursor c) c
  | _ => with_cursors (cy_top_cursor c) (cy_pinned_cursor c) (cy_topfore_cursor c)
           (cy_foreground_cursor c) cursor c
  end%nat.

(** [cleanup_dead_pids]; the two sets of the scan it also clears are not read
    afterwards. *)
Definition cleanup_dead_pids (dead_pids : gset Z) (pinned topfore : gset Z)
    (cache : ThreadCache) : ThreadCache * gset Z * gset Z :=
  fold_left (λ '(cache, pinned, topfore) pid,
    (Cache.reset_for_pid pid cache, PidCache.remove_pid pid pinned,
     PidCache.remove_pid pid topfore)) (set_elements dead_pids) (cache, pinned, topfore).

Section Pass.
Context {R W : Type} `{!RegexEngine R} `{!StringHash} `{!Kernel W} `{!KernelScan W} `{!IntHash}.
Variable matcher : ThreadMatcher R.
Variable sched : SchedConfig.

Definition highspeed_ms : Z := Z.max (sc_highspeed_sched_ms sched) 1.
Definition refresh_ms : Z := Z.max (sc_refresh_interval_ms sched) highspeed_ms.

Definition reset_cursors (c : Cycle) : M (Main W) Cycle :=
  top ← reset_cursor (cy_top_cursor c);
  pinned ← reset_cursor (cy_pinned_cursor c);
  topfore ← reset_cursor (cy_topfore_cursor c);
  foreground ← reset_cursor (cy_foreground_cursor c);
  background ← reset_cursor (cy_background_cursor c);
  mret (with_cursors top pinned topfore foreground background c).

(** A full cycle starts. *)
Definition begin_cycle (c : Cycle) : M (Main W) Cycle :=
  c ← reset_cursors c;
  scan ← begin_scan (cy_process_states c) (cy_scan c);
  mret (with_cycle 0 true scan ∅ (cy_next_full_scan c) c).

(** The scan of the cycle goes on. *)
Definition advance_cycle_scan (c : Cycle) : M (Main W) Cycle :=
  '(complete, scan) ← advance_full_scan matcher (cy_scan c);
  if negb complete then set_rescan true;; mret (with_scan scan c)
  else
    let found := fs_found scan in
    cache ← gets mn_cache;
    let '(cache, pinned, topfore) :=
      cleanup_dead_pids (dead_pids found) (PidCache.update (pinned_pids found) (cy_pinned_cache c))
        (PidCache.update (topfore_pids found) (cy_topfore_cache c)) cache in
    main_cache (λ _, cache);;
    mret (with_scan (set_active false scan)
            (with_caches pinned topfore (top_app_pids found) (foreground_pids found)
               (background_pids found) (observed_states found) c)).

(** The processes of a phase and the state their threads are dispatched in. *)
Definition phase_dispatch (phase : nat) (c : Cycle) : Progress → M (Main W) (bool * Progress) :=
  match phase with
  | 0 => dispatch_top_app_to_workers (cy_top_app_pids c)
  | 1 => dispatch_pinned_to_workers (cy_pinned_cache c)
  | 2 => dispatch_topfore_to_workers (cy_topfore_cache c)
  | 3 => dispatch_foreground_to_workers (cy_foreground_pids c)
  | _ => dispatch_background_to_workers (cy_background_pids c)
  end%nat.

Definition run_phase (c : Cycle) : M (Main W) (bool * Cycle) :=
  '(incomplete, p) ← phase_dispatch (cy_phase c) c
                       (at_cursor (phase_cursor (cy_phase c) c) (cy_processed c));
  mret (incomplete, with_processed (pg_processed p)
                      (set_phase_cursor (cy_phase c) (pg_cursor p) c)).

(** The loop over the phases; [left] is what is left to five. *)
Fixpoint run_phases (left : nat) (c : Cycle) : M (Main W) (bool * Cycle) :=
  over ← exhausted;
  if (over : bool) then mret (false, c)
  else
    match left with
    | O => mret (false, c)
    | S left' =>
        '(incomplete, c) ← run_phase c;
        if (incomplete : bool) then mret (true, c)
        else run_phases left' (with_phase (S (cy_phase c)) c)
    end.

(** The budget of a full pass, and the cycle it goes on with or begins. *)
Definition open_cycle (c : Cycle) : M (Main W) Cycle :=
  new_budget (sc_full_scan_budget_us sched) (sc_scan_batch_size sched)
    (sc_scan_batch_yield_us sched);;
  (if cy_active c then mret c else begin_cycle c).

(** The full branch of a pass. *)
Definition full_pass (c : Cycle) : M (Main W) Cycle :=
  c ← open_cycle c;
  c ← (if fs_active (cy_scan c) then advance_cycle_scan c else mret c);
  '(incomplete, c) ← (if fs_active (cy_scan c) then mret (false, c)
                      else run_phases (5 - cy_phase c) c);
  unfinished ← (if fs_active (cy_scan c) || incomplete then mret true else exhausted);
  if (unfinished : bool) || (cy_phase c <? 5)%nat
  then set_rescan true;; mret c
  else
    scan ← reset_scan (cy_scan c);
    now ← main_sys (os k_now);
    mret (with_cycle 0 false scan ∅ (now + refresh_ms * 1000000) c).

(** The short branch: processes in the foreground and the rules promoted to
    it.  The threads dispatched are counted for this pass only. *)
Definition highspeed_pass (c : Cycle) : M (Main W) Cycle :=
  new_budget (sc_top_scan_budget_us sched) (sc_scan_batch_size sched)
    (sc_scan_batch_yield_us sched);;
  '(incomplete, p) ← dispatch_top_app_to_workers (cy_top_app_pids c)
                       (at_cursor (cy_top_cursor c) ∅);
  let c := set_phase_cursor 0 (pg_cursor p) c in
  go ← (if (incomplete : bool) then mret false else over ← exhausted; mret (negb over));
  if negb go then mret c
  else
    '(incomplete, p) ← dispatch_pinned_to_workers (cy_pinned_cache c)
                         (at_cursor (cy_pinned_cursor c) (pg_processed p));
    let c := set_phase_cursor 1 (pg_cursor p) c in
    go ← (if (incomplete : bool) then mret false else over ← exhausted; mret (negb over));
    if negb go then mret c
    else
      '(_, p) ← dispatch_topfore_to_workers (cy_topfore_cache c)
                  (at_cursor (cy_topfore_cursor c) (pg_processed p));
      mret (set_phase_cursor 2 (pg_cursor p) c).

(** [full_rescan_needed.exchange(false) || now >= next_full_scan]. *)
Definition run_full_scan (c : Cycle) : M (Main W) bool :=
  now ← main_sys (os k_now);
  requested ← gets mn_rescan;
  set_rescan false;;
  mret (requested || (cy_next_full_scan c <=? now)).

Definition scheduling_pass (c : Cycle) : M (Main W) Cycle :=
  full ← run_full_scan c;
  if (full : bool) then full_pass c else highspeed_pass c.
End Pass.
