(* ===== verification/ScanFacts.v ===== *)
(** * The loops of the scans end

    Every loop of an enumeration or of a scan reads the clock once per round,
    and only finitely many readings come before the deadline of the budget.
    [spends m]: [m] leaves the deadline alone and never brings it further
    away. *)

From S2P Require Import Prelude CppString ConfigTypes Kernel FileUtils FileFacts ThreadMatcher ThreadCache.
From S2P Require Import ScanWorker ScanCursor FullScan.

Section Spends.
Context {W : Type} `{!KernelScan W}.

(** Clock readings left before deadline [d]. *)
Definition sys_within (d : Z) (n : nat) (s : Sys W) : Prop := (k_ticks d (sys_world s) ≤ n)%nat.
Definition within (d : Z) (n : nat) (m : Main W) : Prop :=
  bd_deadline (mn_budget m) = d ∧ sys_within d n (mn_sys m).

Definition sys_spends {A} (op : M (Sys W) A) : Prop := ∀ d n, keeps (sys_within d n) op.
Definition spends {A} (op : M (Main W) A) : Prop := ∀ d n, keeps (within d n) op.

Lemma sys_spends_bind {A B} (op : M (Sys W) A) (f : A → M (Sys W) B) :
  sys_spends op → (∀ a, sys_spends (f a)) → sys_spends (op ≫= f).
Proof. intros Ho Hf d n. apply keeps_bind; [apply Ho|]. intros a. apply Hf. Qed.
Lemma sys_spends_ret {A} (a : A) : sys_spends (mret a).
Proof. intros d n. apply keeps_ret. Qed.
Lemma sys_spends_gets {A} (f : Sys W → A) : sys_spends (gets f).
Proof. intros d n. apply keeps_gets. Qed.
Lemma spends_bind {A B} (op : M (Main W) A) (f : A → M (Main W) B) :
  spends op → (∀ a, spends (f a)) → spends (op ≫= f).
Proof. intros Ho Hf d n. apply keeps_bind; [apply Ho|]. intros a. apply Hf. Qed.
Lemma spends_ret {A} (a : A) : spends (mret a).
Proof. intros d n. apply keeps_ret. Qed.
Lemma spends_gets {A} (f : Main W → A) : spends (gets f).
Proof. intros d n. apply keeps_gets. Qed.

End Spends.

Create HintDb spends discriminated.

(** Decomposes a goal [spends _] or [sys_spends _] along the code; the calls are
    left to the database [spends]. *)
Ltac spends_walk :=
  repeat lazymatch goal with
  | |- _ (mbind _ _) => first [apply spends_bind | apply sys_spends_bind]; [|intros ?]
  | |- _ (mret _) => first [apply spends_ret | apply sys_spends_ret]
  | |- _ (gets _) => first [apply spends_gets | apply sys_spends_gets]
  | |- _ (if ?b then _ else _) => destruct b
  | |- _ (match ?x with _ => _ end) => destruct x
  | |- _ (let _ := _ in _) => cbv zeta
  | |- _ => solve [eauto 2 with spends]
  end.

Section SysSpends.
Context {W : Type} `{!Kernel W} `{!KernelScan W} `{!ScanLaws W}.

Lemma sys_spends_os {A} (op : M W A) :
  (∀ d w, (k_ticks d (op w).2 ≤ k_ticks d w)%nat) → sys_spends (os op).
Proof.
  intros H d n s Hs. apply wp_os. intros a w E. unfold sys_within in *. cbn.
  specialize (H d (sys_world s)). rewrite E in H. cbn in H. lia.
Qed.
Lemma sys_spends_now : sys_spends (os k_now).
Proof.
  apply sys_spends_os. intros d w. pose proof (ticks_now d w) as H. destruct (k_now w). cbn. lia.
Qed.
Lemma sys_spends_read p : sys_spends (os (k_read p)).
Proof. apply sys_spends_os. intros. apply ticks_read. Qed.
Lemma sys_spends_modify f :
  (∀ s, sys_world (f s) = sys_world s) → sys_spends (modify f : M (Sys W) unit).
Proof. intros H d n. apply keeps_modify. intros s. unfold sys_within. by rewrite H. Qed.
#[local] Hint Resolve sys_spends_now sys_spends_read : spends.

Lemma sys_spends_read_file p : sys_spends (read_file p).
Proof. unfold read_file. spends_walk; by apply sys_spends_modify. Qed.
#[local] Hint Resolve sys_spends_read_file : spends.
Lemma sys_spends_cgroup_path p k c : sys_spends (get_cgroup_path_from_file p k c).
Proof. unfold get_cgroup_path_from_file. spends_walk; by apply sys_spends_modify. Qed.

Lemma spends_sys {A} (op : M (Sys W) A) : sys_spends op → spends (main_sys op).
Proof.
  intros H d n m [Hd Hm]. apply wp_main_sys. eapply wp_mono; [by apply (H d n)|].
  intros a s Hs. by split.
Qed.
Lemma spends_modify (f : Main W → Main W) :
  (∀ m, mn_sys (f m) = mn_sys m ∧ bd_deadline (mn_budget (f m)) = bd_deadline (mn_budget m)) →
  spends (modify f).
Proof.
  intros H d n. apply keeps_modify. intros m [Hd Hm]. destruct (H m) as [H1 H2].
  split; [by rewrite H2|by rewrite H1].
Qed.
Lemma spends_sleep us : spends (main_sys (os (k_sleep_us us))).
Proof. apply spends_sys, sys_spends_os. intros. apply ticks_sleep. Qed.
Lemma spends_readdir h : spends (main_sys (os (k_readdir h))).
Proof. apply spends_sys, sys_spends_os. intros. apply ticks_readdir. Qed.
Lemma spends_opendir p : spends (main_sys (os (k_opendir p))).
Proof. apply spends_sys, sys_spends_os. intros. apply ticks_opendir. Qed.
Lemma spends_closedir h : spends (main_sys (os (k_closedir h))).
Proof. apply spends_sys, sys_spends_os. intros. apply ticks_closedir. Qed.
Lemma spends_clock : spends (main_sys (os k_now)).
Proof. apply spends_sys, sys_spends_now. Qed.
#[local] Hint Resolve spends_sleep spends_readdir spends_opendir spends_closedir spends_clock
  : spends.

Lemma spends_close dir : spends (close_dir dir).
Proof. unfold close_dir. spends_walk. Qed.
Lemma spends_exhausted : spends exhausted.
Proof. unfold exhausted. spends_walk. Qed.
Lemma spends_after_thread_read : spends after_thread_read.
Proof. unfold after_thread_read. spends_walk. by apply spends_modify. Qed.

Lemma spends_process_start pid : spends (main_sys (get_process_start_time pid)).
Proof. apply spends_sys. unfold get_process_start_time. spends_walk. Qed.
Lemma spends_thread_start pid tid : spends (main_sys (get_thread_start_time pid tid)).
Proof. apply spends_sys. unfold get_thread_start_time. spends_walk. Qed.
Lemma spends_process_name pid : spends (main_sys (get_process_name_from_status pid)).
Proof. apply spends_sys. unfold get_process_name_from_status. spends_walk. Qed.
Lemma spends_cmdline pid : spends (main_sys (get_process_cmdline pid)).
Proof. apply spends_sys. unfold get_process_cmdline. spends_walk. Qed.
Lemma spends_cgroup_state pid : spends (main_sys (get_cgroup_state_info pid)).
Proof.
  apply spends_sys. unfold get_cgroup_state_info, get_cgroup_path. spends_walk;
    apply sys_spends_cgroup_path.
Qed.

(** A round that finds the budget not used up has taken a reading. *)
Lemma exhausted_spec d n m :
  within d n m →
  wp exhausted (λ over m', within d n m' ∧
    (over = false → (0 < n)%nat ∧ within d (pred n) m')) m.
Proof.
  intros [Hd Hm]. unfold exhausted. wp_step. apply wp_main_sys, wp_os. intros t w E. wp_step.
  cbn. pose proof (ticks_now d (sys_world (mn_sys m))) as H. rewrite E in H.
  unfold within, sys_within in *. cbn in *. split; [split; [done|lia]|].
  intros Ht%Z.leb_gt. rewrite Hd in Ht. destruct H as [_ H]. specialize (H Ht). lia.
Qed.

(** ** Enumerations *)

Lemma read_entries_spec fuel dir ids d n m :
  within d n m → (n < fuel)%nat →
  wp (read_entries fuel dir ids) (λ r m', within d n m' ∧ r.1 ≠ OutOfFuel) m.
Proof.
  revert ids n m. induction fuel as [|fuel IH]; intros ids n m Hm Hn; [lia|].
  cbn [read_entries]. wp_step. eapply wp_mono; [by apply exhausted_spec|].
  intros over m1 [H1 Hover]. wp_step; [by wp_step|].
  destruct (Hover eq_refl) as [Hpos H2]. wp_step.
  eapply wp_mono; [by apply (spends_readdir dir d (pred n))|]. intros entry m2 H3.
  assert (∀ m', within d (pred n) m' → within d n m') as Hweak.
  { intros m' [? Hs]. split; [done|]. unfold sys_within in *. lia. }
  wp_step; [|by wp_step; auto..]. wp_step.
  eapply wp_mono; [by apply (spends_after_thread_read d (pred n))|]. intros ? m3 H4.
  eapply wp_mono; [apply (IH _ (pred n)); [exact H4|lia]|]. intros r m4 [H5 Hr]. eauto.
Qed.

Lemma stream_fuel_within m :
  within (bd_deadline (mn_budget m)) (pred (stream_fuel m)) m.
Proof. split; [done|]. unfold sys_within, stream_fuel. cbn. lia. Qed.

(** The loop of an enumeration ends within its fuel. *)
Lemma read_entries_ends dir ids m :
  ((read_entries (stream_fuel m) dir ids m).1).1 ≠ OutOfFuel.
Proof.
  pose proof (read_entries_spec (stream_fuel m) dir ids _ _ m (stream_fuel_within m)) as H.
  apply wp_unfold in H; [by destruct H|]. unfold stream_fuel. lia.
Qed.

#[local] Hint Resolve spends_exhausted spends_after_thread_read spends_close : spends.
Lemma spends_read_entries fuel dir ids : spends (read_entries fuel dir ids).
Proof.
  revert ids. induction fuel as [|fuel IH]; intros ids; cbn [read_entries]; spends_walk; apply IH.
Qed.
#[local] Hint Resolve spends_read_entries : spends.
Lemma spends_read_tids dir ids : spends (read_tids dir ids).
Proof. unfold read_tids. spends_walk. Qed.
End SysSpends.

#[export] Hint Resolve spends_sleep spends_readdir spends_opendir spends_closedir spends_clock
  spends_close spends_exhausted spends_after_thread_read spends_process_start spends_thread_start
  spends_process_name spends_cmdline spends_cgroup_state spends_read_tids : spends.

(** ** The scan *)

Section Scan.
Context {R W : Type} `{!RegexEngine R} `{!StringHash} `{!Kernel W} `{!KernelScan W} `{!ScanLaws W}.

Lemma spends_matcher {A} (op : M (MatcherState W) A) :
  (∀ d n, keeps (λ s, (k_ticks d (ms_world s) ≤ n)%nat) op) → spends (main_matcher op).
Proof.
  intros Hop d n m [Hd Hm]. unfold wp, main_matcher.
  specialize (Hop d n (MkMatcherState (sys_world (mn_sys m)) (mn_buckets m)) Hm). unfold wp in Hop.
  destruct (op _) as [a s]. done.
Qed.

Lemma ticks_matcher_now d n : keeps (λ s : MatcherState W, (k_ticks d (ms_world s) ≤ n)%nat) matcher_now.
Proof.
  intros s Hs. unfold wp, matcher_now. pose proof (ticks_now d (ms_world s)) as Ht.
  destruct (k_now (ms_world s)). cbn. lia.
Qed.
Lemma spends_match_process_only (m : ThreadMatcher R) name name' state cmdline :
  spends (main_matcher (match_process_only m name name' state cmdline)).
Proof.
  apply spends_matcher. intros d n.
  unfold match_process_only, match_impl, get_cached_process_result, cache_process_result, set_bucket.
  keeps_steps; apply ticks_matcher_now || by apply keeps_modify.
Qed.

#[local] Hint Resolve spends_match_process_only : spends.

Lemma spends_clear_target t : spends (clear_target t).
Proof. unfold clear_target. spends_walk. Qed.
#[local] Hint Resolve spends_clear_target : spends.

Lemma spends_identify pid s : spends (identify_process pid s).
Proof. unfold identify_process. spends_walk. Qed.
Lemma spends_enumerate_current t : spends (enumerate_current_tids t).
Proof. unfold enumerate_current_tids. spends_walk. Qed.
Lemma spends_record_threads pid tids s : spends (record_threads pid tids s).
Proof.
  revert s. induction tids as [|tid tids IH]; intros s; cbn [record_threads]; spends_walk; apply IH.
Qed.
Lemma spends_finish (m : ThreadMatcher R) pid s : spends (finish_process m pid s).
Proof. unfold finish_process. spends_walk. Qed.

(** A round of the loop that goes on has taken a reading of the clock. *)
Lemma scan_step_spec (matcher : ThreadMatcher R) pid s d n m :
  within d n m →
  wp (scan_step matcher pid s) (λ r m', within d n m' ∧ r.1 ≠ Some ScanFuel ∧
    (r.1 = None → (0 < n)%nat ∧ within d (pred n) m')) m.
Proof.
  intros Hm. unfold scan_step. wp_step. eapply wp_mono; [by apply exhausted_spec|].
  intros over m1 [H1 Hover]. wp_step; [by wp_step|].
  destruct (Hover eq_refl) as [Hpos H2].
  apply wp_mono with (Q := λ r m', within d (pred n) m' ∧ r.1 ≠ Some ScanFuel).
  2: { intros r m' [[Hd Hs] Hr]. unfold within, sys_within in *. split_and!; try done; lia. }
  assert (∀ A (op : M (Main W) A) (Q : A → Main W → Prop) m',
    spends op → within d (pred n) m' → (∀ a m'', within d (pred n) m'' → Q a m'') → wp op Q m') as Hs.
  { intros A op Q m' Hop Hw HQ. eapply wp_mono; [by apply Hop|]. auto. }
  wp_step. apply Hs; [|done|].
  { spends_walk. apply spends_identify. }
  intros [go s1] m2 H3. wp_step; [by wp_step|]. wp_step.
  apply Hs; [apply spends_enumerate_current|done|]. intros [complete t] m3 H4.
  cbv zeta beta iota. wp_step; [by wp_step|]. wp_step.
  apply Hs; [apply spends_record_threads|done|]. intros [recorded s2] m4 H5.
  wp_step; [by wp_step|]. wp_step. apply Hs; [apply spends_exhausted|done|].
  intros over' m5 H6. wp_step; [by wp_step|]. wp_step.
  apply Hs; [apply spends_finish|done|]. intros s3 m6 H7. by wp_step.
Qed.

Lemma scan_processes_spec (matcher : ThreadMatcher R) fuel s d n m :
  within d n m → (n < fuel)%nat →
  wp (scan_processes fuel matcher s) (λ r _, r.1 ≠ ScanFuel) m.
Proof.
  revert s n m. induction fuel as [|fuel IH]; intros s n m Hm Hn; [lia|].
  cbn [scan_processes]. wp_step; [|by wp_step]. wp_step.
  eapply wp_mono; [by apply (scan_step_spec matcher)|].
  intros [[outcome|] s1] m1 (H1 & H2 & H3); cbn in *; [congruence|].
  destruct (H3 eq_refl) as [Hpos H4]. eapply IH; [done|lia].
Qed.

(** The loop over the processes ends within its fuel. *)
Lemma scan_processes_ends (matcher : ThreadMatcher R) s m :
  ((scan_processes (stream_fuel m) matcher s m).1).1 ≠ ScanFuel.
Proof.
  pose proof (scan_processes_spec matcher (stream_fuel m) s _ _ m (stream_fuel_within m)) as Ht.
  apply wp_unfold in Ht; [done|]. unfold stream_fuel. lia.
Qed.
End Scan.
