(* ===== verification/WorkerGuard.v ===== *)
(** * A worker only touches the thread it identified

    Every call of a task's processing that changes something acts on the
    task's thread, and at that moment the latest reads of [/proc] still show
    the thread the task was made for. *)

From S2P Require Import Prelude CppString ConfigTypes Kernel FileUtils FileFacts CpuMask.
From S2P Require Import ThreadMatcher ThreadCache Env Setters Tracing SetterFacts ScanWorker.

(** ** Paths *)

Lemma to_string_no_slash z : "/"%char ∉ chars (to_string z).
Proof.
  assert (∀ p, "/"%char ∉ chars (to_string (Z.pos p))) as Hpos.
  { intros p. by apply digits_no_char; [lia|]. }
  destruct z as [|p|p]; [by apply (digits_no_char "/"%char 0)|apply Hpos|].
  change (to_string (Z.neg p)) with ("-" +:+ to_string (Z.pos p)).
  rewrite chars_app, not_elem_of_app. split; [|apply Hpos]. cbn. set_solver.
Qed.

Lemma proc_path_chars pid file :
  chars (proc_path pid file) = chars "/proc/" ++ chars (to_string pid) ++ "/"%char :: chars file.
Proof. unfold proc_path. by rewrite !chars_app. Qed.
Lemma task_path_chars pid tid file :
  chars (task_path pid tid file) = chars "/proc/" ++ chars (to_string pid) ++ "/"%char
    :: chars "task/" ++ chars (to_string tid) ++ "/"%char :: chars file.
Proof. unfold task_path. by rewrite !chars_app. Qed.

Lemma proc_task_ne pid file pid' tid' file' :
  "/"%char ∉ chars file → proc_path pid file ≠ task_path pid' tid' file'.
Proof.
  intros Hf Heq. apply (f_equal chars) in Heq. rewrite proc_path_chars, task_path_chars in Heq.
  apply app_inv_head, sep_app_inj in Heq as [_ Heq]; [|apply to_string_no_slash..].
  apply Hf. rewrite Heq. cbn. set_solver.
Qed.

Lemma task_path_inj_file pid tid file file' :
  task_path pid tid file = task_path pid tid file' → file = file'.
Proof.
  intros Heq. apply (f_equal chars) in Heq. rewrite !task_path_chars in Heq.
  apply app_inv_head, app_inv_head in Heq. injection Heq as Heq.
  apply app_inv_head in Heq. injection Heq as Heq. by apply chars_inj.
Qed.

(** ** What the latest reads show *)

Fixpoint last_read (path : string) (tr : list kcall) : option (option string) :=
  match tr with
  | [] => None
  | KRead p r :: tr' => if decide (p = path) then Some r else last_read path tr'
  | _ :: tr' => last_read path tr'
  end.

(** What [read_file] makes of a read. *)
Definition content_of (r : option string) : string :=
  match r with Some t => strip_newlines t | None => EmptyString end.

Definition last_content (path : string) (P : string → Prop) (tr : list kcall) : Prop :=
  ∃ r, last_read path tr = Some r ∧ P (content_of r).

(** The thread and process numbers are valid, and the latest reads of the three
    files show both start times and the process the thread belongs to. *)
Definition identity_seen (pid tid process_start thread_start : Z) (tr : list kcall) : Prop :=
  last_content (proc_path pid "stat")
    (λ s, parse_start_time_from_stat s = process_start) tr
  ∧ last_content (task_path pid tid "stat")
      (λ s, parse_start_time_from_stat s = thread_start) tr
  ∧ last_content (task_path pid tid "status")
      (λ s, s ≠ EmptyString ∧ status_tgid_is pid s = true) tr.

(** Some read shows another process or thread under the two numbers, or the
    numbers are not valid ones. *)
Definition shown (path : string) (P : string → Prop) (tr : list kcall) : Prop :=
  ∃ r, KRead path r ∈ tr ∧ P (content_of r).
Definition identity_gone (pid tid process_start thread_start : Z) (tr : list kcall) : Prop :=
  is_valid_pid pid && is_valid_tid tid = false
  ∨ shown (proc_path pid "stat") (λ s, parse_start_time_from_stat s ≠ process_start) tr
  ∨ shown (task_path pid tid "stat") (λ s, parse_start_time_from_stat s ≠ thread_start) tr
  ∨ shown (task_path pid tid "status") (λ s, s = EmptyString ∨ status_tgid_is pid s = false) tr.

(** A changing call that acts on thread [tid]. *)
Definition on_thread (tid : Z) (c : kcall) : Prop :=
  match c with
  | KSetAffinity t _ _ | KSetScheduler t _ _ _ | KSetPriority t _ _ => t = tid
  | KWrite _ s _ => s `suffix_of` chars (to_string tid)
  | _ => False
  end.

(** Every changing call of a trace (latest first) acts on the thread, at a
    moment when its identity had been seen. *)
Fixpoint guarded (pid tid ps ts : Z) (tr : list kcall) : Prop :=
  match tr with
  | [] => True
  | c :: tr' =>
      (mutating c = true → on_thread tid c ∧ identity_seen pid tid ps ts tr')
      ∧ guarded pid tid ps ts tr'
  end.

Section Guard.
Variables pid tid ps ts : Z.
Notation seen := (identity_seen pid tid ps ts).
Notation safe_trace := (guarded pid tid ps ts).

Definition identity_paths : list string :=
  [proc_path pid "stat"; task_path pid tid "stat"; task_path pid tid "status"].

(** A call that may follow a check without invalidating it. *)
Definition safe_call (c : kcall) : Prop :=
  (mutating c = true → on_thread tid c)
  ∧ (∀ path r, c = KRead path r → path ∉ identity_paths).
Definition quiet_call (c : kcall) : Prop := mutating c = false.

Lemma last_content_other path P c tr :
  (∀ p r, c = KRead p r → p ≠ path) → last_content path P tr → last_content path P (c :: tr).
Proof.
  intros Hc [r [Hr HP]]. exists r. split; [|done].
  destruct c; try exact Hr. simpl. rewrite decide_False; [done|]. by eapply Hc.
Qed.

Lemma safe_extend new tr :
  Forall safe_call new → safe_trace tr ∧ seen tr → safe_trace (new ++ tr) ∧ seen (new ++ tr).
Proof.
  intros Hn [Hg Hs]. induction Hn as [|c new [Hm Hr] _ IH]; [done|].
  destruct IH as [IHg IHs]. split.
  - split; [|done]. intros Hc. split; [by apply Hm|done].
  - destruct IHs as (H1 & H2 & H3).
    split_and!; apply last_content_other; try done; intros p r ->;
      specialize (Hr p r eq_refl); unfold identity_paths in Hr;
      intros ->; apply Hr; set_solver.
Qed.

Lemma quiet_extend new tr : Forall quiet_call new → safe_trace tr → safe_trace (new ++ tr).
Proof.
  intros Hn Hg. induction Hn as [|c new Hm _ IH]; [done|].
  split; [|done]. intros Hc. unfold quiet_call in Hm. congruence.
Qed.

Context {W : Type} `{!Kernel W} `{!KernelLaws W}.
Implicit Types e : Env (Traced W).

Definition Inv e : Prop := safe_trace (env_trace e).
Definition Checked e : Prop := safe_trace (env_trace e) ∧ seen (env_trace e).

Lemma keeps_safe {A} (m : M (Env (Traced W)) A) :
  adds env_trace safe_call m → keeps Checked m.
Proof.
  intros H e He. eapply wp_mono; [apply H|]. intros a e' (new & Heq & Hnew).
  unfold Checked. rewrite Heq. by apply safe_extend.
Qed.
Lemma keeps_quiet {A} (m : M (Env (Traced W)) A) :
  adds env_trace quiet_call m → keeps Inv m.
Proof.
  intros H e He. eapply wp_mono; [apply H|]. intros a e' (new & Heq & Hnew).
  unfold Inv. rewrite Heq. by apply quiet_extend.
Qed.

(** ** The identity check *)

(** Reading one of the files records its content. *)
Lemma read_file_records path (s : Sys (Traced W)) :
  is_dynamic_kernel_path path = true →
  wp (read_file path) (λ content s', ∃ r t,
    content = content_of r ∧ sys_trace s' = KRead path r :: KNow t :: sys_trace s) s.
Proof.
  intros Hd. eapply wp_mono; [by apply read_file_dynamic|].
  intros content s' (now & w1 & text & w2 & Hnow & Hread & -> & ->).
  destruct s as [[w tr] fc cc t1 t2]. cbn in *. unfold traced in *. cbn in *.
  destruct (k_now w) as [now' w']. injection Hnow as <- <-. cbn in *.
  destruct (k_read path w') as [text' w'']. injection Hread as <- <-.
  exists text', now'. done.
Qed.

Lemma proc_dynamic p f : is_dynamic_kernel_path (proc_path p f) = true.
Proof.
  apply orb_true_iff. left. apply orb_true_iff. left. apply prefix_app_iff. by eexists.
Qed.
Lemma task_dynamic p t f : is_dynamic_kernel_path (task_path p t f) = true.
Proof.
  apply orb_true_iff. left. apply orb_true_iff. left. apply prefix_app_iff. by eexists.
Qed.

Lemma last_content_here path (P : string → Prop) r t tr :
  P (content_of r) → last_content path P (KRead path r :: KNow t :: tr).
Proof. intros HP. exists r. split; [|done]. simpl. by rewrite decide_True. Qed.
Lemma last_content_skip path path' P r t tr :
  path' ≠ path → last_content path P tr →
  last_content path P (KRead path' r :: KNow t :: tr).
Proof.
  intros Hne H. apply last_content_other; [by intros ? ? [= <- <-]|].
  by apply last_content_other.
Qed.

Lemma quiet_identity : adds (@env_trace W) quiet_call (identity_matches pid tid ps ts).
Proof. by apply adds_identity_matches. Qed.

Lemma identity_matches_valid e :
  wp (identity_matches pid tid ps ts)
    (λ ok _, ok = true → is_valid_pid pid = true ∧ is_valid_tid tid = true) e.
Proof.
  unfold identity_matches at 1. unfold andM at 1. wp_step. apply wp_unfold.
  destruct ((_ <&&> _) e) as [[] e1]; [|done]. cbn. apply wp_on_sys.
  unfold is_thread_in_process.
  destruct (is_valid_pid pid), (is_valid_tid tid); cbn [negb orb]; [|by apply wp_ret..].
  by apply wp_unfold.
Qed.

Lemma identity_matches_seen e :
  wp (identity_matches pid tid ps ts) (λ ok e', ok = true → seen (env_trace e')) e.
Proof.
  destruct (is_valid_pid pid && is_valid_tid tid) eqn:Hv.
  2: { eapply wp_mono; [apply identity_matches_valid|]. intros ok e' H Hok.
       apply H in Hok as [Hp Ht]. by rewrite Hp, Ht in Hv. }
  apply andb_true_iff in Hv as [Hpid Htid].
  unfold identity_matches, andM, get_process_start_time, get_thread_start_time,
    is_thread_in_process. rewrite Hpid, Htid. cbn [negb orb].
  do 3 wp_step. apply wp_on_sys. wp_step. eapply wp_mono; [apply read_file_records; apply proc_dynamic || apply task_dynamic|].
  intros c1 s1 (r1 & t1 & -> & Htr1). do 3 wp_step; [|by wp_steps].
  wp_step. apply wp_on_sys. wp_step. eapply wp_mono; [apply read_file_records; apply proc_dynamic || apply task_dynamic|].
  intros c2 s2 (r2 & t2 & -> & Htr2). do 2 wp_step. wp_step; [|by wp_steps].
  apply wp_on_sys. wp_step. eapply wp_mono; [apply read_file_records; apply proc_dynamic || apply task_dynamic|].
  intros c3 s3 (r3 & t3 & -> & Htr3). wp_step; wp_step; [done|]. intros Hok.
  unfold env_trace. cbn [env_sys] in *. rewrite Htr3, Htr2, Htr1.
  split_and!.
  - do 2 (apply last_content_skip; [apply not_eq_sym, proc_task_ne; cbn; set_solver|]).
    apply last_content_here. by apply Z.eqb_eq.
  - apply last_content_skip; [intros Heq%task_path_inj_file; done|].
    apply last_content_here. by apply Z.eqb_eq.
  - by apply last_content_here.
Qed.

(** A check that fails has read the reason. *)
Lemma identity_matches_gone e :
  wp (identity_matches pid tid ps ts)
    (λ ok e', ok = false → identity_gone pid tid ps ts (env_trace e')) e.
Proof.
  destruct (is_valid_pid pid && is_valid_tid tid) eqn:Hv.
  2: { eapply wp_any. intros ok e' _. by left. }
  pose proof Hv as [Hpid Htid]%andb_true_iff.
  unfold identity_matches, andM, get_process_start_time, get_thread_start_time,
    is_thread_in_process. rewrite Hpid, Htid. cbn [negb orb].
  assert (∀ p (P : string → Prop) r t (s s' : Sys (Traced W)), sys_trace s' = KRead p r :: KNow t :: sys_trace s →
    P (content_of r) → shown p P (sys_trace s')) as Hhere.
  { intros p P r t s s' -> HP. exists r. split; [by left|done]. }
  do 3 wp_step. apply wp_on_sys. wp_step. eapply wp_mono; [apply read_file_records, proc_dynamic|].
  intros c1 s1 (r1 & t1 & -> & Htr1). do 2 wp_step.
  destruct (Z.eqb_spec (parse_start_time_from_stat (content_of r1)) ps) as [_|Hne].
  2: { wp_steps. intros _. right. left. by eapply Hhere. }
  wp_step. apply wp_on_sys. wp_step. eapply wp_mono; [apply read_file_records, task_dynamic|].
  intros c2 s2 (r2 & t2 & -> & Htr2). do 2 wp_step.
  destruct (Z.eqb_spec (parse_start_time_from_stat (content_of r2)) ts) as [_|Hne].
  2: { wp_steps. intros _. do 2 right. left. by eapply Hhere. }
  apply wp_on_sys. wp_step. eapply wp_mono; [apply read_file_records, task_dynamic|].
  intros c3 s3 (r3 & t3 & -> & Htr3). case_decide as Hd; wp_step; intros Hok; do 3 right;
    (eapply Hhere; [exact Htr3|]); [by left|by right].
Qed.

Lemma identity_check e :
  Inv e → wp (identity_matches pid tid ps ts)
            (λ ok e', Inv e' ∧ (ok = true → Checked e')) e.
Proof.
  intros He. eapply wp_mono;
    [apply wp_and; [apply (keeps_quiet _ quiet_identity e He)|apply identity_matches_seen]|].
  intros ok e' [Hi Hs]. split; [done|]. intros Hok. split; [done|auto].
Qed.
End Guard.

(** ** Every step of the worker *)

Section GuardedWorker.
Context {R W : Type} `{!RegexEngine R} `{!Kernel W} `{!KernelLaws W} `{!StringHash} `{!IntHash}.
Variable matcher : ThreadMatcher R.
Variables timing cpuset_timing : TimingConfig.
Variable task : DispatchTask.
Let pid := dt_pid task.
Let tid := dt_tid task.
Let ps := dt_process_start_time task.
Let ts := dt_thread_start_time task.
Implicit Types e : Env (Traced W).
Notation Inv := (@Inv pid tid ps ts W).
Notation Checked := (@Checked pid tid ps ts W).
Notation safe := (safe_call pid tid).
Notation identity := (is_current_task_identity (W := Traced W) task).

Lemma checked_inv e : Checked e → Inv e.
Proof. by intros []. Qed.

Lemma safe_other_call c : (∀ p r, c ≠ KRead p r) → (mutating c = true → on_thread tid c) → safe c.
Proof. intros Hr Hm. split; [done|]. intros p r ->. by destruct (Hr p r). Qed.

Lemma safe_cpuset_read path r : safe (KRead ("/dev/cpuset/" +:+ path) r).
Proof.
  split; [done|]. intros p r' [= <- <-]. unfold identity_paths.
  rewrite !not_elem_of_cons. split_and!; [done..|apply not_elem_of_nil].
Qed.

Lemma safe_thread_cgroup r : safe (KRead (task_path pid tid "cgroup") r).
Proof.
  split; [done|]. intros p r' [= <- <-]. unfold identity_paths.
  rewrite !not_elem_of_cons. split_and!; try apply not_elem_of_nil.
  - apply not_eq_sym, proc_task_ne. cbn. set_solver.
  - by intros ?%task_path_inj_file.
  - by intros ?%task_path_inj_file.
Qed.

Lemma safe_status r : safe (KRead (proc_path tid "status") r).
Proof.
  split; [done|]. intros p r' [= <- <-]. unfold identity_paths.
  rewrite !not_elem_of_cons. split_and!; try apply not_elem_of_nil.
  - intros Heq. apply (f_equal chars) in Heq. rewrite !proc_path_chars in Heq.
    apply app_inv_head, sep_app_inj in Heq as [_ Heq]; [done|apply to_string_no_slash..].
  - apply proc_task_ne. cbn. set_solver.
  - apply proc_task_ne. cbn. set_solver.
Qed.

Lemma safe_tasks_write : allows_tasks_write safe tid.
Proof.
  split_and!; intros; by apply safe_other_call.
Qed.

Ltac safe_leaf := intros; apply safe_other_call; done.

Lemma safe_set_affinity cpus : keeps Checked (on_sys (set_affinity tid cpus)).
Proof. apply keeps_safe, adds_on_sys, adds_set_affinity. safe_leaf. Qed.
Lemma safe_move_target mask : keeps Checked (move_to_cpuset_cgroup cpuset_timing tid mask).
Proof.
  apply keeps_safe, adds_move_to_cpuset; try safe_leaf.
  - intros path r. apply safe_cpuset_read.
  - apply safe_tasks_write.
Qed.
Lemma safe_move_parent : keeps Checked (move_to_top_app_parent tid).
Proof. apply keeps_safe, adds_move_to_top_app_parent, safe_tasks_write. Qed.
Lemma safe_restore_cpuset path : keeps Checked (restore_cpuset_cgroup tid path).
Proof. apply keeps_safe, adds_restore_cpuset, safe_tasks_write. Qed.
Lemma safe_restore_cpuctl path : keeps Checked (restore_cpuctl_cgroup tid path).
Proof. apply keeps_safe, adds_restore_cpuctl, safe_tasks_write. Qed.
Lemma safe_restore_affinity cpus : keeps Checked (restore_affinity tid cpus).
Proof. apply keeps_safe, adds_restore_affinity. safe_leaf. Qed.
Lemma safe_restore_scheduler p q n : keeps Checked (restore_scheduler tid p q n).
Proof. apply keeps_safe, adds_restore_scheduler; safe_leaf. Qed.
Lemma safe_priority_apply result : keeps Checked (priority_apply_with_result matcher tid result).
Proof. apply keeps_safe, adds_priority_apply; safe_leaf. Qed.
Lemma safe_cpuctl_apply result : keeps Checked (cpuctl_apply_with_result tid result).
Proof. apply keeps_safe, adds_cpuctl_apply; [apply safe_tasks_write|safe_leaf]. Qed.

(** The calls that only look. *)
Lemma quiet_verify_cpuset mask : keeps Inv (verify_cpuset pid tid mask).
Proof.
  apply keeps_quiet. unfold verify_cpuset. adds_steps. by apply adds_on_sys, adds_thread_cgroups.
Qed.
Lemma quiet_verify_affinity cpus : keeps Inv (verify_affinity tid cpus).
Proof.
  apply keeps_quiet. unfold verify_affinity. adds_steps. by apply adds_on_sys, adds_is_affinity_changed.
Qed.

(** A changing operation right after a check. *)
Lemma keeps_checked_inv {A} (m : M (Env (Traced W)) A) e :
  keeps Checked m → Checked e → wp m (λ _, Inv) e.
Proof. intros Hm He. eapply wp_mono; [by apply Hm|]. intros a e' He'. by apply checked_inv. Qed.

Lemma guarded_identity e :
  Inv e → wp identity (λ ok e', Inv e' ∧ (ok = true → Checked e')) e.
Proof. intros He. by apply identity_check. Qed.

(** *** The takeover sequence *)

Lemma guarded_cpuset_apply result :
  keeps Inv (cpuset_apply_with_result matcher cpuset_timing pid tid result ps ts).
Proof.
  unfold cpuset_apply_with_result. keeps_steps.
  apply takeover_protocol with (F := Checked).
  - intros e He. by apply identity_check.
  - intros e. apply keeps_checked_inv, safe_set_affinity.
  - intros e. apply keeps_checked_inv, safe_move_target.
  - intros e. apply keeps_checked_inv, safe_move_parent.
  - apply quiet_verify_cpuset.
  - apply quiet_verify_affinity.
Qed.

(** *** Bookkeeping *)

Lemma inv_on_cache f : keeps Inv (on_cache f).
Proof. apply keeps_modify. done. Qed.
Lemma checked_on_cache f : keeps Checked (on_cache f).
Proof. apply keeps_modify. done. Qed.
Lemma inv_ask_cache {A} (f : ThreadCache → A) : keeps Inv (ask_cache f).
Proof. apply keeps_gets. Qed.
Lemma inv_erase : keeps Inv (erase_task_identity task).
Proof. apply inv_on_cache. Qed.

Lemma while_current_inv k e :
  Inv e → (∀ e', Checked e' → wp k (λ _, Inv) e') → wp (while_current task k) (λ _, Inv) e.
Proof.
  intros He Hk. unfold while_current. wp_step. eapply wp_mono; [by apply guarded_identity|].
  intros [] e' [Hi Hc]; cbv beta iota; [by auto|by apply inv_erase].
Qed.

(** *** Restoring *)

(** An operation that may end by losing the identity: it can be started any
    time, and when it answers [true] the identity has been checked after its
    last change. *)
Definition verdict (m : M (Env (Traced W)) bool) : Prop :=
  ∀ e, Inv e → wp m (λ ok e', Inv e' ∧ (ok = true → Checked e')) e.

Lemma verdict_false e : Inv e → wp (mret false) (λ ok e', Inv e' ∧ (ok = true → Checked e')) e.
Proof. intros He. by wp_step. Qed.

Lemma restore_part_inv has op e :
  keeps Checked op → Inv e → wp (restore_part task has op) (λ _, Inv) e.
Proof.
  intros Hop He. unfold restore_part. destruct has; [|by wp_step].
  wp_step. eapply wp_mono; [by apply guarded_identity|]. intros [] e' [Hi Hc]; cbn [negb].
  - wp_step. eapply wp_mono; [apply keeps_checked_inv; [done|auto]|]. intros ok e2 H2. by wp_step.
  - by wp_step.
Qed.

Lemma guarded_restore_affinity_baseline b : verdict (restore_affinity_baseline task b).
Proof.
  intros e He. unfold restore_affinity_baseline. wp_step.
  eapply wp_mono; [apply restore_part_inv; [apply safe_restore_cpuset|done]|].
  intros [ok1|] e1 H1; cbv beta iota; [|by wp_step]. wp_step.
  eapply wp_mono; [apply restore_part_inv; [apply safe_restore_affinity|done]|].
  intros [ok2|] e2 H2; cbv beta iota; [|by wp_step].
  destruct (ok1 && ok2); [by apply guarded_identity|by wp_step].
Qed.

Lemma guarded_restore_scheduler_baseline b : verdict (restore_scheduler_baseline task b).
Proof.
  intros e He. unfold restore_scheduler_baseline. wp_step.
  eapply wp_mono; [by apply guarded_identity|].
  intros [] e1 [H1 Hc]; cbn [negb]; [|by wp_step].
  destruct (negb (tb_has_scheduler b)); [by wp_step|]. wp_step.
  eapply wp_mono; [apply keeps_checked_inv; [apply safe_restore_scheduler|auto]|].
  intros [] e2 H2; cbn [negb]; [by apply guarded_identity|by wp_step].
Qed.

Lemma guarded_restore_cpuctl_baseline b : verdict (restore_cpuctl_baseline task b).
Proof.
  intros e He. unfold restore_cpuctl_baseline. wp_step.
  eapply wp_mono; [by apply guarded_identity|].
  intros [] e1 [H1 Hc]; cbn [negb]; [|by wp_step].
  destruct (negb (tb_has_cpuctl_path b)); [by wp_step|]. wp_step.
  eapply wp_mono; [apply keeps_checked_inv; [apply safe_restore_cpuctl|auto]|].
  intros [] e2 H2; cbn [negb]; [by apply guarded_identity|by wp_step].
Qed.

Lemma verdict_inv m : verdict m → keeps Inv m.
Proof. intros Hm e He. eapply wp_mono; [by apply Hm|]. by intros ok e' [? _]. Qed.

Lemma guarded_restore_baseline : keeps Inv (restore_baseline task).
Proof.
  intros e He. unfold restore_baseline. wp_step. apply wp_ask_cache.
  destruct (Cache.get_baseline _ _ _) as [b|].
  2: { by apply (keeps_bind Inv); [apply inv_on_cache|intros; apply inv_on_cache|]. }
  apply while_current_inv; [done|]. intros e1 [H1 _].
  assert (∀ (has : bool) op, verdict op → keeps Inv (if has then op else mret true)) as Hopt.
  { intros [] op Hop; [by apply verdict_inv|apply keeps_ret]. }
  wp_step. eapply wp_mono; [apply Hopt; [apply guarded_restore_cpuctl_baseline|done]|].
  intros r1 e2 H2. apply while_current_inv; [done|]. intros e3 [H3 _].
  wp_step. eapply wp_mono; [apply Hopt; [apply guarded_restore_scheduler_baseline|done]|].
  intros r2 e4 H4. apply while_current_inv; [done|]. intros e5 [H5 _].
  wp_step. eapply wp_mono; [by apply guarded_restore_affinity_baseline|].
  intros r3 e6 [H6 _]. apply while_current_inv; [done|]. intros e7 [H7 _].
  destruct (r1 && r2 && r3); [|by wp_step].
  apply (keeps_bind Inv); [apply inv_on_cache| |done]. intros.
  apply keeps_bind; [apply inv_on_cache|]. intros. apply inv_on_cache.
Qed.

(** *** Applying *)

Lemma guarded_capture : keeps Inv (capture_baseline_if_needed task).
Proof.
  unfold capture_baseline_if_needed.
  assert (∀ e, Inv e → wp (on_sys (get_affinity_from_status tid)) (λ _, Inv) e) as H1.
  { apply keeps_quiet. by apply adds_on_sys, adds_get_affinity. }
  assert (keeps Inv (capture_scheduler_baseline tid)) as H2.
  { apply keeps_quiet. by apply adds_get_sched. }
  assert (keeps Inv (on_sys (get_thread_cgroup_paths_uncached pid tid))) as H3.
  { apply keeps_quiet. by apply adds_on_sys, adds_thread_cgroups. }
  apply keeps_bind; [done|]. intros aff. apply keeps_bind; [done|].
  intros [hs [[p q] n]]. apply keeps_bind; [done|]. intros cg.
  apply keeps_bind; [apply (verdict_inv identity); intros e He; by apply guarded_identity|].
  intros []; [apply inv_on_cache|apply keeps_ret].
Qed.

Lemma guarded_apply_components result managed :
  keeps Inv (apply_components matcher cpuset_timing task result managed).
Proof.
  intros e He. unfold apply_components. wp_step.
  eapply wp_mono; [by apply guarded_cpuset_apply|]. intros r e1 H1.
  apply while_current_inv; [done|]. intros e2 H2. wp_step.
  eapply wp_mono; [apply keeps_checked_inv; [apply safe_priority_apply|done]|]. intros pr e3 H3.
  apply while_current_inv; [done|]. intros e4 H4. wp_step.
  eapply wp_mono; [apply keeps_checked_inv; [apply safe_cpuctl_apply|done]|]. intros cc e5 H5.
  apply while_current_inv; [done|]. intros e6 [H6 _].
  apply (keeps_bind Inv); [apply inv_on_cache| |done]. intros _.
  destruct (_ && cc); [apply inv_on_cache|]. intros e7 H7.
  apply while_current_inv; [done|]. intros e8 [H8 _]. by wp_step.
Qed.

Lemma drop_component_inv needed restore managed without k :
  verdict restore → (∀ m, keeps Inv (k m)) →
  keeps Inv (drop_component task needed restore managed without k).
Proof.
  intros Hr Hk. unfold drop_component. destruct needed; [|done].
  apply keeps_bind; [by apply verdict_inv|]. intros []; cbn [negb]; [|apply keeps_ret].
  apply keeps_bind; [apply inv_on_cache|]. done.
Qed.

Lemma guarded_apply_result result :
  keeps Inv (apply_result matcher cpuset_timing task result).
Proof.
  unfold apply_result. destruct (negb _); [apply guarded_restore_baseline|].
  apply keeps_bind; [apply guarded_capture|]. intros _.
  apply keeps_bind; [apply inv_ask_cache|]. intros [b|]; [|apply keeps_ret]. cbv zeta.
  destruct (negb _); [apply keeps_ret|]. apply keeps_bind; [apply inv_ask_cache|]. intros m.
  apply drop_component_inv; [apply guarded_restore_affinity_baseline|]. intros m1.
  apply drop_component_inv; [apply guarded_restore_scheduler_baseline|]. intros m2.
  apply drop_component_inv; [apply guarded_restore_cpuctl_baseline|]. intros m3.
  apply guarded_apply_components.
Qed.

Lemma quiet_paced {A} (f : Z → ScheduleState → A * ScheduleState) : keeps Inv (paced f).
Proof.
  apply keeps_quiet. unfold paced. apply adds_bind; [by apply adds_on_sys, adds_now|].
  intros now. apply adds_on_schedule.
Qed.

Lemma quiet_drifted applied : keeps Inv (drifted matcher timing task applied).
Proof.
  unfold drifted. apply keeps_bind.
  { destruct (needs_affinity_management applied); [|apply keeps_ret].
    apply keeps_quiet. by apply adds_on_sys, adds_is_affinity_changed. }
  intros a. cbv zeta. apply keeps_bind.
  { destruct (_ =? 0); [apply keeps_ret|]. unfold is_sched_changed.
    apply keeps_bind; [|intros; apply keeps_ret]. apply keeps_quiet. by apply adds_get_sched. }
  intros sc. apply keeps_bind; [|intros; apply keeps_ret]. unfold is_cgroup_changed.
  apply keeps_bind; [destruct (_ || _); [apply quiet_paced|apply keeps_ret]|].
  intros due. destruct (negb _); [apply keeps_ret|].
  apply keeps_bind; [|intros; apply keeps_ret].
  apply keeps_quiet. by apply adds_on_sys, adds_thread_cgroups.
Qed.

Lemma quiet_match st : keeps Inv (on_matcher (match_thread matcher (dt_proc_name task)
  (dt_thread_name task) st pid tid (dt_cmdline task))).
Proof. apply keeps_quiet. by apply adds_on_matcher. Qed.

Lemma guarded_process : keeps Inv (process_dispatch_task matcher timing cpuset_timing task).
Proof.
  intros e He. unfold process_dispatch_task. wp_step.
  eapply wp_mono; [by apply guarded_identity|].
  intros [] e1 [H1 _]; cbn [negb]; [|by apply inv_erase].
  match goal with |- wp ?m _ _ => assert (keeps Inv m) as Hm; [|by apply Hm] end.
  apply keeps_bind; [apply quiet_paced|]. intros []; [apply keeps_ret|].
  apply keeps_bind; [apply inv_ask_cache|]. intros [entry|].
  - apply keeps_bind; [apply inv_ask_cache|]. intros [applied|]; [|apply guarded_apply_result].
    destruct (is_result_equal _ _); [|apply guarded_apply_result].
    destruct (negb _); [apply keeps_ret|]. apply keeps_bind; [apply quiet_drifted|].
    intros []; [apply guarded_apply_result|apply keeps_ret].
  - apply keeps_bind; [apply quiet_match|]. intros result. cbv zeta.
    apply keeps_bind; [apply inv_on_cache|]. intros. apply guarded_apply_result.
Qed.
End GuardedWorker.
