(* ===== verification/DispatchFacts.v ===== *)
(** * What the dispatching hands to the workers

    Every task that a pass adds to a queue is for a thread whose identity was
    read in this pass, process last; it is in the queue of the worker its
    identity selects; and its thread was not dispatched before in the cycle. *)

From S2P Require Import Prelude CppString ConfigTypes Kernel FileUtils FileFacts ThreadMatcher.
From S2P Require Import ThreadCache Env Tracing WorkerGuard ScanWorker ScanCursor Dispatch.

(** The directory calls of a recorded world; they are not recorded. *)
Definition untraced {W A} (op : M W A) : M (Traced W) A :=
  λ t, let '(a, w) := op (tr_world t) in (a, Tr w (tr_calls t)).

#[export] Instance Traced_scan W `{!KernelScan W} : KernelScan (Traced W) := {|
  k_opendir p := untraced (k_opendir p);
  k_readdir h := untraced (k_readdir h);
  k_closedir h := untraced (k_closedir h);
  k_sleep_us us := untraced (k_sleep_us us);
  k_ticks d t := k_ticks d (tr_world t) |}.

Definition main_trace {W} (m : Main (Traced W)) : list kcall := sys_trace (mn_sys m).

(** ** Operations that leave the queues alone *)

Section Calm.
Context {W : Type}.

(** The queues are [ws], and the calls come after [tr]. *)
Definition calm (ws : list Queue.WorkerQueue) (tr : list kcall) (m : Main (Traced W)) : Prop :=
  mn_workers m = ws ∧ ∃ new, main_trace m = new ++ tr.
Definition stays {A} (op : M (Main (Traced W)) A) : Prop := ∀ ws tr, keeps (calm ws tr) op.

Lemma stays_bind {A B} (op : M (Main (Traced W)) A) (f : A → M (Main (Traced W)) B) :
  stays op → (∀ a, stays (f a)) → stays (op ≫= f).
Proof. intros Ho Hf ws tr. apply keeps_bind; [apply Ho|]. intros a. apply Hf. Qed.
Lemma stays_ret {A} (a : A) : stays (mret a).
Proof. intros ws tr. apply keeps_ret. Qed.
Lemma stays_gets {A} (f : Main (Traced W) → A) : stays (gets f).
Proof. intros ws tr. apply keeps_gets. Qed.
Lemma stays_modify (f : Main (Traced W) → Main (Traced W)) :
  (∀ m, mn_sys (f m) = mn_sys m ∧ mn_workers (f m) = mn_workers m) → stays (modify f).
Proof.
  intros H ws tr. apply keeps_modify. intros m [Hw Ht]. destruct (H m) as [H1 H2].
  split; [by rewrite H2|]. unfold main_trace. by rewrite H1.
Qed.
Lemma stays_sys {A} (op : M (Sys (Traced W)) A) :
  adds (@sys_trace W) (λ _, True) op → stays (main_sys op).
Proof.
  intros H ws tr m [Hw [new Ht]]. apply wp_main_sys. eapply wp_mono; [apply H|].
  intros a s (new' & Hs & _). split; [done|]. exists (new' ++ new).
  unfold main_trace in *. cbn. by rewrite Hs, Ht, (assoc_L (++)).
Qed.
Lemma stays_untraced {A} (op : M W A) : stays (main_sys (os (untraced op))).
Proof.
  apply stays_sys. intros s. apply wp_os. intros a w. unfold untraced.
  destruct (op _) as [a' w'] eqn:E. intros [= <- <-]. by exists [].
Qed.
End Calm.

Create HintDb stays discriminated.

(** Decomposes a goal [stays _] along the code. *)
Ltac stays_walk :=
  repeat lazymatch goal with
  | |- stays (mbind _ _) => apply stays_bind; [|intros ?]
  | |- stays (mret _) => apply stays_ret
  | |- stays (gets _) => apply stays_gets
  | |- stays (if ?b then _ else _) => destruct b
  | |- stays (match ?x with _ => _ end) => destruct x
  | |- stays (let _ := _ in _) => cbv zeta
  | |- _ => solve [eauto 2 with stays]
  end.

Section StaysOps.
Context {W : Type} `{!Kernel W} `{!KernelScan W}.
Notation Main := (Main (Traced W)).

Lemma stays_now : stays (main_sys (os k_now) : M Main Z).
Proof. apply stays_sys, adds_now. done. Qed.
Lemma stays_budget f : stays (main_budget f : M Main unit).
Proof. by apply stays_modify. Qed.
Lemma stays_rescan b : stays (set_rescan b : M Main unit).
Proof. by apply stays_modify. Qed.
Lemma stays_sleep us : stays (main_sys (os (k_sleep_us us)) : M Main unit).
Proof. apply stays_untraced. Qed.
Lemma stays_opendir p : stays (main_sys (os (k_opendir p)) : M Main (option Z)).
Proof. apply stays_untraced. Qed.
Lemma stays_readdir h : stays (main_sys (os (k_readdir h)) : M Main readdir_result).
Proof. apply stays_untraced. Qed.
Lemma stays_closedir h : stays (main_sys (os (k_closedir h)) : M Main unit).
Proof. apply stays_untraced. Qed.
#[local] Hint Resolve stays_now stays_budget stays_rescan stays_sleep stays_opendir stays_readdir
  stays_closedir : stays.

Lemma stays_exhausted : stays (exhausted : M Main bool).
Proof. unfold exhausted. stays_walk. Qed.
Lemma stays_after_thread_read : stays (after_thread_read : M Main unit).
Proof. unfold after_thread_read. stays_walk. Qed.
Lemma stays_close dir : stays (close_dir dir : M Main unit).
Proof. unfold close_dir. stays_walk. Qed.
Lemma stays_process_start pid : stays (main_sys (get_process_start_time pid) : M Main Z).
Proof. by apply stays_sys, adds_get_process_start_time. Qed.
Lemma stays_thread_start pid tid : stays (main_sys (get_thread_start_time pid tid) : M Main Z).
Proof. by apply stays_sys, adds_get_thread_start_time. Qed.
Lemma stays_process_name pid : stays (main_sys (get_process_name_from_status pid) : M Main _).
Proof.
  apply stays_sys. unfold get_process_name_from_status. adds_steps. by apply adds_read_file.
Qed.
Lemma stays_cmdline pid : stays (main_sys (get_process_cmdline pid) : M Main _).
Proof. apply stays_sys. unfold get_process_cmdline. adds_steps. by apply adds_read_file. Qed.
Lemma stays_thread_name pid tid : stays (main_sys (get_thread_name pid tid) : M Main _).
Proof.
  apply stays_sys. unfold get_thread_name, get_thread_comm. adds_steps. by apply adds_read_file.
Qed.
#[local] Hint Resolve stays_exhausted stays_after_thread_read stays_close stays_process_start
  stays_process_name stays_cmdline : stays.

Lemma stays_new_budget a b c : stays (new_budget a b c : M Main unit).
Proof. unfold new_budget. stays_walk. Qed.
Lemma stays_read_entries fuel dir ids : stays (read_entries fuel dir ids : M Main _).
Proof.
  revert ids. induction fuel as [|fuel IH]; intros ids; cbn [read_entries]; stays_walk; apply IH.
Qed.
#[local] Hint Resolve stays_read_entries : stays.
Lemma stays_read_tids dir ids : stays (read_tids dir ids : M Main _).
Proof. unfold read_tids. stays_walk. Qed.
#[local] Hint Resolve stays_read_tids : stays.
Lemma stays_enumerate_tids c : stays (enumerate_tids c : M Main _).
Proof. unfold enumerate_tids. stays_walk. Qed.
Lemma stays_reset_cursor c : stays (reset_cursor c : M Main _).
Proof. unfold reset_cursor. stays_walk. Qed.
Lemma stays_begin_pid pid c : stays (begin_pid pid c : M Main _).
Proof. unfold begin_pid. stays_walk. Qed.
Lemma stays_load_name pid c : stays (load_process_name pid c : M Main _).
Proof. unfold load_process_name. stays_walk. Qed.
Lemma stays_load_start pid c : stays (load_process_start pid c : M Main _).
Proof. unfold load_process_start. stays_walk. Qed.
Lemma stays_load_cmdline pid c : stays (load_cmdline pid c : M Main _).
Proof. unfold load_cmdline. stays_walk. Qed.
End StaysOps.

#[export] Hint Resolve stays_now stays_budget stays_rescan stays_sleep stays_opendir stays_readdir
  stays_closedir stays_exhausted stays_after_thread_read stays_close stays_process_start
  stays_thread_start stays_process_name stays_cmdline stays_thread_name stays_new_budget
  stays_read_entries stays_read_tids stays_enumerate_tids stays_reset_cursor stays_begin_pid
  stays_load_name stays_load_start stays_load_cmdline : stays.

(** ** What a dispatch adds to the queues *)

(** The calls (latest first) read the start time of the thread, and after it
    that of the process. *)
Definition identity_verified (task : DispatchTask) (calls : list kcall) : Prop :=
  ∃ later between earlier rp rt,
    calls = later ++ KRead (proc_path (dt_pid task) "stat") rp :: between
            ++ KRead (task_path (dt_pid task) (dt_tid task) "stat") rt :: earlier
    ∧ parse_start_time_from_stat (content_of rp) = dt_process_start_time task
    ∧ parse_start_time_from_stat (content_of rt) = dt_thread_start_time task.

Lemma identity_verified_weaken task before calls after :
  identity_verified task calls → identity_verified task (before ++ calls ++ after).
Proof.
  intros (later & between & earlier & rp & rt & -> & H).
  exists (before ++ later), between, (earlier ++ after), rp, rt. split; [|done].
  by rewrite <-!(assoc_L (++)), <-app_comm_cons, <-(assoc_L (++)), <-app_comm_cons.
Qed.

Section Added.
Context {W : Type} `{!Kernel W} `{!KernelScan W} `{!IntHash}.
Variables (pids : gset Z) (state : ProcessState) (base : string).
Notation Main := (Main (Traced W)).

(** A task made for one of the processes, of a thread that was there. *)
Definition made_for (task : DispatchTask) : Prop :=
  dt_pid task ∈ pids ∧ dt_state task = state ∧ dt_cpuset_base task = base
  ∧ dt_thread_start_time task ≠ 0 ∧ dt_thread_name task ≠ "[dead]".

(** From [m] to [m'], with the sets of dispatched threads: what is queued was
    queued before, or is a new task in the right queue. *)
Record dispatches (done : gset Z) (m : Main) (done' : gset Z) (m' : Main) : Prop := {
  dis_done : done ⊆ done';
  dis_workers : length (mn_workers m') = length (mn_workers m);
  dis_trace : ∃ new, main_trace m' = new ++ main_trace m;
  dis_task i q key task :
    mn_workers m' !! i = Some q → Queue.wq_pending q !! key = Some task →
    (∃ q0, mn_workers m !! i = Some q0 ∧ Queue.wq_pending q0 !! key = Some task)
    ∨ (key = task_key task ∧ i = worker_index task (length (mn_workers m)) ∧ made_for task
       ∧ dt_tid task ∈ done' ∖ done
       ∧ ∃ new, main_trace m' = new ++ main_trace m ∧ identity_verified task new) }.

Lemma dispatches_calm done m m' :
  calm (mn_workers m) (main_trace m) m' → dispatches done m done m'.
Proof. intros [Hw Ht]. split; [done|by rewrite Hw|done|]. rewrite Hw. eauto. Qed.

Lemma dispatches_trans done0 m0 done1 m1 done2 m2 :
  dispatches done0 m0 done1 m1 → dispatches done1 m1 done2 m2 → dispatches done0 m0 done2 m2.
Proof.
  intros [D1 L1 [n1 T1] A1] [D2 L2 [n2 T2] A2]. split.
  - by etrans.
  - by rewrite L2.
  - exists (n2 ++ n1). by rewrite T2, T1, (assoc_L (++)).
  - intros i q key task Hq Hk. destruct (A2 i q key task Hq Hk) as [(q1 & Hq1 & Hk1)|Hnew].
    + destruct (A1 i q1 key task Hq1 Hk1) as [?|(Hkey & Hi & Hm & Hd & new & Ht & Hv)]; [by left|].
      right. split_and!; try done; [set_solver|]. exists (n2 ++ new). split.
      * by rewrite T2, Ht, (assoc_L (++)).
      * rewrite <-(app_nil_r new). by apply identity_verified_weaken.
    + destruct Hnew as (Hkey & Hi & Hm & Hd & new & Ht & Hv). right.
      split_and!; try done; [by rewrite <-L1|set_solver|]. exists (new ++ n1). split.
      * by rewrite Ht, T1, (assoc_L (++)).
      * by apply (identity_verified_weaken _ [] new).
Qed.

(** A quiet operation between two parts of a run. *)
Lemma wp_quiet {A} (op : M Main A) (Q : A → Main → Prop) done0 m0 done m :
  stays op → dispatches done0 m0 done m →
  (∀ a m', dispatches done0 m0 done m' → Q a m') → wp op Q m.
Proof.
  intros Hop Hd HQ. eapply wp_mono; [apply (Hop (mn_workers m) (main_trace m)); by split; [|exists []]|].
  intros a m' Hm'. apply HQ. eapply dispatches_trans; [done|]. by apply dispatches_calm.
Qed.

(** Reading a start time leaves the read in the trace. *)
Lemma process_start_read pid (m : Main) :
  is_valid_pid pid = true →
  wp (main_sys (get_process_start_time pid)) (λ start m',
    ∃ r t, parse_start_time_from_stat (content_of r) = start
      ∧ main_trace m' = KRead (proc_path pid "stat") r :: KNow t :: main_trace m) m.
Proof.
  intros Hp. apply wp_main_sys. unfold get_process_start_time. rewrite Hp. cbn [negb].
  wp_step. eapply wp_mono; [apply read_file_records, proc_dynamic|].
  intros c s (r & t & -> & Ht). wp_step. exists r, t. done.
Qed.
Lemma thread_start_read pid tid (m : Main) :
  wp (main_sys (get_thread_start_time pid tid)) (λ start m',
    start ≠ 0 →
    is_valid_pid pid = true ∧ ∃ r t, parse_start_time_from_stat (content_of r) = start
      ∧ main_trace m' = KRead (task_path pid tid "stat") r :: KNow t :: main_trace m) m.
Proof.
  apply wp_main_sys. unfold get_thread_start_time.
  destruct (is_valid_pid pid); cbn [negb orb]; [|by wp_step].
  destruct (is_valid_tid tid); cbn [negb]; [|by wp_step].
  wp_step. eapply wp_mono; [apply read_file_records, task_dynamic|].
  intros c s (r & t & -> & Htr). wp_step. intros _. split; [done|]. exists r, t. done.
Qed.

(** What a call of [enqueue] adds: nothing, or the task. *)
Lemma enqueue_pending task q :
  let '(r, q') := Queue.enqueue task q in
  Queue.wq_pending q' = Queue.wq_pending q
  ∨ Queue.wq_pending q' = <[task_key task := task]> (Queue.wq_pending q)
    ∧ (r = Queue.Queued ∨ r = Queue.Updated).
Proof.
  unfold Queue.enqueue. destruct (negb _); [by left|].
  destruct (Queue.wq_pending q !! _); [right; cbn; auto|].
  destruct (_ <=? _)%nat; [by left|]. right. cbn. auto.
Qed.

Lemma enqueue_dispatches task m0 done m :
  dispatches done m0 done m →
  made_for task → dt_tid task ∉ done →
  (∃ new, main_trace m = new ++ main_trace m0 ∧ identity_verified task new) →
  wp (enqueue_to_worker task) (λ r m',
    dispatches done m0 (match r with
                        | Queue.Queued | Queue.Updated => {[dt_tid task]} ∪ done
                        | _ => done
                        end) m') m.
Proof.
  intros Hd Hm Hnew Hv. pose proof Hd as [D L T A]. unfold wp, enqueue_to_worker.
  set (idx := worker_index task (length (mn_workers m))).
  assert (∀ r : Queue.EnqueueResult, done ⊆ match r with
            | Queue.Queued | Queue.Updated => {[dt_tid task]} ∪ done | _ => done end) as Hsub.
  { intros []; set_solver. }
  destruct (mn_workers m !! idx) as [q|] eqn:Eq; [|done].
  pose proof (enqueue_pending task q) as Hp. destruct (Queue.enqueue task q) as [r q'].
  split; [apply Hsub|cbn; by rewrite length_insert|done|].
  intros i q1 key t Hi Hk. cbn [mn_workers] in Hi.
  apply list_lookup_insert_Some in Hi as [(<- & -> & Hlt)|[Hne Hi]].
  - destruct Hp as [Hp|[Hp Hr]]; rewrite Hp in Hk.
    + destruct (A idx q key t Eq Hk) as [?|(?&?&?&?&?)]; [by left|].
      right. split_and!; try done. specialize (Hsub r). set_solver.
    + apply lookup_insert_Some in Hk as [[<- <-]|[Hne Hk]].
      * right. split_and!; [done|unfold idx; by rewrite L|done| |done].
        destruct Hr as [-> | ->]; set_solver.
      * destruct (A idx q key t Eq Hk) as [?|(?&?&?&?&?)]; [by left|].
        right. split_and!; try done. specialize (Hsub r). set_solver.
  - destruct (A i q1 key t Hi Hk) as [?|(?&?&?&?&?)]; [by left|].
    right. split_and!; try done. specialize (Hsub r). set_solver.
Qed.

(** The set of dispatched threads after one thread. *)
Definition done_after (tid : Z) (r : thread_outcome) (done : gset Z) : gset Z :=
  match r with ThreadQueued => {[tid]} ∪ done | _ => done end.

Lemma calm_refl (m : Main) : calm (mn_workers m) (main_trace m) m.
Proof. split; [done|by exists []]. Qed.

Lemma calm_trans (m0 m1 m2 : Main) :
  calm (mn_workers m0) (main_trace m0) m1 → calm (mn_workers m1) (main_trace m1) m2 →
  calm (mn_workers m0) (main_trace m0) m2.
Proof.
  intros [W1 [n1 T1]] [W2 [n2 T2]]. split; [by rewrite W2|].
  exists (n2 ++ n1). by rewrite T2, T1, (assoc_L (++)).
Qed.

Lemma stays_calm {A} (op : M Main A) (m0 m : Main) :
  stays op → calm (mn_workers m0) (main_trace m0) m →
  wp op (λ _ m', calm (mn_workers m0) (main_trace m0) m'
                 ∧ calm (mn_workers m) (main_trace m) m') m.
Proof.
  intros Hop Hm. eapply wp_mono; [apply (Hop (mn_workers m) (main_trace m)), calm_refl|].
  intros a m' Hm'. split; [by eapply calm_trans|done].
Qed.

Lemma offer_task_spec task done m0 m :
  calm (mn_workers m0) (main_trace m0) m → made_for task → dt_tid task ∉ done →
  (∃ new, main_trace m = new ++ main_trace m0 ∧ identity_verified task new) →
  wp (offer_task task) (λ r m', dispatches done m0 (done_after (dt_tid task) r done) m') m.
Proof.
  intros Hm Hmade Htid (new & Ht & Hv). unfold offer_task. wp_step.
  eapply wp_mono; [apply (stays_calm exhausted m0 m); [apply stays_exhausted|done]|].
  intros over m1 [H1 [_ [n1 Ht1]]]. wp_step; [by wp_step; apply dispatches_calm|]. wp_step.
  eapply wp_mono; [apply (enqueue_dispatches task m0 done); [by apply dispatches_calm|done|done|]|].
  - exists (n1 ++ new). split; [by rewrite Ht1, Ht, (assoc_L (++))|].
    rewrite <-(app_nil_r new). by apply identity_verified_weaken.
  - intros r m2 H2. destruct r; wp_steps; try done.
    all: apply (wp_quiet _ _ done m0 done); [apply stays_rescan|done|]; intros ? m3 H3; by wp_step.
Qed.

Lemma dispatch_thread_spec pid tid start name cmdline done m :
  pid ∈ pids → tid ∉ done →
  wp (dispatch_thread pid tid start name cmdline state base)
    (λ r m', dispatches done m (done_after tid r done) m') m.
Proof.
  intros Hpid Htid. unfold dispatch_thread. pose proof (calm_refl m) as H0.
  wp_step. eapply wp_mono; [apply (stays_calm _ m m (stays_thread_name pid tid) H0)|].
  intros tname m1 [H1 _]. wp_step.
  eapply wp_mono; [apply (stays_calm _ m m1 stays_after_thread_read H1)|]. intros ? m2 [H2 _].
  wp_step; [by wp_step; apply dispatches_calm|]. wp_step.
  eapply wp_mono; [apply (stays_calm _ m m2 stays_exhausted H2)|]. intros over m3 [H3 _].
  wp_step; [by wp_step; apply dispatches_calm|]. wp_step.
  eapply wp_mono; [apply wp_and; [apply (stays_calm _ m m3 (stays_thread_start pid tid) H3)
                                 |apply thread_start_read]|].
  intros ts m4 [[H4 _] Hrt]. wp_step.
  eapply wp_mono; [apply (stays_calm _ m m4 stays_after_thread_read H4)|]. intros ? m5 [H5 [_ [n5 Ht5]]].
  wp_step; [by wp_step; apply dispatches_calm|].
  destruct (Hrt ltac:(lia)) as (Hvp & rt & t4 & Hts & Ht4). wp_step.
  eapply wp_mono; [apply wp_and; [apply (stays_calm _ m m5 (stays_process_start pid) H5)
                                 |apply (process_start_read pid m5 Hvp)]|].
  intros ps m6 [[H6 _] (rp & t6 & Hps & Ht6)]. wp_step.
  eapply wp_mono; [apply (stays_calm _ m m6 stays_after_thread_read H6)|]. intros ? m7 [H7 [_ [n7 Ht7]]].
  wp_step.
  { wp_step. eapply wp_mono; [apply (stays_calm _ m m7 (stays_rescan true) H7)|]. intros ? m8 [H8 _].
    wp_step. by apply dispatches_calm. }
  lazymatch goal with |- wp (offer_task ?t) _ _ => apply (offer_task_spec t done m m7 H7) end;
    [by repeat split; cbn; try done; lia|done|].
  destruct H3 as [_ [n3 Ht3]].
  exists (n7 ++ KRead (proc_path pid "stat") rp :: KNow t6 :: n5
          ++ KRead (task_path pid tid "stat") rt :: KNow t4 :: n3). split.
  - by rewrite Ht7, Ht6, Ht5, Ht4, Ht3; rewrite <-!(assoc_L (++)); cbn; rewrite <-!(assoc_L (++)).
  - exists n7, (KNow t6 :: n5), (KNow t4 :: n3), rp, rt. split; [done|]. cbn. split; [lia|done].
Qed.

(** ** The loops *)

Lemma dispatches_refl done (m : Main) : dispatches done m done m.
Proof. apply dispatches_calm, calm_refl. Qed.
Lemma calm_dispatches done (m0 m1 m2 : Main) done2 :
  calm (mn_workers m0) (main_trace m0) m1 → dispatches done m1 done2 m2 →
  dispatches done m0 done2 m2.
Proof. intros Hc Hd. eapply dispatches_trans; [by apply dispatches_calm|done]. Qed.

(** A quiet operation, then the rest. *)
Lemma wp_stays {A} (op : M Main A) (Q : A → Main → Prop) m :
  stays op → (∀ a m', calm (mn_workers m) (main_trace m) m' → Q a m') → wp op Q m.
Proof. intros Hop HQ. eapply wp_mono; [apply (Hop (mn_workers m) (main_trace m)), calm_refl|done]. Qed.

Lemma dispatch_threads_spec pid start name cmdline tids c done m :
  pid ∈ pids →
  wp (dispatch_threads pid start name cmdline state base tids c done)
    (λ r m', dispatches done m (pg_processed r.2) m') m.
Proof.
  intros Hpid. revert c done m. induction tids as [|tid tids IH]; intros c done m.
  { apply wp_ret, dispatches_refl. }
  cbn [dispatch_threads]. cbv zeta. wp_step.
  apply wp_stays; [apply stays_exhausted|]. intros over m1 H1.
  wp_step; [by wp_step; apply dispatches_calm|]. wp_step.
  { eapply wp_mono; [apply IH|]. intros r m2 H2. by eapply calm_dispatches. }
  wp_step. eapply wp_mono; [by apply (dispatch_thread_spec pid tid start name cmdline done)|].
  intros outcome m2 H2. assert (dispatches done m (done_after tid outcome done) m2) as H2'
    by (by eapply calm_dispatches).
  destruct outcome; cbn [done_after] in H2'.
  - eapply wp_mono; [apply IH|]. intros r m3 H3. by eapply dispatches_trans.
  - eapply wp_mono; [apply IH|]. intros r m3 H3. by eapply dispatches_trans.
  - by wp_step.
  - wp_step. apply wp_stays; [apply stays_reset_cursor|]. intros c' m3 H3. wp_step.
    eapply dispatches_trans; [done|]. by apply dispatches_calm.
Qed.

Lemma dispatch_process_spec pid p m :
  pid ∈ pids →
  wp (dispatch_process pid state base p)
    (λ r m', dispatches (pg_processed p) m (pg_processed r.2) m') m.
Proof.
  intros Hpid. unfold dispatch_process. cbv zeta.
  set (D (m' : Main) := calm (mn_workers m) (main_trace m) m').
  assert (∀ A (op : M Main A) (Q : A → Main → Prop) m',
    stays op → D m' → (∀ a m'', D m'' → Q a m'') → wp op Q m') as Hs.
  { intros A op Q m' Hop Hm' HQ. eapply wp_mono; [by apply Hop|]. auto. }
  assert (∀ m', D m' → dispatches (pg_processed p) m (pg_processed p) m') as Hq
    by (intros; by apply dispatches_calm).
  wp_step. apply Hs; [stays_walk|apply calm_refl|]. intros c1 m1 H1.
  wp_step. apply Hs; [apply stays_enumerate_tids|done|]. intros [complete c2] m2 H2.
  wp_step; [by wp_step; apply Hq|]. wp_step.
  apply Hs; [apply stays_exhausted|done|]. intros over m3 H3.
  wp_step; [by wp_step; apply Hq|]. wp_step.
  apply Hs; [apply stays_load_name|done|]. intros [name c3] m4 H4.
  wp_step.
  { wp_step. apply Hs; [apply stays_reset_cursor|done|]. intros c4 m5 H5. wp_step. by apply Hq. }
  wp_step. apply Hs; [apply stays_exhausted|done|]. intros over2 m5 H5.
  wp_step; [by wp_step; apply Hq|]. wp_step.
  apply Hs; [apply stays_load_start|done|]. intros [start c4] m6 H6.
  wp_step.
  { wp_step. apply Hs; [apply stays_reset_cursor|done|]. intros c5 m7 H7. wp_step. by apply Hq. }
  wp_step. apply Hs; [apply stays_exhausted|done|]. intros over3 m7 H7.
  wp_step; [by wp_step; apply Hq|]. wp_step.
  apply Hs; [apply stays_load_cmdline|done|]. intros [cmdline c5] m8 H8.
  wp_step. eapply wp_mono; [by apply dispatch_threads_spec|]. intros [stop p'] m9 H9.
  assert (dispatches (pg_processed p) m (pg_processed p') m9) as H9' by (by eapply calm_dispatches).
  wp_step; [by wp_step|]. wp_step.
  apply wp_stays; [apply stays_reset_cursor|]. intros c6 m10 H10. wp_step.
  eapply dispatches_trans; [done|]. by apply dispatches_calm.
Qed.

Lemma dispatch_processes_spec l p m :
  Forall (.∈ pids) l →
  wp (dispatch_processes l state base p)
    (λ r m', dispatches (pg_processed p) m (pg_processed r.2) m') m.
Proof.
  intros Hl. revert p m. induction Hl as [|pid l Hpid _ IH]; intros p m.
  { apply wp_ret, dispatches_refl. }
  cbn [dispatch_processes]. wp_step. eapply wp_mono; [by apply dispatch_process_spec|].
  intros [stop p1] m1 H1. wp_step; [by wp_step|].
  eapply wp_mono; [apply IH|]. intros r m2 H2. by eapply dispatches_trans.
Qed.

Lemma dispatch_pids_spec p m :
  wp (dispatch_pids_to_workers pids state base p)
    (λ r m', dispatches (pg_processed p) m (pg_processed r.2) m') m.
Proof.
  unfold dispatch_pids_to_workers. cbv zeta. do 2 wp_step.
  assert (∀ m' : Main, calm (mn_workers m) (main_trace m) m' →
    dispatches (pg_processed p) m (pg_processed p) m') as Hq by (intros; by apply dispatches_calm).
  assert (wp (c ← reset_cursor (pg_cursor p); mret (false, at_cursor c (pg_processed p)))
    (λ r m', dispatches (pg_processed p) m (pg_processed r.2) m') m) as Hstop.
  { wp_step. apply wp_stays; [apply stays_reset_cursor|]. intros c m1 H1. wp_step. by apply Hq. }
  wp_step; [done|].
  assert (Forall (.∈ pids) (if 0 <? cr_pid (pg_cursor p)
    then elements_from (cr_pid (pg_cursor p)) pids else set_elements pids)) as Hall.
  { apply Forall_forall. intros x. unfold elements_from, set_elements.
    destruct (0 <? _); rewrite ?list_elem_of_filter, sort_ints_elem, elem_of_elements; naive_solver. }
  destruct (if 0 <? _ then _ else _) as [|first rest]; [done|].
  wp_step. apply wp_stays; [stays_walk|]. intros c m1 H1.
  eapply wp_mono; [apply dispatch_processes_spec; exact Hall|]. intros r m2 H2.
  by eapply calm_dispatches.
Qed.
End Added.
