(* ===== verification/FullScanFacts.v ===== *)
(** * What a full scan has found

    [consistent s]: the sets and maps a scan fills agree with each other.  A
    process is in the set of its observed state and in no other, threads are
    kept only of processes that are kept, and nothing of a process stays when
    it turns out to be another one. *)

From S2P Require Import Prelude CppString ConfigTypes Kernel FileUtils ThreadMatcher ThreadCache.
From S2P Require Import ScanWorker ScanCursor FullScan.

(** ** Findings *)

(** What the findings say of one process. *)
Definition has_state (f : Findings) (pid : Z) (state : ProcessState) : Prop :=
  ∃ start, observed_states f !! pid = Some (start, state).

Record agreeing (f : Findings) : Prop := {
  ag_states : live_processes f = fst <$> observed_states f;
  ag_top : ∀ pid, pid ∈ top_app_pids f ↔ has_state f pid TOP;
  ag_fg : ∀ pid, pid ∈ foreground_pids f ↔ has_state f pid FG;
  ag_bg : ∀ pid, pid ∈ background_pids f → has_state f pid BG;
  ag_pinned : pinned_pids f ⊆ dom (live_processes f);
  ag_topfore : topfore_pids f ⊆ dom (live_processes f);
  ag_threads : ∀ pid tid, is_Some (live_threads f !! (pid, tid)) → pid ∈ dom (live_processes f);
  ag_dead : dead_pids f ## dom (live_processes f) }.

Lemma agreeing_nothing : agreeing nothing_found.
Proof.
  split; cbn; try done; try set_solver.
  - intros pid. unfold has_state. cbn. split; [set_solver|]. by intros [? ?].
  - intros pid. unfold has_state. cbn. split; [set_solver|]. by intros [? ?].
  - intros pid tid. rewrite lookup_empty. by intros [].
Qed.

Lemma live_has_state f pid :
  agreeing f → pid ∈ dom (live_processes f) ↔ ∃ state, has_state f pid state.
Proof.
  intros Hf. rewrite (ag_states f Hf), dom_fmap, elem_of_dom. unfold has_state. split.
  - intros [[start state] H]. eauto.
  - intros (state & start & H). eauto.
Qed.

Lemma agreeing_add_dead pid f :
  pid ∉ dom (live_processes f) → agreeing f → agreeing (add_dead pid f).
Proof. intros Hp [? ? ? ? ? ? ? ?]. split; cbn; try done. set_solver. Qed.

Lemma agreeing_add_process pid start state f :
  pid ∉ dom (live_processes f) → pid ∉ dead_pids f → agreeing f →
  agreeing (add_process pid start state f).
Proof.
  intros Hp Hdead Hf.
  assert (∀ st, ¬ has_state f pid st) as Hno.
  { intros st H. apply Hp. apply live_has_state; eauto. }
  assert (∀ p st, has_state (add_process pid start state f) p st ↔
    (p = pid ∧ st = state) ∨ has_state f p st) as Hst.
  { intros p st. unfold has_state. cbn. split.
    - intros [s [[<- [= <- <-]]|[_ H]]%lookup_insert_Some]; eauto.
    - intros [[-> ->]|[s H]]; [exists start; by rewrite lookup_insert_eq|]. exists s.
      rewrite lookup_insert_ne; [done|]. intros <-. apply (Hno st). by exists s. }
  destruct Hf as [Hs Ht Hfg Hb Hpin Htop Hth Hd]. split.
  - cbn. by rewrite fmap_insert, Hs.
  - intros p. rewrite Hst, <-Ht. cbn. destruct state; set_solver.
  - intros p. rewrite Hst, <-Hfg. cbn. destruct state; set_solver.
  - intros p Hin. rewrite Hst. right. by apply Hb.
  - cbn. set_solver.
  - cbn. set_solver.
  - intros p tid Hin. cbn in *. apply Hth in Hin. set_solver.
  - cbn. set_solver.
Qed.

Lemma agreeing_add_thread pid tid start f :
  pid ∈ dom (live_processes f) → agreeing f → agreeing (add_thread pid tid start f).
Proof.
  intros Hp [? ? ? ? ? ? Hth ?]. split; try done. intros p t. cbn.
  destruct (live_threads f !! (pid, tid)); [apply Hth|].
  intros [x [[[= <- <-] _]|[_ H]]%lookup_insert_Some]; [done|]. apply (Hth p t). eauto.
Qed.

Lemma has_state_forget pid f p st :
  has_state (forget_process pid f) p st ↔ p ≠ pid ∧ has_state f p st.
Proof.
  unfold has_state. cbn. setoid_rewrite lookup_delete_Some. naive_solver.
Qed.

Lemma agreeing_forget pid f : agreeing f → agreeing (forget_process pid f).
Proof.
  intros [Hs Ht Hfg Hb Hpin Htop Hth Hd]. split.
  - cbn. by rewrite fmap_delete, Hs.
  - intros p. rewrite has_state_forget, <-Ht. cbn. set_solver.
  - intros p. rewrite has_state_forget, <-Hfg. cbn. set_solver.
  - intros p. rewrite has_state_forget. cbn. intros [Hin Hne]%elem_of_difference.
    split; [set_solver|]. by apply Hb.
  - cbn. rewrite dom_delete. set_solver.
  - cbn. rewrite dom_delete. set_solver.
  - intros p t [x [Hx Hne]%map_lookup_filter_Some]. cbn in *. rewrite dom_delete.
    apply elem_of_difference. split; [eauto|set_solver].
  - cbn. rewrite dom_delete. set_solver.
Qed.

Lemma agreeing_add_rule pid state background result f :
  has_state f pid state → agreeing f → agreeing (add_rule pid state background result f).
Proof.
  intros Hst Hf. assert (pid ∈ dom (live_processes f)) as Hlive by (apply live_has_state; eauto).
  destruct Hf as [Hs Ht Hfg Hb Hpin Htop Hth Hd]. split; try done.
  - intros p. cbn. destruct (bool_decide (state = BG) && background) eqn:E; [|apply Hb].
    apply andb_true_iff in E as [->%bool_decide_eq_true _].
    intros [->%elem_of_singleton|Hin]%elem_of_union; [done|by apply Hb].
  - cbn. destruct (_ && _); set_solver.
  - cbn. destruct (_ && _); set_solver.
Qed.

(** ** The enumeration of processes *)

Lemma unique_ints_sorted l :
  StronglySorted Z.le l → StronglySorted Z.lt (unique_ints l) ∧ ∀ x, x ∈ unique_ints l ↔ x ∈ l.
Proof.
  induction 1 as [|x l Hs [IHs IHe] Hx]; [split; [constructor|done]|].
  destruct l as [|y l]; [split; [by constructor|done]|]. cbn [unique_ints].
  destruct (Z.eqb_spec x y) as [->|Hne].
  - split; [done|]. intros z. rewrite IHe. set_solver.
  - split; [|intros z; rewrite !elem_of_cons, IHe, !elem_of_cons; naive_solver].
    constructor; [done|]. apply Forall_forall. intros z Hz%IHe.
    apply Forall_cons in Hx as [Hy _]. apply StronglySorted_inv in Hs as [_ Hy'].
    rewrite Forall_forall in Hy'. apply elem_of_cons in Hz as [->|Hz]; [lia|].
    specialize (Hy' z Hz). lia.
Qed.

Lemma sorted_unique_spec l :
  StronglySorted Z.lt (sorted_unique l) ∧ ∀ x, x ∈ sorted_unique l ↔ x ∈ l.
Proof.
  destruct (unique_ints_sorted _ (sort_ints_sorted l)) as [Hs He]. split; [done|].
  intros x. unfold sorted_unique. by rewrite He, sort_ints_elem.
Qed.

Lemma parse_id_positive name id : parse_id name = Some id → 0 < id.
Proof.
  unfold parse_id. destruct (negb _); [done|]. cbv zeta. destruct (_ && _) eqn:E; [|done].
  intros [= <-]. unfold is_valid_pid in E. lia.
Qed.

Section Scan.
Context {R W : Type} `{!RegexEngine R} `{!StringHash} `{!Kernel W} `{!KernelScan W}.

Lemma read_entries_positive fuel dir ids m :
  Forall (λ p, 0 < p) ids →
  wp (read_entries fuel dir ids) (λ r _, Forall (λ p, 0 < p) r.2) m.
Proof.
  revert ids m. induction fuel as [|fuel IH]; intros ids m Hids; [done|].
  cbn [read_entries]. wp_step. apply wp_any. intros over m1. wp_step; [done|].
  wp_step. apply wp_any. intros entry m2. wp_step; [|done..].
  wp_step. apply wp_any. intros ? m3. apply IH.
  destruct (parse_id (chars name)) as [id|] eqn:E; [|done].
  apply Forall_app. split; [done|]. constructor; [|done]. by eapply parse_id_positive.
Qed.

(** ** The scan *)

(** How far the processes of [s] were looked at. *)
Definition seen (s : FullScanState) : list Z :=
  take (if cur_pid (fs_target s) =? 0 then fs_pid_index s else S (fs_pid_index s)) (fs_pids s).

Record consistent (s : FullScanState) : Prop := {
  co_agree : agreeing (fs_found s);
  co_positive : Forall (λ p, 0 < p) (fs_pids s);
  co_sorted : fs_pids_complete s = true → StronglySorted Z.lt (fs_pids s);
  co_before : fs_pids_complete s = false →
    fs_pid_index s = 0%nat ∧ cur_pid (fs_target s) = 0 ∧ fs_found s = nothing_found;
  co_seen : ∀ pid, pid ∈ dom (live_processes (fs_found s)) ∪ dead_pids (fs_found s) → pid ∈ seen s;
  co_target : cur_pid (fs_target s) = 0 ∨
    fs_pids s !! fs_pid_index s = Some (cur_pid (fs_target s))
    ∧ observed_states (fs_found s) !! cur_pid (fs_target s)
      = Some (cur_process_start_time (fs_target s), cur_state (fs_target s)) }.

Lemma consistent_new : consistent new_full_scan.
Proof.
  split; cbn; done || apply agreeing_nothing || set_solver || by left.
Qed.

Lemma consistent_begin prior s m : wp (begin_scan prior s) (λ s' _, consistent s') m.
Proof.
  unfold begin_scan. wp_step. eapply wp_mono with (Q := λ s' _, s' = new_full_scan).
  - unfold reset_scan. wp_step. apply wp_any. intros ? m1. wp_step. apply wp_any. by intros ? m2.
  - intros s' m1 ->. do 2 wp_step. wp_step.
    split; cbn; done || apply agreeing_nothing || set_solver || by left.
Qed.

Lemma consistent_enumerate s m :
  consistent s → wp (enumerate_pids s) (λ r _, consistent r.2 ∧ (r.1 = true → fs_pids_complete r.2 = true)) m.
Proof.
  intros Hs. pose proof Hs as [Ha Hp Hso Hb Hse Ht]. unfold enumerate_pids.
  destruct (fs_pids_complete s) eqn:E; [by wp_step|]. destruct (Hb eq_refl) as (Hi & Hc & Hf).
  assert (∀ dir complete pids, Forall (λ p, 0 < p) pids →
    (complete = true → StronglySorted Z.lt pids) →
    consistent (with_proc_dir dir complete pids s)) as Hwith.
  { intros dir complete pids Hpids Hsorted. split; cbn; try done.
    - rewrite Hf. cbn. set_solver.
    - by left. }
  wp_step. eapply wp_mono with (Q := λ o _, ∀ dir pids, o = Some (dir, pids) → Forall (λ p, 0 < p) pids).
  { wp_step; [wp_step; naive_solver|]. wp_step. apply wp_any. intros dir m1. wp_step.
    intros d pids. destruct dir; naive_solver. }
  intros opened m1 Hopened. wp_step; [|by wp_step]. wp_step. wp_step. wp_step. wp_step.
  eapply wp_mono; [apply read_entries_positive; naive_solver|]. intros [outcome ids] m2 Hids.
  cbn in Hids. wp_step; repeat (wp_step || (apply wp_any; intros ? ?)); split; try done; apply Hwith; try done.
  - apply Forall_forall. intros x. rewrite (proj2 (sorted_unique_spec ids)).
    by apply Forall_forall.
  - intros _. apply sorted_unique_spec.
Qed.

Lemma clear_target_none t m : wp (clear_target t) (λ t' _, t' = no_target) m.
Proof. unfold clear_target. wp_step. by apply wp_any. Qed.

(** The scan stands at process [pid], not yet identified, or identified. *)
Record before_pid (pid : Z) (s : FullScanState) : Prop := {
  bp_consistent : consistent s;
  bp_complete : fs_pids_complete s = true;
  bp_pid : fs_pids s !! fs_pid_index s = Some pid }.
Definition at_pid (pid : Z) (s : FullScanState) : Prop :=
  before_pid pid s ∧ cur_pid (fs_target s) = pid.

Lemma pid_positive pid s : before_pid pid s → 0 < pid.
Proof.
  intros [Hc _ Hp]. apply list_elem_of_lookup_2 in Hp.
  by apply (proj1 (Forall_forall _ _) (co_positive s Hc)).
Qed.

(** The process at the index is not among the earlier ones. *)
Lemma pid_not_earlier pid s : before_pid pid s → pid ∉ take (fs_pid_index s) (fs_pids s).
Proof.
  intros [Hc Hcm Hp] Hin. pose proof (co_sorted s Hc Hcm) as Hs.
  apply StronglySorted_lt_NoDup in Hs. rewrite <-(take_drop (fs_pid_index s) (fs_pids s)) in Hs.
  apply NoDup_app in Hs as (_ & Hd & _). apply (Hd pid Hin).
  apply list_elem_of_lookup_2 with (i := 0%nat). by rewrite lookup_drop, Nat.add_0_r.
Qed.

Lemma seen_next pid s : before_pid pid s →
  take (S (fs_pid_index s)) (fs_pids s) = take (fs_pid_index s) (fs_pids s) ++ [pid].
Proof. intros [_ _ Hp]. by apply take_S_r. Qed.

Lemma not_identified pid s :
  before_pid pid s → cur_pid (fs_target s) ≠ pid → cur_pid (fs_target s) = 0.
Proof.
  intros [Hc _ Hp] Hne. destruct (co_target s Hc) as [|[Ht _]]; [done|]. congruence.
Qed.

Lemma not_seen_yet pid s :
  before_pid pid s → cur_pid (fs_target s) ≠ pid →
  pid ∉ dom (live_processes (fs_found s)) ∧ pid ∉ dead_pids (fs_found s).
Proof.
  intros Hb Hne. pose proof (not_identified pid s Hb Hne) as H0.
  pose proof (pid_not_earlier pid s Hb) as Hn. pose proof (co_seen s (bp_consistent _ _ Hb) pid) as Hs.
  unfold seen in Hs. rewrite H0 in Hs. cbn [Z.eqb] in Hs. set_solver.
Qed.

(** The scan goes past a process, with findings that mention no other one. *)
Lemma consistent_past pid found s :
  before_pid pid s → agreeing found →
  (∀ p, p ∈ dom (live_processes found) ∪ dead_pids found →
     p = pid ∨ p ∈ take (fs_pid_index s) (fs_pids s)) →
  consistent (with_position (S (fs_pid_index s)) no_target found s).
Proof.
  intros Hb Ha Hsub. pose proof (bp_consistent _ _ Hb) as Hc. split; cbn; try done.
  - apply Hc.
  - apply Hc.
  - rewrite (bp_complete _ _ Hb). done.
  - intros p Hp. unfold seen. cbn. rewrite (seen_next pid) by done. set_solver.
  - by left.
Qed.

Lemma identify_spec pid s m :
  before_pid pid s → cur_pid (fs_target s) ≠ pid →
  wp (identify_process pid s) (λ r _,
    consistent r.2 ∧ fs_pids_complete r.2 = true ∧ (r.1 = true → at_pid pid r.2)) m.
Proof.
  intros Hb Hne. destruct (not_seen_yet pid s Hb Hne) as [Hl Hd].
  pose proof (not_identified pid s Hb Hne) as H0. pose proof (bp_consistent _ _ Hb) as Hc.
  assert (∀ p, p ∈ dom (live_processes (fs_found s)) ∪ dead_pids (fs_found s) →
    p ∈ take (fs_pid_index s) (fs_pids s)) as Hseen.
  { intros p Hp%(co_seen s Hc). unfold seen in Hp. by rewrite H0 in Hp. }
  unfold identify_process. cbv zeta.
  wp_step. apply wp_any. intros ? m1. wp_step. apply wp_any. intros start m2.
  wp_step. apply wp_any. intros ? m3. wp_step.
  { wp_step. split; [|split; [apply Hb|done]]. apply (consistent_past pid); [done|apply Hc|set_solver]. }
  wp_step. apply wp_any. intros name m4. wp_step.
  { wp_step. split; [|split; [apply Hb|done]]. apply (consistent_past pid); [done| |].
    - apply agreeing_add_dead; [done|apply Hc].
    - cbn. set_solver. }
  wp_step. apply wp_any. intros cmdline m5. wp_step. apply wp_any. intros cgroup m6. wp_step.
  set (state := state_of _ _ _).
  assert (consistent (with_position (fs_pid_index s) (target_of pid start name cmdline state)
            (add_process pid start state (fs_found s)) s)) as Hnew.
  { pose proof (pid_positive pid s Hb) as Hpos. split; cbn.
    - apply agreeing_add_process; [done|done|apply Hc].
    - apply Hc.
    - apply Hc.
    - by rewrite (bp_complete _ _ Hb).
    - intros p Hp. unfold seen. cbn. destruct (Z.eqb_spec pid 0); [lia|].
      rewrite (seen_next pid) by done. set_solver.
    - right. split; [apply Hb|]. by rewrite lookup_insert_eq. }
  split; [done|]. split; [apply Hb|]. intros _. split; [|done]. by split; [|apply Hb|apply Hb].
Qed.

(** Changing the stream of threads only. *)
Lemma at_pid_tids pid dir complete tids index found s :
  at_pid pid s → agreeing found →
  live_processes found = live_processes (fs_found s) → dead_pids found = dead_pids (fs_found s) →
  observed_states found = observed_states (fs_found s) →
  at_pid pid (with_position (fs_pid_index s) (with_tids dir complete tids index (fs_target s))
                found s).
Proof.
  intros [[Hc Hcm Hp] Ht] Ha Hl Hd Ho. split; [|done]. split; [|done|done].
  destruct Hc as [? ? ? ? ? ?]. split; try done.
  - cbn. by rewrite Hcm.
  - cbn. by rewrite Hl, Hd.
  - cbn. by rewrite Ho.
Qed.

Lemma enumerate_current_spec t m :
  wp (enumerate_current_tids t) (λ r _, ∃ dir complete tids index,
    r.2 = with_tids dir complete tids index t) m.
Proof.
  unfold enumerate_current_tids. destruct (cur_tids_complete t) eqn:E.
  { wp_step. exists (cur_task_dir t), true, (cur_tids t), (cur_tid_index t). destruct t. cbn in *. by subst. }
  wp_step. apply wp_any. intros opened m1. wp_step; [|wp_step; eauto].
  wp_step. wp_step. apply wp_any. intros [[complete dir] tids] m2. wp_step. eauto.
Qed.

Lemma record_threads_spec pid tids s m :
  at_pid pid s → wp (record_threads pid tids s) (λ r _, at_pid pid r.2) m.
Proof.
  revert s m. induction tids as [|tid tids IH]; intros s m Hs; [done|]. cbn [record_threads].
  wp_step. apply wp_any. intros over m1. wp_step; [by wp_step|]. wp_step.
  apply wp_any. intros start m2. wp_step. apply wp_any. intros ? m3. cbv zeta. apply IH.
  assert (agreeing (fs_found s)) as Ha by apply Hs.
  apply at_pid_tids; try done; destruct (start =? 0); try done.
  apply agreeing_add_thread; [|done]. apply live_has_state; [done|].
  destruct Hs as [[Hc _ Hp] Ht]. destruct (co_target s Hc) as [H0|[_ Ho]].
  - rewrite Ht in H0. pose proof (co_positive s Hc) as Hpos. rewrite Forall_forall in Hpos.
    apply list_elem_of_lookup_2, Hpos in Hp. lia.
  - rewrite Ht in Ho. unfold has_state. eauto.
Qed.

Lemma finish_spec (matcher : ThreadMatcher R) pid s m :
  at_pid pid s →
  wp (finish_process matcher pid s) (λ s' _, consistent s' ∧ fs_pids_complete s' = true) m.
Proof.
  intros [Hb Ht]. pose proof (bp_consistent _ _ Hb) as Hc. pose proof (co_agree s Hc) as Ha.
  assert (∀ p, p ∈ dom (live_processes (fs_found s)) ∪ dead_pids (fs_found s) →
    p = pid ∨ p ∈ take (fs_pid_index s) (fs_pids s)) as Hseen.
  { intros p Hp%(co_seen s Hc). unfold seen in Hp. pose proof (pid_positive pid s Hb).
    destruct (Z.eqb_spec (cur_pid (fs_target s)) 0); [lia|].
    rewrite (seen_next pid) in Hp by done. set_solver. }
  unfold finish_process. cbv zeta. wp_step. apply wp_any. intros verified m1. wp_step.
  - wp_step. eapply wp_mono; [apply clear_target_none|]. intros t' m2 ->. wp_step.
    split; [|apply Hb]. split; cbn; try apply Hc.
    + by apply agreeing_forget.
    + by rewrite (bp_complete _ _ Hb).
    + intros p Hp. unfold seen. cbn. rewrite dom_delete in Hp.
      destruct (decide (p = pid)) as [->|Hne]; [|set_solver]. exfalso.
      assert (pid ∈ dom (live_processes (fs_found s))); [|pose proof (ag_dead _ Ha); set_solver].
      apply live_has_state; [done|]. pose proof (pid_positive pid s Hb).
      destruct (co_target s Hc) as [|[_ Ho]]; [lia|]. rewrite Ht in Ho. unfold has_state. eauto.
    + by left.
  - wp_step. apply wp_any. intros result m2. wp_step.
    eapply wp_mono; [apply clear_target_none|]. intros t' m3 ->. wp_step.
    split; [|apply Hb]. apply (consistent_past pid); [done| |done].
    apply agreeing_add_rule; [|done]. pose proof (pid_positive pid s Hb).
    destruct (co_target s Hc) as [|[_ Ho]]; [lia|]. rewrite Ht in Ho. unfold has_state. eauto.
Qed.

Lemma scan_step_consistent (matcher : ThreadMatcher R) pid s m :
  before_pid pid s →
  wp (scan_step matcher pid s) (λ r _, consistent r.2 ∧ fs_pids_complete r.2 = true) m.
Proof.
  intros Hb. unfold scan_step. wp_step. apply wp_any. intros over m1.
  wp_step; [wp_step; split; apply Hb|]. wp_step.
  eapply wp_mono with (Q := λ r _,
    consistent r.2 ∧ fs_pids_complete r.2 = true ∧ (r.1 = true → at_pid pid r.2)).
  { destruct (Z.eqb_spec (cur_pid (fs_target s)) pid) as [He|Hne]; cbn [negb].
    - wp_step. split; [apply Hb|]. split; [apply Hb|]. by split.
    - by apply identify_spec. }
  intros [go s1] m2 (Hc1 & Hm1 & Hat). cbn in Hc1, Hm1, Hat.
  destruct go; cbn [negb]; [|by wp_step]. specialize (Hat eq_refl). wp_step.
  eapply wp_mono; [apply enumerate_current_spec|].
  intros [complete t] m3 (dir & cm & tids & index & Ht). cbn in Ht. cbv zeta beta iota. subst t.
  assert (at_pid pid (with_target (with_tids dir cm tids index (fs_target s1)) s1)) as Hat2.
  { apply at_pid_tids; try done. apply Hat. }
  wp_step; [wp_step; split; apply Hat2|]. wp_step.
  eapply wp_mono; [by apply (record_threads_spec pid)|]. intros [recorded s2] m4 Hat3. cbn in Hat3.
  wp_step; [wp_step; split; apply Hat3|]. wp_step. apply wp_any. intros over' m5.
  wp_step; [wp_step; split; apply Hat3|]. wp_step.
  eapply wp_mono; [by apply (finish_spec matcher pid)|]. intros s3 m6 H3. by wp_step.
Qed.

Lemma scan_processes_consistent (matcher : ThreadMatcher R) fuel s m :
  consistent s → fs_pids_complete s = true →
  wp (scan_processes fuel matcher s) (λ r _, consistent r.2) m.
Proof.
  revert s m. induction fuel as [|fuel IH]; intros s m Hs Hc;
    cbn [scan_processes]; destruct (fs_pids s !! fs_pid_index s) as [pid|] eqn:E; try done.
  wp_step. eapply wp_mono; [apply (scan_step_consistent matcher pid); by split|].
  intros [[outcome|] s1] m1 [H1 H2]; [done|]. by apply IH.
Qed.

Lemma advance_consistent (matcher : ThreadMatcher R) s m :
  consistent s → wp (advance_full_scan matcher s) (λ r _, consistent r.2) m.
Proof.
  intros Hs. unfold advance_full_scan. wp_step; [by wp_step|]. wp_step.
  eapply wp_mono; [by apply consistent_enumerate|]. intros [complete s1] m1 [H1 H2].
  cbn in H1, H2. destruct complete; cbn [negb]; [|by wp_step]. wp_step. wp_step. wp_step.
  eapply wp_mono; [apply scan_processes_consistent; auto|]. intros [outcome s2] m2 H3.
  wp_step; [|by wp_step..]. wp_step. apply wp_any. intros ? m3. by wp_step.
Qed.

(** The states a scan goes through, pass by pass, whatever else happens to the
    system, the caches and the queues in between. *)
Inductive scanned (matcher : ThreadMatcher R) : FullScanState → Prop :=
  | scanned_begin prior s (m : Main W) : scanned matcher ((begin_scan prior s) m).1
  | scanned_advance s (m : Main W) :
      scanned matcher s → scanned matcher ((advance_full_scan matcher s) m).1.2.

Lemma scanned_consistent (matcher : ThreadMatcher R) s : scanned matcher s → consistent s.
Proof.
  induction 1 as [prior s m|s m _ IH].
  - pose proof (consistent_begin prior s m) as Hw. by apply wp_unfold in Hw.
  - pose proof (advance_consistent matcher s m IH) as Hw. by apply wp_unfold in Hw.
Qed.
End Scan.
