(* ===== verification/CycleFacts.v ===== *)
(** * Properties of the scheduling pass

    Every queued task is in the queue its identity selects, and an unfinished
    cycle is resumed by the next pass. *)

From S2P Require Import Prelude CppString ConfigTypes Kernel FileUtils FileFacts ThreadMatcher.
From S2P Require Import ThreadCache Env Tracing WorkerGuard ScanWorker ScanCursor Dispatch FullScan.
From S2P Require Import ScanCycle DispatchFacts.

Section Routing.
Context {R W : Type} `{!RegexEngine R} `{!StringHash} `{!Kernel W} `{!KernelScan W} `{!IntHash}.
Notation Main := (Main (Traced W)).

(** Every task waits in the queue that its identity selects, under its own
    key. *)
Definition routed (m : Main) : Prop :=
  ∀ i q key task, mn_workers m !! i = Some q → Queue.wq_pending q !! key = Some task →
    key = task_key task ∧ i = worker_index task (length (mn_workers m)).

Lemma dispatches_routed pids state base done m done' m' :
  dispatches pids state base done m done' m' → routed m → routed m'.
Proof.
  intros [_ Hl _ Ht] Hm i q key task Hq Hk. rewrite Hl.
  destruct (Ht i q key task Hq Hk) as [(q0 & Hq0 & Hk0)|(-> & Hi & _)]; [by eapply Hm|done].
Qed.

Lemma stays_routed {A} (op : M Main A) : stays op → keeps routed op.
Proof.
  intros Hop m Hm. eapply wp_mono; [apply (Hop (mn_workers m) (main_trace m)), calm_refl|].
  intros a m' [Hw _]. unfold routed. by rewrite Hw.
Qed.

(** ** The scan leaves the queues alone *)

Lemma stays_matcher {A} (op : M (MatcherState (Traced W)) A) :
  adds (λ s : MatcherState (Traced W), tr_calls (ms_world s)) (λ _, True) op → stays (main_matcher op).
Proof.
  intros Hop ws tr m [Hw [new Ht]]. unfold wp, main_matcher.
  specialize (Hop (MkMatcherState (sys_world (mn_sys m)) (mn_buckets m))). unfold wp in Hop.
  destruct (op _) as [a s]. destruct Hop as (new' & Hs & _). split; [done|]. exists (new' ++ new).
  unfold main_trace, sys_trace in *. cbn in *. by rewrite Hs, Ht, (assoc_L (++)).
Qed.

Lemma stays_cgroup_state pid : stays (main_sys (get_cgroup_state_info pid) : M Main _).
Proof.
  apply stays_sys. unfold get_cgroup_state_info, get_cgroup_path, get_cgroup_path_from_file.
  adds_steps; auto using adds_now, adds_read_file, adds_on_cgroup_cache, adds_read.
Qed.

Lemma stays_match (matcher : ThreadMatcher R) a b st c :
  stays (main_matcher (match_process_only matcher a b st c) : M Main _).
Proof.
  apply stays_matcher.
  assert (adds (λ s : MatcherState (Traced W), tr_calls (ms_world s)) (λ _, True) matcher_now) as Hnow.
  { intros s. unfold wp, matcher_now. cbn. unfold traced. destruct (k_now _) as [t w]. cbn.
    exists [KNow t]. split; [done|]. by constructor. }
  unfold match_process_only, match_impl, get_cached_process_result, cache_process_result, set_bucket.
  adds_steps; try apply Hnow; by apply adds_modify.
Qed.
#[local] Hint Resolve stays_cgroup_state stays_match : stays.

Lemma stays_clear_target t : stays (clear_target t : M Main _).
Proof. unfold clear_target. stays_walk. Qed.
#[local] Hint Resolve stays_clear_target : stays.
Lemma stays_reset_scan s : stays (reset_scan s : M Main _).
Proof. unfold reset_scan. stays_walk. Qed.
#[local] Hint Resolve stays_reset_scan : stays.
Lemma stays_begin_scan prior s : stays (begin_scan prior s : M Main _).
Proof. unfold begin_scan. stays_walk. Qed.
Lemma stays_enumerate_pids s : stays (enumerate_pids s : M Main _).
Proof. unfold enumerate_pids. stays_walk. Qed.
Lemma stays_enumerate_current t : stays (enumerate_current_tids t : M Main _).
Proof. unfold enumerate_current_tids. stays_walk. Qed.
Lemma stays_identify pid s : stays (identify_process pid s : M Main _).
Proof. unfold identify_process. stays_walk. Qed.
Lemma stays_record_threads pid tids s : stays (record_threads pid tids s : M Main _).
Proof.
  revert s. induction tids as [|tid tids IH]; intros s; cbn [record_threads]; stays_walk; apply IH.
Qed.
Lemma stays_finish (matcher : ThreadMatcher R) pid s : stays (finish_process matcher pid s : M Main _).
Proof. unfold finish_process. stays_walk. Qed.
Lemma stays_main_cache f : stays (main_cache f : M Main unit).
Proof. by apply stays_modify. Qed.
#[local] Hint Resolve stays_begin_scan stays_enumerate_pids stays_enumerate_current stays_identify
  stays_record_threads stays_finish stays_main_cache : stays.
Lemma stays_scan_step (matcher : ThreadMatcher R) pid s : stays (scan_step matcher pid s : M Main _).
Proof. unfold scan_step. stays_walk. Qed.
#[local] Hint Resolve stays_scan_step : stays.
Lemma stays_scan_processes (matcher : ThreadMatcher R) fuel s :
  stays (scan_processes fuel matcher s : M Main _).
Proof.
  revert s. induction fuel as [|fuel IH]; intros s; cbn [scan_processes]; stays_walk; apply IH.
Qed.
#[local] Hint Resolve stays_scan_processes : stays.
Lemma stays_advance (matcher : ThreadMatcher R) s : stays (advance_full_scan matcher s : M Main _).
Proof. unfold advance_full_scan. stays_walk. Qed.
#[local] Hint Resolve stays_advance : stays.

(** ** A pass keeps the tasks routed *)

Variables (matcher : ThreadMatcher R) (sched : SchedConfig).

Lemma stays_reset_cursors c : stays (reset_cursors c : M Main _).
Proof. unfold reset_cursors. stays_walk. Qed.
#[local] Hint Resolve stays_reset_cursors : stays.
Lemma stays_begin_cycle c : stays (begin_cycle c : M Main _).
Proof. unfold begin_cycle. stays_walk. Qed.
#[local] Hint Resolve stays_begin_cycle : stays.
Lemma stays_open_cycle c : stays (open_cycle sched c : M Main _).
Proof. unfold open_cycle. stays_walk. Qed.
Lemma stays_run_full_scan c : stays (run_full_scan c : M Main _).
Proof. unfold run_full_scan. stays_walk. Qed.
Lemma stays_advance_cycle c : stays (advance_cycle_scan matcher c : M Main _).
Proof. unfold advance_cycle_scan. stays_walk. Qed.

Lemma dispatch_routed pids state base p :
  keeps routed (dispatch_pids_to_workers pids state base p : M Main _).
Proof.
  intros m Hm. eapply wp_mono; [apply dispatch_pids_spec|]. intros r m' Hd.
  eapply dispatches_routed; [exact Hd|done].
Qed.

Lemma run_phase_routed c : keeps routed (run_phase c : M Main _).
Proof.
  unfold run_phase. apply keeps_bind; [|intros []; apply keeps_ret].
  unfold phase_dispatch. destruct (cy_phase c) as [|[|[|[|n]]]]; apply dispatch_routed.
Qed.

Lemma run_phases_routed left c : keeps routed (run_phases left c : M Main _).
Proof.
  revert c. induction left as [|left IH]; intros c; cbn [run_phases];
    (apply keeps_bind; [apply stays_routed, stays_exhausted|]); intros [];
    try apply keeps_ret.
  apply keeps_bind; [apply run_phase_routed|]. intros [[] c']; [apply keeps_ret|apply IH].
Qed.

Lemma full_pass_routed c : keeps routed (full_pass matcher sched c : M Main _).
Proof.
  unfold full_pass. apply keeps_bind; [apply stays_routed, stays_open_cycle|]. intros c1.
  apply keeps_bind; [apply stays_routed; destruct (fs_active _);
    [apply stays_advance_cycle|apply stays_ret]|]. intros c2.
  apply keeps_bind; [destruct (fs_active _); [apply keeps_ret|apply run_phases_routed]|].
  intros [incomplete c3]. apply stays_routed. stays_walk.
Qed.

Lemma highspeed_pass_routed c : keeps routed (highspeed_pass sched c : M Main _).
Proof.
  unfold highspeed_pass. apply keeps_bind; [apply stays_routed, stays_new_budget|]. intros _.
  apply keeps_bind; [apply dispatch_routed|]. intros [incomplete p].
  apply keeps_bind; [apply stays_routed; stays_walk|]. intros go.
  apply keeps_if; [apply keeps_ret|].
  apply keeps_bind; [apply dispatch_routed|]. intros [incomplete' p'].
  apply keeps_bind; [apply stays_routed; stays_walk|]. intros go'.
  apply keeps_if; [apply keeps_ret|].
  apply keeps_bind; [apply dispatch_routed|]. intros [? ?]. apply keeps_ret.
Qed.

Lemma scheduling_pass_routed c : keeps routed (scheduling_pass matcher sched c : M Main _).
Proof.
  unfold scheduling_pass. apply keeps_bind; [apply stays_routed, stays_run_full_scan|].
  intros full. apply keeps_if; [apply full_pass_routed|apply highspeed_pass_routed].
Qed.

(** Two workers never hold tasks of the same thread identity. *)
Lemma routed_one_worker m i j qi qj key ti tj :
  routed m → mn_workers m !! i = Some qi → mn_workers m !! j = Some qj →
  Queue.wq_pending qi !! key = Some ti → Queue.wq_pending qj !! key = Some tj → i = j.
Proof.
  intros Hm Hi Hj Hti Htj.
  destruct (Hm i qi key ti Hi Hti) as [Hki ->]. destruct (Hm j qj key tj Hj Htj) as [Hkj ->].
  unfold worker_index. rewrite Hki in Hkj. unfold task_key in Hkj.
  by injection Hkj as -> -> -> ->.
Qed.
End Routing.

(** ** Resuming *)

Section Resume.
Context {R W : Type} `{!RegexEngine R} `{!StringHash} `{!Kernel W} `{!KernelScan W} `{!IntHash}.
Variables (matcher : ThreadMatcher R) (sched : SchedConfig).

(** Whatever the first operation does. *)
Lemma wp_then {A B} (op : M (Main W) A) (f : A → M (Main W) B) Q m :
  (∀ a m', wp (f a) Q m') → wp (op ≫= f) Q m.
Proof. intros Hf. apply wp_bind. unfold wp. destruct (op m). apply Hf. Qed.

(** The first operation, of which only a property of the result counts. *)
Lemma wp_then_result {A B} (P : A → Prop) (op : M (Main W) A) (f : A → M (Main W) B) Q m :
  wp op (λ a _, P a) m → (∀ a m', P a → wp (f a) Q m') → wp (op ≫= f) Q m.
Proof. intros Hop Hf. apply wp_bind. eapply wp_mono; [exact Hop|]. intros a m' Ha. by apply Hf. Qed.

Lemma set_cursor_keeps i cursor c :
  cy_active (set_phase_cursor i cursor c) = cy_active c
  ∧ cy_phase (set_phase_cursor i cursor c) = cy_phase c
  ∧ cy_scan (set_phase_cursor i cursor c) = cy_scan c.
Proof. by destruct i as [|[|[|[|i]]]]. Qed.

Lemma begin_cycle_active c (m : Main W) : wp (begin_cycle c) (λ c' _, cy_active c' = true) m.
Proof. unfold begin_cycle. apply wp_then. intros c1 m1. apply wp_then. by intros scan m2. Qed.

Lemma open_cycle_active c (m : Main W) : wp (open_cycle sched c) (λ c' _, cy_active c' = true) m.
Proof.
  unfold open_cycle. apply wp_then. intros ? m1.
  destruct (cy_active c) eqn:E; [by wp_step|apply begin_cycle_active].
Qed.

(** The scan of the cycle stays active until [advance_cycle_scan] says it is
    complete. *)
Notation stays_active op m := (wp op (λ r _, fs_active r.2 = true) m).

Ltac active_walk :=
  repeat first
    [ done
    | apply wp_then; intros ? ?
    | match goal with |- wp (match ?x with _ => _ end) _ _ => destruct x end
    | apply wp_ret ].

Lemma enumerate_pids_active s (m : Main W) :
  fs_active s = true → stays_active (enumerate_pids s) m.
Proof. intros Hs. unfold enumerate_pids. active_walk. Qed.
Lemma identify_active pid s (m : Main W) :
  fs_active s = true → stays_active (identify_process pid s) m.
Proof. intros Hs. unfold identify_process. active_walk. Qed.
Lemma record_threads_active pid tids s (m : Main W) :
  fs_active s = true → stays_active (record_threads pid tids s) m.
Proof.
  revert s m. induction tids as [|tid tids IH]; intros s m Hs; cbn [record_threads];
    active_walk; by apply IH.
Qed.
Lemma finish_active pid s (m : Main W) :
  fs_active s = true → wp (finish_process matcher pid s) (λ s' _, fs_active s' = true) m.
Proof. intros Hs. unfold finish_process. active_walk. Qed.

Lemma scan_step_active pid s (m : Main W) :
  fs_active s = true → stays_active (scan_step matcher pid s) m.
Proof.
  intros Hs. unfold scan_step. apply wp_then. intros [] m1; [done|].
  apply (wp_then_result (λ r, fs_active r.2 = true)).
  { destruct (negb _); [by apply identify_active|done]. }
  intros [[] s1] m2 H1; cbn [negb]; [|done]. apply wp_then. intros [[] t] m3; cbn [negb]; [|done].
  apply (wp_then_result (λ r, fs_active r.2 = true)); [by apply record_threads_active|].
  intros [[] s2] m4 H2; cbn [negb]; [|done]. apply wp_then. intros [] m5; [done|].
  apply (wp_then_result (λ s', fs_active s' = true)); [by apply finish_active|].
  by intros s3 m6 H3.
Qed.

Lemma scan_processes_active fuel s (m : Main W) :
  fs_active s = true → stays_active (scan_processes fuel matcher s) m.
Proof.
  revert s m. induction fuel as [|fuel IH]; intros s m Hs; cbn [scan_processes];
    destruct (_ !! _); try done.
  apply (wp_then_result (λ r, fs_active r.2 = true)); [by apply scan_step_active|].
  intros [[outcome|] s1] m1 H1; [done|by apply IH].
Qed.

Lemma advance_scan_active s (m : Main W) :
  fs_active s = true → stays_active (advance_full_scan matcher s) m.
Proof.
  intros Hs. unfold advance_full_scan. rewrite Hs. cbn [negb].
  apply (wp_then_result (λ r, fs_active r.2 = true)); [by apply enumerate_pids_active|].
  intros [[] s1] m1 H1; cbn [negb]; [|done]. apply wp_then. intros fuel m2.
  apply (wp_then_result (λ r, fs_active r.2 = true)); [by apply scan_processes_active|].
  intros [[] s2] m3 H2; done.
Qed.

(** ** What a full pass does

    The scan of the cycle is over: it was before, or [advance_full_scan] says
    so and the caches are filled from it. *)
Inductive scan_over (c : Cycle) (m : Main W) : Cycle → Main W → Prop :=
| scan_over_before : fs_active (cy_scan c) = false → scan_over c m c m
| scan_over_now scan m1 c' m' :
    fs_active (cy_scan c) = true → advance_full_scan matcher (cy_scan c) m = ((true, scan), m1) →
    advance_cycle_scan matcher c m = (c', m') → scan_over c m c' m'.

(** Some phases, each begun within the budget and dispatched to its end. *)
Inductive phases_done : Cycle → Main W → Cycle → Main W → Prop :=
| no_phase c m : phases_done c m c m
| phase_done c m m1 c1 m2 c' m' :
    exhausted m = (false, m1) → run_phase c m1 = ((false, c1), m2) →
    phases_done (with_phase (S (cy_phase c)) c1) m2 c' m' → phases_done c m c' m'.

(** From [c] in [m] the pass finished the scan and got to [c'] in [m']. *)
Definition dispatched_to (c : Cycle) (m : Main W) (c' : Cycle) (m' : Main W) : Prop :=
  ∃ c0 m0 c1 m1, open_cycle sched c m = (c0, m0) ∧ scan_over c0 m0 c1 m1
    ∧ phases_done c1 m1 c' m'.

(** The last look at the budget was in time. *)
Definition in_budget (m : Main W) : Prop :=
  ∃ over m1 m2, exhausted m = (over, m1) ∧ exhausted m1 = (false, m2).

Lemma advance_cycle_over c (m : Main W) :
  fs_active (cy_scan c) = true →
  wp (advance_cycle_scan matcher c) (λ c' m',
    cy_active c' = cy_active c ∧ (fs_active (cy_scan c') = true ∨ scan_over c m c' m')) m.
Proof.
  intros Hc. unfold wp. destruct (advance_cycle_scan matcher c m) as [c' m'] eqn:E.
  pose proof E as E'. revert E'. unfold advance_cycle_scan, mbind, M_bind, mret, M_ret.
  pose proof (advance_scan_active _ m Hc) as Ha. unfold wp in Ha. revert Ha.
  destruct (advance_full_scan matcher (cy_scan c) m) as [[[] scan] m1] eqn:Es; cbn [negb]; intros Ha.
  - destruct (gets mn_cache m1) as [cache m2], (cleanup_dead_pids _ _ _ _) as [[? ?] ?].
    destruct (main_cache _ m2) as [? m3]. intros [= <- <-]. split; [done|right].
    by eapply scan_over_now.
  - destruct (set_rescan true m1) as [? m2]. intros [= <- <-]. split; [done|by left].
Qed.

Lemma run_phase_active c (m : Main W) :
  wp (run_phase c) (λ r _, cy_active r.2 = cy_active c ∧ cy_phase r.2 = cy_phase c
                           ∧ cy_scan r.2 = cy_scan c) m.
Proof.
  unfold run_phase. apply wp_then. intros [incomplete p] m2. apply wp_ret.
  apply set_cursor_keeps.
Qed.

(** Where the loop over the phases stops: after some phases that are done, in
    the next one when it says so, and at the end when all are done. *)
Lemma run_phases_spec left c (m : Main W) :
  wp (run_phases left c) (λ r m', ∃ c2 m2, phases_done c m c2 m2
    ∧ cy_active r.2 = cy_active c ∧ cy_scan r.2 = cy_scan c ∧ cy_phase r.2 = cy_phase c2
    ∧ (r.1 = false → r.2 = c2 ∧ ∃ over, exhausted m2 = (over, m'))) m.
Proof.
  revert c m. induction left as [|left IH]; intros c m; cbn [run_phases]; apply wp_bind;
    unfold wp at 1; destruct (exhausted m) as [[] m1] eqn:Eo.
  1-3: apply wp_ret; exists c, m; split_and!; [apply no_phase|done..|by eauto].
  pose proof (run_phase_active c m1) as Hp. unfold wp in Hp.
  apply wp_bind. unfold wp at 1. destruct (run_phase c m1) as [[[] c1] m2] eqn:Er;
    destruct Hp as (Ha & Hp & Hs); cbn [fst snd] in *.
  - apply wp_ret. exists c, m. by split_and!; [apply no_phase|..].
  - eapply wp_mono; [apply IH|]. intros r m' (c2 & m3 & Hd & Ha2 & Hs2 & Hp2 & Hf).
    cbn in Ha2, Hs2. exists c2, m3. split_and!; [|congruence..|done|done]. rewrite Hp in Hd.
    by apply (phase_done c m m1 c1 m2).
Qed.

(** A pass of the full branch leaves the cycle open and asks for the next pass,
    or it has done all of the cycle and closes it. *)
Lemma full_pass_spec c m :
  wp (full_pass matcher sched c) (λ c' m',
    (cy_active c' = true ∧ mn_rescan m' = true
     ∧ (fs_active (cy_scan c') = true
        ∨ ∃ c2 m2, dispatched_to c m c2 m2 ∧ cy_phase c' = cy_phase c2))
    ∨ (cy_active c' = false ∧ cy_phase c' = 0%nat ∧ cy_processed c' = ∅
       ∧ (∃ now, cy_next_full_scan c' = now + refresh_ms sched * 1000000)
       ∧ ∃ c2 m2, dispatched_to c m c2 m2 ∧ (5 ≤ cy_phase c2)%nat ∧ in_budget m2)) m.
Proof.
  unfold full_pass. pose proof (open_cycle_active c m) as Ha0. unfold wp in Ha0.
  apply wp_bind. unfold wp at 1. destruct (open_cycle sched c m) as [c0 m0] eqn:Eo.
  apply wp_bind. apply wp_mono with (Q := λ c1 m1, cy_active c1 = true
    ∧ (fs_active (cy_scan c1) = true ∨ (fs_active (cy_scan c1) = false ∧ scan_over c0 m0 c1 m1))).
  { destruct (fs_active (cy_scan c0)) eqn:Ec.
    - eapply wp_mono; [by apply advance_cycle_over|]. intros c1 m1 [-> Hs]. split; [done|].
      destruct (fs_active (cy_scan c1)) eqn:Ec1; [by left|]. destruct Hs as [|Hs]; [done|by right].
    - wp_step. split; [done|right]. split; [done|by apply scan_over_before]. }
  intros c1 m1 (H1 & Hs). destruct Hs as [Hs|[Hs Hsc]]; rewrite Hs.
  - wp_step. wp_step. rewrite Hs. cbn [orb]. do 2 wp_step. cbn [orb]. wp_step.
    apply wp_modify. wp_step. left. auto.
  - wp_step. eapply wp_mono; [apply run_phases_spec|].
    intros [incomplete c3] m3 (c2 & m2 & Hd & Ha & Hsc3 & Hp & Hf); cbn [fst snd] in *.
    assert (dispatched_to c m c2 m2) as Hto by (exists c0, m0, c1, m1; done).
    rewrite Hsc3, Hs. cbn [orb]. apply wp_bind. unfold wp at 1.
    destruct incomplete; [|destruct (exhausted m3) as [over m4] eqn:Ee].
    + cbn. wp_step. apply wp_modify. wp_step. left. split_and!; [congruence|done|right; eauto].
    + destruct (over || (cy_phase c3 <? 5)%nat) eqn:Eu.
      * wp_step. apply wp_modify. wp_step. left. split_and!; [congruence|done|right; eauto].
      * apply orb_false_iff in Eu as [-> Ep%Nat.ltb_ge]. destruct (Hf eq_refl) as [-> [over He]].
        apply wp_then. intros scan m5. apply wp_then. intros now m6. wp_step. right.
        split_and!; [done..|by eexists|]. exists c2, m2. split_and!; [done|lia|by exists over, m3, m4].
Qed.

Lemma highspeed_pass_active c (m : Main W) :
  wp (highspeed_pass sched c) (λ c' _,
    cy_active c' = cy_active c ∧ cy_phase c' = cy_phase c ∧ cy_scan c' = cy_scan c
    ∧ cy_processed c' = cy_processed c ∧ cy_next_full_scan c' = cy_next_full_scan c) m.
Proof.
  unfold highspeed_pass. apply wp_then. intros ? m1. apply wp_then. intros [i1 p1] m2.
  apply wp_then. intros [] m3; cbn [negb]; [|by apply wp_ret].
  apply wp_then. intros [i2 p2] m4. apply wp_then. intros [] m5; cbn [negb]; [|by apply wp_ret].
  apply wp_then. intros [i3 p3] m6. by apply wp_ret.
Qed.

(** An unfinished cycle has asked for the next pass. *)
Definition resumes (c : Cycle) (m : Main W) : Prop := cy_active c = true → mn_rescan m = true.

Lemma run_full_scan_spec c m :
  wp (run_full_scan c) (λ full _, full = false → mn_rescan m = false) m.
Proof.
  unfold run_full_scan. wp_step. apply wp_main_sys. unfold wp at 1.
  destruct (os k_now (mn_sys m)) as [now s]. do 3 wp_step. apply wp_modify. wp_step.
  cbn [mn_rescan]. by intros [? _]%orb_false_iff.
Qed.
Lemma scheduling_pass_resumes c m :
  resumes c m → wp (scheduling_pass matcher sched c) (λ c' m',
    let '(full, m1) := run_full_scan c m in
    (full = false ∧ cy_active c = false ∧ cy_active c' = false)
    ∨ (full = true ∧ cy_active c' = true ∧ mn_rescan m' = true
       ∧ (fs_active (cy_scan c') = true
          ∨ ∃ c2 m2, dispatched_to c m1 c2 m2 ∧ cy_phase c' = cy_phase c2))
    ∨ (full = true ∧ cy_active c' = false
       ∧ ∃ c2 m2, dispatched_to c m1 c2 m2 ∧ (5 ≤ cy_phase c2)%nat
           ∧ in_budget m2)) m.
Proof.
  intros Hc. unfold scheduling_pass. pose proof (run_full_scan_spec c m) as Hf. unfold wp in Hf.
  apply wp_bind. unfold wp at 1. destruct (run_full_scan c m) as [[] m1].
  - eapply wp_mono; [apply full_pass_spec|]. cbv beta.
    intros c' m' [(? & ? & ?)|(? & _ & _ & _ & ?)]; [right; left|right; right]; by split_and!.
  - specialize (Hf eq_refl). eapply wp_mono; [apply highspeed_pass_active|]. intros c' m' (Ha & _).
    left. assert (cy_active c = false) as Hn.
    { destruct (cy_active c) eqn:E; [|done]. by rewrite (Hc E) in Hf. }
    by rewrite Ha.
Qed.
End Resume.
