(* ===== verification/EventRouter.v ===== *)
(** * The event router ([core/event_router.hpp])

    Process events are collected per process number while a batch waits for
    its deadline, and delivered to the handler as sets.  The handler of each
    step is one function on the state that the mutex protects; [step] lets
    events, the router thread, and [start] and [stop] interleave.  [collect]
    is the swap of the pending events and their classification, two critical
    sections of which the second reads only the batch and the tracked set. *)

From S2P Require Import Prelude.

Record PendingEvent := { pe_is_create : bool; pe_saw_delete : bool }.

Definition kMaxPendingEvents : nat := 4096.

(** Where [router_loop] is: [Waiting] on the condition variable, [Throttling]
    until the deadline, [Stopped] after [stop] or before [start]. *)
Inductive RouterPhase := Waiting | Throttling | Stopped.

Record EventRouter := {
  er_running : bool;
  er_pending : gmap Z PendingEvent;
  er_dropped : bool;
  er_tracked : gset Z;
  er_phase : RouterPhase }.

Definition new_router : EventRouter :=
  {| er_running := false; er_pending := ∅; er_dropped := false; er_tracked := ∅;
     er_phase := Stopped |}.

(** What the handler is called with. *)
Record Batch := {
  b_new : gset Z;
  b_dead : gset Z;
  b_recycled : gset Z;
  b_dropped : bool }.

Definition add_event (pid : Z) (is_create : bool) (r : EventRouter) : EventRouter :=
  if (pid <=? 0) || negb (er_running r) then r
  else
    let record (e : PendingEvent) :=
      {| er_running := er_running r;
         er_pending := <[pid := {| pe_is_create := is_create;
                                   pe_saw_delete := pe_saw_delete e || negb is_create |}]>
                         (er_pending r);
         er_dropped := er_dropped r; er_tracked := er_tracked r; er_phase := er_phase r |} in
    match er_pending r !! pid with
    | Some e => record e
    | None =>
        if (kMaxPendingEvents <=? size (er_pending r))%nat
        then {| er_running := er_running r; er_pending := er_pending r; er_dropped := true;
                er_tracked := er_tracked r; er_phase := er_phase r |}
        else record {| pe_is_create := false; pe_saw_delete := false |}
    end.

Definition on_process_created (pid : Z) : EventRouter → EventRouter := add_event pid true.
Definition on_process_exited (pid : Z) : EventRouter → EventRouter := add_event pid false.

(** One collected event, sorted into the sets. *)
Definition classify (acc : gset Z * Batch) (kv : Z * PendingEvent) : gset Z * Batch :=
  let '(tracked, b) := acc in
  let '(pid, event) := kv in
  if pe_is_create event then
    let newly_tracked := bool_decide (pid ∉ tracked) in
    ({[pid]} ∪ tracked,
     if pe_saw_delete event
     then {| b_new := {[pid]} ∪ b_new b; b_dead := b_dead b;
             b_recycled := {[pid]} ∪ b_recycled b; b_dropped := b_dropped b |}
     else if newly_tracked
     then {| b_new := {[pid]} ∪ b_new b; b_dead := b_dead b; b_recycled := b_recycled b;
             b_dropped := b_dropped b |}
     else b)
  else
    (tracked ∖ {[pid]},
     {| b_new := b_new b; b_dead := {[pid]} ∪ b_dead b; b_recycled := b_recycled b;
        b_dropped := b_dropped b |}).

Definition empty_batch (dropped : bool) : Batch :=
  {| b_new := ∅; b_dead := ∅; b_recycled := ∅; b_dropped := dropped |}.

(** The batch of a round after its deadline, and the router afterwards. *)
Definition collect (r : EventRouter) : Batch * EventRouter :=
  let '(tracked, b) :=
    fold_left classify (map_to_list (er_pending r)) (er_tracked r, empty_batch (er_dropped r)) in
  (b, {| er_running := er_running r; er_pending := ∅; er_dropped := false;
         er_tracked := tracked; er_phase := Waiting |}).

(** Whether the handler is called with a batch. *)
Definition delivers (b : Batch) : bool :=
  negb (bool_decide (b_new b = ∅)) || negb (bool_decide (b_dead b = ∅))
  || negb (bool_decide (b_recycled b = ∅)) || b_dropped b.

Definition start (r : EventRouter) : EventRouter :=
  if er_running r then r
  else {| er_running := true; er_pending := ∅; er_dropped := false;
          er_tracked := er_tracked r; er_phase := Waiting |}.

Definition stop (r : EventRouter) : EventRouter :=
  if er_running r
  then {| er_running := false; er_pending := ∅; er_dropped := er_dropped r; er_tracked := ∅;
          er_phase := Stopped |}
  else r.

(** ** Steps

    What can happen next, with the batch a step hands to the handler.  The
    router thread wakes when there is something to deliver and collects after
    the throttle; events arrive at any time in between.  [stop] joins the
    thread, which may deliver a last batch before. *)
Inductive step : EventRouter → option Batch → EventRouter → Prop :=
  | step_event pid is_create r : step r None (add_event pid is_create r)
  | step_wake r :
      er_phase r = Waiting → (er_pending r ≠ ∅ ∨ er_dropped r = true) →
      step r None {| er_running := er_running r; er_pending := er_pending r;
                     er_dropped := er_dropped r; er_tracked := er_tracked r;
                     er_phase := Throttling |}
  | step_collect r :
      er_phase r = Throttling →
      step r (if delivers (collect r).1 then Some (collect r).1 else None) (collect r).2
  | step_start r : step r None (start r)
  | step_stop r : step r None (stop r).

Inductive reachable : EventRouter → Prop :=
  | reach_init : reachable new_router
  | reach_step r b r' : reachable r → step r b r' → reachable r'.

(** ** Bound *)

Lemma add_event_size pid c r :
  (size (er_pending r) ≤ kMaxPendingEvents)%nat →
  (size (er_pending (add_event pid c r)) ≤ kMaxPendingEvents)%nat.
Proof.
  intros Hs. unfold add_event. destruct (_ || _); [done|].
  destruct (er_pending r !! pid) as [e|] eqn:E; cbn [er_pending].
  - rewrite map_size_insert, E. exact Hs.
  - destruct (Nat.leb_spec kMaxPendingEvents (size (er_pending r))); cbn [er_pending]; [done|].
    rewrite map_size_insert, E. lia.
Qed.

Lemma collect_pending r : er_pending (collect r).2 = ∅ ∧ er_dropped (collect r).2 = false.
Proof. unfold collect. by destruct (fold_left _ _ _). Qed.

Lemma pending_bounded r : reachable r → (size (er_pending r) ≤ kMaxPendingEvents)%nat.
Proof.
  assert (size (∅ : gmap Z PendingEvent) ≤ kMaxPendingEvents)%nat as He.
  { rewrite map_size_empty. lia. }
  induction 1 as [|r b r' _ IH Hstep]; [exact He|]. destruct Hstep.
  - by apply add_event_size.
  - done.
  - by rewrite (proj1 (collect_pending r)).
  - unfold start. by destruct (er_running r).
  - unfold stop. by destruct (er_running r).
Qed.

(** ** Classification *)

(** Whether a process is tracked, and in the three sets of the batch. *)
Definition membership (p : Z) (acc : gset Z * Batch) : bool * bool * bool * bool :=
  (bool_decide (p ∈ acc.1), bool_decide (p ∈ b_new acc.2), bool_decide (p ∈ b_dead acc.2),
   bool_decide (p ∈ b_recycled acc.2)).

(** What one event of the process does to its memberships. *)
Definition event_effect (e : PendingEvent) (m : bool * bool * bool * bool)
    : bool * bool * bool * bool :=
  let '(tracked, new, dead, recycled) := m in
  if pe_is_create e
  then (true, pe_saw_delete e || negb tracked || new, dead, pe_saw_delete e || recycled)
  else (false, new, true, recycled).

Lemma classify_other p acc pid e :
  pid ≠ p → membership p (classify acc (pid, e)) = membership p acc.
Proof.
  intros Hne. destruct acc as [tracked b]. unfold membership, classify.
  destruct (pe_is_create e), (pe_saw_delete e); try destruct (bool_decide (pid ∉ tracked)); cbn;
    repeat f_equal; apply bool_decide_ext; set_solver.
Qed.

Lemma classify_same p acc e : membership p (classify acc (p, e)) = event_effect e (membership p acc).
Proof.
  destruct acc as [tracked b]. unfold membership, classify, event_effect. cbn [fst snd].
  assert (bool_decide (p ∉ tracked) = negb (bool_decide (p ∈ tracked))) as ->.
  { apply bool_decide_not. }
  destruct (pe_is_create e), (pe_saw_delete e), (bool_decide (p ∈ tracked)); cbn;
    repeat f_equal; try apply bool_decide_ext; try apply bool_decide_eq_true_2;
    try apply bool_decide_eq_false_2; set_solver.
Qed.

Lemma classify_dropped l acc : b_dropped (fold_left classify l acc).2 = b_dropped acc.2.
Proof.
  revert acc. induction l as [|[pid e] l IH]; intros acc; [done|]. cbn [fold_left]. rewrite IH.
  destruct acc as [tracked b]. unfold classify.
  by destruct (pe_is_create e), (pe_saw_delete e), (bool_decide (pid ∉ tracked)).
Qed.

Lemma fold_membership p l acc :
  NoDup l.*1 →
  membership p (fold_left classify l acc) =
    match (list_to_map l : gmap Z PendingEvent) !! p with
    | Some e => event_effect e (membership p acc)
    | None => membership p acc
    end.
Proof.
  revert acc. induction l as [|[pid e] l IH]; intros acc Hnd; [done|].
  cbn [fmap list_fmap fst] in Hnd. apply NoDup_cons in Hnd as [Hpid Hnd].
  cbn [fold_left]. rewrite IH by done.
  rewrite list_to_map_cons. destruct (decide (pid = p)) as [->|Hne].
  - rewrite lookup_insert_eq. rewrite (proj1 (not_elem_of_list_to_map l p) Hpid).
    by rewrite classify_same.
  - rewrite lookup_insert_ne by done. by rewrite classify_other.
Qed.

(** The sets of a batch, process by process. *)
Lemma collect_spec r p :
  let '(b, r') := collect r in
  membership p (er_tracked r', b) =
    match er_pending r !! p with
    | Some e => event_effect e (bool_decide (p ∈ er_tracked r), false, false, false)
    | None => (bool_decide (p ∈ er_tracked r), false, false, false)
    end
  ∧ b_dropped b = er_dropped r.
Proof.
  unfold collect.
  pose proof (fold_membership p (map_to_list (er_pending r)) (er_tracked r, empty_batch (er_dropped r))
    (NoDup_fst_map_to_list _)) as H.
  pose proof (classify_dropped (map_to_list (er_pending r))
    (er_tracked r, empty_batch (er_dropped r))) as Hd.
  destruct (fold_left _ _ _) as [tracked b]. cbn [er_tracked]. split; [|done].
  rewrite H, list_to_map_to_list. unfold membership. cbn.
  by destruct (er_pending r !! p).
Qed.

(** ** Events and what the handler learns

    [alive] follows the events one by one; [known] is what a client computes
    from the batches alone.  [lossless]: no event was refused because the
    batch was full. *)

Definition refuses (r : EventRouter) (pid : Z) : bool :=
  bool_decide (er_pending r !! pid = None) && (kMaxPendingEvents <=? size (er_pending r))%nat.

Definition client (b : Batch) (known : gset Z) : gset Z := (known ∖ b_dead b) ∪ b_new b.

Inductive observed : EventRouter → gset Z → gset Z → bool → Prop :=
  | obs_start : observed (start new_router) ∅ ∅ true
  | obs_event r alive known lossless pid c :
      observed r alive known lossless → er_running r = true → 0 < pid →
      observed (add_event pid c r) (if c : bool then {[pid]} ∪ alive else alive ∖ {[pid]}) known
        (lossless && negb (refuses r pid))
  | obs_wake r alive known lossless r' :
      observed r alive known lossless → er_phase r = Waiting →
      (er_pending r ≠ ∅ ∨ er_dropped r = true) →
      r' = {| er_running := er_running r; er_pending := er_pending r;
              er_dropped := er_dropped r; er_tracked := er_tracked r;
              er_phase := Throttling |} →
      observed r' alive known lossless
  | obs_collect r alive known lossless :
      observed r alive known lossless → er_phase r = Throttling →
      observed (collect r).2 alive
        (if delivers (collect r).1 then client (collect r).1 known else known) lossless.

(** What the router holds about a process: its pending event, or whether it is
    tracked. *)
Definition believed (r : EventRouter) (pid : Z) : bool :=
  match er_pending r !! pid with
  | Some e => pe_is_create e
  | None => bool_decide (pid ∈ er_tracked r)
  end.

Lemma add_event_believed r pid c p :
  er_running r = true → 0 < pid → refuses r pid = false →
  er_tracked (add_event pid c r) = er_tracked r
  ∧ believed (add_event pid c r) p = if decide (p = pid) then c else believed r p.
Proof.
  intros Hr Hp Hf. unfold add_event. destruct (Z.leb_spec pid 0); [lia|]. rewrite Hr. cbn [orb negb].
  unfold refuses in Hf. unfold believed.
  destruct (er_pending r !! pid) as [e|] eqn:E.
  - cbn [er_tracked er_pending]. split; [done|]. case_decide as Hd.
    + subst p. by rewrite lookup_insert_eq.
    + by rewrite lookup_insert_ne.
  - rewrite bool_decide_eq_true_2 in Hf by done. cbn [andb] in Hf. rewrite Hf.
    cbn [er_tracked er_pending]. split; [done|]. case_decide as Hd.
    + subst p. by rewrite lookup_insert_eq.
    + by rewrite lookup_insert_ne.
Qed.

Lemma collect_known r known :
  known = er_tracked r →
  (if delivers (collect r).1 then client (collect r).1 known else known) = er_tracked (collect r).2.
Proof.
  intros ->. apply set_eq. intros p. pose proof (collect_spec r p) as H.
  destruct (collect r) as [b r']. destruct H as [H _]. cbn [fst snd].
  unfold membership in H. cbn [fst snd] in H.
  assert (delivers b = false → b_new b = ∅ ∧ b_dead b = ∅) as Hdel.
  { unfold delivers. intros Hd. apply orb_false_iff in Hd as [[[Hn Hx]%orb_false_iff _]%orb_false_iff _].
    apply negb_false_iff, bool_decide_eq_true in Hn.
    apply negb_false_iff, bool_decide_eq_true in Hx. done. }
  assert (p ∈ client b (er_tracked r) ↔ p ∈ er_tracked r') as Hc.
  { unfold client. rewrite elem_of_union, elem_of_difference.
    destruct (er_pending r !! p) as [[c sd]|]; unfold event_effect in H; cbn in H;
      [destruct c, sd|]; cbn in H; injection H as Ht Hn Hd _;
      rewrite <-?(bool_decide_eq_true (p ∈ er_tracked r')), <-?(bool_decide_eq_true (p ∈ b_new b)),
        <-?(bool_decide_eq_true (p ∈ b_dead b)), ?Ht, ?Hn, ?Hd;
      rewrite ?orb_false_r, ?negb_true_iff, ?bool_decide_eq_true, ?bool_decide_eq_false;
      destruct (decide (p ∈ er_tracked r)); naive_solver. }
  destruct (delivers b) eqn:Edel; [done|].
  destruct (Hdel eq_refl) as [Hn Hd]. rewrite <-Hc. unfold client. set_solver.
Qed.

Lemma collect_believed r p : believed (collect r).2 p = believed r p.
Proof.
  unfold believed. rewrite (proj1 (collect_pending r)), lookup_empty.
  pose proof (collect_spec r p) as H. destruct (collect r) as [b r']. destruct H as [H _].
  unfold membership in H. cbn [fst snd] in *.
  destruct (er_pending r !! p) as [[[] sd]|]; cbn [event_effect pe_is_create] in H;
    by injection H as -> _ _ _.
Qed.

Lemma observed_inv r alive known lossless :
  observed r alive known lossless →
  known = er_tracked r ∧ (lossless = true → ∀ p, p ∈ alive ↔ believed r p = true).
Proof.
  induction 1 as [|r alive known lossless pid c _ [Hk Ha] Hr Hp
    |r alive known lossless r' _ [Hk Ha] Hph _ ->|r alive known lossless _ [Hk Ha] Hph].
  - split; [done|]. intros _ p. unfold believed. cbn. rewrite lookup_empty.
    rewrite bool_decide_eq_true. set_solver.
  - split.
    + rewrite Hk. unfold add_event. destruct (_ || _); [done|].
      destruct (er_pending r !! pid); [done|]. by destruct (_ <=? _)%nat.
    + intros [Hl Hf]%andb_true_iff p. apply negb_true_iff in Hf.
      rewrite (proj2 (add_event_believed r pid c p Hr Hp Hf)).
      case_decide as Hd; [subst p; destruct c; set_solver|]. rewrite <-Ha by done.
      destruct c; set_solver.
  - done.
  - split; [by apply collect_known|]. intros Hl p. rewrite collect_believed. by apply Ha.
Qed.

(** A refused event is reported with the next batch. *)
Lemma refused_reported r pid c :
  er_running r = true → 0 < pid → refuses r pid = true →
  let r' := add_event pid c r in
  er_dropped r' = true ∧ b_dropped (collect r').1 = true ∧ delivers (collect r').1 = true.
Proof.
  intros Hr Hp Hf r'. assert (er_dropped r' = true) as Hd.
  { unfold r', add_event. destruct (Z.leb_spec pid 0); [lia|]. rewrite Hr. cbn [orb negb].
    unfold refuses in Hf. apply andb_true_iff in Hf as [Hn Hs].
    apply bool_decide_eq_true in Hn. by rewrite Hn, Hs. }
  pose proof (collect_spec r' 0) as H. destruct (collect r') as [b r'']. cbn [fst].
  destruct H as [_ Hb]. rewrite Hd in Hb. split; [done|]. split; [done|].
  unfold delivers. rewrite Hb. apply orb_true_r.
Qed.
