(* ===== verification/QueueFacts.v ===== *)
(** * Properties of the worker's queue and pacing

    The queue is an ordered map with one task per thread identity; the pacing
    tables throttle repeated work and space the cgroup checks. *)

From S2P Require Import Prelude CppString ConfigTypes Kernel FileUtils ThreadMatcher ThreadCache.
From S2P Require Import Env ScanWorker.

Import Queue.

(** ** The queue *)

(** The specification: tasks in order of arrival, one per identity. *)
Definition SpecQueue : Type := list (TaskKey * DispatchTask).

Definition spec_enqueue (task : DispatchTask) (q : SpecQueue) : EnqueueResult * SpecQueue :=
  let key := task_key task in
  if bool_decide (key ∈ q.*1)
  then (Updated, (λ kt : TaskKey * DispatchTask, if bool_decide (kt.1 = key) then (key, task) else kt) <$> q)
  else if (kMaxQueuedTasks <=? length q)%nat then (QueueFull, q)
  else (Queued, q ++ [(key, task)]).

Definition spec_take (q : SpecQueue) : option DispatchTask * SpecQueue :=
  match q with
  | [] => (None, [])
  | (_, task) :: q' => (Some task, q')
  end.

(** The queue of keys has no duplicates, holds exactly the keys with a pending
    task, each task under its own key, and stays within its limit. *)
Record queue_wf (q : WorkerQueue) : Prop := {
  qw_nodup : NoDup (wq_task_queue q);
  qw_pending : ∀ key, key ∈ wq_task_queue q ↔ is_Some (wq_pending q !! key);
  qw_keys : ∀ key task, wq_pending q !! key = Some task → task_key task = key;
  qw_limit : (length (wq_task_queue q) ≤ kMaxQueuedTasks)%nat }.

(** The pending tasks of a list of keys. *)
Fixpoint pairs (m : gmap TaskKey DispatchTask) (l : list TaskKey) : SpecQueue :=
  match l with
  | [] => []
  | key :: l' => match m !! key with Some t => [(key, t)] | None => [] end ++ pairs m l'
  end.

Definition abs_queue (q : WorkerQueue) : SpecQueue := pairs (wq_pending q) (wq_task_queue q).

Definition put (key : TaskKey) (task : DispatchTask) (kt : TaskKey * DispatchTask)
    : TaskKey * DispatchTask := if bool_decide (kt.1 = key) then (key, task) else kt.

Lemma pairs_fst m l : (∀ key, key ∈ l → is_Some (m !! key)) → (pairs m l).*1 = l.
Proof.
  induction l as [|key l IH]; intros Hl; [done|]. cbn.
  destruct (Hl key ltac:(left)) as [t ->]. cbn. f_equal. apply IH. intros k Hk. apply Hl. by right.
Qed.

Lemma pairs_app m l1 l2 : pairs m (l1 ++ l2) = pairs m l1 ++ pairs m l2.
Proof. induction l1 as [|k l1 IH]; [done|]. cbn. by rewrite IH, (assoc_L (++)). Qed.

(** Changing the task of a present key changes just that entry. *)
Lemma pairs_insert m key task l :
  is_Some (m !! key) → pairs (<[key := task]> m) l = put key task <$> pairs m l.
Proof.
  intros [old Hold]. induction l as [|k l IH]; [done|]. cbn [pairs]. rewrite fmap_app, IH.
  f_equal. destruct (decide (k = key)) as [->|Hne].
  - rewrite lookup_insert_eq, Hold. cbn. unfold put. by rewrite bool_decide_eq_true_2.
  - rewrite lookup_insert_ne by done. destruct (m !! k); [|done].
    cbn. unfold put. by rewrite bool_decide_eq_false_2.
Qed.

Lemma pairs_insert_absent m key task l :
  key ∉ l → pairs (<[key := task]> m) l = pairs m l.
Proof.
  induction l as [|k l IH]; intros Hk; [done|]. apply not_elem_of_cons in Hk as [? ?]. cbn.
  rewrite lookup_insert_ne by done. by rewrite IH.
Qed.

Lemma pairs_delete m key l : key ∉ l → pairs (delete key m) l = pairs m l.
Proof.
  induction l as [|k l IH]; intros Hk; [done|]. apply not_elem_of_cons in Hk as [? ?]. cbn.
  rewrite lookup_delete_ne by done. by rewrite IH.
Qed.

Lemma abs_queue_fst q : queue_wf q → (abs_queue q).*1 = wq_task_queue q.
Proof. intros Hwf. apply pairs_fst. intros key. apply (qw_pending q Hwf). Qed.

Lemma abs_queue_length q : queue_wf q → length (abs_queue q) = length (wq_task_queue q).
Proof. intros Hwf. rewrite <-(abs_queue_fst q Hwf). by rewrite length_fmap. Qed.

Lemma enqueue_refines task q :
  queue_wf q → wq_running q = true →
  let '(r, q') := enqueue task q in
  queue_wf q' ∧ wq_running q' = true ∧ spec_enqueue task (abs_queue q) = (r, abs_queue q').
Proof.
  intros Hwf Hrun. unfold enqueue, spec_enqueue. rewrite Hrun. cbn [negb].
  rewrite abs_queue_fst, abs_queue_length by done.
  destruct (wq_pending q !! task_key task) as [old|] eqn:E.
  - rewrite bool_decide_eq_true_2 by (apply (qw_pending q Hwf); by eexists).
    split; [|split; [done|]].
    + destruct Hwf as [Hn Hp Hk Hl]. split; cbn; [done| | |done].
      * intros key. rewrite Hp. destruct (decide (key = task_key task)) as [->|].
        -- rewrite lookup_insert_eq, E. split; by eexists.
        -- by rewrite lookup_insert_ne.
      * intros key t [[<- <-]|[_ ?]]%lookup_insert_Some; [done|by apply Hk].
    + f_equal. unfold abs_queue. cbn. by rewrite pairs_insert by (rewrite E; by eexists).
  - assert (task_key task ∉ wq_task_queue q) as Hnin.
    { rewrite (qw_pending q Hwf), E. by intros []. }
    rewrite bool_decide_eq_false_2 by done.
    destruct (Nat.leb_spec kMaxQueuedTasks (length (wq_task_queue q))) as [Hle|Hlt]; [done|].
    split; [|split; [done|]].
    + destruct Hwf as [Hn Hp Hk Hl]. split; cbn [wq_task_queue wq_pending].
      * apply NoDup_app. split; [done|]. split; [|apply NoDup_singleton].
        intros k Hin ->%list_elem_of_singleton. done.
      * intros key. rewrite elem_of_app, list_elem_of_singleton, Hp.
        destruct (decide (key = task_key task)) as [->|].
        -- rewrite lookup_insert_eq. split; [by eexists|by right].
        -- rewrite lookup_insert_ne by done. naive_solver.
      * intros key t [[<- <-]|[_ ?]]%lookup_insert_Some; [done|by apply Hk].
      * rewrite length_app. cbn [length]. lia.
    + f_equal. unfold abs_queue. cbn [wq_task_queue wq_pending].
      rewrite pairs_app, pairs_insert_absent by done. f_equal. cbn.
      by rewrite lookup_insert_eq.
Qed.

Lemma take_refines q :
  queue_wf q →
  let '(t, q') := take_task q in
  queue_wf q' ∧ spec_take (abs_queue q) = (t, abs_queue q').
Proof.
  intros Hwf. unfold take_task, abs_queue.
  destruct (wq_task_queue q) as [|key rest] eqn:Eq; [by rewrite Eq|].
  destruct Hwf as [Hn Hp Hk Hl]. rewrite Eq in *. apply NoDup_cons in Hn as [Hkey Hn].
  destruct (wq_pending q !! key) as [t|] eqn:E.
  2: { exfalso. destruct (proj1 (Hp key)) as [? ?]; [left|]. congruence. }
  split.
  - split; cbn [wq_task_queue wq_pending]; [done| | |cbn [length] in Hl; lia].
    + intros k. destruct (decide (k = key)) as [->|Hne].
      * rewrite lookup_delete_eq. split; [done|by intros []].
      * rewrite lookup_delete_ne by done. rewrite <-Hp, elem_of_cons. naive_solver.
    + intros k t' [_ ?]%lookup_delete_Some. by apply Hk.
  - cbn. rewrite E. cbn. f_equal. by rewrite pairs_delete.
Qed.

Lemma new_worker_wf : queue_wf new_worker.
Proof.
  split; cbn; [constructor| | |unfold kMaxQueuedTasks; lia].
  - intros key. rewrite lookup_empty. split; [by intros ?%elem_of_nil|by intros []].
  - intros key task. by rewrite lookup_empty.
Qed.

Lemma start_worker_wf : queue_wf (Queue.start Queue.new_worker).
Proof. by destruct new_worker_wf as [H1 H2 H3 H4]. Qed.

(** ** Pacing *)

Section PacingFacts.
Variable timing : TimingConfig.
Hypothesis Hcleanup : 0 ≤ schedule_cleanup_interval_ms timing.

(** A task is skipped exactly when the same thread was scheduled in the same
    state less than the minimal interval ago. *)
Lemma should_skip_iff task now s :
  (should_skip_schedule timing task now s).1 = true ↔
  ∃ t, last_schedule_time s !! task_key task = Some t
    ∧ last_schedule_state s !! task_key task = Some (dt_state task)
    ∧ to_ms (now - t) < min_schedule_interval_ms timing.
Proof.
  unfold should_skip_schedule, should_throttle_same_state_schedule.
  destruct (last_schedule_time s !! task_key task) as [t|];
    [|split; [done|by intros (? & ? & _)]].
  case_bool_decide as Hst; cbn [andb]; [|split; [done|by intros (? & _ & ? & _)]].
  destruct (Z.ltb_spec (to_ms (now - t)) (min_schedule_interval_ms timing)); cbn [fst].
  - split; [|done]. by exists t.
  - split; [done|]. intros (t' & [= <-] & _ & ?). lia.
Qed.

Lemma to_ms_zero : to_ms 0 = 0.
Proof. done. Qed.

(** A run is remembered, also when the tables are cleaned up right after. *)
Lemma run_recorded task now s s' :
  should_skip_schedule timing task now s = (false, s') →
  last_schedule_time s' !! task_key task = Some now
  ∧ last_schedule_state s' !! task_key task = Some (dt_state task).
Proof.
  unfold should_skip_schedule.
  destruct (match last_schedule_time s !! task_key task with Some _ => _ | None => _ end); [done|].
  set (due := (kScheduleCleanupThreshold <=? S (schedule_counter s))%nat). intros [= <-].
  assert ((schedule_cleanup_interval_ms timing <? to_ms (now - now)) = false) as Hfresh.
  { rewrite Z.sub_diag, to_ms_zero. apply Z.ltb_ge. lia. }
  destruct due; cbn; [|by rewrite !lookup_insert_eq].
  split; apply map_lookup_filter_Some; cbn; rewrite !lookup_insert_eq; done.
Qed.

(** *** Other calls between two tasks of a thread

    A call on the tables of a worker: the worker comes to a task, or asks
    whether a cgroup check of it is due. *)
Inductive pacing_call := ComeTo (task : DispatchTask) (now : Z) | AskCheck (task : DispatchTask) (now : Z).
Definition call_time (c : pacing_call) : Z := match c with ComeTo _ t | AskCheck _ t => t end.
Definition apply_call `{!IntHash} (s : ScheduleState) (c : pacing_call) : ScheduleState :=
  match c with
  | ComeTo task now => (should_skip_schedule timing task now s).2
  | AskCheck task now => (should_check_cgroup timing task now s).2
  end.

(** The thread [key] does not run in these calls: those that come to a task of
    it skip the task. *)
Fixpoint idle_during `{!IntHash} (key : TaskKey) (calls : list pacing_call) (s : ScheduleState)
    : Prop :=
  match calls with
  | [] => True
  | c :: rest =>
      match c with
      | ComeTo task now => task_key task = key → (should_skip_schedule timing task now s).1 = true
      | AskCheck _ _ => True
      end ∧ idle_during key rest (apply_call s c)
  end.

(** What is remembered of a run of [key] at [now] in [state]; [limit] is a later
    time, and only when that is further away than the cleanup interval may the
    run be forgotten. *)
Definition remembers (key : TaskKey) (now : Z) (state : ProcessState) (limit : Z)
    (s : ScheduleState) : Prop :=
  (last_schedule_time s !! key = Some now ∧ last_schedule_state s !! key = Some state)
  ∨ (last_schedule_time s !! key = None
     ∧ schedule_cleanup_interval_ms timing < to_ms (limit - now)).

Lemma to_ms_mono a b : 0 ≤ a ≤ b → to_ms a ≤ to_ms b.
Proof. intros. unfold to_ms. apply Z.quot_le_mono; lia. Qed.

Lemma remembers_cleanup key now state limit t s :
  now ≤ t ≤ limit → remembers key now state limit s →
  remembers key now state limit (cleanup_expired_schedule_times timing t s).
Proof.
  intros Ht [[H1 H2]|[H1 Hl]]; unfold remembers; cbn.
  - destruct (Z.ltb_spec (schedule_cleanup_interval_ms timing) (to_ms (t - now))) as [He|He].
    + right. split; [|pose proof (to_ms_mono (t - now) (limit - now)); lia].
      apply map_lookup_filter_None. right. intros x Hx. cbn.
      rewrite H1 in Hx. injection Hx as <-. rewrite Z.ltb_ge. lia.
    + left. apply Z.ltb_ge in He.
      split; apply map_lookup_filter_Some; cbn; rewrite ?H1; done.
  - right. split; [|done]. apply map_lookup_filter_None. by left.
Qed.

(** Only these two tables count. *)
Lemma remembers_same key now state limit s s' :
  last_schedule_time s' !! key = last_schedule_time s !! key →
  last_schedule_state s' !! key = last_schedule_state s !! key →
  remembers key now state limit s → remembers key now state limit s'.
Proof. unfold remembers. by intros -> ->. Qed.

Lemma remembers_check `{!IntHash} key now state limit task t s :
  now ≤ t ≤ limit → remembers key now state limit s →
  remembers key now state limit (should_check_cgroup timing task t s).2.
Proof.
  intros Ht Hs. unfold should_check_cgroup. destruct (_ =? 0); [done|].
  destruct (_ !! _) as [next|]; [|by apply (remembers_same _ _ _ _ s)].
  destruct (t <? next); [done|]. cbn [snd].
  set (due := (_ <=? _)%nat). destruct due;
    [apply remembers_cleanup; [done|]|]; by apply (remembers_same _ _ _ _ s).
Qed.

Lemma remembers_other key now state limit task t s :
  now ≤ t ≤ limit → task_key task ≠ key → remembers key now state limit s →
  remembers key now state limit (should_skip_schedule timing task t s).2.
Proof.
  intros Ht Hk Hs. unfold should_skip_schedule.
  destruct (match last_schedule_time s !! task_key task with Some _ => _ | None => _ end); [done|].
  set (due := (_ <=? _)%nat). cbn [snd]. destruct due;
    [apply remembers_cleanup; [done|]|];
    (apply (remembers_same _ _ _ _ s); [cbn; by rewrite lookup_insert_ne..|done]).
Qed.

(** A skipped task leaves the tables as they are. *)
Lemma skipped_keeps task now s :
  (should_skip_schedule timing task now s).1 = true →
  (should_skip_schedule timing task now s).2 = s.
Proof.
  unfold should_skip_schedule.
  by destruct (match last_schedule_time s !! task_key task with Some _ => _ | None => _ end).
Qed.

Lemma remembers_calls `{!IntHash} key now state limit calls s :
  Forall (λ c, now ≤ call_time c ≤ limit) calls → idle_during key calls s →
  remembers key now state limit s → remembers key now state limit (fold_left apply_call calls s).
Proof.
  intros Hc. revert s. induction Hc as [|c calls Ht _ IH]; intros s; [done|].
  cbn [idle_during fold_left]. intros [Hi Hidle] Hs. apply IH; [done|].
  destruct c as [task t|task t]; cbn in *; [|by apply remembers_check].
  destruct (decide (task_key task = key)) as [Hk|Hk]; [|by apply remembers_other].
  rewrite skipped_keeps by auto. done.
Qed.

Lemma later_run_throttled `{!IntHash} task task' now now' calls s s' :
  now ≤ now' →
  should_skip_schedule timing task now s = (false, s') → task_key task' = task_key task →
  Forall (λ c, now ≤ call_time c ≤ now') calls → idle_during (task_key task) calls s' →
  let '(skip, _) := should_skip_schedule timing task' now' (fold_left apply_call calls s') in
  (skip = true →
     dt_state task' = dt_state task ∧ to_ms (now' - now) < min_schedule_interval_ms timing)
  ∧ (dt_state task' = dt_state task → to_ms (now' - now) < min_schedule_interval_ms timing →
     to_ms (now' - now) ≤ schedule_cleanup_interval_ms timing → skip = true).
Proof.
  intros Hnow Hrun Hk Hc Hidle. apply run_recorded in Hrun.
  assert (remembers (task_key task) now (dt_state task) now' s') as Hr by (by left).
  apply (remembers_calls _ _ _ _ calls) in Hr; [|done..].
  set (s2 := fold_left apply_call calls s') in *.
  pose proof (should_skip_iff task' now' s2) as Hiff. rewrite Hk in Hiff.
  destruct (should_skip_schedule timing task' now' s2) as [skip s3]. cbn in Hiff. rewrite Hiff.
  destruct Hr as [[Ht Hst]|[Ht Hl]]; rewrite Ht.
  - rewrite Hst. split; [|intros ->; eauto]. intros (t & [= <-] & [= ->] & ?). done.
  - split; [by intros (? & ? & _)|lia].
Qed.

(** A due cgroup check of a known thread moves the next one by the whole
    interval. *)
Lemma check_spacing `{!IntHash} task now now' s s' t :
  0 < cgroup_check_interval_ms timing →
  next_cgroup_check_time s !! task_key task = Some t →
  should_check_cgroup timing task now s = (true, s') →
  now' < now + cgroup_check_interval_ms timing * 1000000 →
  should_check_cgroup timing task now' s' = (false, s').
Proof.
  intros Hi Ht Hdue Hlt.
  assert (next_cgroup_check_time s' !! task_key task =
    Some (now + cgroup_check_interval_ms timing * 1000000)) as Hnext.
  { unfold should_check_cgroup in Hdue. rewrite Ht in Hdue.
    destruct (Z.eqb_spec (cgroup_check_interval_ms timing) 0); [lia|].
    destruct (now <? t); [done|].
    set (due := (kScheduleCleanupThreshold <=? S (cgroup_check_counter s))%nat) in Hdue.
    injection Hdue as <-. destruct due; cbn; [|by rewrite lookup_insert_eq].
    apply map_lookup_filter_Some. cbn. rewrite lookup_insert_eq. split; [done|]. lia. }
  unfold should_check_cgroup. rewrite Hnext.
  destruct (Z.eqb_spec (cgroup_check_interval_ms timing) 0); [lia|].
  by destruct (Z.ltb_spec now' (now + cgroup_check_interval_ms timing * 1000000)); [|lia].
Qed.

(** The first check of a thread falls within one interval. *)
Lemma first_check `{!IntHash} task now s :
  0 < cgroup_check_interval_ms timing < UINT64_MOD →
  next_cgroup_check_time s !! task_key task = None →
  let '(due, s') := should_check_cgroup timing task now s in
  ∃ t, next_cgroup_check_time s' !! task_key task = Some t
    ∧ now ≤ t < now + cgroup_check_interval_ms timing * 1000000
    ∧ (due = true ↔ t = now).
Proof.
  intros Hi Hn. unfold should_check_cgroup. rewrite Hn.
  destruct (Z.eqb_spec (cgroup_check_interval_ms timing) 0); [lia|].
  assert (to_uint64 (cgroup_check_interval_ms timing) = cgroup_check_interval_ms timing) as ->.
  { unfold to_uint64. apply Z.mod_small. lia. }
  set (stagger := task_key_hash (task_key task) `mod` cgroup_check_interval_ms timing).
  assert (0 ≤ stagger < cgroup_check_interval_ms timing) as Hs by (apply Z.mod_pos_bound; lia).
  eexists. split; [cbn; apply lookup_insert_eq|]. split; [lia|]. rewrite Z.eqb_eq. lia.
Qed.
End PacingFacts.
