(* ===== verification/ProcMonitor.v ===== *)
(** * The process monitor ([core/cpuset_monitor.hpp])

    [ProcMonitor] watches /proc with inotify and reports every process directory
    that appears or disappears.  Its thread is a step relation between what
    [poll] and [read] may answer; [start] and [stop] are functions on its
    state. *)

From S2P Require Import Prelude CppString Kernel FileUtils Inotify EventRouter.

(** ** One event

    What the monitor calls back with: a process number, negative for a process
    that is gone, or that events were lost. *)
Inductive MonitorCall := Changed (pid : Z) | EventsDropped.

#[export] Instance MonitorCall_eq_dec : EqDecision MonitorCall.
Proof. solve_decision. Defined.

Definition monitor_event (ev : InotifyEvent) : list MonitorCall :=
  if has_flag IN_Q_OVERFLOW ev then [EventsDropped]
  else if 0 <? ev_len ev then
    match parse_id (chars (ev_name ev)) with
    | Some pid =>
        if has_flag IN_CREATE ev then [Changed pid]
        else if has_flag IN_DELETE ev then [Changed (- pid)]
        else []
    | None => []
    end
  else [].

Definition monitor_buffer (l : list ascii) : list MonitorCall :=
  (read_buffer l).1 ≫= monitor_event.

(** ** The thread

    [poll] fails, is interrupted, or tells which of the two descriptors are
    ready; [PollBroken]: the inotify descriptor has neither input nor nothing to
    say. *)
Inductive poll_answer := PollFailed | PollInterrupted | PollStop | PollBroken | PollNothing
  | PollInput.
Inductive read_answer := ReadBytes (l : list ascii) | ReadRetry | ReadFailed.

Record ProcMonitor := {
  pm_running : bool;
  pm_started : bool;
  pm_inotify_fd : option Z;
  pm_stop_fd : option Z;
  (** The thread: [None] without one, else whether [monitor_loop] has not yet
      returned. *)
  pm_thread : option bool }.

Definition new_monitor : ProcMonitor :=
  {| pm_running := false; pm_started := false; pm_inotify_fd := None; pm_stop_fd := None;
     pm_thread := None |}.

(** The end of [monitor_loop]. *)
Definition loop_exit (m : ProcMonitor) : ProcMonitor :=
  {| pm_running := false; pm_started := false; pm_inotify_fd := pm_inotify_fd m;
     pm_stop_fd := pm_stop_fd m; pm_thread := Some false |}.

(** One round of the loop: the calls it makes and the monitor afterwards. *)
Definition monitor_round (answer : poll_answer) (input : read_answer) (m : ProcMonitor)
    : list MonitorCall * ProcMonitor :=
  if negb (pm_running m) then ([], loop_exit m)
  else
    match answer with
    | PollInterrupted | PollNothing => ([], m)
    | PollFailed | PollStop | PollBroken => ([], loop_exit m)
    | PollInput =>
        match input with
        | ReadRetry => ([], m)
        | ReadFailed => ([], loop_exit m)
        | ReadBytes l => (monitor_buffer l, m)
        end
    end.

(** ** Starting and stopping

    Each call of the system may fail; a thread that cannot be created throws. *)
Inductive start_result := StartOk | StartFailed | StartThrew.

#[export] Instance start_result_eq_dec : EqDecision start_result.
Proof. solve_decision. Defined.

(** [stop]: what is closed, and the monitor afterwards.  The thread returns
    before the [join] does: it is signalled when it is running, and has returned
    when it is not. *)
Definition opened (fd : option Z) : list Z := match fd with Some fd => [fd] | None => [] end.

Definition stop_monitor (m : ProcMonitor) : list Z * ProcMonitor :=
  (opened (pm_inotify_fd m) ++ opened (pm_stop_fd m),
   {| pm_running := false; pm_started := false; pm_inotify_fd := None; pm_stop_fd := None;
      pm_thread := None |}).

Record start_answers := {
  sa_inotify : option Z;
  sa_watch : bool;
  sa_eventfd : option Z;
  sa_thread : bool }.

(** [start]: its result, what it opened and closed in turn ([true]: opened),
    and the monitor afterwards. *)
Definition start_monitor (a : start_answers) (m : ProcMonitor)
    : start_result * list (bool * Z) * ProcMonitor :=
  if pm_started m then (StartOk, [], m)
  else
    let '(closed, m) :=
      if bool_decide (is_Some (pm_thread m)) || bool_decide (is_Some (pm_inotify_fd m))
         || bool_decide (is_Some (pm_stop_fd m))
      then stop_monitor m else ([], m) in
    let log := (λ fd, (false, fd)) <$> closed in
    let down fd stop thread b :=
      {| pm_running := b; pm_started := b; pm_inotify_fd := fd; pm_stop_fd := stop;
         pm_thread := thread |} in
    match sa_inotify a with
    | None => (StartFailed, log, down None (pm_stop_fd m) (pm_thread m) false)
    | Some fd =>
        let log := log ++ [(true, fd)] in
        if negb (sa_watch a)
        then (StartFailed, log ++ [(false, fd)], down None (pm_stop_fd m) (pm_thread m) false)
        else
          match sa_eventfd a with
          | None => (StartFailed, log ++ [(false, fd)], down None None (pm_thread m) false)
          | Some stop =>
              let log := log ++ [(true, stop)] in
              if sa_thread a then (StartOk, log, down (Some fd) (Some stop) (Some true) true)
              else (StartThrew, log ++ [(false, fd); (false, stop)],
                    down None None (pm_thread m) false)
          end
    end.

(** What [main] does with a call: the router is told, or a full scan asked for. *)
Definition monitor_callback (call : MonitorCall) (s : EventRouter * bool) : EventRouter * bool :=
  let '(router, rescan) := s in
  match call with
  | Changed pid =>
      if 0 <? pid then (on_process_created pid router, rescan)
      else if pid <? 0 then (on_process_exited (- pid) router, rescan)
      else (router, rescan)
  | EventsDropped => (router, true)
  end.
Definition monitor_callbacks (calls : list MonitorCall) (s : EventRouter * bool)
    : EventRouter * bool := fold_left (λ s call, monitor_callback call s) calls s.

(** ** What reaches the router

    A process directory that appears or disappears, as the kernel reports it;
    the name is padded to [len]. *)
Record ProcEvent := { pe_pid : Z; pe_created : bool; pe_padded : Z }.
Definition proc_event (e : ProcEvent) : InotifyEvent :=
  {| ev_wd := 1; ev_cookie := 0; ev_len := pe_padded e; ev_name := to_string (pe_pid e);
     ev_mask := Z.lor (if pe_created e then IN_CREATE else IN_DELETE) IN_ISDIR |}.
Definition valid_proc_event (e : ProcEvent) : Prop :=
  is_valid_pid (pe_pid e) = true
  ∧ Z.of_nat (length (chars (to_string (pe_pid e)))) ≤ pe_padded e < 4294967296.

Lemma parse_id_to_string pid : is_valid_pid pid = true → parse_id (chars (to_string pid)) = Some pid.
Proof.
  intros Hv. pose proof Hv as [H1%Z.ltb_lt H2%Z.leb_le]%andb_true_iff. unfold parse_id.
  assert (is_all_digits (chars (to_string pid)) = true) as ->.
  { destruct (to_string_digits pid) as (ds & -> & Hne & Hd & _); [lia|].
    unfold is_all_digits. destruct ds as [|c ds]; [done|]. apply forallb_forall.
    intros x Hx%list_elem_of_In. apply isdigit_spec.
    by apply (proj1 (Forall_forall _ _) Hd). }
  pose proof (strtol_to_string pid [] ltac:(unfold LONG_MAX, INT_MAX in *; lia) I) as Hs.
  rewrite app_nil_r in Hs. rewrite Hs. cbn. by rewrite Hv.
Qed.

Lemma proc_event_valid e : valid_proc_event e → valid_event (proc_event e).
Proof.
  intros [Hv Hp]. pose proof Hv as [H1%Z.ltb_lt H2%Z.leb_le]%andb_true_iff.
  destruct (to_string_digits (pe_pid e)) as (ds & Hds & _ & Hd & _); [lia|].
  split; cbn; [done|by destruct (pe_created e)|done|done|].
  rewrite Hds. intros Hin. by apply (proj1 (Forall_forall _ _) Hd), is_Some_None in Hin.
Qed.

Lemma proc_event_call e :
  valid_proc_event e →
  monitor_event (proc_event e) = [Changed (if pe_created e then pe_pid e else - pe_pid e)].
Proof.
  intros [Hv Hp]. unfold monitor_event. cbn [proc_event ev_len ev_name].
  assert (has_flag IN_Q_OVERFLOW (proc_event e) = false) as ->
    by (unfold has_flag; cbn; by destruct (pe_created e)).
  assert (0 < pe_padded e).
  { pose proof Hv as [H1%Z.ltb_lt _]%andb_true_iff.
    pose proof (to_string_nonempty (pe_pid e) ltac:(lia)). destruct (chars _); [done|cbn in Hp; lia]. }
  destruct (Z.ltb_spec 0 (pe_padded e)); [|lia]. rewrite parse_id_to_string by done.
  unfold has_flag. cbn. by destruct (pe_created e).
Qed.

Definition add_proc_event (r : EventRouter) (e : ProcEvent) : EventRouter :=
  add_event (pe_pid e) (pe_created e) r.

(** The events of a buffer reach the router one by one, in order. *)
Lemma monitor_buffer_routed es r rescan :
  Forall valid_proc_event es →
  monitor_callbacks (monitor_buffer ((proc_event <$> es) ≫= event_bytes)) (r, rescan)
  = (fold_left add_proc_event es r, rescan).
Proof.
  intros Hes. unfold monitor_buffer.
  rewrite <-(app_nil_r (_ ≫= event_bytes)), read_buffer_events.
  2: { apply Forall_fmap. eapply Forall_impl; [exact Hes|]. apply proc_event_valid. }
  cbn [fst]. rewrite app_nil_r. revert r. unfold monitor_callbacks.
  induction Hes as [|e es He _ IH]; intros r; [done|]. rewrite fmap_cons.
  cbn [mbind list_bind]. rewrite proc_event_call by done. cbn [app fold_left monitor_callback].
  destruct He as [[H1%Z.ltb_lt _]%andb_true_iff _]. unfold add_proc_event at 2.
  destruct (pe_created e).
  - destruct (Z.ltb_spec 0 (pe_pid e)); [|lia]. apply IH.
  - destruct (Z.ltb_spec 0 (- pe_pid e)); [lia|]. destruct (Z.ltb_spec (- pe_pid e) 0); [|lia].
    rewrite Z.opp_involutive. apply IH.
Qed.

(** ** Descriptors

    Rounds of the thread, and [start] and [stop] of its owner, in any order;
    with what was opened and closed so far. *)
Inductive monitor_reachable : list (bool * Z) → ProcMonitor → Prop :=
  | mr_new : monitor_reachable [] new_monitor
  | mr_round log m answer input :
      monitor_reachable log m → pm_thread m = Some true →
      monitor_reachable log (monitor_round answer input m).2
  | mr_start log m a :
      monitor_reachable log m →
      monitor_reachable (log ++ (start_monitor a m).1.2) (start_monitor a m).2
  | mr_stop log m :
      monitor_reachable log m →
      monitor_reachable (log ++ ((λ fd, (false, fd)) <$> (stop_monitor m).1)) (stop_monitor m).2.

(** How often a descriptor was opened, less how often it was closed. *)
Definition balance (fd : Z) (log : list (bool * Z)) : Z :=
  foldr (λ c n, if decide (c.2 = fd) then (if (c.1 : bool) then n + 1 else n - 1) else n) 0 log.
Definition held (m : ProcMonitor) : list Z := opened (pm_inotify_fd m) ++ opened (pm_stop_fd m).
Definition count (fd : Z) (l : list Z) : Z := Z.of_nat (length (filter (λ x, x = fd) l)).

Lemma balance_app fd l1 l2 : balance fd (l1 ++ l2) = balance fd l1 + balance fd l2.
Proof.
  induction l1 as [|[b x] l1 IH]; cbn [app balance foldr]; [done|]. fold (balance fd (l1 ++ l2)).
  fold (balance fd l1). rewrite IH. case_decide; [destruct b|]; cbn; lia.
Qed.
Lemma balance_closed fd l : balance fd ((λ x, (false, x)) <$> l) = - count fd l.
Proof.
  unfold count. induction l as [|x l IH]; [done|]. rewrite fmap_cons, filter_cons.
  cbn [balance foldr fst snd]. fold (balance fd ((λ x, (false, x)) <$> l)). rewrite IH.
  repeat case_decide; cbn [length]; try done; lia.
Qed.
Lemma count_app fd l1 l2 : count fd (l1 ++ l2) = count fd l1 + count fd l2.
Proof. unfold count. rewrite filter_app, length_app. lia. Qed.

(** What [start] and [stop] open and close is the change of what is held. *)
Lemma start_balance fd a m :
  balance fd (start_monitor a m).1.2 = count fd (held (start_monitor a m).2) - count fd (held m).
Proof.
  unfold start_monitor. destruct (pm_started m); [cbn; lia|].
  destruct (_ || _ || _) eqn:E.
  - cbn [stop_monitor pm_stop_fd pm_thread].
    destruct (sa_inotify a) as [i|]; [destruct (sa_watch a); [destruct (sa_eventfd a) as [e|];
      [destruct (sa_thread a)|]|]|]; cbn [negb fst snd];
      rewrite ?balance_app, balance_closed; unfold held at 1; cbn [opened pm_inotify_fd pm_stop_fd app];
      change (opened (pm_inotify_fd m) ++ opened (pm_stop_fd m)) with (held m);
      unfold balance, count; cbn; rewrite ?filter_cons; repeat case_decide; cbn; lia.
  - apply orb_false_iff in E as [[_ E1%bool_decide_eq_false]%orb_false_iff E2%bool_decide_eq_false].
    apply eq_None_not_Some in E1, E2.
    assert (held m = []) as -> by (unfold held; by rewrite E1, E2). rewrite E2.
    destruct (sa_inotify a) as [i|]; [destruct (sa_watch a); [destruct (sa_eventfd a) as [e|];
      [destruct (sa_thread a)|]|]|]; cbn [negb fst snd]; unfold held; cbn [opened pm_inotify_fd pm_stop_fd app];
      unfold balance, count; cbn; rewrite ?filter_cons; repeat case_decide; cbn; lia.
Qed.

Lemma round_held answer input m : held (monitor_round answer input m).2 = held m.
Proof. unfold monitor_round. destruct (negb _); [done|]. by destruct answer, input. Qed.

Lemma monitor_balanced log m : monitor_reachable log m → ∀ fd, balance fd log = count fd (held m).
Proof.
  induction 1 as [|log m answer input _ IH _|log m a _ IH|log m _ IH]; intros fd.
  - done.
  - by rewrite round_held.
  - rewrite balance_app, start_balance, IH. lia.
  - rewrite balance_app, IH. cbn [stop_monitor fst snd]. rewrite balance_closed.
    change (opened (pm_inotify_fd m) ++ opened (pm_stop_fd m)) with (held m). cbn. unfold count. cbn. lia.
Qed.

(** The flag says that the thread runs and both descriptors are open. *)
Lemma monitor_started log m :
  monitor_reachable log m →
  (pm_started m = true ↔ pm_thread m = Some true) ∧ pm_running m = pm_started m
  ∧ (pm_started m = true → is_Some (pm_inotify_fd m) ∧ is_Some (pm_stop_fd m)).
Proof.
  induction 1 as [|log m answer input _ IH Ht|log m a _ IH|log m _ IH]; [done| | |done].
  - destruct IH as (H1 & H2 & H3). unfold monitor_round. destruct (negb (pm_running m)); [done|].
    destruct answer, input; done.
  - destruct IH as (H1 & H2 & H3). unfold start_monitor. destruct (pm_started m) eqn:Es; [cbn [snd]; by rewrite Es|].
    assert (pm_thread m ≠ Some true) as Hn by (by intros ?%H1).
    destruct (_ || _ || _); cbn [stop_monitor pm_stop_fd pm_thread];
      (destruct (sa_inotify a) as [i|]; [destruct (sa_watch a); [destruct (sa_eventfd a) as [e|];
        [destruct (sa_thread a)|]|]|]); cbn; split_and!;
      solve [done | by eexists | by split; [|intros ?; destruct Hn] | intuition congruence].
Qed.
