(* ===== verification/WorkerFacts.v ===== *)
(** * What a worker does to the thread cache

    The invariant of the cache under [process_dispatch_task], its locality, and
    that every managed component has the baseline that restores it. *)

From S2P Require Import Prelude CppString ConfigTypes Kernel FileUtils FileFacts CpuMask.
From S2P Require Import ThreadMatcher ThreadCache Env Setters Tracing SetterFacts ScanWorker.
From S2P Require Import WorkerGuard.

(** ** Operations that leave the cache alone *)

Section Frame.
Context {R W : Type} `{!RegexEngine R} `{!Kernel W} `{!StringHash} `{!IntHash}.
Variable P : ThreadCache → Prop.
Implicit Types e : Env W.

Definition Cached e : Prop := P (env_cache e).

Lemma frame_on_sys {A} (op : M (Sys W) A) : keeps Cached (on_sys op).
Proof. intros e He. apply wp_on_sys, wp_unfold. exact He. Qed.
Lemma frame_on_matcher {A} (op : M (MatcherState W) A) : keeps Cached (on_matcher op).
Proof. intros e He. unfold wp, on_matcher. by destruct (op _). Qed.
Lemma frame_on_group_checks f : keeps Cached (on_group_checks f).
Proof. by apply keeps_modify. Qed.
Lemma frame_on_schedule {A} (f : ScheduleState → A * ScheduleState) :
  keeps Cached (on_schedule f).
Proof. intros e He. unfold wp, on_schedule. by destruct (f _). Qed.
Lemma frame_ask {A} (f : ThreadCache → A) : keeps Cached (ask_cache f).
Proof. apply keeps_gets. Qed.
End Frame.

#[export] Hint Resolve frame_on_sys frame_on_matcher frame_on_group_checks frame_on_schedule
  frame_ask : wp.

(** Decomposes a [keeps] goal of an operation made of framed ones. *)
Ltac frame_steps :=
  repeat first
    [ progress (auto 2 with wp nocore)
    | lazymatch goal with
      | |- keeps _ (mbind _ _) => apply keeps_bind; [|intros ?]
      | |- keeps _ (mret _) => apply keeps_ret
      | |- keeps _ (gets _) => apply keeps_gets
      | |- keeps _ (andM _ _) => apply keeps_bind; [|intros ?]
      | |- keeps _ (let _ := _ in _) => cbv zeta
      | |- keeps _ (if ?b then _ else _) => destruct b
      | |- keeps _ (match ?x with _ => _ end) => destruct x
      end ].

Section FrameSetters.
Context {R W : Type} `{!RegexEngine R} `{!Kernel W} `{!StringHash} `{!IntHash}.
Variable P : ThreadCache → Prop.
Notation Cached := (@Cached W P).

Lemma frame_identity pid tid ps ts : keeps Cached (identity_matches pid tid ps ts).
Proof. unfold identity_matches. frame_steps. Qed.
Lemma frame_move timing tid mask : keeps Cached (move_to_cpuset_cgroup timing tid mask).
Proof.
  assert (∀ n path, keeps Cached (write_tasks_retry timing n path tid)) as Hretry.
  { induction n as [|n IH]; intros path; cbn [write_tasks_retry]; frame_steps. }
  unfold move_to_cpuset_cgroup, is_group_ready, check_group, invalidate_group.
  frame_steps; auto.
Qed.
Lemma frame_parent tid : keeps Cached (move_to_top_app_parent tid).
Proof. unfold move_to_top_app_parent. frame_steps. Qed.
Lemma frame_verify pid tid mask cpus :
  keeps Cached (verify_cpuset pid tid mask) ∧ keeps Cached (verify_affinity tid cpus).
Proof. unfold verify_cpuset, verify_affinity. split; frame_steps. Qed.

Lemma frame_cpuset_apply (m : ThreadMatcher R) timing pid tid result ps ts :
  keeps Cached (cpuset_apply_with_result m timing pid tid result ps ts).
Proof.
  unfold cpuset_apply_with_result. frame_steps. unfold run_takeover_sequence.
  apply takeover_protocol with (F := Cached).
  - intros e He. eapply wp_mono; [by apply frame_identity|]. auto.
  - apply frame_on_sys.
  - apply frame_move.
  - apply frame_parent.
  - apply (proj1 (frame_verify pid tid (mr_cpumask_name result) [])).
  - apply (frame_verify pid tid (mr_cpumask_name result)).
Qed.
Lemma frame_set_scheduler tid p q : keeps Cached (set_scheduler tid p q).
Proof. apply frame_on_sys. Qed.
Lemma frame_set_nice tid n : keeps Cached (set_nice_value tid n).
Proof. apply frame_on_sys. Qed.
Lemma frame_priority_apply (m : ThreadMatcher R) tid result :
  keeps Cached (priority_apply_with_result m tid result).
Proof.
  unfold priority_apply_with_result, set_priority.
  frame_steps; auto using frame_set_scheduler, frame_set_nice.
Qed.
Lemma frame_cpuctl_apply tid result : keeps Cached (cpuctl_apply_with_result tid result).
Proof. unfold cpuctl_apply_with_result, migrate_thread. frame_steps. Qed.

Lemma frame_capture_scheduler tid : keeps Cached (capture_scheduler_baseline tid).
Proof. unfold capture_scheduler_baseline. frame_steps. Qed.
Lemma frame_sched_changed tid v : keeps Cached (is_sched_changed tid v).
Proof. unfold is_sched_changed, get_current_sched. frame_steps. Qed.

Lemma frame_paced {A} (f : Z → ScheduleState → A * ScheduleState) : keeps Cached (paced f).
Proof. unfold paced. frame_steps. Qed.

Lemma frame_restore_scheduler tid p q n : keeps Cached (restore_scheduler tid p q n).
Proof.
  unfold restore_scheduler. frame_steps; auto using frame_set_scheduler, frame_set_nice.
Qed.
Lemma frame_restore_cpuctl_cgroup tid path : keeps Cached (restore_cpuctl_cgroup tid path).
Proof. unfold restore_cpuctl_cgroup. frame_steps. Qed.
Lemma frame_restore_cpuset_cgroup tid path : keeps Cached (restore_cpuset_cgroup tid path).
Proof. unfold restore_cpuset_cgroup. frame_steps. Qed.
Lemma frame_restore_affinity tid cpus : keeps Cached (restore_affinity tid cpus).
Proof. unfold restore_affinity. frame_steps. Qed.

Variable task : DispatchTask.
Lemma frame_current : keeps Cached (is_current_task_identity task).
Proof. apply frame_identity. Qed.
Lemma frame_restore_scheduler_baseline b : keeps Cached (restore_scheduler_baseline task b).
Proof.
  unfold restore_scheduler_baseline.
  frame_steps; auto using frame_current, frame_restore_scheduler.
Qed.
Lemma frame_restore_cpuctl_baseline b : keeps Cached (restore_cpuctl_baseline task b).
Proof.
  unfold restore_cpuctl_baseline.
  frame_steps; auto using frame_current, frame_restore_cpuctl_cgroup.
Qed.
Lemma frame_restore_affinity_baseline b : keeps Cached (restore_affinity_baseline task b).
Proof.
  unfold restore_affinity_baseline, restore_part. frame_steps;
    auto using frame_current, frame_restore_affinity, frame_restore_cpuset_cgroup.
Qed.
Lemma frame_drifted (m : ThreadMatcher R) timing applied :
  keeps Cached (drifted m timing task applied).
Proof.
  unfold drifted, is_cgroup_changed. frame_steps; auto using frame_sched_changed, frame_paced.
Qed.
End FrameSetters.

(** ** What holds of the cache as a whole

    A property of caches that survives every operation the worker performs on
    its own thread's entry survives the processing of a task. *)

Section WholeCache.
Context {R W : Type} `{!RegexEngine R} `{!Kernel W} `{!StringHash} `{!IntHash}.
Variable matcher : ThreadMatcher R.
Variables timing cpuset_timing : TimingConfig.
Variable task : DispatchTask.
Let pid := dt_pid task.
Let tid := dt_tid task.
Variable P : ThreadCache → Prop.
Notation Cached := (@Cached W P).

Hypothesis P_erase : ∀ c ps ts, P c → P (Cache.erase_thread_if_identity pid tid ps ts c).
Hypothesis P_update : ∀ c ps ts n cmd st r cb ub,
  P c → P (Cache.update pid tid ps ts n cmd st r cb ub c).
Hypothesis P_applied : ∀ c r, P c → P (Cache.update_applied_result pid tid r c).
Hypothesis P_clear_applied : ∀ c, P c → P (Cache.clear_applied_result pid tid c).
Hypothesis P_components : ∀ c m, P c → P (Cache.set_managed_components pid tid m c).
Hypothesis P_baseline : ∀ c b, P c → P (Cache.set_baseline pid tid b c).
Hypothesis P_clear_baseline : ∀ c, P c → P (Cache.clear_baseline pid tid c).

Lemma whole_on_cache f : (∀ c, P c → P (f c)) → keeps Cached (on_cache f).
Proof. intros Hf. apply keeps_modify. intros e He. by apply Hf. Qed.

Lemma whole_while_current (k : M (Env W) unit) :
  keeps Cached k → keeps Cached (while_current task k).
Proof.
  intros Hk. unfold while_current. apply keeps_bind; [apply frame_current|].
  intros []; [done|]. apply whole_on_cache. intros c. apply P_erase.
Qed.

Lemma whole_restore_baseline : keeps Cached (restore_baseline task).
Proof.
  unfold restore_baseline. apply keeps_bind; [apply frame_ask|]. intros [b|].
  2: { apply keeps_bind; [by apply whole_on_cache|]. intros _.
     apply whole_on_cache. intros c. apply P_components. }
  apply whole_while_current, keeps_bind.
  { destruct (tb_has_cpuctl_path b); [apply frame_restore_cpuctl_baseline|apply keeps_ret]. }
  intros r1. apply whole_while_current, keeps_bind.
  { destruct (tb_has_scheduler b); [apply frame_restore_scheduler_baseline|apply keeps_ret]. }
  intros r2. apply whole_while_current, keeps_bind; [apply frame_restore_affinity_baseline|].
  intros r3. apply whole_while_current. destruct (r1 && r2 && r3); [|apply keeps_ret].
  apply keeps_bind; [by apply whole_on_cache|]. intros _.
  apply keeps_bind; [by apply whole_on_cache|]. intros _.
  apply whole_on_cache. intros c. apply P_components.
Qed.

Lemma whole_capture : keeps Cached (capture_baseline_if_needed task).
Proof.
  unfold capture_baseline_if_needed. apply keeps_bind; [apply frame_on_sys|]. intros a.
  apply keeps_bind; [apply frame_capture_scheduler|]. intros [hs [[p q] n]].
  apply keeps_bind; [apply frame_on_sys|]. intros cg.
  apply keeps_bind; [apply frame_current|]. intros []; [|apply keeps_ret].
  apply whole_on_cache. intros c. apply P_baseline.
Qed.

Lemma whole_drop needed restore managed without k :
  keeps Cached restore → (∀ m, keeps Cached (k m)) →
  keeps Cached (drop_component task needed restore managed without k).
Proof.
  intros Hr Hk. unfold drop_component. destruct needed; [|done].
  apply keeps_bind; [done|]. intros []; cbn [negb]; [|apply keeps_ret].
  apply keeps_bind; [apply whole_on_cache; intros c; apply P_components|]. done.
Qed.

Lemma whole_apply_components result managed :
  keeps Cached (apply_components matcher cpuset_timing task result managed).
Proof.
  unfold apply_components. apply keeps_bind; [apply frame_cpuset_apply|]. intros a.
  apply whole_while_current, keeps_bind; [apply frame_priority_apply|]. intros p.
  apply whole_while_current, keeps_bind; [apply frame_cpuctl_apply|]. intros c.
  apply whole_while_current, keeps_bind.
  { apply whole_on_cache. intros ?. apply P_components. }
  intros _. destruct (_ && c).
  - apply whole_on_cache. intros ?. apply P_applied.
  - apply whole_while_current, keeps_ret.
Qed.

Lemma whole_apply_result result :
  keeps Cached (apply_result matcher cpuset_timing task result).
Proof.
  unfold apply_result. destruct (negb _); [apply whole_restore_baseline|].
  apply keeps_bind; [apply whole_capture|]. intros _.
  apply keeps_bind; [apply frame_ask|]. intros [b|]; [|apply keeps_ret]. cbv zeta.
  destruct (negb _); [apply keeps_ret|]. apply keeps_bind; [apply frame_ask|]. intros m.
  apply whole_drop; [apply frame_restore_affinity_baseline|]. intros m1.
  apply whole_drop; [apply frame_restore_scheduler_baseline|]. intros m2.
  apply whole_drop; [apply frame_restore_cpuctl_baseline|]. intros m3.
  apply whole_apply_components.
Qed.

Lemma whole_process : keeps Cached (process_dispatch_task matcher timing cpuset_timing task).
Proof.
  unfold process_dispatch_task. apply keeps_bind; [apply frame_current|].
  intros []; cbn [negb]; [|apply whole_on_cache; intros c; apply P_erase].
  apply keeps_bind; [apply frame_paced|]. intros []; [apply keeps_ret|].
  apply keeps_bind; [apply frame_ask|]. intros [entry|].
  - apply keeps_bind; [apply frame_ask|]. intros [applied|]; [|apply whole_apply_result].
    destruct (is_result_equal _ _); [|apply whole_apply_result].
    destruct (negb _); [apply keeps_ret|]. apply keeps_bind; [apply frame_drifted|].
    intros []; [apply whole_apply_result|apply keeps_ret].
  - apply keeps_bind; [apply frame_on_matcher|]. intros result. cbv zeta.
    apply keeps_bind; [apply whole_on_cache; intros c; apply P_update|]. intros _.
    apply whole_apply_result.
Qed.
End WholeCache.

(** *** Locality *)

(** Each operation on a thread's entry leaves the other entries alone. *)
Lemma erase_other pid tid ps ts c key :
  key ≠ (pid, tid) → Cache.erase_thread_if_identity pid tid ps ts c !! key = c !! key.
Proof.
  intros Hne. unfold Cache.erase_thread_if_identity. destruct (c !! (pid, tid)); [|done].
  destruct (_ && _); [|done]. by rewrite lookup_delete_ne.
Qed.

Lemma process_local {R W} `{!RegexEngine R} `{!Kernel W} `{!StringHash} `{!IntHash}
    (m : ThreadMatcher R) timing cpuset_timing task (e : Env W) key :
  key ≠ (dt_pid task, dt_tid task) →
  wp (process_dispatch_task m timing cpuset_timing task)
    (λ _ e', env_cache e' !! key = env_cache e !! key) e.
Proof.
  intros Hne.
  apply (whole_process m timing cpuset_timing task (λ c, c !! key = env_cache e !! key)); [..|done].
  - intros c ps ts <-. by apply erase_other.
  - intros c ps ts n cmd st r cb ub <-. by apply update_lookup.
  - intros c r <-. by apply lookup_alter_ne.
  - intros c <-. by apply lookup_alter_ne.
  - intros c mc <-. by apply lookup_alter_ne.
  - intros c b <-. by apply lookup_alter_ne.
  - intros c <-. by apply lookup_alter_ne.
Qed.

(** ** Managed components always have a baseline to return to *)

(** Every component marked as managed has its part of the baseline. *)
Definition justified (b : option ThreadBaseline) (m : ManagedComponents) : Prop :=
  (mc_affinity m = true → ∃ b', b = Some b' ∧ tb_has_affinity b' = true
                                ∧ tb_has_cpuset_path b' = true)
  ∧ (mc_priority m = true → ∃ b', b = Some b' ∧ tb_has_scheduler b' = true)
  ∧ (mc_cpuctl m = true → ∃ b', b = Some b' ∧ tb_has_cpuctl_path b' = true).

Definition entry_restorable (e : ThreadCacheEntry) : Prop :=
  justified (tce_baseline e) (tce_managed_components e).

Definition restorable : ThreadCache → Prop := map_Forall (λ _, entry_restorable).

Lemma justified_none b : justified b no_components.
Proof. by split_and!. Qed.

Lemma justified_extends b b' m :
  baseline_extends b b' → justified (Some b) m → justified (Some b') m.
Proof.
  intros (Ha & Hs & Hc & Hu) (Ja & Js & Jc). split_and!; intros Hm.
  - destruct (Ja Hm) as (? & [= <-] & H1 & H2). exists b'. split; [done|].
    split; [by apply Ha|by apply Hc].
  - destruct (Js Hm) as (? & [= <-] & H1). exists b'. split; [done|by apply Hs].
  - destruct (Jc Hm) as (? & [= <-] & H1). exists b'. split; [done|by apply Hu].
Qed.

Lemma restorable_alter f key c :
  (∀ e, c !! key = Some e → entry_restorable e → entry_restorable (f e)) →
  restorable c → restorable (alter f key c).
Proof.
  intros Hf Hc k e. destruct (decide (k = key)) as [->|Hne].
  - rewrite lookup_alter_eq. intros (e' & He' & ->)%fmap_Some. apply Hf; [done|by eapply Hc].
  - rewrite lookup_alter_ne by done. apply Hc.
Qed.

Lemma restorable_erase pid tid ps ts c :
  restorable c → restorable (Cache.erase_thread_if_identity pid tid ps ts c).
Proof.
  intros Hc. unfold Cache.erase_thread_if_identity. destruct (c !! (pid, tid)); [|done].
  destruct (_ && _); [|done]. by apply map_Forall_delete.
Qed.

Lemma restorable_update pid tid ps ts n cmd st r cb ub c :
  restorable c → restorable (Cache.update pid tid ps ts n cmd st r cb ub c).
Proof.
  intros Hc. unfold Cache.update.
  assert (∀ e, entry_restorable e → restorable (<[(pid, tid) := e]> c)) as Hins.
  { intros e He. by apply map_Forall_insert_2. }
  destruct (c !! (pid, tid)) as [e|] eqn:E; [destruct (_ && _)|]; apply Hins.
  - exact (Hc _ _ E).
  - apply justified_none.
  - apply justified_none.
Qed.

Lemma restorable_baseline pid tid b c :
  restorable c → restorable (Cache.set_baseline pid tid b c).
Proof.
  apply restorable_alter. intros e _ He. unfold entry_restorable in *. cbn.
  destruct (tce_baseline e) as [b0|].
  - eapply justified_extends; [apply merge_baseline_spec|done].
  - destruct He as (Ha & Hs & Hc). split_and!; intros Hm;
      [by destruct (Ha Hm) as (? & [=] & _)|by destruct (Hs Hm) as (? & [=] & _)
      |by destruct (Hc Hm) as (? & [=] & _)].
Qed.

Lemma restorable_applied pid tid r c :
  restorable c → restorable (Cache.update_applied_result pid tid r c).
Proof. by apply restorable_alter. Qed.

(** A completed restoration clears the baseline together with the components. *)
Lemma restorable_cleared pid tid c :
  restorable c →
  restorable (Cache.clear_managed_components pid tid
    (Cache.clear_applied_result pid tid (Cache.clear_baseline pid tid c))).
Proof.
  intros Hc k e. unfold Cache.clear_managed_components, Cache.set_managed_components,
    Cache.clear_applied_result, Cache.clear_baseline.
  destruct (decide (k = (pid, tid))) as [->|Hne].
  - rewrite !lookup_alter_eq. intros (e1 & _ & ->)%fmap_Some. apply justified_none.
  - rewrite !lookup_alter_ne by done. apply Hc.
Qed.

(** The cache, the baseline of the task's thread and the components the worker
    is about to record for it. *)
Section Restorable.
Context {R W : Type} `{!RegexEngine R} `{!Kernel W} `{!StringHash} `{!IntHash}.
Variable matcher : ThreadMatcher R.
Variables timing cpuset_timing : TimingConfig.
Variable task : DispatchTask.
Let pid := dt_pid task.
Let tid := dt_tid task.
Notation Cached := (@Cached W).

Definition prepared (b : ThreadBaseline) (m : ManagedComponents) (c : ThreadCache) : Prop :=
  restorable c ∧ Cache.get_baseline pid tid c = Some b ∧ justified (Some b) m.

Lemma prepared_components b m c :
  prepared b m c → prepared b m (Cache.set_managed_components pid tid m c).
Proof.
  intros (Hc & Hb & Hm). split_and!; [|  |done].
  - apply restorable_alter; [|done]. intros e He _. unfold entry_restorable. cbn.
    unfold Cache.get_baseline in Hb. rewrite He in Hb. cbn in Hb. by rewrite Hb.
  - unfold Cache.get_baseline, Cache.set_managed_components in *. rewrite lookup_alter_eq.
    by destruct (c !! (pid, tid)).
Qed.

Lemma prepared_weaken b m m' c :
  (mc_affinity m' = true → mc_affinity m = true) →
  (mc_priority m' = true → mc_priority m = true) →
  (mc_cpuctl m' = true → mc_cpuctl m = true) →
  prepared b m c → prepared b m' c.
Proof. intros H1 H2 H3 (Hc & Hb & Ja & Js & Jc). split_and!; auto. split_and!; auto. Qed.

Lemma cache_step (P Q : ThreadCache → Prop) f (e : Env W) :
  (∀ c, P c → Q (f c)) → Cached P e → wp (on_cache f) (λ _, Cached Q) e.
Proof. intros Hf He. apply wp_on_cache. by apply Hf. Qed.

(** Sequencing with a change of the property. *)
Lemma cached_bind {A B : Type} (P Q : ThreadCache → Prop) (m : M (Env W) A) (f : A → M (Env W) B) e :
  keeps (Cached P) m → Cached P e → (∀ a e', Cached P e' → wp (f a) (λ _, Cached Q) e') →
  wp (m ≫= f) (λ _, Cached Q) e.
Proof. intros Hm He Hf. wp_step. eapply wp_mono; [by apply Hm|]. auto. Qed.

Lemma prepared_while_current P (k : M (Env W) unit) e :
  (∀ c, P c → restorable c) → Cached P e →
  (∀ e', Cached P e' → wp k (λ _, Cached restorable) e') →
  wp (while_current task k) (λ _, Cached restorable) e.
Proof.
  intros HP He Hk. unfold while_current. eapply cached_bind; [apply frame_current|done|].
  intros [] e' He'; [by auto|]. eapply cache_step; [|exact He'].
  intros c Hc. apply restorable_erase. auto.
Qed.

Lemma prepared_restorable b m c : prepared b m c → restorable c.
Proof. by intros []. Qed.

Lemma restorable_restore_baseline : keeps (Cached restorable) (restore_baseline task).
Proof.
  intros e He. unfold restore_baseline. wp_step. apply wp_ask_cache.
  assert (∀ c, restorable c → restorable (Cache.clear_applied_result pid tid c)) as Happ.
  { intros c. by apply restorable_alter. }
  assert (∀ c, restorable c → restorable (Cache.clear_managed_components pid tid c)) as Hcomp.
  { intros c. apply restorable_alter. intros e0 _ _. apply justified_none. }
  destruct (Cache.get_baseline _ _ _) as [b|].
  2: { eapply cached_bind; [by apply whole_on_cache|done|]. intros _ e' He'.
       by eapply cache_step. }
  assert (∀ c : ThreadCache, restorable c → restorable c) as Hid by done.
  apply (prepared_while_current restorable); [done..|]. intros e1 H1.
  eapply (cached_bind restorable); [|done|].
  { destruct (tb_has_cpuctl_path b); [apply frame_restore_cpuctl_baseline|apply keeps_ret]. }
  intros r1 e2 H2. apply (prepared_while_current restorable); [done..|]. intros e3 H3.
  eapply (cached_bind restorable); [|done|].
  { destruct (tb_has_scheduler b); [apply frame_restore_scheduler_baseline|apply keeps_ret]. }
  intros r2 e4 H4. apply (prepared_while_current restorable); [done..|]. intros e5 H5.
  eapply (cached_bind restorable); [apply frame_restore_affinity_baseline|done|].
  intros r3 e6 H6. apply (prepared_while_current restorable); [done..|]. intros e7 H7.
  destruct (r1 && r2 && r3); [|by wp_step].
  do 2 (wp_step; apply wp_on_cache). apply wp_on_cache. by apply restorable_cleared.
Qed.

Lemma restorable_apply_components b result m e :
  baseline_suffices (needs_affinity_management result)
    (needs_priority_management matcher result) (mr_enable_limit result) b = true →
  Cached (prepared b m) e →
  wp (apply_components matcher cpuset_timing task result m) (λ _, Cached restorable) e.
Proof.
  intros Hb He. unfold apply_components.
  eapply cached_bind; [apply frame_cpuset_apply|done|]. intros a e1 H1.
  apply (prepared_while_current (prepared b m)); [apply prepared_restorable|done|]. intros e2 H2.
  eapply cached_bind; [apply frame_priority_apply|done|]. intros p e3 H3.
  apply (prepared_while_current (prepared b m)); [apply prepared_restorable|done|]. intros e4 H4.
  eapply cached_bind; [apply frame_cpuctl_apply|done|]. intros c e5 H5.
  apply (prepared_while_current (prepared b m)); [apply prepared_restorable|done|]. intros e6 H6.
  set (m' := {| mc_affinity := _; mc_priority := _; mc_cpuctl := _ |}).
  assert (justified (Some b) m') as Hm'.
  { destruct H6 as (_ & _ & Ja & Js & Jc).
    unfold baseline_suffices in Hb. rewrite !andb_true_iff, !negb_true_iff in Hb.
    destruct Hb as [[B1 B2] B3]. unfold m'.
    split_and!; cbn; intros [Hn|Hn]%orb_true_iff; auto; exists b; split; try done.
    - rewrite Hn in B1. cbn [andb] in B1. apply orb_false_iff in B1 as [X Y].
      apply negb_false_iff in X, Y. done.
    - rewrite Hn in B2. cbn [andb] in B2. by apply negb_false_iff in B2.
    - rewrite Hn in B3. cbn [andb] in B3. by apply negb_false_iff in B3. }
  wp_step. apply wp_on_cache.
  match goal with |- wp _ _ ?s => assert (Cached restorable s) as H7 end.
  { destruct H6 as (Hc & Hbl & _). by apply (prepared_components b m'). }
  destruct (_ && c).
  - eapply cache_step; [|exact H7]. intros ?. apply restorable_applied.
  - apply (prepared_while_current restorable); [done|done|]. intros e8 H8. by wp_step.
Qed.

Lemma prepared_drop b needed restore m m' k e :
  (∀ P, keeps (Cached P) restore) →
  (mc_affinity m' = true → mc_affinity m = true) →
  (mc_priority m' = true → mc_priority m = true) →
  (mc_cpuctl m' = true → mc_cpuctl m = true) →
  (∀ m0 e', Cached (prepared b m0) e' → wp (k m0) (λ _, Cached restorable) e') →
  Cached (prepared b m) e →
  wp (drop_component task needed restore m m' k) (λ _, Cached restorable) e.
Proof.
  intros Hr H1 H2 H3 Hk He. unfold drop_component. destruct needed; [|by auto].
  eapply cached_bind; [apply Hr|exact He|]. intros [] e1 He1; cbn [negb].
  - wp_step. eapply wp_mono.
    + apply (cache_step (prepared b m) (prepared b m')); [|done]. intros c Hc.
      apply prepared_components. by eapply prepared_weaken.
    + intros [] e2. apply Hk.
  - wp_step. by eapply prepared_restorable.
Qed.

Lemma restorable_apply_result result :
  keeps (Cached restorable) (apply_result matcher cpuset_timing task result).
Proof.
  intros e He. unfold apply_result.
  destruct (negb _); [by apply restorable_restore_baseline|].
  eapply cached_bind; [|exact He|].
  { apply whole_capture. intros c b. apply restorable_baseline. }
  intros _ e1 H1. wp_step. apply wp_ask_cache.
  destruct (Cache.get_baseline _ _ (env_cache e1)) as [b|] eqn:Eb; [|by wp_step]. cbv zeta.
  destruct (negb (baseline_suffices _ _ _ b)) eqn:Es; [by wp_step|].
  apply negb_false_iff in Es. wp_step. apply wp_ask_cache.
  set (m := Cache.get_managed_components _ _ _).
  assert (Cached (prepared b m) e1) as H2.
  { split_and!; [done|done|]. unfold m, Cache.get_managed_components.
    unfold Cache.get_baseline in Eb. destruct (env_cache e1 !! _) as [e0|] eqn:E0; [|done].
    cbn in Eb. rewrite <-Eb. by apply (H1 _ _ E0). }
  apply (prepared_drop b); [intros ?; apply frame_restore_affinity_baseline|done..| |done].
  intros m1 e3 H3.
  apply (prepared_drop b); [intros ?; apply frame_restore_scheduler_baseline|done..| |done].
  intros m2 e4 H4.
  apply (prepared_drop b); [intros ?; apply frame_restore_cpuctl_baseline|done..| |done].
  intros m3 e5 H5. by eapply restorable_apply_components.
Qed.

Lemma restorable_process :
  keeps (Cached restorable) (process_dispatch_task matcher timing cpuset_timing task).
Proof.
  unfold process_dispatch_task. apply keeps_bind; [apply frame_current|].
  intros []; cbn [negb].
  2: { apply whole_on_cache. intros c. apply restorable_erase. }
  apply keeps_bind; [apply frame_paced|]. intros []; [apply keeps_ret|].
  apply keeps_bind; [apply frame_ask|]. intros [entry|].
  - apply keeps_bind; [apply frame_ask|]. intros [applied|]; [|apply restorable_apply_result].
    destruct (is_result_equal _ _); [|apply restorable_apply_result].
    destruct (negb _); [apply keeps_ret|]. apply keeps_bind; [apply frame_drifted|].
    intros []; [apply restorable_apply_result|apply keeps_ret].
  - apply keeps_bind; [apply frame_on_matcher|]. intros result. cbv zeta.
    apply keeps_bind; [apply whole_on_cache; intros c; apply restorable_update|]. intros _.
    apply restorable_apply_result.
Qed.
End Restorable.
