(* ===== verification/WorkerEffects.v ===== *)
(** * When a worker acts and what a completed restoration did

    A thread whose applied result still holds is only looked at; a baseline is
    forgotten only after each of its parts was written back; a takeover that
    succeeded has left the affinity and the cpuset it was asked for. *)

From S2P Require Import Prelude CppString ConfigTypes Kernel FileUtils FileFacts CpuMask.
From S2P Require Import ThreadMatcher ThreadCache Env Setters Tracing SetterFacts MatcherFacts.
From S2P Require Import ScanWorker WorkerGuard WorkerFacts.

(** ** Only looking *)

Section Quiet.
Context {R W : Type} `{RE : !RegexEngine R} `{KW : !Kernel W} `{KL : !KernelLaws W} `{SH : !StringHash} `{IH : !IntHash}.
Variable matcher : ThreadMatcher R.
Variables timing cpuset_timing : TimingConfig.
Variable task : DispatchTask.
Implicit Types e : Env (Traced W).

(** Only quiet calls since [e0], and the same cache. *)
Definition only_looked e0 e : Prop :=
  (∃ new, env_trace e = new ++ env_trace e0 ∧ Forall quiet_call new)
  ∧ env_cache e = env_cache e0.

Lemma only_looked_refl e : only_looked e e.
Proof. split; [by exists []|done]. Qed.

Lemma looks {A} (m : M (Env (Traced W)) A) e0 :
  adds env_trace quiet_call m → (∀ P, keeps (@Cached (Traced W) P) m) → keeps (only_looked e0) m.
Proof.
  intros Ha Hf e [(n0 & H0 & Q0) Hc].
  eapply wp_mono; [apply wp_and; [apply Ha|by apply (Hf (λ c, c = env_cache e0))]|].
  intros a e' [(n1 & H1 & Q1) Hc']. split; [|done]. exists (n1 ++ n0).
  rewrite H1, H0, (assoc_L (++)). split; [done|]. by apply Forall_app.
Qed.

Lemma looks_current e0 : keeps (only_looked e0) (is_current_task_identity task).
Proof.
  apply looks; [by apply adds_identity_matches|]. intros P. apply frame_identity.
Qed.
Lemma looks_paced {A} (f : Z → ScheduleState → A * ScheduleState) e0 :
  keeps (only_looked e0) (paced f).
Proof.
  apply looks; [|intros P; apply frame_paced]. unfold paced.
  apply adds_bind; [by apply adds_on_sys, adds_now|]. intros now. apply adds_on_schedule.
Qed.
Lemma looks_drifted applied e0 :
  keeps (only_looked e0) (drifted matcher timing task applied).
Proof.
  apply looks; [|intros P; apply frame_drifted]. unfold drifted, is_cgroup_changed, is_sched_changed.
  adds_steps.
  - by apply adds_on_sys, adds_is_affinity_changed.
  - by apply adds_get_sched.
  - unfold paced. apply adds_bind; [by apply adds_on_sys, adds_now|]. intros now.
    apply adds_on_schedule.
  - by apply adds_on_sys, adds_thread_cgroups.
Qed.

(** The state in which [process_dispatch_task] looks for drift. *)
Definition drift_point e : Env (Traced W) :=
  (paced (should_skip_schedule timing task) (is_current_task_identity task e).2).2.

Lemma stable_thread_untouched e entry :
  Cache.lookup (dt_pid task) (dt_tid task) (dt_process_start_time task)
    (dt_thread_start_time task) (dt_thread_name task) (dt_cmdline task) (dt_state task)
    (env_cache e) = Some entry →
  tce_applied_result entry = Some (tce_result entry) →
  (needs_managed_state matcher (tce_result entry) = true →
   (drifted matcher timing task (tce_result entry) (drift_point e)).1 = false) →
  wp (process_dispatch_task matcher timing cpuset_timing task) (λ _ e',
    (∃ new, env_trace e' = new ++ env_trace e ∧ Forall quiet_call new)
    ∧ (env_cache e' = env_cache e
       ∨ env_cache e' = Cache.erase_thread_if_identity (dt_pid task) (dt_tid task)
           (dt_process_start_time task) (dt_thread_start_time task) (env_cache e))) e.
Proof.
  intros Hl Ha Hd. unfold process_dispatch_task. unfold drift_point in Hd.
  wp_step. apply wp_unfold.
  pose proof (looks_current e e (only_looked_refl e)) as H1. apply wp_unfold in H1. revert H1 Hd.
  destruct (is_current_task_identity task e) as [[] e1]; cbn [negb fst snd]; intros H1.
  2: { intros _. apply wp_on_cache. destruct H1 as [Hn Hc]. split; [done|]. right. cbn. by rewrite Hc. }
  intros Hd. wp_step. apply wp_unfold.
  pose proof (looks_paced (should_skip_schedule timing task) e e1 H1) as H2.
  apply wp_unfold in H2. revert H2 Hd.
  destruct (paced _ e1) as [[] e2]; cbn [fst snd]; intros [Hn2 Hc2].
  { intros _. wp_step. auto. }
  intros Hd. wp_step. apply wp_ask_cache. rewrite Hc2, Hl.
  wp_step. apply wp_ask_cache. unfold Cache.get_applied_result. rewrite Hc2.
  apply lookup_spec in Hl as [Hl _]. rewrite Hl. cbn [mbind option_bind]. rewrite Ha.
  assert (is_result_equal (tce_result entry) (tce_result entry) = true) as ->
    by by apply is_result_equal_spec.
  destruct (needs_managed_state matcher (tce_result entry)); cbn [negb]; [|wp_step; auto].
  wp_step. apply wp_unfold.
  pose proof (looks_drifted (tce_result entry) e e2 (conj Hn2 Hc2)) as H3. apply wp_unfold in H3.
  specialize (Hd eq_refl). revert H3 Hd. destruct (drifted _ _ _ _ e2) as [[] e3]; [done|].
  cbn [negb fst snd]. intros [Hn3 Hc3] _. wp_step. auto.
Qed.
End Quiet.

(** ** A baseline is forgotten only after it was restored *)

(** Facts about a trace that further calls do not undo. *)
Definition monotone (Q : list kcall → Prop) : Prop := ∀ new tr, Q tr → Q (new ++ tr).

Lemma monotone_and Q Q' : monotone Q → monotone Q' → monotone (λ tr, Q tr ∧ Q' tr).
Proof. intros H H' new tr [? ?]. auto. Qed.
Lemma monotone_impl (A : Prop) Q : monotone Q → monotone (λ tr, A → Q tr).
Proof. intros H new tr Hq Ha. auto. Qed.

Lemma monotone_shown path P : monotone (shown path P).
Proof. intros new tr (r & Hin & HP). exists r. split; [|done]. apply elem_of_app. by right. Qed.
Lemma monotone_gone pid tid ps ts : monotone (identity_gone pid tid ps ts).
Proof.
  intros new tr [?|[?|[?|?]]]; [by left|..]; right;
    [left|right; left|right; right]; by apply monotone_shown.
Qed.

Ltac monotone_facts := repeat first [done|apply monotone_impl|apply monotone_and].

Section Restored.
Context {R W : Type} `{RE : !RegexEngine R} `{KW : !Kernel W} `{KL : !KernelLaws W} `{SH : !StringHash} `{IH : !IntHash}.
Variable task : DispatchTask.
Let pid := dt_pid task.
Let tid := dt_tid task.
Implicit Types e : Env (Traced W).

(** Calls are never taken back. *)
Lemma trace_grows {A} (m : M (Env (Traced W)) A) c :
  adds env_trace (λ _, True) m → keeps (λ e, c ∈ env_trace e) m.
Proof.
  intros Hm e He. eapply wp_mono; [apply Hm|]. intros a e' (new & -> & _).
  apply elem_of_app. by right.
Qed.

(** The calls that put the parts of a baseline back. *)
Definition affinity_restored (b : ThreadBaseline) (tr : list kcall) : Prop :=
  tb_has_affinity b = true → KSetAffinity tid (from_vector (tb_affinity b)) true ∈ tr.
Definition scheduler_restored (b : ThreadBaseline) (tr : list kcall) : Prop :=
  tb_has_scheduler b = true →
  KSetScheduler tid (tb_scheduler_policy b) (tb_scheduler_priority b) true ∈ tr
  ∧ (is_nice_policy (tb_scheduler_policy b) = true → KSetPriority tid (tb_nice b) true ∈ tr).
Definition tasks_written (path : string) (tr : list kcall) : Prop :=
  ∃ fd calls, KOpen (path +:+ "/tasks") false (Some fd) ∈ tr
    ∧ Forall (λ c, c ∈ tr) calls ∧ Forall (λ c, ∃ l r, c = KWrite fd l r) calls
    ∧ transferred calls = chars (to_string tid).
Definition cpuset_restored (b : ThreadBaseline) (tr : list kcall) : Prop :=
  tb_has_cpuset_path b = true → tasks_written (tb_cpuset_path b) tr.
Definition cpuctl_restored (b : ThreadBaseline) (tr : list kcall) : Prop :=
  tb_has_cpuctl_path b = true → tasks_written (tb_cpuctl_path b) tr.

Lemma keeps_monotone {A} (m : M (Env (Traced W)) A) Q :
  monotone Q → adds env_trace (λ _, True) m → keeps (λ e, Q (env_trace e)) m.
Proof.
  intros HQ Hm e He. eapply wp_mono; [apply Hm|]. intros a e' (new & -> & _). by apply HQ.
Qed.

Lemma monotone_in c : monotone (λ tr, c ∈ tr).
Proof. intros new tr H. apply elem_of_app. by right. Qed.
Lemma monotone_tasks path : monotone (tasks_written path).
Proof.
  intros new tr (fd & calls & Ho & Hc & Hf & Ht). exists fd, calls. split_and!; [|  |done..].
  - by apply monotone_in.
  - eapply Forall_impl; [exact Hc|]. intros c. apply monotone_in.
Qed.
Lemma monotone_affinity b : monotone (affinity_restored b).
Proof. intros new tr H Hb. by apply monotone_in, H. Qed.
Lemma monotone_scheduler b : monotone (scheduler_restored b).
Proof.
  intros new tr H Hb. destruct (H Hb) as [H1 H2]. split; [by apply monotone_in|].
  intros Hn. by apply monotone_in, H2.
Qed.
Lemma monotone_cpuset b : monotone (cpuset_restored b).
Proof. intros new tr H Hb. by apply monotone_tasks, H. Qed.
Lemma monotone_cpuctl b : monotone (cpuctl_restored b).
Proof. intros new tr H Hb. by apply monotone_tasks, H. Qed.

Lemma one_call {A} (op : M W A) (call : A → kcall) e :
  wp (on_sys (os (traced op call))) (λ a e', call a ∈ env_trace e') e.
Proof.
  apply wp_on_sys, wp_os. intros a w. unfold traced, env_trace, sys_trace. cbn.
  destruct (op _) as [a' w']. intros [= <- <-]. left.
Qed.

Lemma write_tasks_done path e :
  wp (on_sys (write_cgroup_tasks path tid)) (λ ok e', ok = true → tasks_written path (env_trace e')) e.
Proof.
  apply wp_on_sys. unfold write_cgroup_tasks, write_kernel_control_file.
  eapply wp_mono; [apply write_open_file_spec|].
  intros ok s' [[-> _]|(fd & calls & Htr & Hws)]; [done|]. intros Ht.
  pose proof (ws_writes _ _ _ _ Hws) as Hw. apply (ws_success _ _ _ _ Hws) in Ht.
  exists fd, calls. unfold env_trace, sys_trace. cbn [env_sys]. rewrite Htr.
  split_and!; [set_solver| |done|done]. rewrite Forall_forall. intros c Hc.
  apply elem_of_cons. right. apply elem_of_app. left.
  apply list_elem_of_In, in_rev. rewrite rev_involutive. by apply list_elem_of_In.
Qed.

Lemma identity_grows : adds (@env_trace W) (λ _, True) (is_current_task_identity task).
Proof. by apply adds_identity_matches. Qed.

(** An operation followed by a check. *)
Lemma then_check (Q : list kcall → Prop) (op : M (Env (Traced W)) bool) e :
  monotone Q → wp op (λ ok e', ok = true → Q (env_trace e')) e →
  wp (ok ← op; if negb ok then mret false else is_current_task_identity task)
    (λ ok e', ok = true → Q (env_trace e')) e.
Proof.
  intros HQ Hop. wp_step. eapply wp_mono; [exact Hop|]. intros [] e' H; cbn [negb]; [|by wp_step].
  eapply wp_mono; [apply (keeps_monotone _ _ HQ identity_grows); by apply H|]. done.
Qed.

(** The four operations. *)
Lemma restore_cpuctl_group_done b e :
  wp (restore_cpuctl_cgroup tid (tb_cpuctl_path b))
    (λ ok e', ok = true → cpuctl_restored b (env_trace e')) e.
Proof.
  unfold restore_cpuctl_cgroup. destruct (_ || _); [by wp_step|].
  eapply wp_mono; [apply write_tasks_done|]. intros ok e2 H Hok _. by apply H.
Qed.

Lemma restore_cpuset_group_done b e :
  wp (restore_cpuset_cgroup tid (tb_cpuset_path b))
    (λ ok e', ok = true → cpuset_restored b (env_trace e')) e.
Proof.
  unfold restore_cpuset_cgroup. destruct (_ || _); [by wp_step|].
  eapply wp_mono; [apply write_tasks_done|]. intros ok e2 H Hok _. by apply H.
Qed.

Lemma restore_affinity_call_done b e :
  wp (restore_affinity tid (tb_affinity b))
    (λ ok e', ok = true → affinity_restored b (env_trace e')) e.
Proof.
  unfold restore_affinity. destruct (_ || _) eqn:Hg; [by wp_step|].
  unfold set_affinity. destruct (tb_affinity b) as [|cpu cpus] eqn:Eb.
  { rewrite bool_decide_eq_true_2, orb_true_r in Hg by done. done. }
  eapply wp_mono; [apply one_call|]. intros ok e2 H2 -> _. by rewrite Eb.
Qed.

Lemma restore_scheduler_call_done b e :
  wp (restore_scheduler tid (tb_scheduler_policy b) (tb_scheduler_priority b) (tb_nice b))
    (λ ok e', ok = true → scheduler_restored b (env_trace e')) e.
Proof.
  unfold restore_scheduler. destruct (_ || _); [by wp_step|]. wp_step.
  eapply wp_mono; [apply one_call|]. intros [] e2 H2; cbn [negb]; [|by wp_step].
  unfold scheduler_restored. destruct (is_nice_policy (tb_scheduler_policy b)) eqn:Hn.
  - eapply wp_mono; [apply wp_and; [apply one_call|]|].
    { refine (trace_grows (set_nice_value tid (tb_nice b)) _ _ e2 H2).
      by apply adds_set_nice. }
    intros ok e3 [H3 H3'] -> _. auto.
  - wp_step. intros _ _. by split.
Qed.

Lemma restore_cpuctl_done b e :
  wp (restore_cpuctl_baseline task b) (λ ok e', ok = true → cpuctl_restored b (env_trace e')) e.
Proof.
  unfold restore_cpuctl_baseline. wp_step. apply wp_unfold.
  destruct (is_current_task_identity task e) as [[] e1]; cbn [negb fst snd]; [|by wp_step].
  destruct (tb_has_cpuctl_path b); cbn [negb]; [|by wp_step].
  apply then_check; [apply monotone_cpuctl|apply restore_cpuctl_group_done].
Qed.

Lemma restore_scheduler_done b e :
  wp (restore_scheduler_baseline task b)
    (λ ok e', ok = true → scheduler_restored b (env_trace e')) e.
Proof.
  unfold restore_scheduler_baseline. wp_step. apply wp_unfold.
  destruct (is_current_task_identity task e) as [[] e1]; cbn [negb fst snd]; [|by wp_step].
  destruct (tb_has_scheduler b); cbn [negb]; [|by wp_step].
  apply then_check; [apply monotone_scheduler|apply restore_scheduler_call_done].
Qed.

(** A part that runs only if the baseline has it and the identity holds. *)
Lemma restore_part_done (has : bool) op (Q : list kcall → Prop) e :
  (∀ tr, has = false → Q tr) → (∀ e, wp op (λ ok e', ok = true → Q (env_trace e')) e) →
  wp (restore_part task has op) (λ r e', r = Some true → Q (env_trace e')) e.
Proof.
  intros HQ Hop. unfold restore_part. destruct has; [|wp_step; auto].
  wp_step. apply wp_unfold.
  destruct (is_current_task_identity task e) as [[] e1]; cbn [negb fst snd]; [|by wp_step].
  wp_step. eapply wp_mono; [apply Hop|]. intros ok e2 H2. wp_step. intros [= ->]. auto.
Qed.

Lemma restore_affinity_done b e :
  wp (restore_affinity_baseline task b) (λ ok e', ok = true →
    cpuset_restored b (env_trace e') ∧ affinity_restored b (env_trace e')) e.
Proof.
  unfold restore_affinity_baseline. wp_step.
  eapply wp_mono; [apply (restore_part_done _ _ (cpuset_restored b))|].
  { by intros tr Hf Ht; congruence. }
  { apply restore_cpuset_group_done. }
  intros [ok1|] e1 H1; cbv beta iota; [|by wp_step]. wp_step.
  eapply wp_mono; [apply wp_and; [apply (restore_part_done _ _ (affinity_restored b))|]|].
  { by intros tr Hf Ht; congruence. }
  { apply restore_affinity_call_done. }
  { refine (keeps_monotone _ (λ tr, ok1 = true → cpuset_restored b tr) _ _ e1 _).
    - apply monotone_impl, monotone_cpuset.
    - unfold restore_part. adds_steps; [apply identity_grows|by apply adds_restore_affinity].
    - intros ->. by apply H1. }
  cbv beta. intros [ok2|] e2 [H2 H2']; [|by wp_step].
  destruct ok1, ok2; cbn [andb]; try by wp_step.
  pose proof (monotone_and _ _ (monotone_cpuset b) (monotone_affinity b)) as Hm.
  eapply wp_mono; [apply (keeps_monotone _ _ Hm identity_grows); auto|]. done.
Qed.

(** *** The whole restoration *)

(** The thread of the task is not there any more. *)
Definition task_gone (tr : list kcall) : Prop :=
  identity_gone pid tid (dt_process_start_time task) (dt_thread_start_time task) tr.

(** An operation that leaves the cache alone, only adds calls and, when it
    answers [true], has made [Q] hold. *)
Definition restores (op : M (Env (Traced W)) bool) (Q : list kcall → Prop) : Prop :=
  (∀ P, keeps (@Cached (Traced W) P) op) ∧ adds env_trace (λ _, True) op
  ∧ ∀ e, wp op (λ ok e', ok = true → Q (env_trace e')) e.

Lemma restores_part (has : bool) op Q :
  restores op Q → (∀ tr, has = false → Q tr) → restores (if has then op else mret true) Q.
Proof.
  intros (Hf & Ha & Hop) Hno. destruct has; [done|]. split_and!.
  - intros P. apply keeps_ret.
  - apply adds_ret.
  - intros e. wp_step. auto.
Qed.

Section Whole.
Variable c0 : ThreadCache.

(** The cache is still [c0] and [Q] holds of the calls so far. *)
Definition Held (Q : list kcall → Prop) e : Prop := env_cache e = c0 ∧ Q (env_trace e).

Lemma while_held k Q (post : unit → Env (Traced W) → Prop) e :
  monotone Q → Held Q e → (∀ e1, Held Q e1 → wp k post e1) →
  (∀ e1, env_cache e1 = Cache.erase_thread_if_identity pid tid (dt_process_start_time task)
     (dt_thread_start_time task) c0 → task_gone (env_trace e1) → post tt e1) →
  wp (while_current task k) post e.
Proof.
  intros HQ [Hc Hq] Hk Hpost. unfold while_current. wp_step.
  eapply wp_mono; [apply wp_and; [by apply (frame_current (λ c, c = c0))|]|].
  { apply wp_and; [by apply (keeps_monotone _ _ HQ identity_grows)|apply identity_matches_gone]. }
  intros [] e1 (H1 & H1' & Hg); [by apply Hk|]. apply wp_on_cache, Hpost; cbn; [by rewrite H1|by apply Hg].
Qed.

(** A part is restored. *)
Lemma held_then {A : Type} (op : M (Env (Traced W)) bool) (k : bool → M (Env (Traced W)) A)
    Q (Q' : list kcall → Prop) post e :
  monotone Q → restores op Q' → Held Q e →
  (∀ ok e1, Held (λ tr, Q tr ∧ (ok = true → Q' tr)) e1 → wp (k ok) post e1) →
  wp (op ≫= k) post e.
Proof.
  intros HQ (Hf & Ha & Hop) [Hc Hq] Hk. wp_step.
  eapply wp_mono; [apply wp_and; [by apply (Hf (λ c, c = c0))|]|].
  { apply wp_and; [by apply (keeps_monotone _ _ HQ Ha)|apply Hop]. }
  intros ok e1 (? & ? & ?). by apply Hk.
Qed.
End Whole.

Lemma adds_restore_baselines b :
  adds (@env_trace W) (λ _, True) (restore_cpuctl_baseline task b)
  ∧ adds (@env_trace W) (λ _, True) (restore_scheduler_baseline task b)
  ∧ adds (@env_trace W) (λ _, True) (restore_affinity_baseline task b).
Proof.
  pose proof identity_grows. split_and!.
  - unfold restore_cpuctl_baseline. adds_steps; try done.
    by apply adds_restore_cpuctl.
  - unfold restore_scheduler_baseline. adds_steps; try done.
    by apply adds_restore_scheduler.
  - unfold restore_affinity_baseline, restore_part.
    adds_steps; try done; [by apply adds_restore_cpuset|by apply adds_restore_affinity].
Qed.

(** All parts of a baseline were written back. *)
Definition baseline_restored (b : ThreadBaseline) (tr : list kcall) : Prop :=
  cpuctl_restored b tr ∧ scheduler_restored b tr ∧ cpuset_restored b tr
  ∧ affinity_restored b tr.

Definition forget (c : ThreadCache) : ThreadCache :=
  Cache.clear_managed_components pid tid
    (Cache.clear_applied_result pid tid (Cache.clear_baseline pid tid c)).

Lemma restores_baselines b :
  restores (if tb_has_cpuctl_path b then restore_cpuctl_baseline task b else mret true)
    (cpuctl_restored b)
  ∧ restores (if tb_has_scheduler b then restore_scheduler_baseline task b else mret true)
      (scheduler_restored b)
  ∧ restores (restore_affinity_baseline task b)
      (λ tr, cpuset_restored b tr ∧ affinity_restored b tr).
Proof.
  pose proof (adds_restore_baselines b) as (Ha1 & Ha2 & Ha3). split_and!.
  - apply restores_part; [split_and!; [|done|]|by intros tr Hf Ht; congruence].
    + intros P. apply frame_restore_cpuctl_baseline.
    + apply restore_cpuctl_done.
  - apply restores_part; [split_and!; [|done|]|by intros tr Hf Ht; congruence].
    + intros P. apply frame_restore_scheduler_baseline.
    + apply restore_scheduler_done.
  - split_and!; [|done|].
    + intros P. apply frame_restore_affinity_baseline.
    + apply restore_affinity_done.
Qed.

(** The entry is kept as it was, or dropped because the identity was lost, or
    forgets its baseline, and then everything was written back. *)
Lemma restore_baseline_done b e :
  Cache.get_baseline pid tid (env_cache e) = Some b →
  wp (restore_baseline task) (λ _ e',
    env_cache e' = env_cache e
    ∨ env_cache e' = Cache.erase_thread_if_identity pid tid (dt_process_start_time task)
        (dt_thread_start_time task) (env_cache e) ∧ task_gone (env_trace e')
    ∨ env_cache e' = forget (env_cache e) ∧ baseline_restored b (env_trace e')) e.
Proof.
  intros Hb. set (c0 := env_cache e). unfold restore_baseline. wp_step. apply wp_ask_cache.
  change (dt_pid task) with pid. change (dt_tid task) with tid. rewrite Hb.
  pose proof (restores_baselines b) as (Hr1 & Hr2 & Hr3).
  pose proof (monotone_cpuctl b) as Hm1. pose proof (monotone_scheduler b) as Hm2.
  pose proof (monotone_and _ _ (monotone_cpuset b) (monotone_affinity b)) as Hm3.
  eapply (while_held c0 _ (λ _, True)); [done..|intros e1 He1|auto].
  eapply (held_then c0); [|exact Hr1|exact He1|intros r1 e2 He2]; [done|].
  eapply (while_held c0); [|exact He2|clear e2 He2; intros e2 He2|auto]; [by monotone_facts|].
  eapply (held_then c0); [|exact Hr2|exact He2|intros r2 e3 He3]; [by monotone_facts|].
  eapply (while_held c0); [|exact He3|clear e3 He3; intros e3 He3|auto]; [by monotone_facts|].
  eapply (held_then c0); [|exact Hr3|exact He3|intros r3 e4 He4]; [by monotone_facts|].
  eapply (while_held c0); [|exact He4|clear e4 He4; intros e4 He4|auto]; [by monotone_facts|].
  destruct He4 as [Hc Hq]. cbv beta in Hq. destruct Hq as [[[_ Hq1] Hq2] Hq3].
  destruct r1, r2, r3; cbn [andb]; try (wp_step; by left).
  wp_step. apply wp_on_cache. wp_step. apply wp_on_cache. apply wp_on_cache.
  right; right. cbn. rewrite Hc. split; [done|]. unfold baseline_restored. cbn. tauto.
Qed.
End Restored.

(** ** What a successful takeover has seen *)

(** The latest answer of [sched_getaffinity] about a thread. *)
Fixpoint last_affinity (tid : Z) (tr : list kcall) : option (option cpu_set) :=
  match tr with
  | [] => None
  | KGetAffinity t r :: tr' => if decide (t = tid) then Some r else last_affinity tid tr'
  | _ :: tr' => last_affinity tid tr'
  end.

(** The latest text of the thread's [cgroup] file names the group of the mask. *)
Definition cpuset_confirmed (pid tid : Z) (mask : string) (tr : list kcall) : Prop :=
  last_content (task_path pid tid "cgroup") (λ s,
    s ≠ EmptyString
    ∧ tcp_cpuset (parse_thread_cgroups s) = "/top-app/ReUperf_" +:+ mask) tr.

(** The kernel's latest answer holds exactly the CPUs; where it has none, the
    allowed list of the latest [status] does. *)
Definition affinity_confirmed (tid : Z) (cpus : list Z) (tr : list kcall) : Prop :=
  match last_affinity tid tr with
  | None => False
  | Some (Some set) => to_vector set = to_vector (from_vector cpus)
  | Some None =>
      last_content (proc_path tid "status") (λ s,
        allowed_list (getlines LF (chars s)) ≠ []
        ∧ from_vector (allowed_list (getlines LF (chars s))) = from_vector cpus) tr
  end.

Section Confirmed.
Context {R W : Type} `{RE : !RegexEngine R} `{KW : !Kernel W} `{KL : !KernelLaws W}.
Variables pid tid : Z.
Implicit Types e : Env (Traced W).

Lemma verify_cpuset_confirms mask e :
  wp (verify_cpuset pid tid mask)
    (λ ok e', ok = true → cpuset_confirmed pid tid mask (env_trace e')) e.
Proof.
  unfold verify_cpuset, get_thread_cgroup_paths_uncached. wp_step. apply wp_on_sys.
  destruct (_ || _); [by repeat wp_step|]. wp_step.
  eapply wp_mono; [apply read_file_records; apply task_dynamic|].
  intros content s' (r & t & -> & Htr). case_decide as Hne; wp_step; wp_step; [done|].
  intros [_ Heq%bool_decide_eq_true]%andb_true_iff. unfold cpuset_confirmed, env_trace.
  cbn [env_sys]. rewrite Htr. by apply last_content_here.
Qed.

(** A query of the affinity does not read the [cgroup] file again. *)
Lemma verify_affinity_keeps cpus mask :
  keeps (λ e, cpuset_confirmed pid tid mask (env_trace e)) (verify_affinity tid cpus).
Proof.
  assert (adds (@env_trace W) (λ c, ∀ p r, c = KRead p r → p ≠ task_path pid tid "cgroup")
    (verify_affinity tid cpus)) as Ha.
  { unfold verify_affinity. adds_steps. apply adds_on_sys, adds_is_affinity_changed; try done.
    intros r p r' [= <- _]. apply proc_task_ne. cbn. set_solver. }
  intros e He. eapply wp_mono; [apply Ha|]. intros ok e' (new & -> & Hnew).
  induction Hnew as [|c new Hc _ IH]; [exact He|]. by apply last_content_other.
Qed.

Lemma get_affinity_records (s : Sys (Traced W)) :
  wp (os (k_sched_getaffinity tid))
    (λ r s', sys_trace s' = KGetAffinity tid r :: sys_trace s) s.
Proof.
  apply wp_os. intros r w. cbn. unfold traced. destruct (k_sched_getaffinity tid _).
  by intros [= <- <-].
Qed.

Lemma verify_affinity_confirms cpus e :
  wp (verify_affinity tid cpus)
    (λ ok e', ok = true → affinity_confirmed tid cpus (env_trace e')) e.
Proof.
  unfold verify_affinity, is_affinity_changed. wp_step. apply wp_on_sys.
  destruct cpus as [|cpu cpus']; [by repeat wp_step|].
  wp_step. eapply wp_mono; [apply get_affinity_records|]. intros [set|] s1 Htr1.
  - do 2 wp_step. rewrite negb_involutive. intros Heq%Z.eqb_eq.
    unfold affinity_confirmed, env_trace. cbn [env_sys]. rewrite Htr1. cbn [last_affinity].
    rewrite decide_True by done. by f_equal.
  - wp_step. unfold get_affinity_from_status. wp_step.
    eapply wp_mono; [apply get_affinity_records|]. intros [set|] s2 Htr2.
    + do 3 wp_step. intros Hok. unfold affinity_confirmed, env_trace. cbn [env_sys].
      rewrite Htr2. cbn [last_affinity]. rewrite decide_True by done.
      assert (from_vector (to_vector set) = from_vector (cpu :: cpus')) as <-.
      { destruct (to_vector set); [done|]. rewrite negb_involutive in Hok. by apply Z.eqb_eq. }
      rewrite to_vector_from_vector; [done|apply to_vector_sorted|apply to_vector_range].
    + wp_step. eapply wp_mono; [apply read_file_records; apply proc_dynamic|].
      intros content s' (r & t & -> & Htr). do 3 wp_step. intros Hok.
      unfold affinity_confirmed, env_trace. cbn [env_sys]. rewrite Htr, Htr2. cbn [last_affinity].
      rewrite decide_True by done. apply last_content_here.
      destruct (allowed_list _) as [|c l]; [done|].
      rewrite negb_involutive in Hok. by apply Z.eqb_eq in Hok.
Qed.

(** [CpusetSetter::apply_with_result] for a thread with a resolved mask. *)
Lemma cpuset_apply_confirms (m : ThreadMatcher R) timing result ps ts e :
  0 < tid → mr_matched result = true → has_resolved_affinity result = true →
  wp (cpuset_apply_with_result m timing pid tid result ps ts) (λ r e',
    0 ≤ at_attempts r ≤ 2
    ∧ (takeover_success r = true →
         cpuset_confirmed pid tid (mr_cpumask_name result) (env_trace e')
         ∧ affinity_confirmed tid (get_cpus_for_affinity m (mr_affinity_class result)
             (mr_effective_state result)) (env_trace e'))) e.
Proof.
  intros Ht Hm Ha. unfold cpuset_apply_with_result. rewrite Hm, Ha.
  destruct (Z.leb_spec tid 0) as [|_]; [lia|]. cbn [negb orb].
  destruct (get_cpus_for_affinity m _ _) as [|cpu cpus] eqn:Hc; [by wp_step|]. cbv zeta.
  apply wp_and; [apply takeover_attempts|].
  apply (takeover_success_sound _ _ _ _ _ _
    (λ e, cpuset_confirmed pid tid (mr_cpumask_name result) (env_trace e))
    (λ e, affinity_confirmed tid (cpu :: cpus) (env_trace e))).
  - apply verify_cpuset_confirms.
  - apply verify_affinity_keeps.
  - apply verify_affinity_confirms.
Qed.
End Confirmed.
