(* ===== verification/Restoration.v ===== *)
(** * Restoring every baseline ([core/restoration_retry.hpp], [main.cpp])

    The bounded retry around a restoration, and the restoration of all
    baselines at shutdown and before a new configuration takes over. *)

From S2P Require Import Prelude CppString ConfigTypes Kernel FileUtils FileFacts CpuMask.
From S2P Require Import ThreadMatcher ThreadCache Env Setters Tracing SetterFacts ScanWorker.
From S2P Require Import WorkerGuard WorkerFacts WorkerEffects.

(** ** Bounded retry *)

Section Retry.
Context {S : Type} (restore_operation : M S bool) (delay_operation : Z → M S unit).

(** The loop with [left] attempts to go, [attempt] being the next. *)
Fixpoint retry_loop (left : nat) (attempt : Z) : M S bool :=
  match left with
  | O => mret false
  | Datatypes.S left' =>
      ok ← restore_operation;
      if (ok : bool) then mret true
      else
        _ ← (match left' with O => mret tt | _ => delay_operation attempt end);
        retry_loop left' (attempt + 1)
  end.

Definition run_restoration_with_retry (max_attempts : Z) : M S bool :=
  if max_attempts <=? 0 then mret false else retry_loop (Z.to_nat max_attempts) 1.

(** *** What it does, in order

    [log] is a record of the attempts, with their results, and of the delays. *)
Inductive retry_event := Tried (ok : bool) | Delayed (attempt : Z).

Section Log.
Variable log : S → list retry_event.
Hypothesis Hop : ∀ s, wp restore_operation (λ ok s', log s' = log s ++ [Tried ok]) s.
Hypothesis Hdelay : ∀ n s, wp (delay_operation n) (λ _ s', log s' = log s ++ [Delayed n]) s.

(** [k] failed attempts, each followed by its delay. *)
Definition failed_attempts (first : Z) (k : nat) : list retry_event :=
  seqZ first (Z.of_nat k) ≫= λ i, [Tried false; Delayed i].

Lemma failed_attempts_S first k :
  failed_attempts first (Datatypes.S k)
  = [Tried false; Delayed first] ++ failed_attempts (first + 1) k.
Proof.
  unfold failed_attempts. rewrite seqZ_cons by lia.
  replace (Z.pred (Z.of_nat (Datatypes.S k))) with (Z.of_nat k) by lia.
  by replace (Z.succ first) with (first + 1) by lia.
Qed.

Lemma retry_loop_log n attempt s :
  wp (retry_loop (Datatypes.S n) attempt) (λ ok s', ∃ k, (k ≤ n)%nat
    ∧ log s' = log s ++ failed_attempts attempt k ++ [Tried ok] ∧ (ok = false → k = n)) s.
Proof.
  revert attempt s. induction n as [|n IH]; intros attempt s;
    cbn [retry_loop]; wp_step; (eapply wp_mono; [apply Hop|]); intros [] s1 H1; cbv beta iota.
  - wp_step. by exists 0%nat.
  - do 3 wp_step. by exists 0%nat.
  - wp_step. exists 0%nat. split_and!; [lia|done|done].
  - wp_step. eapply wp_mono; [apply Hdelay|]. cbv beta. intros _ s2 H2.
    eapply wp_mono; [apply IH|]. cbv beta. intros ok s3 (k & Hk & H3 & Hf).
    exists (Datatypes.S k). split_and!; [lia| |intros ->; f_equal; by apply Hf].
    rewrite H3, H2, H1, failed_attempts_S. by rewrite <-!(assoc_L (++)).
Qed.

Lemma run_retry_log max_attempts s :
  wp (run_restoration_with_retry max_attempts) (λ ok s',
    (max_attempts ≤ 0 → ok = false ∧ log s' = log s)
    ∧ (0 < max_attempts → ∃ k, 0 ≤ k < max_attempts
         ∧ log s' = log s ++ (seqZ 1 k ≫= λ i, [Tried false; Delayed i]) ++ [Tried ok]
         ∧ (ok = false → k = max_attempts - 1))) s.
Proof.
  unfold run_restoration_with_retry. destruct (Z.leb_spec max_attempts 0).
  - wp_step. split; [done|lia].
  - destruct (Z.to_nat max_attempts) as [|n] eqn:En; [lia|].
    eapply wp_mono; [apply retry_loop_log|]. cbv beta. intros ok s' (k & Hk & Hl & Hf).
    split; [lia|]. intros _. exists (Z.of_nat k). split_and!; [lia|lia|exact Hl|].
    intros Hok. specialize (Hf Hok). lia.
Qed.
End Log.

(** *** What success means *)

Lemma retry_success (Q : S → Prop) :
  (∀ s, wp restore_operation (λ ok s', ok = true → Q s') s) →
  ∀ max_attempts s, wp (run_restoration_with_retry max_attempts) (λ ok s', ok = true → Q s') s.
Proof.
  intros Hop max_attempts s. unfold run_restoration_with_retry. destruct (_ <=? 0); [by wp_step|].
  generalize 1 as attempt. revert s.
  induction (Z.to_nat max_attempts) as [|n IH]; intros s attempt; cbn [retry_loop]; [by wp_step|].
  wp_step. eapply wp_mono; [apply Hop|]. intros [] s1 H1; cbv beta iota; [wp_step; auto|].
  wp_step. apply wp_unfold. apply IH.
Qed.
End Retry.

(** [restore_with_bounded_retry]: a fixed delay, none when it is not positive. *)
Definition restore_with_bounded_retry {W} `{!Kernel W} (max_attempts retry_delay_ms : Z)
    (restore_operation : M (Env W) bool) : M (Env W) bool :=
  run_restoration_with_retry restore_operation
    (λ _, if 0 <? retry_delay_ms then on_sys (os (k_sleep_ms retry_delay_ms)) else mret tt)
    max_attempts.

(** ** All baselines *)

Section RestoreAll.
Context {W : Type} `{!Kernel W}.

Definition stored_identity (entry : StoredThreadBaseline) : M (Env W) bool :=
  identity_matches (stb_pid entry) (stb_tid entry) (stb_process_start_time entry)
    (stb_thread_start_time entry).

(** [if (!identity_matches()) { discard_stale_identity(); continue; }]; the
    result says whether the entry failed to be restored. *)
Definition while_stored (entry : StoredThreadBaseline) (k : M (Env W) bool) : M (Env W) bool :=
  current ← stored_identity entry;
  if (current : bool) then k
  else
    _ ← on_cache (Cache.erase_thread_if_identity (stb_pid entry) (stb_tid entry)
                    (stb_process_start_time entry) (stb_thread_start_time entry));
    mret true.

(** One round of the loop: [true] unless the entry counts as not restored. *)
Definition restore_entry (entry : StoredThreadBaseline) : M (Env W) bool :=
  let pid := stb_pid entry in
  let tid := stb_tid entry in
  let b := stb_baseline entry in
  let finish (restored : bool) :=
    while_stored entry (
    if restored then
      _ ← on_cache (Cache.clear_baseline pid tid);
      _ ← on_cache (Cache.clear_applied_result pid tid);
      _ ← on_cache (Cache.clear_managed_components pid tid);
      mret true
    else mret false) in
  let rest (restored : bool) :=
    while_stored entry (
    r2 ← (if tb_has_scheduler b
          then restore_scheduler tid (tb_scheduler_policy b) (tb_scheduler_priority b)
                 (tb_nice b)
          else mret true);
    while_stored entry (
    r3 ← (if tb_has_cpuset_path b then restore_cpuset_cgroup tid (tb_cpuset_path b)
          else mret true);
    while_stored entry (
    r4 ← (if tb_has_affinity b then restore_affinity tid (tb_affinity b) else mret true);
    finish (restored && r2 && r3 && r4)))) in
  while_stored entry (
  if tb_has_cpuctl_path b then
    while_stored entry (r1 ← restore_cpuctl_cgroup tid (tb_cpuctl_path b); rest r1)
  else rest true).

Fixpoint restore_entries (entries : list StoredThreadBaseline) (all_restored : bool)
    : M (Env W) bool :=
  match entries with
  | [] => mret all_restored
  | entry :: entries' =>
      ok ← restore_entry entry;
      restore_entries entries' (all_restored && ok)
  end.

Definition restore_all_thread_baselines : M (Env W) bool :=
  entries ← ask_cache Cache.get_all_baselines; restore_entries entries true.
End RestoreAll.

(** ** Nothing is left behind *)

Section RestoreAllFacts.
Context {W : Type} `{!Kernel W}.
Implicit Types c : ThreadCache.
Notation Cached := (@Cached W).

(** What a round does to the cache: only the entry's own key changes, and
    when it reports success there is no baseline under it any more. *)
Definition round_post (c : ThreadCache) (entry : StoredThreadBaseline) (ok : bool) (e : Env W)
    : Prop :=
  (∀ key, key ≠ (stb_pid entry, stb_tid entry) → env_cache e !! key = c !! key)
  ∧ (ok = true → Cache.get_baseline (stb_pid entry) (stb_tid entry) (env_cache e) = None).

(** The cache holds the entry under the identity it was stored with. *)
Definition holds_entry (c : ThreadCache) (entry : StoredThreadBaseline) : Prop :=
  ∃ e, c !! (stb_pid entry, stb_tid entry) = Some e
    ∧ identity e = (stb_process_start_time entry, stb_thread_start_time entry).

Lemma erase_held c entry :
  holds_entry c entry →
  Cache.erase_thread_if_identity (stb_pid entry) (stb_tid entry)
    (stb_process_start_time entry) (stb_thread_start_time entry) c
    = delete (stb_pid entry, stb_tid entry) c.
Proof.
  intros (e & He & Hid). unfold Cache.erase_thread_if_identity. rewrite He.
  unfold identity in Hid. injection Hid as -> ->. by rewrite !Z.eqb_refl.
Qed.

Lemma while_stored_post c entry k e :
  holds_entry c entry → env_cache e = c →
  (∀ e', env_cache e' = c → wp k (round_post c entry) e') →
  wp (while_stored entry k) (round_post c entry) e.
Proof.
  intros Hc He Hk. unfold while_stored. wp_step.
  eapply wp_mono; [by apply (frame_identity (λ c', c' = c))|].
  intros [] e' He'; cbv beta iota; [by apply Hk|].
  wp_step. apply wp_on_cache. wp_step. unfold WorkerFacts.Cached in He'.
  rewrite He', erase_held by done. split; cbn.
  - intros key Hne. by apply lookup_delete_ne.
  - intros _. unfold Cache.get_baseline. by rewrite lookup_delete_eq.
Qed.

(** An operation between two checks that leaves the cache alone. *)
Lemma between c {A} (m : M (Env W) A) (f : A → M (Env W) bool) entry e :
  (∀ P, keeps (Cached P) m) → env_cache e = c →
  (∀ a e', env_cache e' = c → wp (f a) (round_post c entry) e') →
  wp (m ≫= f) (round_post c entry) e.
Proof. intros Hm He Hf. wp_step. eapply wp_mono; [by apply (Hm (λ c', c' = c))|]. auto. Qed.

Lemma restore_entry_post c entry e :
  holds_entry c entry → env_cache e = c → wp (restore_entry entry) (round_post c entry) e.
Proof.
  intros Hc He. unfold restore_entry. cbv zeta.
  set (b := stb_baseline entry). set (pid := stb_pid entry). set (tid := stb_tid entry).
  apply while_stored_post; [done..|]. clear e He. intros e He.
  match goal with |- wp (if _ then while_stored _ (mbind ?rest _) else _) _ _ =>
    assert (∀ r e', env_cache e' = c → wp (rest r) (round_post c entry) e') as Hrest end.
  { clear e He. intros r1 e He. apply while_stored_post; [done..|]. intros e1 H1.
    apply between; [|done|].
    { intros P. destruct (tb_has_scheduler b); [apply frame_restore_scheduler|apply keeps_ret]. }
    intros r2 e2 H2. apply while_stored_post; [done..|]. intros e3 H3.
    apply between; [|done|].
    { intros P. destruct (tb_has_cpuset_path b);
        [apply frame_restore_cpuset_cgroup|apply keeps_ret]. }
    intros r3 e4 H4. apply while_stored_post; [done..|]. intros e5 H5.
    apply between; [|done|].
    { intros P. destruct (tb_has_affinity b); [apply frame_restore_affinity|apply keeps_ret]. }
    intros r4 e6 H6. apply while_stored_post; [done..|]. intros e7 H7.
    destruct (r1 && r2 && r3 && r4); [|by wp_step; split; [intros; by rewrite H7|]].
    do 3 (wp_step; apply wp_on_cache). wp_step. split; cbn; rewrite H7.
    - intros key Hne. unfold Cache.clear_managed_components, Cache.set_managed_components,
        Cache.clear_applied_result, Cache.clear_baseline. by rewrite !lookup_alter_ne.
    - intros _. unfold Cache.get_baseline, Cache.clear_managed_components,
        Cache.set_managed_components, Cache.clear_applied_result, Cache.clear_baseline.
      rewrite !lookup_alter_eq. fold pid tid. by destruct (c !! (pid, tid)). }
  destruct (tb_has_cpuctl_path b); [|by apply Hrest].
  apply while_stored_post; [done..|]. intros e1 H1. apply between; [|done|done].
  intros P. apply frame_restore_cpuctl_cgroup.
Qed.

Definition entry_key (entry : StoredThreadBaseline) : Z * Z := (stb_pid entry, stb_tid entry).

Lemma restore_entries_post entries ok c e :
  NoDup (entry_key <$> entries) → Forall (holds_entry c) entries → env_cache e = c →
  wp (restore_entries entries ok) (λ r e',
    (∀ key, key ∉ entry_key <$> entries → env_cache e' !! key = c !! key)
    ∧ (r = true → ok = true
       ∧ ∀ key, key ∈ entry_key <$> entries → (env_cache e' !! key ≫= tce_baseline) = None)) e.
Proof.
  revert ok c e. induction entries as [|entry entries IH]; intros ok c e Hnd Hall He;
    cbn [restore_entries].
  { wp_step. split; [by rewrite He|]. intros ->. split; [done|]. intros key Hk.
    by apply elem_of_nil in Hk. }
  rewrite fmap_cons in Hnd |- *. apply NoDup_cons in Hnd as [Hnin Hnd].
  apply Forall_cons in Hall as [Hent Hall].
  wp_step. eapply wp_mono; [by apply restore_entry_post|]. intros ok1 e1 [Hother Hnone]. cbv beta.
  eapply wp_mono; [apply (IH _ (env_cache e1)); [done| |done]|].
  { rewrite Forall_forall in *. intros x Hx. destruct (Hall x Hx) as (ex & Hex & Hid).
    exists ex. split; [|done]. rewrite Hother; [done|].
    intros Heq. apply Hnin. apply list_elem_of_fmap. by exists x. }
  intros r e2 [H1 H2]. cbv beta. split.
  - intros key [Hne Hk]%not_elem_of_cons. rewrite H1 by done. by apply Hother.
  - intros Hr. destruct (H2 Hr) as [[-> Hok1]%andb_true_iff Hb]. split; [done|].
    intros key [->|Hk]%elem_of_cons; [|by apply Hb]. rewrite H1 by done. by apply Hnone.
Qed.

(** The stored entries of a cache are its entries with a baseline, each once. *)
Lemma all_baselines_held c :
  keyed c → NoDup (entry_key <$> Cache.get_all_baselines c)
    ∧ Forall (holds_entry c) (Cache.get_all_baselines c)
    ∧ (∀ key e, c !! key = Some e → is_Some (tce_baseline e) →
         key ∈ entry_key <$> Cache.get_all_baselines c).
Proof.
  intros Hk. split_and!.
  - unfold Cache.get_all_baselines. pose proof (NoDup_fst_map_to_list c) as Hnd.
    assert (∀ kv, kv ∈ map_to_list c → kv.1 = (tce_pid kv.2, tce_tid kv.2)) as Hkey.
    { intros [key e] Hin%elem_of_map_to_list. by apply Hk. }
    revert Hnd Hkey. induction (map_to_list c) as [|[key e] l IH]; intros Hnd Hkey; [constructor|].
    rewrite fmap_cons in Hnd. apply NoDup_cons in Hnd as [Hnin Hnd].
    cbn [omap list_omap snd]. destruct (tce_baseline e) as [b|] eqn:Eb.
    2: { apply IH; [done|]. intros kv Hkv. apply Hkey. by right. }
    rewrite fmap_cons. apply NoDup_cons. split.
    2: { apply IH; [done|]. intros kv Hkv. apply Hkey. by right. }
    intros (x & Hx & ([key' e'] & Hin & Hf)%list_elem_of_omap)%list_elem_of_fmap.
    apply Hnin. apply list_elem_of_fmap. exists (key', e'). split; [|done]. cbn [fst snd] in *.
    pose proof (Hkey (key, e) ltac:(left)) as K1. pose proof (Hkey (key', e') ltac:(by right)) as K2.
    cbn [fst snd] in K1, K2. destruct (tce_baseline e'); [|done]. injection Hf as <-.
    unfold entry_key in Hx. cbn in Hx. congruence.
  - rewrite Forall_forall. intros x (key & e & He & Hb & Hp & Ht & Hid)%get_all_baselines_spec.
    exists e. split; [|done]. rewrite <-Hp, <-Ht. by rewrite <-(Hk _ _ He).
  - intros key e He [b Hb]. apply list_elem_of_fmap.
    exists {| stb_pid := tce_pid e; stb_tid := tce_tid e;
              stb_process_start_time := tce_process_start_time e;
              stb_thread_start_time := tce_thread_start_time e; stb_baseline := b |}.
    split; [exact (Hk _ _ He)|]. apply get_all_baselines_spec. exists key, e. by split_and!.
Qed.

Lemma restore_all_complete (e : Env W) :
  keyed (env_cache e) →
  wp restore_all_thread_baselines (λ ok e', ok = true →
    ∀ key entry, env_cache e' !! key = Some entry → tce_baseline entry = None) e.
Proof.
  intros Hk. unfold restore_all_thread_baselines. wp_step. apply wp_ask_cache.
  destruct (all_baselines_held _ Hk) as (Hnd & Hall & Hcover).
  eapply wp_mono; [by apply restore_entries_post|]. cbv beta. intros ok e' [Hother Hdone] Hok.
  destruct (Hdone Hok) as [_ Hnone]. intros key entry He.
  destruct (decide (key ∈ entry_key <$> Cache.get_all_baselines (env_cache e))) as [Hin|Hnin].
  - specialize (Hnone key Hin). by rewrite He in Hnone.
  - rewrite Hother in He by done. destruct (tce_baseline entry) eqn:Eb; [|done].
    exfalso. apply Hnin. by apply (Hcover key entry).
Qed.
End RestoreAllFacts.

(** ** Everything is put back *)

Section RestoreAllEffects.
Context {W : Type} `{KW : !Kernel W} `{KL : !KernelLaws W}.
Implicit Types e : Env (Traced W).

(** The identity of a stored baseline as that of a task. *)
Definition stored_task (entry : StoredThreadBaseline) : DispatchTask := {|
  dt_pid := stb_pid entry; dt_tid := stb_tid entry;
  dt_process_start_time := stb_process_start_time entry;
  dt_thread_start_time := stb_thread_start_time entry; dt_thread_name := EmptyString;
  dt_state := BG; dt_cpuset_base := EmptyString; dt_proc_name := EmptyString;
  dt_cmdline := EmptyString |}.

Section Entry.
Variable entry : StoredThreadBaseline.
Variable c0 : ThreadCache.
Notation key := (stb_pid entry, stb_tid entry).
Let b := stb_baseline entry.
Let task := stored_task entry.

(** What a successful round leaves: the thread is gone, or every part of its
    baseline was written back. *)
Definition settled (ok : bool) e : Prop :=
  ok = true → task_gone task (env_trace e) ∨ baseline_restored task b (env_trace e).

Lemma while_stored_held k Q e :
  monotone Q → Held c0 Q e → (∀ e1, Held c0 Q e1 → wp k settled e1) →
  wp (while_stored entry k) settled e.
Proof.
  intros HQ [Hc Hq] Hk. unfold while_stored. wp_step.
  eapply wp_mono; [apply wp_and; [by apply (frame_identity (λ c, c = c0))|]|].
  { apply wp_and; [by apply (keeps_monotone _ _ HQ (identity_grows task))|].
    apply identity_matches_gone. }
  intros [] e1 (H1 & H1' & Hg); [by apply Hk|]. wp_step. apply wp_on_cache. wp_step. intros _. left.
  by apply Hg.
Qed.

Lemma restores_raw :
  restores (restore_cpuctl_cgroup (stb_tid entry) (tb_cpuctl_path b)) (cpuctl_restored task b)
  ∧ restores (if tb_has_scheduler b then restore_scheduler (stb_tid entry)
                (tb_scheduler_policy b) (tb_scheduler_priority b) (tb_nice b) else mret true)
      (scheduler_restored task b)
  ∧ restores (if tb_has_cpuset_path b
              then restore_cpuset_cgroup (stb_tid entry) (tb_cpuset_path b) else mret true)
      (cpuset_restored task b)
  ∧ restores (if tb_has_affinity b then restore_affinity (stb_tid entry) (tb_affinity b)
              else mret true) (affinity_restored task b).
Proof.
  split_and!; [|apply restores_part; [|by intros tr Hf Ht; congruence]..].
  - split_and!; [intros P; apply frame_restore_cpuctl_cgroup|by apply adds_restore_cpuctl|].
    apply (restore_cpuctl_group_done task).
  - split_and!; [intros P; apply frame_restore_scheduler|by apply adds_restore_scheduler|].
    apply (restore_scheduler_call_done task).
  - split_and!; [intros P; apply frame_restore_cpuset_cgroup|by apply adds_restore_cpuset|].
    apply (restore_cpuset_group_done task).
  - split_and!; [intros P; apply frame_restore_affinity|by apply adds_restore_affinity|].
    apply (restore_affinity_call_done task).
Qed.

Lemma restore_entry_done e : env_cache e = c0 → wp (restore_entry entry) settled e.
Proof.
  intros He. unfold restore_entry. cbv zeta. fold b.
  pose proof restores_raw as (Hr1 & Hr2 & Hr3 & Hr4).
  pose proof (monotone_cpuctl task b) as Hm1. pose proof (monotone_scheduler task b) as Hm2.
  pose proof (monotone_cpuset task b) as Hm3. pose proof (monotone_affinity task b) as Hm4.
  apply (while_stored_held _ (λ _, True)); [done..|]. clear e He. intros e He.
  match goal with |- wp (if _ then while_stored _ (mbind ?rest _) else _) _ _ =>
    assert (∀ r e, Held c0 (λ tr, r = true → cpuctl_restored task b tr) e →
                   wp (rest r) settled e) as Hrest end.
  { clear e He. intros r1 e1 H1.
    eapply while_stored_held; [|exact H1|clear e1 H1; intros e1 H1]; [by monotone_facts|].
    eapply (held_then c0); [|exact Hr2|exact H1|intros r2 e2 H2]; [by monotone_facts|].
    eapply while_stored_held; [|exact H2|clear e2 H2; intros e2 H2]; [by monotone_facts|].
    eapply (held_then c0); [|exact Hr3|exact H2|intros r3 e3 H3]; [by monotone_facts|].
    eapply while_stored_held; [|exact H3|clear e3 H3; intros e3 H3]; [by monotone_facts|].
    eapply (held_then c0); [|exact Hr4|exact H3|intros r4 e4 H4]; [by monotone_facts|].
    eapply while_stored_held; [|exact H4|clear e4 H4; intros e4 H4]; [by monotone_facts|].
    destruct H4 as [_ Hq]. cbv beta in Hq. destruct Hq as [[[Hq1 Hq2] Hq3] Hq4].
    destruct r1, r2, r3, r4; cbn [andb]; try (wp_step; done).
    do 3 (wp_step; apply wp_on_cache). wp_step. intros _. right.
    unfold baseline_restored. cbn. tauto. }
  destruct (tb_has_cpuctl_path b) eqn:Hb.
  - eapply while_stored_held; [|exact He|clear e He; intros e He]; [done|].
    eapply (held_then c0); [|exact Hr1|exact He|intros r1 e1 H1]; [done|].
    apply Hrest. destruct H1 as [? [_ ?]]. done.
  - apply Hrest. destruct He as [? _]. split; [done|]. intros _ Hf. congruence.
Qed.
End Entry.

(** Rounds only add calls. *)
Lemma adds_restore_entry entry : adds (@env_trace W) (λ _, True) (restore_entry entry).
Proof.
  assert (adds (@env_trace W) (λ _, True) (stored_identity entry)) as Hid.
  { by apply adds_identity_matches. }
  unfold restore_entry, while_stored. cbv zeta.
  adds_steps; try done;
    first [by apply adds_on_cache|by apply adds_restore_cpuctl|by apply adds_restore_scheduler
          |by apply adds_restore_cpuset|by apply adds_restore_affinity].
Qed.

Lemma adds_restore_entries entries ok :
  adds (@env_trace W) (λ _, True) (restore_entries entries ok).
Proof.
  revert ok. induction entries as [|entry entries IH]; intros ok; cbn [restore_entries];
    [apply adds_ret|]. apply adds_bind; [apply adds_restore_entry|]. intros a. apply IH.
Qed.

Lemma monotone_restored task b : monotone (baseline_restored task b).
Proof.
  intros new tr (H1 & H2 & H3 & H4). split_and!.
  - by apply monotone_cpuctl.
  - by apply monotone_scheduler.
  - by apply monotone_cpuset.
  - by apply monotone_affinity.
Qed.

Lemma monotone_settled entry new e e' :
  env_trace e' = new ++ env_trace e → settled entry true e → settled entry true e'.
Proof.
  intros Htr H _. destruct (H eq_refl) as [Hg|Hr]; rewrite Htr;
    [left; by apply monotone_gone|right; by apply monotone_restored].
Qed.

Lemma restore_entries_done entries ok c e :
  NoDup (entry_key <$> entries) → Forall (holds_entry c) entries → env_cache e = c →
  wp (restore_entries entries ok) (λ r e', r = true →
    ∀ entry, entry ∈ entries → settled entry true e') e.
Proof.
  revert ok c e. induction entries as [|entry entries IH]; intros ok c e Hnd Hall He;
    cbn [restore_entries].
  { wp_step. intros _ entry Hin. by apply elem_of_nil in Hin. }
  rewrite fmap_cons in Hnd. apply NoDup_cons in Hnd as [Hnin Hnd].
  apply Forall_cons in Hall as [Hent Hall].
  wp_step. eapply wp_mono; [apply wp_and; [by apply restore_entry_post|]|].
  { by apply (restore_entry_done entry c). }
  intros ok1 e1 [[Hother Hnone] Hset]. cbv beta.
  assert (Forall (holds_entry (env_cache e1)) entries) as Hall1.
  { rewrite Forall_forall in *. intros x Hx. destruct (Hall x Hx) as (ex & Hex & Hid).
    exists ex. split; [|done]. rewrite Hother; [done|].
    intros Heq. apply Hnin. apply list_elem_of_fmap. by exists x. }
  eapply wp_mono; [apply wp_and; [by apply (IH _ (env_cache e1))|]|].
  { apply wp_and; [by apply (restore_entries_post _ _ (env_cache e1))|apply adds_restore_entries]. }
  intros r e2 (Hrest & [Hkeep Hok] & (new & Htr & _)) Hr x [->|Hx]%elem_of_cons; [|by apply Hrest].
  destruct (Hok Hr) as [[_ ->]%andb_true_iff _]. by apply (monotone_settled entry new e1).
Qed.

(** When everything is reported restored, each entry that had a baseline is of
    a thread that is gone or had every part of the baseline written back. *)
Lemma restore_all_effects e :
  keyed (env_cache e) →
  wp restore_all_thread_baselines (λ ok e', ok = true →
    ∀ stored, stored ∈ Cache.get_all_baselines (env_cache e) →
      task_gone (stored_task stored) (env_trace e')
      ∨ baseline_restored (stored_task stored) (stb_baseline stored) (env_trace e')) e.
Proof.
  intros Hk. unfold restore_all_thread_baselines. wp_step. apply wp_ask_cache.
  destruct (all_baselines_held _ Hk) as (Hnd & Hall & _).
  eapply wp_mono; [by apply (restore_entries_done _ _ (env_cache e))|]. cbv beta. intros ok e' H Hok stored Hin.
  by apply H.
Qed.
End RestoreAllEffects.
