(* ===== verification/RetryFacts.v ===== *)
(** * Restoring in several attempts

    What a restoration of all baselines keeps of the cache, and that repeated
    attempts account for every baseline there was before the first of them. *)

From S2P Require Import Prelude CppString ConfigTypes Kernel FileUtils FileFacts CpuMask.
From S2P Require Import ThreadMatcher ThreadCache Env Setters Tracing SetterFacts ScanWorker.
From S2P Require Import WorkerGuard WorkerFacts WorkerEffects Restoration.

(** ** Properties of caches that a restoration keeps *)

Definition clear_all (pid tid : Z) (c : ThreadCache) : ThreadCache :=
  Cache.clear_managed_components pid tid
    (Cache.clear_applied_result pid tid (Cache.clear_baseline pid tid c)).

Section Whole.
Context {W : Type} `{!Kernel W}.
Variable P : ThreadCache → Prop.
Hypothesis P_erase : ∀ c pid tid ps ts, P c → P (Cache.erase_thread_if_identity pid tid ps ts c).
Hypothesis P_cleared : ∀ c pid tid, P c → P (clear_all pid tid c).
Notation Cached := (@Cached W P).

Lemma whole_while_stored entry k : keeps Cached k → keeps Cached (while_stored entry k).
Proof using P_erase.
  intros Hk. unfold while_stored. apply keeps_bind; [apply frame_identity|].
  intros []; [done|]. apply keeps_bind; [|intros; apply keeps_ret].
  apply keeps_modify. intros e He. by apply P_erase.
Qed.

Lemma whole_restore_entry entry : keeps Cached (restore_entry entry).
Proof using P_erase P_cleared.
  unfold restore_entry. cbv zeta.
  match goal with |- keeps _ (while_stored _ (if _ then while_stored _ (mbind ?rest _) else _)) =>
    assert (∀ r, keeps Cached (rest r)) as Hrest end.
  { intros r. apply whole_while_stored, keeps_bind.
    { destruct (tb_has_scheduler _); [apply frame_restore_scheduler|apply keeps_ret]. }
    intros r2. apply whole_while_stored, keeps_bind.
    { destruct (tb_has_cpuset_path _); [apply frame_restore_cpuset_cgroup|apply keeps_ret]. }
    intros r3. apply whole_while_stored, keeps_bind.
    { destruct (tb_has_affinity _); [apply frame_restore_affinity|apply keeps_ret]. }
    intros r4. apply whole_while_stored. destruct (r && r2 && r3 && r4); [|apply keeps_ret].
    intros e He. do 3 (wp_step; apply wp_on_cache). wp_step. by apply P_cleared. }
  apply whole_while_stored. destruct (tb_has_cpuctl_path _); [|apply Hrest].
  apply whole_while_stored, keeps_bind; [apply frame_restore_cpuctl_cgroup|apply Hrest].
Qed.

Lemma whole_restore_all : keeps Cached restore_all_thread_baselines.
Proof using P_erase P_cleared.
  unfold restore_all_thread_baselines. apply keeps_bind; [apply frame_ask|]. intros entries.
  generalize true as ok. induction entries as [|entry entries IH]; intros ok;
    cbn [restore_entries]; [apply keeps_ret|].
  apply keeps_bind; [apply whole_restore_entry|]. intros r. apply IH.
Qed.
End Whole.

Lemma keyed_restore_all {W} `{!Kernel W} :
  keeps (@Cached W keyed) restore_all_thread_baselines.
Proof.
  apply whole_restore_all.
  - intros c pid tid ps ts Hc. unfold Cache.erase_thread_if_identity. destruct (c !! _); [|done].
    destruct (_ && _); [|done]. by apply map_Forall_delete.
  - intros c pid tid Hc. unfold clear_all, Cache.clear_managed_components,
      Cache.set_managed_components, Cache.clear_applied_result, Cache.clear_baseline.
    by repeat apply keyed_alter.
Qed.

(** ** A round that fails changes nothing *)

Section Kept.
Context {W : Type} `{!Kernel W}.

Lemma kept_while_stored c entry k (e : Env W) :
  env_cache e = c →
  (∀ e', env_cache e' = c → wp k (λ ok e'', ok = false → env_cache e'' = c) e') →
  wp (while_stored entry k) (λ ok e', ok = false → env_cache e' = c) e.
Proof.
  intros He Hk. unfold while_stored. wp_step.
  eapply wp_mono; [by apply (frame_identity (λ c', c' = c))|]. intros [] e' He'; [by apply Hk|].
  wp_step. apply wp_on_cache. by wp_step.
Qed.

Lemma restore_entry_kept c entry (e : Env W) :
  env_cache e = c → wp (restore_entry entry) (λ ok e', ok = false → env_cache e' = c) e.
Proof.
  intros He. unfold restore_entry. cbv zeta. apply kept_while_stored; [done|]. clear e He. intros e He.
  match goal with |- wp (if _ then while_stored _ (mbind ?rest _) else _) _ _ =>
    assert (∀ r e, env_cache e = c → wp (rest r) (λ ok e', ok = false → env_cache e' = c) e) as Hrest end.
  { clear e He. intros r e He. apply kept_while_stored; [done|]. clear e He. intros e He. wp_step.
    eapply wp_mono with (Q := λ _ e', env_cache e' = c).
    { destruct (tb_has_scheduler _); [by apply (frame_restore_scheduler (λ c', c' = c))|by wp_step]. }
    intros r2 e1 H1. apply kept_while_stored; [done|]. clear e1 H1. intros e1 H1. wp_step.
    eapply wp_mono with (Q := λ _ e', env_cache e' = c).
    { destruct (tb_has_cpuset_path _);
        [by apply (frame_restore_cpuset_cgroup (λ c', c' = c))|by wp_step]. }
    intros r3 e2 H2. apply kept_while_stored; [done|]. clear e2 H2. intros e2 H2. wp_step.
    eapply wp_mono with (Q := λ _ e', env_cache e' = c).
    { destruct (tb_has_affinity _); [by apply (frame_restore_affinity (λ c', c' = c))|by wp_step]. }
    intros r4 e3 H3. apply kept_while_stored; [done|]. clear e3 H3. intros e3 H3.
    destruct (_ && _); [|by wp_step]. do 3 (wp_step; apply wp_on_cache). by wp_step. }
  destruct (tb_has_cpuctl_path _); [|by apply Hrest].
  apply kept_while_stored; [done|]. clear e He. intros e He. wp_step.
  eapply wp_mono; [by apply (frame_restore_cpuctl_cgroup (λ c', c' = c))|]. intros r e1 H1. by apply Hrest.
Qed.
End Kept.

(** ** What becomes of each baseline *)

Section Attempts.
Context {W : Type} `{!Kernel W} `{!KernelLaws W}.
Notation Env := (Env (Traced W)).
Implicit Types e : Env.

(** The thread is gone, or every part of its baseline was written back. *)
Definition accounted (stored : StoredThreadBaseline) (tr : list kcall) : Prop :=
  task_gone (stored_task stored) tr
  ∨ baseline_restored (stored_task stored) (stb_baseline stored) tr.

Lemma monotone_accounted stored : monotone (accounted stored).
Proof.
  intros new tr [Hg|Hr]; [left; by apply monotone_gone|right; by apply monotone_restored].
Qed.
Definition pending (stored : StoredThreadBaseline) e : Prop :=
  stored ∈ Cache.get_all_baselines (env_cache e).

Lemma pending_lookup stored e e' :
  keyed (env_cache e) → env_cache e' !! entry_key stored = env_cache e !! entry_key stored →
  pending stored e → pending stored e'.
Proof.
  intros Hk Heq. unfold pending. rewrite !get_all_baselines_spec.
  intros (key & en & Hen & Hb & Hp & Ht & Hid). exists key, en.
  assert (key = entry_key stored) as ->.
  { rewrite (Hk _ _ Hen). unfold entry_key. by rewrite Hp, Ht. }
  by rewrite Heq.
Qed.

Lemma restore_entries_partial entries ok c e :
  NoDup (entry_key <$> entries) → Forall (holds_entry c) entries → env_cache e = c →
  wp (restore_entries entries ok) (λ _ e', ∀ entry, entry ∈ entries →
    accounted entry (env_trace e') ∨ env_cache e' !! entry_key entry = c !! entry_key entry) e.
Proof.
  revert ok c e. induction entries as [|entry entries IH]; intros ok c e Hnd Hall He;
    cbn [restore_entries].
  { wp_step. intros entry Hin. by apply elem_of_nil in Hin. }
  rewrite fmap_cons in Hnd. apply NoDup_cons in Hnd as [Hnin Hnd].
  apply Forall_cons in Hall as [Hent Hall].
  wp_step. eapply wp_mono; [apply wp_and; [by apply restore_entry_post|apply wp_and;
    [by apply (restore_entry_done entry c)|by apply restore_entry_kept]]|].
  intros ok1 e1 ([Hother _] & Hset & Hkept). cbv beta.
  assert (Forall (holds_entry (env_cache e1)) entries) as Hall1.
  { rewrite Forall_forall in *. intros x Hx. destruct (Hall x Hx) as (ex & Hex & Hid).
    exists ex. split; [|done]. rewrite Hother; [done|].
    intros Heq. apply Hnin. apply list_elem_of_fmap. by exists x. }
  eapply wp_mono; [apply wp_and; [by apply (IH _ (env_cache e1))|]|].
  { apply wp_and; [by apply (restore_entries_post _ _ (env_cache e1))|apply adds_restore_entries]. }
  intros r e2 (Hrest & [Hkeep _] & (new & Htr & _)) x [->|Hx]%elem_of_cons.
  - assert (env_cache e2 !! entry_key entry = env_cache e1 !! entry_key entry) as Heq by (by apply Hkeep).
    destruct ok1.
    + left. rewrite Htr. by apply monotone_accounted, Hset.
    + right. by rewrite Heq, (Hkept eq_refl).
  - destruct (Hrest x Hx) as [?|Heq]; [by left|right]. rewrite Heq. apply Hother.
    intros Hk. apply Hnin. apply list_elem_of_fmap. by exists x.
Qed.

(** Every baseline of [all] is accounted for or still to be restored. *)
Definition progress (all : list StoredThreadBaseline) e : Prop :=
  keyed (env_cache e) ∧ ∀ stored, stored ∈ all → accounted stored (env_trace e) ∨ pending stored e.

Lemma restore_all_progress all :
  keeps (progress all) restore_all_thread_baselines.
Proof.
  intros e [Hk Hall]. eapply wp_mono; [apply wp_and; [by apply keyed_restore_all|]|].
  { unfold restore_all_thread_baselines. wp_step. apply wp_ask_cache.
    destruct (all_baselines_held _ Hk) as (Hnd & Hheld & Hcover).
    apply wp_and; [by apply (restore_entries_partial _ _ (env_cache e))|apply adds_restore_entries]. }
  intros ok e' (Hk' & Hpart & (new & Htr & _)). split; [done|]. intros stored Hin.
  destruct (Hall stored Hin) as [Ha|Hp].
  - left. rewrite Htr. by apply monotone_accounted.
  - destruct (Hpart stored Hp) as [?|Heq]; [by left|right]. by apply (pending_lookup stored e).
Qed.

Lemma sleep_progress all ms : keeps (progress all) (on_sys (os (k_sleep_ms ms))).
Proof.
  intros e [Hk Hall]. apply wp_on_sys, wp_os. intros a w E. split; [done|]. intros stored Hin.
  destruct (Hall stored Hin) as [Ha|Hp]; [left|by right].
  unfold env_trace, sys_trace in *. cbn in *. unfold traced in E. destruct (k_sleep_ms ms _) as [b w'].
  injection E as _ <-. cbn. exact (monotone_accounted _ [_] _ Ha).
Qed.

Lemma bounded_retry_progress n ms all :
  keeps (progress all) (restore_with_bounded_retry n ms restore_all_thread_baselines).
Proof.
  unfold restore_with_bounded_retry, run_restoration_with_retry. destruct (_ <=? 0); [apply keeps_ret|].
  generalize 1 as attempt. induction (Z.to_nat n) as [|left IH]; intros attempt; cbn [retry_loop];
    [apply keeps_ret|].
  apply keeps_bind; [apply restore_all_progress|]. intros []; [apply keeps_ret|].
  apply keeps_bind; [|intros _; apply IH].
  destruct left; [apply keeps_ret|]. destruct (0 <? ms); [apply sleep_progress|apply keeps_ret].
Qed.

Lemma bounded_retry_grows n ms :
  adds (@env_trace W) (λ _, True) (restore_with_bounded_retry n ms restore_all_thread_baselines).
Proof.
  unfold restore_with_bounded_retry, run_restoration_with_retry.
  destruct (_ <=? 0); [apply adds_ret|]. generalize 1 as attempt.
  induction (Z.to_nat n) as [|left IH]; intros attempt; cbn [retry_loop]; [apply adds_ret|].
  apply adds_bind; [unfold restore_all_thread_baselines; apply adds_bind;
    [apply adds_ask_cache|intros; apply adds_restore_entries]|].
  intros []; [apply adds_ret|]. apply adds_bind; [|intros _; apply IH].
  destruct left; [apply adds_ret|]. destruct (0 <? ms); [|apply adds_ret].
  by apply adds_on_sys, adds_call.
Qed.

Lemma bounded_retry_restores n ms e :
  keyed (env_cache e) →
  wp (restore_with_bounded_retry n ms restore_all_thread_baselines) (λ ok e', ok = true →
    (∀ key entry, env_cache e' !! key = Some entry → tce_baseline entry = None)
    ∧ ∀ stored, stored ∈ Cache.get_all_baselines (env_cache e) → accounted stored (env_trace e')) e.
Proof.
  intros Hk. remember (Cache.get_all_baselines (env_cache e)) as all eqn:Eall.
  assert (progress all e) as H0 by (split; [done|]; intros; right; unfold pending; by rewrite <-Eall).
  unfold restore_with_bounded_retry, run_restoration_with_retry. destruct (_ <=? 0); [by wp_step|].
  clear Hk Eall. generalize 1 as attempt. revert e H0.
  induction (Z.to_nat n) as [|left IH]; intros e H0 attempt; cbn [retry_loop]; [by wp_step|].
  wp_step. eapply wp_mono; [apply wp_and; [by apply restore_all_progress|]|].
  { apply restore_all_complete. by destruct H0. }
  intros ok e1 [H1 Hnone]. destruct ok.
  - wp_step. intros _. specialize (Hnone eq_refl). split; [done|]. intros stored Hin.
    destruct H1 as [_ H1]. destruct (H1 stored Hin) as [?|Hp]; [done|].
    apply get_all_baselines_spec in Hp as (key & en & Hen & Hb & _). rewrite (Hnone key en Hen) in Hb. done.
  - wp_step. eapply wp_mono with (Q := λ _, progress all).
    { destruct left; [by wp_step|]. destruct (0 <? ms); [by apply sleep_progress|by wp_step]. }
    intros _ e2 H2. by apply IH.
Qed.
End Attempts.
