(* ===== verification/Reload.v ===== *)
(** * Reloading the configuration ([main.cpp])

    The daemon's state, the start and stop of its workers, the detection of a
    changed configuration file with the deferral of failed ones, and the
    replacement of the scheduler: the old workers stop, every baseline is
    restored, the groups of the new configuration are set up and its workers
    start; when one of these fails, the old scheduler is brought back. *)

From S2P Require Import Prelude CppString ConfigTypes Json ConfigParser Kernel FileUtils ConfigWatch.
From S2P Require Import CgroupInit ThreadMatcher ThreadCache Env Setters ScanWorker ScanCursor.
From S2P Require Import LauncherFinder Dispatch FullScan ScanCycle EventRouter ProcMonitor Restoration.

(** [std::thread]'s constructor; [false]: it throws. *)
Class KernelThreads (W : Type) := { k_thread_create : M W bool; k_eventfd : M W (option Z) }.

(** ** State *)

(** What [main] remembers of the configuration file; [None] is
    [time_point::min()]. *)
Record Detection := {
  dt_last_mtime : Z;
  dt_last_config_hash : Z;
  dt_failed_config_hash : Z;
  dt_retry_delay_seconds : Z;
  dt_next_config_retry : option Z }.

(** The objects a reload replaces: configuration, matcher, the group checks of
    the CPU setter, the state of the scans and the router's throttle. *)
Record Scheduler (R : Type) := MkScheduler {
  sd_config : Config;
  sd_matcher : ThreadMatcher R;
  sd_group_checks : gmap string GroupCheck;
  sd_cycle : Cycle;
  sd_throttle_ms : Z }.
Arguments MkScheduler {R} _ _ _ _ _.
Arguments sd_config {R} _.
Arguments sd_matcher {R} _.
Arguments sd_group_checks {R} _.
Arguments sd_cycle {R} _.
Arguments sd_throttle_ms {R} _.

Record Daemon (R W : Type) := MkDaemon {
  dm_main : Main W;
  dm_running : bool;
  dm_sched : Scheduler R;
  dm_detection : Detection;
  dm_watcher : ConfigFileWatcher;
  dm_monitor : ProcMonitor;
  dm_next_monitor_restart : Z;
  dm_router : EventRouter;
  dm_shutdown_requested : bool }.
Arguments MkDaemon {R W} _ _ _ _ _ _ _ _ _.
Arguments dm_main {R W} _.
Arguments dm_running {R W} _.
Arguments dm_sched {R W} _.
Arguments dm_detection {R W} _.
Arguments dm_watcher {R W} _.
Arguments dm_monitor {R W} _.
Arguments dm_next_monitor_restart {R W} _.
Arguments dm_router {R W} _.
Arguments dm_shutdown_requested {R W} _.

Section Lift.
Context {R W : Type}.

(** Operations of the scans, of the file layer, and of the setters with the
    thread cache. *)
Definition in_main {A} (op : M (Main W) A) : M (Daemon R W) A :=
  λ d, let '(a, m) := op (dm_main d) in
       (a, MkDaemon m (dm_running d) (dm_sched d) (dm_detection d) (dm_watcher d) (dm_monitor d)
             (dm_next_monitor_restart d) (dm_router d) (dm_shutdown_requested d)).
Definition in_sys {A} (op : M (Sys W) A) : M (Daemon R W) A := in_main (main_sys op).

Definition in_env {A} (op : M (Env W) A) : M (Daemon R W) A :=
  λ d, let m := dm_main d in
       let s := dm_sched d in
       let '(a, e) := op (MkEnv (mn_sys m) (mn_cache m) (mn_buckets m) (sd_group_checks s)
                            init_schedule) in
       (a, MkDaemon (MkMain (env_sys e) (env_buckets e) (env_cache e) (mn_workers m) (mn_budget m)
                       (mn_rescan m)) (dm_running d)
             (MkScheduler (sd_config s) (sd_matcher s) (env_group_checks e) (sd_cycle s)
                (sd_throttle_ms s)) (dm_detection d) (dm_watcher d) (dm_monitor d)
             (dm_next_monitor_restart d) (dm_router d) (dm_shutdown_requested d)).

Definition set_running (b : bool) : M (Daemon R W) unit :=
  modify (λ d, MkDaemon (dm_main d) b (dm_sched d) (dm_detection d) (dm_watcher d) (dm_monitor d)
                 (dm_next_monitor_restart d) (dm_router d) (dm_shutdown_requested d)).
Definition on_scheduler (f : Scheduler R → Scheduler R) : M (Daemon R W) unit :=
  modify (λ d, MkDaemon (dm_main d) (dm_running d) (f (dm_sched d)) (dm_detection d)
                 (dm_watcher d) (dm_monitor d) (dm_next_monitor_restart d) (dm_router d)
                 (dm_shutdown_requested d)).
Definition on_detection (f : Detection → Detection) : M (Daemon R W) unit :=
  modify (λ d, MkDaemon (dm_main d) (dm_running d) (dm_sched d) (f (dm_detection d))
                 (dm_watcher d) (dm_monitor d) (dm_next_monitor_restart d) (dm_router d)
                 (dm_shutdown_requested d)).
Definition set_workers (workers : list Queue.WorkerQueue) : M (Daemon R W) unit :=
  in_main (main_workers (λ _, workers)).

Definition on_cycle (f : Cycle → Cycle) : M (Daemon R W) unit :=
  on_scheduler (λ s, MkScheduler (sd_config s) (sd_matcher s) (sd_group_checks s) (f (sd_cycle s))
                       (sd_throttle_ms s)).

(** [next_full_scan = now]. *)
Definition with_next_full_scan (now : Z) (c : Cycle) : Cycle :=
  with_cycle (cy_phase c) (cy_active c) (cy_scan c) (cy_processed c) now c.
End Lift.

(** ** Workers *)

Section Workers.
Context {W : Type} `{!Kernel W} `{!KernelThreads W}.

(** [ScanWorker::start] of a worker that has its configurations; [false]: it
    throws. *)
Definition start_worker (q : Queue.WorkerQueue) : M (Sys W) (bool * Queue.WorkerQueue) :=
  if Queue.wq_started q then mret (true, q)
  else
    created ← os k_thread_create;
    mret (if (created : bool) then (true, Queue.start q)
          else (false, {| Queue.wq_running := false; Queue.wq_started := false;
                          Queue.wq_task_queue := Queue.wq_task_queue q;
                          Queue.wq_pending := Queue.wq_pending q |})).

Definition stop_all_workers (workers : list Queue.WorkerQueue) : list Queue.WorkerQueue :=
  Queue.stop <$> workers.

Fixpoint start_each (workers : list Queue.WorkerQueue)
    : M (Sys W) (bool * list Queue.WorkerQueue) :=
  match workers with
  | [] => mret (true, [])
  | q :: rest =>
      '(ok, q) ← start_worker q;
      if negb ok then mret (false, q :: rest)
      else '(ok, rest) ← start_each rest; mret (ok, q :: rest)
  end.

Definition start_all_workers (workers : list Queue.WorkerQueue)
    : M (Sys W) (bool * list Queue.WorkerQueue) :=
  '(ok, workers) ← start_each workers;
  mret (if (ok : bool) then (true, workers) else (false, stop_all_workers workers)).
End Workers.

(** [ScanWorker1] to [ScanWorker4]. *)
Definition new_workers : list Queue.WorkerQueue := replicate 4 Queue.new_worker.

(** ** One attempt *)

Section Reload.
Context {J R W : Type} `{!Json J} `{!RegexEngine R} `{!StringHash} `{!Kernel W} `{!KernelWatch W}
  `{!KernelScan W} `{!KernelProcess W} `{!KernelThreads W}.
Variable json_parse : string → option J.

Definition with_launcher (launcher : string) (config : Config) : Config :=
  {| cfg_meta_name := cfg_meta_name config; cfg_meta_author := cfg_meta_author config;
     cfg_sched := cfg_sched config; cfg_launcher_package := launcher |}.

(** [ConfigParser::parse] reads the file through a stream of its own. *)
Definition parse_file (path : string) : M (Sys W) ConfigParseResult :=
  file ← os (k_read path); mret (parse json_parse file).

(** [baselines_restored], [new_cgroups_ready] and [new_workers_started]. *)
Definition prepare_replacement (config : Config)
    : M (Daemon R W) (bool * bool * option (list Queue.WorkerQueue)) :=
  restored ← in_env restore_all_thread_baselines;
  if negb restored then mret (false, false, None)
  else
    ready ← in_sys (init config);
    if negb ready then mret (true, false, None)
    else
      '(started, workers) ← in_sys (start_all_workers new_workers);
      mret (true, true, if (started : bool) then Some workers else None).

(** The replacement failed: the old workers are started again, on the groups of
    the old configuration. *)
Definition recover_old (baselines_restored : bool) (old_workers : list Queue.WorkerQueue)
    : M (Daemon R W) unit :=
  set_workers old_workers;;
  config ← gets (λ d, sd_config (dm_sched d));
  cgroups_ready ← (if negb baselines_restored then mret true else in_sys (init config));
  workers_started ←
    (if (cgroups_ready : bool) then
       '(started, workers) ← in_sys (start_all_workers old_workers);
       set_workers workers;; mret started
     else mret false);
  (if (cgroups_ready : bool) && workers_started then mret tt else set_running false);;
  in_main (set_rescan true);;
  now ← in_sys (os k_now);
  on_cycle (with_next_full_scan now).

(** The replacement is complete. *)
Definition commit_replacement (config : Config) (workers : list Queue.WorkerQueue)
    : M (Daemon R W) unit :=
  set_workers workers;;
  on_scheduler (λ s, MkScheduler config (new_matcher config) ∅ (sd_cycle s) (sd_throttle_ms s));;
  in_main (modify (λ m, MkMain (mn_sys m) ∅ (mn_cache m) (mn_workers m) (mn_budget m)
                          (mn_rescan m)));;
  in_main (main_cache Cache.clear_scheduling_state_preserving_baselines);;
  cycle ← gets (λ d, sd_cycle (dm_sched d));
  cycle ← in_main (reset_cursors cycle);
  scan ← in_main (reset_scan (cy_scan cycle));
  now ← in_sys (os k_now);
  on_cycle (λ _,
    {| cy_top_cursor := cy_top_cursor cycle; cy_pinned_cursor := cy_pinned_cursor cycle;
       cy_topfore_cursor := cy_topfore_cursor cycle;
       cy_foreground_cursor := cy_foreground_cursor cycle;
       cy_background_cursor := cy_background_cursor cycle; cy_phase := 0; cy_active := false;
       cy_scan := scan; cy_processed := ∅;
       cy_pinned_cache := PidCache.clear (cy_pinned_cache cycle);
       cy_topfore_cache := PidCache.clear (cy_topfore_cache cycle);
       cy_top_app_pids := ∅; cy_foreground_pids := ∅; cy_background_pids := ∅;
       cy_process_states := ∅; cy_next_full_scan := now |});;
  let timing := sc_timing (cfg_sched config) in
  in_sys (set_cache_ttls (file_cache_ttl_ms timing) (cgroup_cache_ttl_ms timing));;
  on_scheduler (λ s, MkScheduler (sd_config s) (sd_matcher s) (sd_group_checks s) (sd_cycle s)
                       (event_throttle_ms timing));;
  on_detection (λ t, {| dt_last_mtime := dt_last_mtime t;
                        dt_last_config_hash := dt_last_config_hash t;
                        dt_failed_config_hash := dt_failed_config_hash t;
                        dt_retry_delay_seconds := config_retry_initial_delay_s timing;
                        dt_next_config_retry := dt_next_config_retry t |}).

(** The replacement of the scheduler under the scheduler mutex. *)
Definition replace_scheduler (config : Config) : M (Daemon R W) bool :=
  old_workers ← gets (λ d, stop_all_workers (mn_workers (dm_main d)));
  set_workers [];;
  '(restored, ready, workers) ← prepare_replacement config;
  match workers with
  | Some workers =>
      if (restored : bool) && ready then commit_replacement config workers;; mret true
      else recover_old restored old_workers;; mret false
  | None => recover_old restored old_workers;; mret false
  end.

Definition attempt_reload (path : string) : M (Daemon R W) bool :=
  parsed ← in_sys (parse_file path);
  if negb (cpr_success parsed) then mret false
  else
    let config := cpr_config parsed in
    if negb (sc_enable (cfg_sched config)) then set_running false;; mret true
    else
      launcher ← in_sys find_launcher;
      replace_scheduler (with_launcher launcher config).

(** ** Detection and deferral *)

(** The outcome of an attempt made at [checked] on a file with [mtime] and
    [hash]. *)
Definition record_outcome (succeeded : bool) (mtime hash checked : Z) (timing : TimingConfig)
    (t : Detection) : Detection :=
  if succeeded then
    {| dt_last_mtime := mtime; dt_last_config_hash := hash; dt_failed_config_hash := 0;
       dt_retry_delay_seconds := config_retry_initial_delay_s timing;
       dt_next_config_retry := None |}
  else if hash =? 0 then t
  else
    let delay :=
      if dt_failed_config_hash t =? hash
      then Z.min (to_int32 (dt_retry_delay_seconds t * 2)) (config_retry_max_delay_s timing)
      else config_retry_initial_delay_s timing in
    {| dt_last_mtime := dt_last_mtime t; dt_last_config_hash := dt_last_config_hash t;
       dt_failed_config_hash := hash; dt_retry_delay_seconds := delay;
       dt_next_config_retry := Some (checked + delay * 1000000000) |}.

Definition changed_fallback (mtime hash : Z) (t : Detection) : bool :=
  (negb (mtime =? dt_last_mtime t) && (0 <? mtime))
  || (negb (hash =? dt_last_config_hash t) && negb (hash =? 0)).

Definition retry_deferred (hash now : Z) (t : Detection) : bool :=
  negb (hash =? 0) && (hash =? dt_failed_config_hash t)
  && match dt_next_config_retry t with Some next => now <? next | None => false end.

(** What a round learns of the file: whether the watch saw a change, the
    modification time, the hash, and when it looked. *)
Definition look_at_config (path : string) : M (Daemon R W) (bool * Z * Z * Z) :=
  watcher ← gets dm_watcher;
  '(seen, watcher) ← in_sys (check_and_clear watcher);
  modify (λ d, MkDaemon (dm_main d) (dm_running d) (dm_sched d) (dm_detection d) watcher
                 (dm_monitor d) (dm_next_monitor_restart d) (dm_router d) (dm_shutdown_requested d));;
  mtime ← in_sys (get_file_mtime path);
  hash ← in_sys (compute_config_hash path);
  now ← in_sys (os k_now);
  mret (default false seen, mtime, hash, now).

(** An attempt, and what is remembered of it. *)
Definition try_config (path : string) (mtime hash now : Z) : M (Daemon R W) bool :=
  succeeded ← attempt_reload path;
  timing ← gets (λ d, sc_timing (cfg_sched (sd_config (dm_sched d))));
  on_detection (record_outcome succeeded mtime hash now timing);;
  (if (succeeded : bool) then in_main (set_rescan true) else mret tt);;
  mret true.

(** The configuration part of a round of the main loop; the result says whether
    an attempt was made. *)
Definition check_config (path : string) : M (Daemon R W) bool :=
  '(seen, mtime, hash, now) ← look_at_config path;
  t ← gets dm_detection;
  if (seen || changed_fallback mtime hash t) && negb (retry_deferred hash now t)
  then try_config path mtime hash now
  else mret false.
End Reload.
