(* ===== verification/ReloadFacts.v ===== *)
(** * What a reload leaves behind

    Either the new configuration is in effect, with its matcher, four running
    workers, an empty thread cache and a scan that starts over; or the old one
    still is, with its workers running; or the daemon stops.  And the deferral of
    a failed configuration. *)

From S2P Require Import Prelude CppString ConfigTypes Json ConfigParser Kernel FileUtils FileFacts.
From S2P Require Import ConfigWatch CgroupInit ThreadMatcher ThreadCache Env Setters ScanWorker.
From S2P Require Import ScanCursor LauncherFinder LauncherFacts Dispatch FullScan ScanCycle EventRouter.
From S2P Require Import ProcMonitor Restoration Reload.

Section Rules.
Context {R W : Type}.
Implicit Types d : Daemon R W.

Lemma wp_in_main {A} (op : M (Main W) A) (Q : A → Daemon R W → Prop) d :
  wp op (λ a m, Q a (MkDaemon m (dm_running d) (dm_sched d) (dm_detection d) (dm_watcher d)
    (dm_monitor d) (dm_next_monitor_restart d) (dm_router d) (dm_shutdown_requested d))) (dm_main d) →
  wp (in_main op) Q d.
Proof. unfold wp, in_main. by destruct (op (dm_main d)). Qed.

(** What an operation on the system leaves as it is. *)
Definition same_but_sys d d' : Prop :=
  mn_buckets (dm_main d') = mn_buckets (dm_main d) ∧ mn_cache (dm_main d') = mn_cache (dm_main d)
  ∧ mn_workers (dm_main d') = mn_workers (dm_main d) ∧ mn_rescan (dm_main d') = mn_rescan (dm_main d)
  ∧ dm_running d' = dm_running d ∧ dm_sched d' = dm_sched d ∧ dm_detection d' = dm_detection d
  ∧ dm_watcher d' = dm_watcher d ∧ dm_monitor d' = dm_monitor d ∧ dm_router d' = dm_router d
  ∧ dm_next_monitor_restart d' = dm_next_monitor_restart d.

Lemma wp_in_sys {A} (op : M (Sys W) A) (P : A → Prop) (Q : A → Daemon R W → Prop) d :
  (∀ s, wp op (λ a _, P a) s) → (∀ a d', P a → same_but_sys d d' → Q a d') → wp (in_sys op) Q d.
Proof.
  intros Hop HQ. apply wp_in_main, wp_main_sys. eapply wp_mono; [apply Hop|]. intros a s Ha.
  apply HQ; [done|]. by repeat split.
Qed.
Lemma wp_in_sys_any {A} (op : M (Sys W) A) (Q : A → Daemon R W → Prop) d :
  (∀ a d', same_but_sys d d' → Q a d') → wp (in_sys op) Q d.
Proof.
  intros HQ. apply (wp_in_sys op (λ _, True)); [|by intros; apply HQ]. intros s. by apply wp_unfold.
Qed.

(** Operations of the scans that only call the system. *)
Definition sys_only {A} (op : M (Main W) A) : Prop :=
  ∀ m, ∃ a s, op m = (a, MkMain s (mn_buckets m) (mn_cache m) (mn_workers m) (mn_budget m)
                           (mn_rescan m)).
Lemma sys_only_ret {A} (a : A) : sys_only (mret a).
Proof. intros m. exists a, (mn_sys m). by destruct m. Qed.
Lemma sys_only_bind {A B} (op : M (Main W) A) (f : A → M (Main W) B) :
  sys_only op → (∀ a, sys_only (f a)) → sys_only (op ≫= f).
Proof.
  intros H1 H2 m. destruct (H1 m) as (a & s & E). rewrite bind_run, E.
  destruct (H2 a (MkMain s (mn_buckets m) (mn_cache m) (mn_workers m) (mn_budget m) (mn_rescan m)))
    as (b & s' & E'). rewrite E'. by exists b, s'.
Qed.
Lemma sys_only_sys {A} (op : M (Sys W) A) : sys_only (main_sys op).
Proof. intros m. unfold main_sys. destruct (op (mn_sys m)) as [a s]. by exists a, s. Qed.
Lemma wp_sys_only {A} (op : M (Main W) A) (Q : A → Daemon R W → Prop) d :
  sys_only op → (∀ a d', same_but_sys d d' → Q a d') → wp (in_main op) Q d.
Proof.
  intros Hop HQ. apply wp_in_main. destruct (Hop (dm_main d)) as (a & s & E). unfold wp. rewrite E.
  apply HQ. by repeat split.
Qed.

Lemma wp_in_env {A} (op : M (Env W) A) (Q : A → Daemon R W → Prop) d :
  wp op (λ a e, Q a (MkDaemon (MkMain (env_sys e) (env_buckets e) (env_cache e)
      (mn_workers (dm_main d)) (mn_budget (dm_main d)) (mn_rescan (dm_main d))) (dm_running d)
    (MkScheduler (sd_config (dm_sched d)) (sd_matcher (dm_sched d)) (env_group_checks e)
       (sd_cycle (dm_sched d)) (sd_throttle_ms (dm_sched d))) (dm_detection d) (dm_watcher d)
    (dm_monitor d) (dm_next_monitor_restart d) (dm_router d) (dm_shutdown_requested d)))
    (MkEnv (mn_sys (dm_main d)) (mn_cache (dm_main d)) (mn_buckets (dm_main d))
       (sd_group_checks (dm_sched d)) init_schedule) →
  wp (in_env op) Q d.
Proof. unfold wp, in_env. by destruct (op _). Qed.
End Rules.

(** ** Workers *)

Definition worker_up (q : Queue.WorkerQueue) : Prop :=
  Queue.wq_started q = true ∧ Queue.wq_running q = true.
Definition worker_down (q : Queue.WorkerQueue) : Prop := Queue.wq_started q = false.
(** Four workers that take tasks. *)
Definition workers_up (workers : list Queue.WorkerQueue) : Prop :=
  length workers = 4%nat ∧ Forall worker_up workers.

Section Workers.
Context {W : Type} `{!Kernel W} `{!KernelThreads W}.

Lemma start_each_spec workers (s : Sys W) :
  Forall worker_down workers →
  wp (start_each workers) (λ r _, length r.2 = length workers ∧ (r.1 = true → Forall worker_up r.2)) s.
Proof.
  intros Hw. revert s. induction Hw as [|q workers Hq _ IH]; intros s; cbn [start_each]; [by wp_step|].
  unfold start_worker at 1. rewrite Hq. wp_step. wp_step. apply wp_os. intros [] w _; wp_step; cbn [negb].
  - wp_step. eapply wp_mono; [apply IH|]. intros [ok rest] s' [H1 H2]. wp_step. cbn in *.
    split; [by f_equal|]. intros Hok. constructor; [|by apply H2]. unfold Queue.start.
    by rewrite Hq.
  - by wp_step.
Qed.

Lemma start_all_spec workers (s : Sys W) :
  Forall worker_down workers →
  wp (start_all_workers workers) (λ r _, length r.2 = length workers
    ∧ (r.1 = true → Forall worker_up r.2)) s.
Proof.
  intros Hw. unfold start_all_workers. wp_step. eapply wp_mono; [by apply start_each_spec|].
  intros [[] workers'] s' [H1 H2]; wp_step; [done|]. cbn in *. split; [|done].
  unfold stop_all_workers. by rewrite length_fmap.
Qed.

Lemma stop_all_down workers : Forall worker_down (stop_all_workers workers).
Proof. apply Forall_fmap, Forall_true. by intros. Qed.
Lemma new_workers_down : Forall worker_down new_workers.
Proof. by repeat constructor. Qed.
End Workers.

(** ** An attempt *)

Section Attempt.
Context {J R W : Type} `{!Json J} `{!RegexEngine R} `{!StringHash} `{!Kernel W} `{!KernelWatch W}
  `{!KernelScan W} `{!KernelProcess W} `{!KernelThreads W}.
Variable json_parse : string → option J.
Implicit Types d : Daemon R W.

(** The daemon works with one configuration, and as long as it runs its workers
    do. *)
Definition serving d : Prop :=
  sd_matcher (dm_sched d) = new_matcher (sd_config (dm_sched d))
  ∧ length (mn_workers (dm_main d)) = 4%nat
  ∧ (dm_running d = true → Forall worker_up (mn_workers (dm_main d))).

(** The old configuration is still the one in use. *)
Definition kept d d' : Prop :=
  sd_config (dm_sched d') = sd_config (dm_sched d)
  ∧ sd_matcher (dm_sched d') = sd_matcher (dm_sched d)
  ∧ sd_throttle_ms (dm_sched d') = sd_throttle_ms (dm_sched d).

(** The configuration is in use, from the start. *)
Definition replaced (config : Config) d' : Prop :=
  sd_config (dm_sched d') = config
  ∧ sd_throttle_ms (dm_sched d') = event_throttle_ms (sc_timing (cfg_sched config))
  ∧ mn_cache (dm_main d') = ∅ ∧ mn_buckets (dm_main d') = ∅
  ∧ cy_active (sd_cycle (dm_sched d')) = false ∧ cy_top_app_pids (sd_cycle (dm_sched d')) = ∅.

(** The scheduler, the detection and the run flag of another state, up to the
    files, caches and queues. *)
Definition steady d d' : Prop :=
  kept d d' ∧ dm_running d' = dm_running d
  ∧ dm_detection d' = dm_detection d
  ∧ dm_watcher d' = dm_watcher d ∧ dm_monitor d' = dm_monitor d ∧ dm_router d' = dm_router d.

Lemma steady_refl d : steady d d.
Proof. by repeat split. Qed.
Lemma steady_trans d1 d2 d3 : steady d1 d2 → steady d2 d3 → steady d1 d3.
Proof.
  unfold steady, kept.
  intros ((-> & -> & ->) & -> & -> & -> & -> & ->). auto.
Qed.
Lemma steady_sys d d' : same_but_sys d d' → steady d d'.
Proof. intros (_ & _ & _ & _ & ? & Hs & ? & ? & ? & ? & _). unfold steady, kept. by rewrite Hs. Qed.

Lemma prepare_spec config d :
  keyed (mn_cache (dm_main d)) →
  wp (prepare_replacement config) (λ r d', steady d d'
    ∧ ∀ workers, r.2 = Some workers → r.1.1 = true ∧ workers_up workers
        ∧ ∀ key entry, mn_cache (dm_main d') !! key = Some entry → tce_baseline entry = None) d.
Proof.
  intros Hk. unfold prepare_replacement. wp_step. apply wp_in_env.
  eapply wp_mono; [by apply restore_all_complete|]. intros restored e He.
  match goal with |- wp _ _ ?d1 => assert (steady d d1) as H1 by (by repeat split);
    assert (mn_cache (dm_main d1) = env_cache e) as Hc by done; set (d1' := d1) in * end.
  destruct restored; cbn [negb]; [|by wp_step]. specialize (He eq_refl). wp_step.
  apply wp_in_sys_any. intros ready d2 H2. destruct ready; cbn [negb].
  2: { wp_step. split; [|done]. eapply steady_trans; [exact H1|]. by apply steady_sys. }
  wp_step. apply (wp_in_sys _ (λ r, length r.2 = 4%nat ∧ (r.1 = true → Forall worker_up r.2))).
  { intros s. apply start_all_spec, new_workers_down. }
  intros [started workers] d3 [Hl Hu] H3. wp_step. split.
  - eapply steady_trans; [exact H1|]. eapply steady_trans; by apply steady_sys.
  - cbn in Hl, Hu. destruct started; [|done]. intros ws [= <-]. split; [done|]. split; [by split; auto|].
    destruct H2 as (_ & H2 & _), H3 as (_ & H3 & _). rewrite H3, H2, Hc. exact He.
Qed.

Lemma wp_set_workers ws (Q : unit → Daemon R W → Prop) d :
  Q tt (MkDaemon (MkMain (mn_sys (dm_main d)) (mn_buckets (dm_main d)) (mn_cache (dm_main d)) ws
          (mn_budget (dm_main d)) (mn_rescan (dm_main d))) (dm_running d) (dm_sched d)
          (dm_detection d) (dm_watcher d) (dm_monitor d) (dm_next_monitor_restart d) (dm_router d)
          (dm_shutdown_requested d)) →
  wp (set_workers ws) Q d.
Proof. intros HQ. apply wp_in_main. by apply wp_modify. Qed.

(** Whatever becomes of the recovery, the daemon keeps running only with its old
    workers up. *)
Lemma recover_spec restored old d :
  Forall worker_down old →
  wp (recover_old restored old) (λ _ d', kept d d'
    ∧ dm_detection d' = dm_detection d
    ∧ length (mn_workers (dm_main d')) = length old
    ∧ (dm_running d' = true → dm_running d = true ∧ Forall worker_up (mn_workers (dm_main d')))) d.
Proof.
  intros Hold. unfold recover_old. wp_step. apply wp_set_workers. set (d0 := MkDaemon _ _ _ _ _ _ _ _ _).
  assert (steady d d0) as H0 by (by repeat split).
  wp_step. wp_step. wp_step.
  eapply wp_mono with (Q := λ _ d1, steady d d1 ∧ mn_workers (dm_main d1) = old).
  { destruct (negb restored); [by wp_step|]. apply wp_in_sys_any. intros ready d1 H1.
    split; [eapply steady_trans; [exact H0|by apply steady_sys]|].
    by destruct H1 as (_ & _ & -> & _). }
  intros ready d1 [H1 Hw1]. wp_step.
  eapply wp_mono with (Q := λ started d2, steady d d2
    ∧ length (mn_workers (dm_main d2)) = length old
    ∧ (started = true → Forall worker_up (mn_workers (dm_main d2)))).
  { destruct ready; [|wp_step; by rewrite Hw1]. wp_step.
    apply (wp_in_sys _ (λ r, length r.2 = length old ∧ (r.1 = true → Forall worker_up r.2))).
    { intros s. by apply start_all_spec. }
    intros [started ws] d2 [Hl Hu] H2. wp_step. apply wp_set_workers. wp_step. cbn in *.
    split; [|done]. eapply steady_trans; [exact H1|].
    destruct (steady_sys _ _ H2) as ((? & ? & ?) & ? & ? & ? & ? & ?). by repeat split. }
  intros started d2 (H2 & Hl & Hu). destruct H2 as (Hk & Hrun & Hdet & _).
  wp_step. eapply wp_mono with (Q := λ _ d3, kept d d3 ∧ dm_detection d3 = dm_detection d
    ∧ length (mn_workers (dm_main d3)) = length old
    ∧ (dm_running d3 = true → dm_running d = true ∧ Forall worker_up (mn_workers (dm_main d3)))).
  { destruct (ready && started) eqn:E.
    - wp_step. apply andb_true_iff in E as [-> ->]. rewrite Hrun. split_and!; auto.
    - apply wp_modify. cbn. by split_and!. }
  intros _ d3 (Hk3 & Hd3 & Hl3 & Hu3). wp_step. apply wp_in_main. apply wp_modify. cbn.
  wp_step. apply wp_in_sys_any. intros now d4 H4. apply wp_modify. cbn.
  destruct H4 as (_ & _ & Hw4 & _ & Hr4 & Hs4 & Hd4 & _). cbn in *.
  unfold kept in *. cbn. rewrite Hw4, Hr4, Hs4, Hd4. done.
Qed.

Lemma sys_only_close dir : sys_only (close_dir dir : M (Main W) unit).
Proof. destruct dir; [apply sys_only_sys|apply sys_only_ret]. Qed.
Lemma sys_only_reset_cursor c : sys_only (reset_cursor c : M (Main W) _).
Proof. apply sys_only_bind; [apply sys_only_close|]. intros _. apply sys_only_ret. Qed.
Lemma sys_only_reset_cursors c : sys_only (reset_cursors c : M (Main W) _).
Proof.
  unfold reset_cursors.
  repeat (apply sys_only_bind; [apply sys_only_reset_cursor|]; intros ?). apply sys_only_ret.
Qed.
Lemma sys_only_reset_scan s : sys_only (reset_scan s : M (Main W) _).
Proof.
  unfold reset_scan, clear_target. apply sys_only_bind; [apply sys_only_close|]. intros _.
  apply sys_only_bind; [|intros _; apply sys_only_ret].
  apply sys_only_bind; [apply sys_only_close|]. intros _. apply sys_only_ret.
Qed.

Lemma clear_without_baselines cache :
  (∀ key entry, cache !! key = Some entry → tce_baseline entry = None) →
  Cache.clear_scheduling_state_preserving_baselines cache = ∅.
Proof.
  intros Hnone. apply map_empty. intros key. rewrite clear_scheduling_state_lookup.
  destruct (cache !! key) as [e|] eqn:E; [|done]. cbn. unfold Cache.clear_scheduling_state.
  by rewrite (Hnone key e E).
Qed.

(** What the commit leaves, apart from the files and the budget. *)
Lemma commit_spec config workers d :
  (∀ key entry, mn_cache (dm_main d) !! key = Some entry → tce_baseline entry = None) →
  wp (commit_replacement config workers) (λ _ d',
    sd_config (dm_sched d') = config ∧ sd_matcher (dm_sched d') = new_matcher config
    ∧ sd_throttle_ms (dm_sched d') = event_throttle_ms (sc_timing (cfg_sched config))
    ∧ mn_cache (dm_main d') = ∅ ∧ mn_buckets (dm_main d') = ∅
    ∧ mn_workers (dm_main d') = workers
    ∧ cy_active (sd_cycle (dm_sched d')) = false ∧ cy_top_app_pids (sd_cycle (dm_sched d')) = ∅
    ∧ dm_running d' = dm_running d
    ∧ dm_detection d' = {| dt_last_mtime := dt_last_mtime (dm_detection d);
                           dt_last_config_hash := dt_last_config_hash (dm_detection d);
                           dt_failed_config_hash := dt_failed_config_hash (dm_detection d);
                           dt_retry_delay_seconds :=
                             config_retry_initial_delay_s (sc_timing (cfg_sched config));
                           dt_next_config_retry := dt_next_config_retry (dm_detection d) |}) d.
Proof.
  intros Hb. unfold commit_replacement. wp_step. apply wp_set_workers. wp_step. apply wp_modify.
  wp_step. apply wp_in_main, wp_modify. wp_step. apply wp_in_main, wp_modify. cbn.
  rewrite clear_without_baselines by done. wp_step. wp_step. wp_step.
  apply wp_sys_only; [apply sys_only_reset_cursors|]. intros cycle d1 H1.
  wp_step. apply wp_sys_only; [apply sys_only_reset_scan|]. intros scan d2 H2.
  wp_step. apply wp_in_sys_any. intros now d3 H3. wp_step. apply wp_modify.
  cbv zeta. wp_step. apply wp_in_sys_any. intros _ d4 H4. wp_step. apply wp_modify. apply wp_modify.
  destruct H1 as (B1 & C1 & W1 & _ & R1 & S1 & D1 & _), H2 as (B2 & C2 & W2 & _ & R2 & S2 & D2 & _),
    H3 as (B3 & C3 & W3 & _ & R3 & S3 & D3 & _), H4 as (B4 & C4 & W4 & _ & R4 & S4 & D4 & _).
  cbn in *. rewrite S3, S2, S1 in S4. cbn in S4. rewrite S4. cbn.
  split_and!; try done; congruence.
Qed.

(** ** The outcome of an attempt *)

(** What the attempt reads: the configuration, and the launcher found then. *)
Definition read_config path d : ConfigParseResult :=
  parse json_parse (os (k_read path) (mn_sys (dm_main d))).1.
Definition read_launcher path d : string :=
  (find_launcher (os (k_read path) (mn_sys (dm_main d))).2).1.

Definition outcome path d (ok : bool) d' : Prop :=
  let read := read_config path d in
  serving d'
  ∧ (ok = false → kept d d' ∧ dm_detection d' = dm_detection d)
  ∧ (ok = true → cpr_success read = true
     ∧ if sc_enable (cfg_sched (cpr_config read))
       then replaced (with_launcher (read_launcher path d) (cpr_config read)) d'
       else kept d d' ∧ dm_running d' = false).

(** The configuration in use is the old one or one that was parsed. *)
Lemma outcome_config path d ok d' :
  outcome path d ok d' →
  sd_config (dm_sched d') = sd_config (dm_sched d)
  ∨ ∃ file launcher, sd_config (dm_sched d')
      = with_launcher launcher (cpr_config (parse json_parse file)).
Proof.
  intros (_ & Hf & Ht). destruct ok; [|left; by apply (Hf eq_refl)].
  destruct (Ht eq_refl) as [_ Hr]. revert Hr. case_match; [intros (-> & _)|intros [[-> _] _]; by left].
  right. by eexists _, _.
Qed.

Lemma replace_spec config d :
  serving d → keyed (mn_cache (dm_main d)) →
  wp (replace_scheduler config) (λ ok d', serving d'
    ∧ (ok = false → kept d d' ∧ dm_detection d' = dm_detection d)
    ∧ (ok = true → replaced config d')) d.
Proof.
  intros (Hm & Hl & Hu) Hk.
  unfold replace_scheduler. wp_step. wp_step. wp_step. apply wp_set_workers.
  match goal with |- wp _ _ ?d0 => set (d1 := d0) end.
  assert (steady d d1) as H1 by (by repeat split).
  set (old := stop_all_workers _). assert (length old = 4%nat) as Hold.
  { unfold old, stop_all_workers. by rewrite length_fmap. }
  assert (∀ restored d2, steady d1 d2 →
    wp (recover_old restored old;; mret false) (λ ok d', serving d'
      ∧ (ok = false → kept d d' ∧ dm_detection d' = dm_detection d)
      ∧ (ok = true → replaced config d')) d2) as Hrecover.
  { intros restored d2 H2. wp_step. eapply wp_mono; [apply recover_spec, stop_all_down|].
    intros _ d3 (Hk3 & Hd3 & Hl3 & Hu3). wp_step.
    pose proof (steady_trans _ _ _ H1 H2) as H3. destruct H3 as (Hkept & Hrun & Hdet & _).
    assert (kept d d3) as Hk' by (unfold kept in *; intuition congruence).
    split_and!; [|by split; [|congruence]|done]. split_and!.
    - destruct Hk' as (-> & -> & _). done.
    - lia.
    - intros Hr. by apply Hu3. }
  wp_step. eapply wp_mono; [by apply prepare_spec|].
  intros [[restored ready] [workers|]] d2 [H2 Hs]; [|by apply Hrecover].
  destruct (Hs workers eq_refl) as (Hres & [Hlw Huw] & Hbase). cbn in Hres. subst restored.
  cbn [andb]. destruct ready; [|by apply Hrecover]. wp_step.
  eapply wp_mono; [by apply commit_spec|].
  intros _ d3 (Hc & Hm3 & Ht & Hca & Hbu & Hw & Ha & Htop & Hrun & Hdet). wp_step.
  split_and!; [|done|intros _].
  - split_and!; [by rewrite Hm3, Hc|by rewrite Hw|]. by rewrite Hw.
  - by split_and!.
Qed.

Lemma serving_sys d d' : same_but_sys d d' → serving d → serving d'.
Proof.
  intros (_ & _ & Hw & _ & Hr & Hs & _) (H1 & H2 & H3). unfold serving. by rewrite Hw, Hr, Hs.
Qed.

Lemma wp_read_parsed path (Q : ConfigParseResult → Daemon R W → Prop) d :
  (∀ d', same_but_sys d d' → mn_sys (dm_main d') = (os (k_read path) (mn_sys (dm_main d))).2 →
     Q (read_config path d) d') →
  wp (in_sys (parse_file json_parse path)) Q d.
Proof.
  intros HQ. apply wp_in_main, wp_main_sys. unfold parse_file. wp_step. unfold wp.
  revert HQ. unfold read_config. destruct (os (k_read path) (mn_sys (dm_main d))) as [file s].
  intros HQ. by apply HQ.
Qed.

Lemma wp_launcher (Q : string → Daemon R W → Prop) d :
  (∀ d', same_but_sys d d' → Q (find_launcher (mn_sys (dm_main d))).1 d') →
  wp (in_sys find_launcher) Q d.
Proof.
  intros HQ. apply wp_in_main, wp_main_sys. unfold wp.
  destruct (find_launcher (mn_sys (dm_main d))) as [launcher s]. by apply HQ.
Qed.

Lemma attempt_spec path d :
  serving d → keyed (mn_cache (dm_main d)) →
  wp (attempt_reload json_parse path) (outcome path d) d.
Proof.
  intros Hs Hk. unfold attempt_reload. wp_step. apply wp_read_parsed. intros d1 H1 Hsys.
  pose proof (serving_sys _ _ H1 Hs) as Hs1.
  pose proof (steady_sys _ _ H1) as (Hk1 & Hr1 & Hd1 & _). unfold outcome.
  destruct (cpr_success (read_config path d)) eqn:Eok; cbn [negb].
  2: { wp_step. by split_and!. }
  cbv zeta. destruct (sc_enable _) eqn:Een; cbn [negb].
  2: { wp_step. apply wp_modify. wp_step. destruct Hs1 as (Hm & Hl & _).
       split_and!; [by split_and!|done|intros _; by split_and!]. }
  wp_step. apply wp_launcher. intros d2 H2. rewrite Hsys.
  pose proof (serving_sys _ _ H2 Hs1) as Hs2. pose proof (steady_sys _ _ H2) as (Hk2 & Hr2 & Hd2 & _).
  eapply wp_mono; [apply replace_spec; [done|]|].
  { destruct H1 as (_ & C1 & _), H2 as (_ & C2 & _). by rewrite C2, C1. }
  intros ok d3 (O1 & O2 & O3). split_and!; [done| |auto].
  intros [Hk3 Hd3]%O2. split; [unfold kept in *; intuition congruence|congruence].
Qed.
End Attempt.

(** ** The deferral of a failed configuration *)

Section Deferral.
Variables (timing : TimingConfig) (mtime hash : Z).
Hypothesis Hwf : wf_timing timing.
Hypothesis Hhash : hash ≠ 0.

Definition fail (t : Detection) (now : Z) : Detection := record_outcome false mtime hash now timing t.

(** After [n] failures on the same contents that followed the first one. *)
Definition failed_times (n : nat) (t : Detection) : Prop :=
  dt_failed_config_hash t = hash
  ∧ dt_retry_delay_seconds t = Z.min (config_retry_initial_delay_s timing * 2 ^ Z.of_nat n)
                                 (config_retry_max_delay_s timing).

Lemma fail_next t now :
  dt_next_config_retry (fail t now) = Some (now + dt_retry_delay_seconds (fail t now) * 1000000000)
  ∧ dt_failed_config_hash (fail t now) = hash.
Proof using Hhash. unfold fail, record_outcome. by destruct (Z.eqb_spec hash 0). Qed.

Lemma fail_first t now : dt_failed_config_hash t ≠ hash → failed_times 0 (fail t now).
Proof using Hwf Hhash.
  intros Hne. split; [apply fail_next|]. unfold fail, record_outcome.
  destruct (Z.eqb_spec hash 0); [done|]. cbn. destruct (Z.eqb_spec (dt_failed_config_hash t) hash); [done|].
  pose proof (wf_retry_max _ Hwf) as Hm. unfold ranged in Hm. lia.
Qed.

Lemma fail_again n t now : failed_times n t → failed_times (S n) (fail t now).
Proof using Hwf Hhash.
  intros [Hf Hd]. split; [apply fail_next|]. unfold fail, record_outcome.
  destruct (Z.eqb_spec hash 0); [done|]. cbn [dt_retry_delay_seconds]. rewrite Hf, Z.eqb_refl, Hd.
  pose proof (wf_retry_initial _ Hwf) as Hi. pose proof (wf_retry_max _ Hwf) as Hm. unfold ranged in *.
  rewrite Nat2Z.inj_succ, Z.pow_succ_r by lia.
  assert (0 < 2 ^ Z.of_nat n) by (apply Z.pow_pos_nonneg; lia).
  assert (0 < config_retry_initial_delay_s timing * 2 ^ Z.of_nat n) by (apply Z.mul_pos_pos; lia).
  rewrite Z.mul_shuffle3. set (x := config_retry_initial_delay_s timing * 2 ^ Z.of_nat n) in *.
  rewrite to_int32_id by (unfold in_int, INT_MIN, INT_MAX; lia). lia.
Qed.

Lemma fail_fold n t times :
  failed_times n t → failed_times (length times + n) (fold_left fail times t).
Proof using Hwf Hhash.
  revert n t. induction times as [|now times IH]; intros n t Ht; cbn [fold_left length plus]; [done|].
  rewrite <-Nat.add_succ_r. by apply IH, fail_again.
Qed.

(** What detects a change does not depend on failures. *)
Lemma fail_keeps_last t now mtime' hash' :
  changed_fallback mtime' hash' (fail t now) = changed_fallback mtime' hash' t.
Proof. unfold changed_fallback, fail, record_outcome. by case_match. Qed.
Lemma fails_keep_last times t mtime' hash' :
  changed_fallback mtime' hash' (fold_left fail times t) = changed_fallback mtime' hash' t.
Proof.
  revert t. induction times as [|now times IH]; intros t; cbn [fold_left]; [done|].
  by rewrite IH, fail_keeps_last.
Qed.

Lemma backoff_spec first times last_ t :
  dt_failed_config_hash t ≠ hash →
  let t' := fold_left fail (times ++ [last_]) (fail t first) in
  dt_retry_delay_seconds t'
    = Z.min (config_retry_initial_delay_s timing * 2 ^ Z.of_nat (S (length times)))
        (config_retry_max_delay_s timing)
  ∧ ∀ hash' now, retry_deferred hash' now t'
      = bool_decide (hash' = hash ∧ now < last_ + dt_retry_delay_seconds t' * 1000000000).
Proof using Hwf Hhash.
  intros Hne t'. pose proof (fail_fold 0 _ (times ++ [last_]) (fail_first t first Hne)) as [Hf Hd].
  fold t' in Hf, Hd. split.
  { rewrite Hd, length_app, Nat.add_0_r, Nat.add_1_r. done. }
  intros hash' now. unfold retry_deferred. rewrite Hf.
  assert (dt_next_config_retry t' = Some (last_ + dt_retry_delay_seconds t' * 1000000000)) as ->.
  { unfold t'. rewrite fold_left_app. apply fail_next. }
  apply eq_true_iff_eq. rewrite bool_decide_eq_true.
  rewrite !andb_true_iff, negb_true_iff, Z.eqb_neq, Z.eqb_eq, Z.ltb_lt. naive_solver.
Qed.
End Deferral.

(** ** The configuration part of a round *)

Section Round.
Context {J R W : Type} `{!Json J} `{!RegexEngine R} `{!StringHash} `{!Kernel W} `{!KernelWatch W}
  `{!KernelScan W} `{!KernelProcess W} `{!KernelThreads W}.
Variable json_parse : string → option J.
Implicit Types d : Daemon R W.

Lemma look_keeps_detection path d :
  wp (look_at_config path) (λ _ d', dm_detection d' = dm_detection d) d.
Proof.
  unfold look_at_config. wp_step. wp_step. wp_step. apply wp_in_sys_any. intros [seen watcher] d1 H1.
  do 3 wp_step. apply wp_in_sys_any. intros mtime d2 H2.
  wp_step. apply wp_in_sys_any. intros hash d3 H3. wp_step. apply wp_in_sys_any. intros now d4 H4.
  wp_step. destruct (steady_sys _ _ H1) as (_ & _ & D1 & _), (steady_sys _ _ H2) as (_ & _ & D2 & _),
    (steady_sys _ _ H3) as (_ & _ & D3 & _), (steady_sys _ _ H4) as (_ & _ & D4 & _).
  cbn in *. congruence.
Qed.

Lemma check_config_run path d seen mtime hash now d1 :
  look_at_config path d = (seen, mtime, hash, now, d1) →
  check_config json_parse path d
  = if retry_deferred hash now (dm_detection d) then (false, d1)
    else if seen || changed_fallback mtime hash (dm_detection d)
         then try_config json_parse path mtime hash now d1 else (false, d1).
Proof.
  intros Hl. pose proof (look_keeps_detection path d) as Hd. unfold wp in Hd. rewrite Hl in Hd.
  unfold check_config, mbind, M_bind. rewrite Hl. cbn [gets]. rewrite Hd.
  by destruct (retry_deferred _ _ _), (seen || _).
Qed.

(** A failed attempt leaves the configuration, and is remembered as such. *)
Lemma try_config_failed path mtime hash now d :
  serving d → keyed (mn_cache (dm_main d)) → (attempt_reload json_parse path d).1 = false →
  dm_detection (try_config json_parse path mtime hash now d).2
  = record_outcome false mtime hash now (sc_timing (cfg_sched (sd_config (dm_sched d))))
      (dm_detection d).
Proof.
  intros Hs Hk. pose proof (attempt_spec json_parse path d Hs Hk) as Ha. unfold wp in Ha. revert Ha.
  unfold try_config, mbind, M_bind. destruct (attempt_reload json_parse path d) as [ok d1].
  intros (_ & Hf & _) Hok. cbn in Hok. subst ok. destruct (Hf eq_refl) as [[Hc _] Hd].
  cbn. by rewrite Hc, Hd.
Qed.
End Round.

Lemma edit_changes_hash {W} `{!Kernel W} `{!KernelWatch W} path text a c c' b mtime t (s : Sys W) :
  (k_read path (sys_world s)).1 = Some text → chars text = a ++ c' :: b → c ≠ c' →
  dt_last_config_hash t = fnv_hash (a ++ c :: b) →
  wp (compute_config_hash path) (λ hash _, hash ≠ 0 → changed_fallback mtime hash t = true) s.
Proof.
  intros Hr Ht Hc Hh. unfold compute_config_hash. wp_step. apply wp_os. intros r w E.
  rewrite E in Hr. cbn in Hr. subst r. wp_step. intros Hne. unfold changed_fallback. rewrite Hh, Ht in *.
  apply orb_true_iff. right. rewrite andb_true_iff, !negb_true_iff, !Z.eqb_neq. split; [|done].
  by intros Heq%fnv_hash_byte.
Qed.
