(* ===== verification/MainLoop.v ===== *)
(** * The daemon ([main.cpp])

    The handler of process events, a round of the main loop, start and
    shutdown, and the steps in which they, the workers and the threads of the
    monitor and the router interleave. *)

From S2P Require Import Prelude CppString ConfigTypes Json ConfigParser Kernel FileUtils Inotify.
From S2P Require Import ConfigWatch CgroupInit ThreadMatcher ThreadCache Env Setters ScanWorker.
From S2P Require Import ScanCursor LauncherFinder Dispatch FullScan ScanCycle EventRouter ProcMonitor.
From S2P Require Import Restoration Reload.

(** ** Where the configuration may be

    [realpath], and whether [stat] finds a regular file. *)
Class KernelPaths (W : Type) := {
  k_realpath : string → M W (option string);
  k_is_regular : string → M W bool }.

Section Paths.
Context {W : Type} `{!KernelPaths W}.

Definition resolve_allowed_config_path (user_path allowed_dir : string)
    : M (Sys W) (option string) :=
  directory ← os (k_realpath allowed_dir);
  match directory with
  | None => mret None
  | Some directory =>
      file ← os (k_realpath user_path);
      match file with
      | None => mret None
      | Some file =>
          if negb (starts_with (directory +:+ "/") file) then mret None
          else
            regular ← os (k_is_regular file);
            mret (if (regular : bool) then Some file else None)
      end
  end.
End Paths.

Section Daemon.
Context {J R W : Type} `{!Json J} `{!RegexEngine R} `{!StringHash} `{!IntHash} `{!Kernel W}
  `{!KernelWatch W} `{!KernelScan W} `{!KernelProcess W} `{!KernelThreads W}.
Variable json_parse : string → option J.
Variable config_path : string.

Definition sched_of (d : Daemon R W) : SchedConfig := cfg_sched (sd_config (dm_sched d)).

(** ** Process events *)

(** What is forgotten of a process number that now means another process. *)
Definition forget_pid (pid : Z) : M (Daemon R W) unit :=
  in_main (main_cache (Cache.reset_for_pid pid));;
  on_cycle (λ c, with_caches (cy_pinned_cache c) (cy_topfore_cache c) (cy_top_app_pids c)
    (cy_foreground_pids c) (cy_background_pids c) (delete pid (cy_process_states c)) c);;
  in_sys (invalidate_process_caches pid).

(** The rule that applies to the process decides how its threads are
    dispatched. *)
Definition dispatch_by_rule (pid : Z) (result : MatchResult) (state : ProcessState)
    (cmdline : string) (p : Progress) : M (Main W) (bool * Progress) :=
  let single_pid : gset Z := {[pid]} in
  if negb (mr_matched result) then mret (false, p)
  else if mr_pinned result then dispatch_pinned_to_workers single_pid p
  else if mr_topfore result && bool_decide (state = FG)
  then dispatch_topfore_to_workers single_pid p
  else if bool_decide (state = FG) then dispatch_foreground_to_workers single_pid p
  else if bool_decide (state = BG) then
    has_baseline ← gets (λ m, Cache.has_baseline_for_pid pid (mn_cache m));
    if should_dispatch_background_process result has_baseline (empty cmdline)
    then dispatch_background_to_workers single_pid p
    else mret (false, p)
  else mret (false, p).

Definition dispatch_new_process (matcher : ThreadMatcher R) (sched : SchedConfig) (pid : Z)
    : M (Main W) unit :=
  new_budget (sc_top_scan_budget_us sched) (sc_scan_batch_size sched)
    (sc_scan_batch_yield_us sched);;
  proc_name ← main_sys (get_process_name_from_status pid);
  if decide (proc_name = "[dead]") then mret tt
  else
    cmdline ← main_sys (get_process_cmdline pid);
    cg_state ← main_sys (get_cgroup_state pid);
    let actual_state := match cg_state with CgTOP => TOP | CgFG => FG | _ => BG end in
    let start := at_cursor empty_cursor ∅ in
    '(initial_incomplete, p) ←
      (if bool_decide (cg_state = CgTOP) then dispatch_top_app_to_workers {[pid]} start
       else mret (false, start));
    result ← main_matcher (match_process_only matcher proc_name proc_name actual_state cmdline);
    '(rule_incomplete, p) ← dispatch_by_rule pid result actual_state cmdline p;
    (if (initial_incomplete : bool) || rule_incomplete then set_rescan true else mret tt);;
    reset_cursor (pg_cursor p);;
    mret tt.

Definition handle_new_pid (pid : Z) : M (Daemon R W) unit :=
  if 0 <? pid then
    forget_pid pid;;
    sched ← gets sched_of;
    matcher ← gets (λ d, sd_matcher (dm_sched d));
    in_main (dispatch_new_process matcher sched pid)
  else mret tt.

Definition handle_dead_pid (pid : Z) : M (Daemon R W) unit :=
  in_main (main_cache (Cache.reset_for_pid pid));; in_sys (invalidate_process_caches pid).

Definition for_each (pids : list Z) (f : Z → M (Daemon R W) unit) : M (Daemon R W) unit :=
  foldr (λ pid rest, f pid;; rest) (mret tt) pids.

(** The callback of the router. *)
Definition handle_batch (b : Batch) : M (Daemon R W) unit :=
  (if b_dropped b then in_main (set_rescan true) else mret tt);;
  for_each (set_elements (b_recycled b)) forget_pid;;
  for_each (set_elements (b_new b)) handle_new_pid;;
  for_each (set_elements (b_dead b)) handle_dead_pid.

(** ** A round of the main loop *)

Definition close_all (fds : list Z) : M (Sys W) unit :=
  foldr (λ fd rest, os (k_close fd);; rest) (mret tt) fds.

(** [monitor.start]: the calls in their order, and the monitor they lead to. *)
Definition start_proc_monitor (m : ProcMonitor) : M (Sys W) (start_result * ProcMonitor) :=
  if pm_started m then mret (StartOk, m)
  else
    close_all (stop_monitor m).1;;
    fd ← os k_inotify_init;
    watch ← match fd with
            | None => mret None
            | Some fd => os (k_inotify_add_watch fd "/proc"
                               (Z.lor (Z.lor IN_CREATE IN_DELETE) IN_ISDIR))
            end;
    stop ← match watch with None => mret None | Some _ => os k_eventfd end;
    created ← match stop with None => mret false | Some _ => os k_thread_create end;
    let '(r, _, m') := start_monitor {| sa_inotify := fd; sa_watch := bool_decide (is_Some watch);
                                        sa_eventfd := stop; sa_thread := created |} m in
    (if bool_decide (r = StartOk) then mret tt else close_all (opened fd ++ opened stop));;
    mret (r, m').

Definition set_monitor (m : ProcMonitor) (next : Z) : M (Daemon R W) unit :=
  modify (λ d, MkDaemon (dm_main d) (dm_running d) (dm_sched d) (dm_detection d) (dm_watcher d)
                 m next (dm_router d) (dm_shutdown_requested d)).

(** A monitor that stopped is started again, at most once per delay; [true]: it
    threw, and the rest of the round is skipped. *)
Definition restart_monitor : M (Daemon R W) bool :=
  monitor_now ← in_sys (os k_now);
  monitor ← gets dm_monitor;
  next ← gets dm_next_monitor_restart;
  if negb (pm_started monitor) && (next <=? monitor_now) then
    '(r, monitor) ← in_sys (start_proc_monitor monitor);
    timing ← gets (λ d, sc_timing (sched_of d));
    match r with
    | StartThrew => set_monitor monitor next;; mret true
    | StartOk | StartFailed =>
        set_monitor monitor (monitor_now + monitor_restart_retry_delay_s timing * 1000000000);;
        in_main (set_rescan true);;
        mret false
    end
  else mret false.

Definition run_pass : M (Daemon R W) unit :=
  sched ← gets sched_of;
  matcher ← gets (λ d, sd_matcher (dm_sched d));
  cycle ← gets (λ d, sd_cycle (dm_sched d));
  cycle ← in_main (scheduling_pass matcher sched cycle);
  on_cycle (λ _, cycle).

(** [signalled]: a signal has arrived. *)
Definition loop_round (signalled : bool) : M (Daemon R W) unit :=
  running ← gets dm_running;
  if negb running then mret tt
  else if signalled then
    modify (λ d, MkDaemon (dm_main d) false (dm_sched d) (dm_detection d) (dm_watcher d)
                   (dm_monitor d) (dm_next_monitor_restart d) (dm_router d) true)
  else
    threw ← restart_monitor;
    if (threw : bool) then mret tt
    else
      check_config json_parse config_path;;
      run_pass;;
      sched ← gets sched_of;
      in_sys (os (k_sleep_ms (highspeed_ms sched))).

(** ** Start and shutdown *)

Definition first_detection (mtime hash : Z) (timing : TimingConfig) : Detection :=
  {| dt_last_mtime := mtime; dt_last_config_hash := hash; dt_failed_config_hash := 0;
     dt_retry_delay_seconds := config_retry_initial_delay_s timing; dt_next_config_retry := None |}.

Definition idle_cycle (next_full_scan : Z) : Cycle :=
  {| cy_top_cursor := empty_cursor; cy_pinned_cursor := empty_cursor;
     cy_topfore_cursor := empty_cursor; cy_foreground_cursor := empty_cursor;
     cy_background_cursor := empty_cursor; cy_phase := 0; cy_active := false;
     cy_scan := new_full_scan; cy_processed := ∅; cy_pinned_cache := ∅; cy_topfore_cache := ∅;
     cy_top_app_pids := ∅; cy_foreground_pids := ∅; cy_background_pids := ∅;
     cy_process_states := ∅; cy_next_full_scan := next_full_scan |}.

Definition no_budget : ScanBudget :=
  {| bd_deadline := 0; bd_batch_size := 1; bd_batch_yield_us := 0; bd_thread_reads := 0 |}.

(** An exception leaves [main]. *)
Definition std_terminate : Z := 134.

(** [main] up to its loop: the exit code when it returns before. *)
Definition start_daemon : M (Sys W) (Z + Daemon R W) :=
  mkdir_recursive "/data/adb/ReUperf";;
  parsed ← parse_file json_parse config_path;
  if negb (cpr_success parsed) then mret (inl 1)
  else if negb (sc_enable (cfg_sched (cpr_config parsed))) then mret (inl 0)
  else
    launcher ← find_launcher;
    let config := with_launcher launcher (cpr_config parsed) in
    let timing := sc_timing (cfg_sched config) in
    ready ← init config;
    if negb ready then mret (inl 1)
    else
      set_cache_ttls (file_cache_ttl_ms timing) (cgroup_cache_ttl_ms timing);;
      '(started, workers) ← start_all_workers new_workers;
      if negb started then mret (inl 1)
      else
        router_thread ← os k_thread_create;
        if negb router_thread then mret (inl std_terminate) else
        '(r, monitor) ← start_proc_monitor new_monitor;
        if bool_decide (r = StartThrew) then mret (inl std_terminate) else
        now ← os k_now;
        '(_, watcher) ← start_watcher (new_watcher config_path);
        mtime ← get_file_mtime config_path;
        hash ← compute_config_hash config_path;
        now' ← os k_now;
        s ← get;
        mret (inr (MkDaemon (MkMain s ∅ ∅ workers no_budget true) true
          (MkScheduler config (new_matcher config) ∅
             (idle_cycle (now' + refresh_ms (cfg_sched config) * 1000000))
             (event_throttle_ms timing))
          (first_detection mtime hash timing) watcher monitor
          (now + monitor_initial_restart_delay_s timing * 1000000000)
          (EventRouter.start new_router) false)).

Definition kShutdownRestoreAttempts : Z := 3.
Definition kShutdownRestoreDelayMs : Z := 50.

(** [main] after its loop.  The monitor, the router and the workers stop ... *)
Definition stop_threads : M (Daemon R W) unit :=
  monitor ← gets dm_monitor;
  in_sys (close_all (stop_monitor monitor).1);;
  modify (λ d, MkDaemon (dm_main d) (dm_running d) (dm_sched d) (dm_detection d) (dm_watcher d)
                 (stop_monitor monitor).2 (dm_next_monitor_restart d) (EventRouter.stop (dm_router d))
                 (dm_shutdown_requested d));;
  workers ← gets (λ d, mn_workers (dm_main d));
  set_workers (stop_all_workers workers).

(** ... the baselines are restored, and the result is the exit code. *)
Definition restore_and_exit : M (Daemon R W) Z :=
  restored ← in_env (restore_with_bounded_retry kShutdownRestoreAttempts kShutdownRestoreDelayMs
                       restore_all_thread_baselines);
  (if (restored : bool) then in_main (main_cache Cache.clear) else mret tt);;
  mret (if (restored : bool) then 0 else 2).

Definition shutdown : M (Daemon R W) Z := stop_threads;; restore_and_exit.

(** ** Steps

    A round of the main loop, a batch of process events, and the task of a
    worker; their order is arbitrary.  The scheduler mutex makes the passes, the
    batches and the replacement of the scheduler exclude one another; a task of
    a worker is one step, whatever the pacing state of the worker is. *)
Definition worker_task (i : nat) (pacing : ScheduleState) : M (Daemon R W) unit :=
  workers ← gets (λ d, mn_workers (dm_main d));
  match workers !! i with
  | None => mret tt
  | Some q =>
      let '(task, q') := Queue.take_task q in
      set_workers (<[i := q']> workers);;
      match task with
      | None => mret tt
      | Some task =>
          matcher ← gets (λ d, sd_matcher (dm_sched d));
          timing ← gets (λ d, sc_timing (sched_of d));
          in_env (modify (λ e, MkEnv (env_sys e) (env_cache e) (env_buckets e)
                                 (env_group_checks e) pacing);;
                  process_dispatch_task matcher timing timing task)
      end
  end.

(** A monitor whose thread makes calls, and the router's part of a batch. *)
Definition monitor_step (answer : poll_answer) (input : read_answer) : M (Daemon R W) unit :=
  modify (λ d,
    let '(calls, monitor) := monitor_round answer input (dm_monitor d) in
    let '(router, rescan) := monitor_callbacks calls (dm_router d, mn_rescan (dm_main d)) in
    let m := dm_main d in
    MkDaemon (MkMain (mn_sys m) (mn_buckets m) (mn_cache m) (mn_workers m) (mn_budget m) rescan)
      (dm_running d) (dm_sched d) (dm_detection d) (dm_watcher d) monitor
      (dm_next_monitor_restart d) router (dm_shutdown_requested d)).

Definition router_step : M (Daemon R W) unit :=
  r ← gets dm_router;
  let '(b, r') := collect r in
  modify (λ d, MkDaemon (dm_main d) (dm_running d) (dm_sched d) (dm_detection d) (dm_watcher d)
                 (dm_monitor d) (dm_next_monitor_restart d) r' (dm_shutdown_requested d));;
  (if delivers b then handle_batch b else mret tt).

Inductive daemon_step (d : Daemon R W) : Daemon R W → Prop :=
  | ds_round signalled : daemon_step d (loop_round signalled d).2
  | ds_worker i pacing : daemon_step d (worker_task i pacing d).2
  | ds_monitor answer input :
      pm_thread (dm_monitor d) = Some true → daemon_step d (monitor_step answer input d).2
  | ds_router : daemon_step d (router_step d).2
  (** What others do: files, threads and clocks change. *)
  | ds_world w :
      daemon_step d (in_sys (modify (λ s, MkSys w (sys_file_cache s) (sys_cgroup_cache s)
        (sys_file_ttl_ms s) (sys_cgroup_ttl_ms s))) d).2.

Inductive daemon_reachable : Daemon R W → Prop :=
  | dr_start s d : (start_daemon s).1 = inr d → daemon_reachable d
  | dr_step d d' : daemon_reachable d → daemon_step d d' → daemon_reachable d'.
End Daemon.
