(* ===== verification/MainFacts.v ===== *)
(** * What holds of the daemon in every reachable state

    Passes, batches and tasks leave the workers up and shrink the thread cache
    or work on one entry of it; reloads replace the configuration and the
    matcher together.  So whatever the interleaving, the daemon serves one
    configuration, every cache entry is under its own numbers with the baseline
    its managed components need, and the delay of a failed configuration is
    within its bounds. *)

From S2P Require Import Prelude CppString ConfigTypes Json ConfigParser Kernel FileUtils FileFacts.
From S2P Require Import Inotify ConfigWatch CgroupInit ThreadMatcher ThreadCache Env Setters.
From S2P Require Import ScanWorker ScanCursor LauncherFinder Dispatch FullScan ScanCycle WorkerGuard.
From S2P Require Import WorkerFacts EventRouter ProcMonitor Restoration Reload ReloadFacts MainLoop.

(** ** Passes *)

Definition flags (q : Queue.WorkerQueue) : bool * bool := (Queue.wq_started q, Queue.wq_running q).

Section Passes.
Context {R W : Type} `{!RegexEngine R} `{!StringHash} `{!IntHash} `{!Kernel W} `{!KernelScan W}.
Variables (P : ThreadCache → Prop) (fl : list (bool * bool)).

(** The cache is one of those in [P], and the workers run or do not as before. *)
Definition tame (m : Main W) : Prop := P (mn_cache m) ∧ flags <$> mn_workers m = fl.

Lemma tame_sys {A} (op : M (Sys W) A) : keeps tame (main_sys op).
Proof. intros m Hm. apply wp_main_sys, wp_unfold. exact Hm. Qed.
Lemma tame_matcher {A} (op : M (MatcherState W) A) : keeps tame (main_matcher op).
Proof. intros m Hm. unfold wp, main_matcher. by destruct (op _). Qed.
Lemma tame_budget f : keeps tame (main_budget f).
Proof. apply keeps_modify. intros m Hm. exact Hm. Qed.
Lemma tame_rescan b : keeps tame (set_rescan b).
Proof. apply keeps_modify. intros m Hm. exact Hm. Qed.
Lemma tame_cache f : (∀ x, P x → P (f x)) → keeps tame (main_cache f).
Proof. intros Hf. apply keeps_modify. intros m [H1 H2]. split; [|done]. by apply Hf. Qed.

Lemma enqueue_flags task q : flags (Queue.enqueue task q).2 = flags q.
Proof.
  unfold Queue.enqueue. destruct (negb _) eqn:E; [done|]. apply negb_false_iff in E.
  destruct (Queue.wq_pending q !! task_key task); [done|]. by destruct (_ <=? _)%nat.
Qed.
Lemma tame_enqueue task : keeps tame (enqueue_to_worker task).
Proof.
  intros m [H1 H2]. unfold wp, enqueue_to_worker. destruct (mn_workers m !! _) as [q|] eqn:E; [|done].
  pose proof (enqueue_flags task q) as Hq. destruct (Queue.enqueue task q) as [r q'].
  split; [done|]. cbn in *. rewrite list_fmap_insert, Hq, <-H2. apply list_insert_id.
  by rewrite list_lookup_fmap, E.
Qed.
End Passes.

#[export] Hint Resolve tame_sys tame_matcher tame_budget tame_rescan tame_enqueue : tame.

(** Decomposes an operation of the scans into those that are tame. *)
Ltac tame_walk :=
  repeat first
    [ progress (auto 2 with tame nocore)
    | lazymatch goal with
      | |- keeps _ (mbind _ _) => apply keeps_bind; [|intros ?]
      | |- keeps _ (mret _) => apply keeps_ret
      | |- keeps _ (gets _) => apply keeps_gets
      | |- keeps _ (let _ := _ in _) => cbv zeta
      | |- keeps _ (if ?b then _ else _) => destruct b
      | |- keeps _ (match ?x with _ => _ end) => destruct x
      end ].

Section PassFacts.
Context {R W : Type} `{!RegexEngine R} `{!StringHash} `{!IntHash} `{!Kernel W} `{!KernelScan W}.
Variables (P : ThreadCache → Prop) (fl : list (bool * bool)).
Notation tame := (@tame W P fl).
(** Used where a scan sweeps the cache. *)
Hypothesis P_smaller : ∀ c c', c' ⊆ c → P c → P c'.

Lemma tame_budget_new a b y : keeps tame (new_budget a b y).
Proof. unfold new_budget. tame_walk. Qed.
Lemma tame_exhausted : keeps tame exhausted.
Proof. unfold exhausted. tame_walk. Qed.
Lemma tame_thread_read : keeps tame after_thread_read.
Proof. unfold after_thread_read. tame_walk. Qed.
Lemma tame_close dir : keeps tame (close_dir dir).
Proof. unfold close_dir. tame_walk. Qed.
#[local] Hint Resolve tame_budget_new tame_exhausted tame_thread_read tame_close : tame.

Lemma tame_read_entries fuel dir ids : keeps tame (read_entries fuel dir ids).
Proof. revert ids. induction fuel as [|fuel IH]; intros ids; cbn [read_entries]; tame_walk; apply IH. Qed.
#[local] Hint Resolve tame_read_entries : tame.
Lemma tame_read_tids dir tids : keeps tame (read_tids dir tids).
Proof. unfold read_tids. tame_walk. Qed.
#[local] Hint Resolve tame_read_tids : tame.
Lemma tame_reset_cursor cr : keeps tame (reset_cursor cr).
Proof. unfold reset_cursor. tame_walk. Qed.
Lemma tame_begin_pid pid cr : keeps tame (begin_pid pid cr).
Proof. unfold begin_pid. tame_walk. Qed.
Lemma tame_enumerate_tids cr : keeps tame (enumerate_tids cr).
Proof. unfold enumerate_tids. tame_walk. Qed.
#[local] Hint Resolve tame_reset_cursor tame_begin_pid tame_enumerate_tids : tame.

Lemma tame_offer task : keeps tame (offer_task task).
Proof. unfold offer_task. tame_walk. Qed.
#[local] Hint Resolve tame_offer : tame.
Lemma tame_dispatch_thread pid tid ps n cmd st base :
  keeps tame (dispatch_thread pid tid ps n cmd st base).
Proof. unfold dispatch_thread. tame_walk. Qed.
#[local] Hint Resolve tame_dispatch_thread : tame.
Lemma tame_dispatch_threads pid ps n cmd st base tids cr done :
  keeps tame (dispatch_threads pid ps n cmd st base tids cr done).
Proof.
  revert cr done. induction tids as [|tid tids IH]; intros cr done; cbn [dispatch_threads];
    tame_walk; apply IH.
Qed.
Lemma tame_load pid cr :
  keeps tame (load_process_name pid cr) ∧ keeps tame (load_process_start pid cr)
  ∧ keeps tame (load_cmdline pid cr).
Proof. unfold load_process_name, load_process_start, load_cmdline. split_and!; tame_walk. Qed.
Lemma tame_load_name pid cr : keeps tame (load_process_name pid cr).
Proof. apply tame_load. Qed.
Lemma tame_load_start pid cr : keeps tame (load_process_start pid cr).
Proof. apply tame_load. Qed.
Lemma tame_load_cmdline pid cr : keeps tame (load_cmdline pid cr).
Proof. apply tame_load. Qed.
#[local] Hint Resolve tame_dispatch_threads tame_load_name tame_load_start tame_load_cmdline : tame.
Lemma tame_dispatch_process pid st base p : keeps tame (dispatch_process pid st base p).
Proof. unfold dispatch_process. tame_walk. Qed.
#[local] Hint Resolve tame_dispatch_process : tame.
Lemma tame_dispatch_processes pids st base p : keeps tame (dispatch_processes pids st base p).
Proof. revert p. induction pids as [|pid pids IH]; intros p; cbn [dispatch_processes]; tame_walk; apply IH. Qed.
#[local] Hint Resolve tame_dispatch_processes : tame.
Lemma tame_dispatch pids st base p : keeps tame (dispatch_pids_to_workers pids st base p).
Proof. unfold dispatch_pids_to_workers. tame_walk. Qed.
#[local] Hint Resolve tame_dispatch : tame.

Lemma tame_clear_target t : keeps tame (clear_target t).
Proof. unfold clear_target. tame_walk. Qed.
#[local] Hint Resolve tame_clear_target : tame.
Lemma tame_reset_scan s : keeps tame (reset_scan s).
Proof. unfold reset_scan. tame_walk. Qed.
#[local] Hint Resolve tame_reset_scan : tame.
Lemma tame_begin_scan prior s : keeps tame (begin_scan prior s).
Proof. unfold begin_scan. tame_walk. Qed.
Lemma tame_enumerate_pids s : keeps tame (enumerate_pids s).
Proof. unfold enumerate_pids. tame_walk. Qed.
Lemma tame_enumerate_current t : keeps tame (enumerate_current_tids t).
Proof. unfold enumerate_current_tids. tame_walk. Qed.
Lemma tame_identify pid s : keeps tame (identify_process pid s).
Proof. unfold identify_process. tame_walk. Qed.
Lemma tame_record pid tids s : keeps tame (record_threads pid tids s).
Proof. revert s. induction tids as [|tid tids IH]; intros s; cbn [record_threads]; tame_walk; apply IH. Qed.
Lemma tame_finish (m : ThreadMatcher R) pid s : keeps tame (finish_process m pid s).
Proof. unfold finish_process. tame_walk. Qed.
#[local] Hint Resolve tame_begin_scan tame_enumerate_pids tame_enumerate_current tame_identify
  tame_record tame_finish : tame.
Lemma tame_scan_step (m : ThreadMatcher R) pid s : keeps tame (scan_step m pid s).
Proof. unfold scan_step. tame_walk. Qed.
#[local] Hint Resolve tame_scan_step : tame.
Lemma tame_scan (m : ThreadMatcher R) fuel s : keeps tame (scan_processes fuel m s).
Proof. revert s. induction fuel as [|fuel IH]; intros s; cbn [scan_processes]; tame_walk; apply IH. Qed.
#[local] Hint Resolve tame_scan : tame.
Lemma tame_sweep l t i : keeps tame (main_cache (Cache.retain_live_threads l t i)).
Proof. apply tame_cache. intros x. apply P_smaller, map_filter_subseteq. Qed.
#[local] Hint Resolve tame_sweep : tame.
Lemma tame_advance (m : ThreadMatcher R) s : keeps tame (advance_full_scan m s).
Proof. unfold advance_full_scan. tame_walk. Qed.
#[local] Hint Resolve tame_advance : tame.

Lemma cleanup_shrinks dead pinned topfore cache :
  (cleanup_dead_pids dead pinned topfore cache).1.1 ⊆ cache.
Proof.
  unfold cleanup_dead_pids. generalize (set_elements dead) as l. intros l.
  revert cache pinned topfore. induction l as [|pid l IH]; intros cache pinned topfore; [done|].
  cbn [fold_left]. etrans; [apply IH|]. apply map_filter_subseteq.
Qed.

Lemma tame_advance_cycle (m : ThreadMatcher R) cy : keeps tame (advance_cycle_scan m cy).
Proof.
  unfold advance_cycle_scan. apply keeps_bind; [apply tame_advance|]. intros [[] scan]; cbn [negb].
  2: { apply keeps_bind; [apply tame_rescan|]. intros _. apply keeps_ret. }
  intros m0 [H1 H2]. wp_step. wp_step.
  pose proof (cleanup_shrinks (dead_pids (fs_found scan))
    (PidCache.update (pinned_pids (fs_found scan)) (cy_pinned_cache cy))
    (PidCache.update (topfore_pids (fs_found scan)) (cy_topfore_cache cy)) (mn_cache m0)) as Hc.
  destruct (cleanup_dead_pids _ _ _ _) as [[cache pinned] topfore]. cbn in Hc.
  wp_step. apply wp_modify. wp_step. split; [|done]. cbn. by eapply P_smaller.
Qed.
#[local] Hint Resolve tame_advance_cycle : tame.
Lemma tame_reset_cursors cy : keeps tame (reset_cursors cy).
Proof. unfold reset_cursors. tame_walk. Qed.
#[local] Hint Resolve tame_reset_cursors : tame.
Lemma tame_begin_cycle cy : keeps tame (begin_cycle cy).
Proof. unfold begin_cycle. tame_walk. Qed.
#[local] Hint Resolve tame_begin_cycle : tame.
Lemma tame_phase cy : keeps tame (run_phase cy).
Proof.
  unfold run_phase. apply keeps_bind; [|intros []; apply keeps_ret]. unfold phase_dispatch.
  destruct (cy_phase cy) as [|[|[|[|]]]]; apply tame_dispatch.
Qed.
#[local] Hint Resolve tame_phase : tame.
Lemma tame_phases left cy : keeps tame (run_phases left cy).
Proof. revert cy. induction left as [|left IH]; intros cy; cbn [run_phases]; tame_walk; apply IH. Qed.
#[local] Hint Resolve tame_phases : tame.

Lemma tame_pass (m : ThreadMatcher R) sched cy : keeps tame (scheduling_pass m sched cy).
Proof.
  unfold scheduling_pass, run_full_scan, full_pass, open_cycle, highspeed_pass, dispatch_top_app_to_workers,
    dispatch_pinned_to_workers, dispatch_topfore_to_workers. tame_walk.
Qed.

Lemma tame_dispatch_by_rule pid result st cmd p : keeps tame (dispatch_by_rule pid result st cmd p).
Proof.
  unfold dispatch_by_rule, dispatch_pinned_to_workers, dispatch_topfore_to_workers,
    dispatch_foreground_to_workers, dispatch_background_to_workers. tame_walk.
Qed.
#[local] Hint Resolve tame_dispatch_by_rule : tame.
Lemma tame_new_process (m : ThreadMatcher R) sched pid : keeps tame (dispatch_new_process m sched pid).
Proof. unfold dispatch_new_process, dispatch_top_app_to_workers. tame_walk. Qed.
End PassFacts.
