(* ===== verification/DaemonFacts.v ===== *)
(** * The invariant of the daemon

    [daemon_inv] holds when [start_daemon] hands over to the main loop and is
    kept by every step. *)

From S2P Require Import Prelude CppString ConfigTypes Json ConfigParser Kernel FileUtils FileFacts.
From S2P Require Import Inotify ConfigWatch CgroupInit ThreadMatcher ThreadCache Env Setters.
From S2P Require Import ScanWorker ScanCursor LauncherFinder LauncherFacts Dispatch FullScan ScanCycle.
From S2P Require Import Tracing WorkerGuard WorkerFacts WorkerEffects EventRouter ProcMonitor Restoration.
From S2P Require Import RetryFacts Reload ReloadFacts.
From S2P Require Import MainLoop MainFacts.

(** ** The thread cache *)

Definition good (c : ThreadCache) : Prop := keyed c ∧ restorable c.

Lemma good_empty : good ∅.
Proof. split; apply map_Forall_empty. Qed.
Lemma good_subseteq c c' : c' ⊆ c → good c → good c'.
Proof.
  intros Hs [H1 H2]. split; intros key e He;
    [apply (H1 key e)|apply (H2 key e)]; by eapply lookup_weaken.
Qed.

Lemma good_erase pid tid ps ts c : good c → good (Cache.erase_thread_if_identity pid tid ps ts c).
Proof.
  intros Hc. unfold Cache.erase_thread_if_identity. destruct (c !! (pid, tid)); [|done].
  destruct (_ && _); [|done]. eapply good_subseteq; [apply delete_subseteq|done].
Qed.

Lemma good_cleared pid tid c :
  good c → good (clear_all pid tid c).
Proof.
  intros [H1 H2]. split; [|by apply restorable_cleared].
  unfold clear_all, Cache.clear_managed_components, Cache.set_managed_components, Cache.clear_applied_result,
    Cache.clear_baseline. by repeat apply keyed_alter.
Qed.

Lemma good_preserving c : good c → good (Cache.clear_scheduling_state_preserving_baselines c).
Proof.
  intros [H1 H2]. split; intros key e; rewrite clear_scheduling_state_lookup;
    intros (e0 & He0 & He)%bind_Some; unfold Cache.clear_scheduling_state in He;
    destruct (tce_baseline e0) as [b|]; try done; injection He as <-.
  - exact (H1 key e0 He0).
  - apply justified_none.
Qed.

Lemma good_restore_all {W} `{!Kernel W} : keeps (@Cached W good) restore_all_thread_baselines.
Proof. apply whole_restore_all; [intros; by apply good_erase|intros; by apply good_cleared]. Qed.

Lemma good_process {R W} `{!RegexEngine R} `{!Kernel W} `{!StringHash} `{!IntHash}
    (m : ThreadMatcher R) timing cpuset_timing task :
  keeps (@Cached W good) (process_dispatch_task m timing cpuset_timing task).
Proof.
  intros e [H1 H2]. eapply wp_mono; [apply wp_and|].
  - apply (whole_process m timing cpuset_timing task keyed); [..|exact H1].
    + intros c ps ts Hc. unfold Cache.erase_thread_if_identity. destruct (c !! _); [|done].
      destruct (_ && _); [|done]. by apply map_Forall_delete.
    + intros. by apply update_keyed.
    + intros. by apply keyed_alter.
    + intros. by apply keyed_alter.
    + intros. by apply keyed_alter.
    + intros. by apply keyed_alter.
    + intros. by apply keyed_alter.
  - by apply (restorable_process m timing cpuset_timing task).
  - intros _ e' [H1' H2']. by split.
Qed.

(** ** The delay of a failed configuration *)

Definition delay_in (timing : TimingConfig) (t : Detection) : Prop :=
  config_retry_initial_delay_s timing ≤ dt_retry_delay_seconds t ≤ config_retry_max_delay_s timing.

Lemma record_outcome_delay ok mtime hash now timing t :
  wf_timing timing → (ok = false → delay_in timing t) →
  delay_in timing (record_outcome ok mtime hash now timing t).
Proof.
  intros Hwf Ht. pose proof (wf_retry_initial _ Hwf) as Hi. pose proof (wf_retry_max _ Hwf) as Hm.
  unfold ranged in *. unfold record_outcome, delay_in in *. destruct ok; [cbn; lia|].
  specialize (Ht eq_refl). destruct (hash =? 0); [done|]. cbn.
  destruct (_ =? _); [|lia]. rewrite to_int32_id by (unfold in_int, INT_MIN, INT_MAX; lia). lia.
Qed.

(** ** The invariant *)

Section Inv.
Context {J R W : Type} `{!Json J} `{!RegexEngine R} `{!StringHash} `{!IntHash} `{!Kernel W}
  `{!KernelWatch W} `{!KernelScan W} `{!KernelProcess W} `{!KernelThreads W}.
Variable json_parse : string → option J.
Variable config_path : string.
Notation Daemon := (Daemon R W).
Implicit Types d : Daemon.

Record daemon_inv d : Prop := {
  di_serving : serving d;
  di_cache : good (mn_cache (dm_main d));
  di_config : wf_sched (sched_of d);
  di_delay : delay_in (sc_timing (sched_of d)) (dm_detection d) }.

(** It says nothing of the files, the monitor, the router and the scan. *)
Definition core_same d d' : Prop :=
  sd_config (dm_sched d') = sd_config (dm_sched d)
  ∧ sd_matcher (dm_sched d') = sd_matcher (dm_sched d)
  ∧ dm_running d' = dm_running d ∧ dm_detection d' = dm_detection d
  ∧ mn_cache (dm_main d') ⊆ mn_cache (dm_main d)
  ∧ flags <$> mn_workers (dm_main d') = flags <$> mn_workers (dm_main d).

Lemma flags_up ws ws' :
  flags <$> ws' = flags <$> ws → (length ws' = length ws)
  ∧ (Forall worker_up ws → Forall worker_up ws').
Proof.
  intros Hf. split; [by rewrite <-(length_fmap flags ws'), Hf, length_fmap|].
  assert (∀ l, Forall worker_up l ↔ Forall (λ f, f = (true, true)) (flags <$> l)) as Hiff.
  { intros l. rewrite Forall_fmap. apply Forall_iff. intros q. unfold worker_up, flags. cbn.
    split; [by intros [-> ->]|by intros [= -> ->]]. }
  rewrite !Hiff. by rewrite Hf.
Qed.

Lemma core_inv d d' : core_same d d' → daemon_inv d → daemon_inv d'.
Proof.
  intros (Hc & Hm & Hr & Hd & Hca & Hw) [(S1 & S2 & S3) G C D].
  destruct (flags_up _ _ Hw) as [Hl Hup]. unfold sched_of in *. split.
  - split_and!; [by rewrite Hm, Hc|by rewrite Hl|]. rewrite Hr. intros Hx. by apply Hup, S3.
  - by eapply good_subseteq.
  - unfold sched_of. by rewrite Hc.
  - unfold sched_of. by rewrite Hc, Hd.
Qed.
Lemma core_sys d d' : same_but_sys d d' → core_same d d'.
Proof. intros (_ & Hc & Hw & _ & Hr & Hs & Hd & _). unfold core_same. by rewrite Hc, Hw, Hr, Hs, Hd. Qed.

Lemma inv_sys {A} (op : M (Sys W) A) : keeps daemon_inv (in_sys op).
Proof.
  intros d Hd. apply wp_in_sys_any. intros a d' Hx. eapply core_inv; [by apply core_sys|done].
Qed.
Lemma inv_main {A} (op : M (Main W) A) :
  (∀ c fl, keeps (tame (λ c', c' ⊆ c) fl) op) → keeps daemon_inv (in_main op).
Proof.
  intros Hop d Hd. apply wp_in_main. eapply wp_mono; [by apply Hop|].
  intros a m [H1 H2]. eapply core_inv; [|exact Hd]. by repeat split.
Qed.
Lemma inv_cycle f : keeps daemon_inv (on_cycle f).
Proof. apply keeps_modify. intros d. by apply core_inv. Qed.
Lemma inv_gets {A} (f : Daemon → A) : keeps daemon_inv (gets f).
Proof. apply keeps_gets. Qed.
Lemma inv_core (f : Daemon → Daemon) : (∀ d, core_same d (f d)) → keeps daemon_inv (modify f).
Proof. intros Hf. apply keeps_modify. intros d. by apply core_inv. Qed.
Lemma inv_rescan b : keeps daemon_inv (in_main (set_rescan b)).
Proof. apply inv_main. intros. apply tame_rescan. Qed.
Lemma inv_reset_pid pid : keeps daemon_inv (in_main (main_cache (Cache.reset_for_pid pid))).
Proof. apply inv_main. intros. apply tame_cache. intros x Hsub. etrans; [apply map_filter_subseteq|exact Hsub]. Qed.

(** *** Events *)

Lemma inv_forget pid : keeps daemon_inv (forget_pid pid).
Proof.
  unfold forget_pid. apply keeps_bind; [apply inv_reset_pid|]. intros _.
  apply keeps_bind; [apply inv_cycle|]. intros _. apply inv_sys.
Qed.
Lemma inv_new_pid pid : keeps daemon_inv (handle_new_pid pid).
Proof.
  unfold handle_new_pid. destruct (0 <? pid); [|apply keeps_ret].
  apply keeps_bind; [apply inv_forget|]. intros _. apply keeps_bind; [apply inv_gets|]. intros sched.
  apply keeps_bind; [apply inv_gets|]. intros matcher. apply inv_main. intros. apply tame_new_process.
Qed.
Lemma inv_dead_pid pid : keeps daemon_inv (handle_dead_pid pid).
Proof. apply keeps_bind; [apply inv_reset_pid|]. intros _. apply inv_sys. Qed.
Lemma inv_for_each pids f : (∀ pid, keeps daemon_inv (f pid)) → keeps daemon_inv (for_each pids f).
Proof.
  intros Hf. unfold for_each. induction pids as [|pid pids IH]; cbn [foldr]; [apply keeps_ret|].
  apply keeps_bind; [apply Hf|]. by intros _.
Qed.
Lemma inv_batch b : keeps daemon_inv (handle_batch b).
Proof.
  unfold handle_batch. apply keeps_bind; [destruct (b_dropped b); [apply inv_rescan|apply keeps_ret]|].
  intros _. apply keeps_bind; [apply inv_for_each, inv_forget|]. intros _.
  apply keeps_bind; [apply inv_for_each, inv_new_pid|]. intros _. apply inv_for_each, inv_dead_pid.
Qed.

(** *** A round of the loop *)

Lemma inv_restart : keeps daemon_inv restart_monitor.
Proof.
  unfold restart_monitor. apply keeps_bind; [apply inv_sys|]. intros now.
  apply keeps_bind; [apply inv_gets|]. intros monitor. apply keeps_bind; [apply inv_gets|]. intros next.
  destruct (_ && _); [|apply keeps_ret]. apply keeps_bind; [apply inv_sys|]. intros [r monitor'].
  apply keeps_bind; [apply inv_gets|]. intros timing.
  assert (∀ m n, keeps daemon_inv (set_monitor m n)) as Hset by (intros; by apply inv_core).
  destruct r; (apply keeps_bind; [apply Hset|]; intros _);
    try (apply keeps_bind; [apply inv_rescan|]; intros _); apply keeps_ret.
Qed.

Lemma inv_pass : keeps daemon_inv run_pass.
Proof.
  unfold run_pass. do 3 (apply keeps_bind; [apply inv_gets|]; intros ?).
  apply keeps_bind; [apply inv_main; intros; apply tame_pass; intros x y Hsub1 Hsub2; by etrans|]. intros cycle. apply inv_cycle.
Qed.

(** The cache stays good through an attempt, whatever becomes of it. *)
Notation cached := (λ d, good (mn_cache (dm_main d))).
Lemma cached_sys {A} (op : M (Sys W) A) : keeps cached (in_sys op).
Proof. intros d Hd. apply wp_in_sys_any. intros a d' (_ & Hc & _). by rewrite Hc. Qed.
Lemma cached_sys_only {A} (op : M (Main W) A) : sys_only op → keeps cached (in_main op).
Proof. intros Hop d Hd. apply wp_sys_only; [done|]. intros a d' (_ & Hc & _). by rewrite Hc. Qed.
Lemma cached_workers ws : keeps cached (set_workers ws).
Proof. intros d Hd. by apply wp_set_workers. Qed.
Lemma cached_same (f : Daemon → Daemon) :
  (∀ d, mn_cache (dm_main (f d)) = mn_cache (dm_main d)) → keeps cached (modify f).
Proof. intros Hf. apply keeps_modify. intros d Hd. by rewrite Hf. Qed.
Lemma cached_main_same (f : Main W → Main W) :
  (∀ m, mn_cache (f m) = mn_cache m) → keeps cached (in_main (modify f)).
Proof. intros Hf d Hd. apply wp_in_main, wp_modify. cbn. by rewrite Hf. Qed.

Lemma cached_prepare config : keeps cached (prepare_replacement config).
Proof.
  unfold prepare_replacement. apply keeps_bind.
  { intros d Hd. apply wp_in_env. by eapply wp_mono; [apply good_restore_all|]. }
  intros []; cbn [negb]; [|apply keeps_ret]. apply keeps_bind; [apply cached_sys|].
  intros []; cbn [negb]; [|apply keeps_ret]. apply keeps_bind; [apply cached_sys|].
  intros [started workers]. apply keeps_ret.
Qed.
Lemma cached_recover restored old : keeps cached (recover_old restored old).
Proof.
  unfold recover_old. apply keeps_bind; [apply cached_workers|]. intros _.
  apply keeps_bind; [apply keeps_gets|]. intros config.
  apply keeps_bind; [destruct (negb restored); [apply keeps_ret|apply cached_sys]|]. intros ready.
  apply keeps_bind.
  { destruct ready; [|apply keeps_ret]. apply keeps_bind; [apply cached_sys|]. intros [started ws].
    apply keeps_bind; [apply cached_workers|]. intros _. apply keeps_ret. }
  intros started. apply keeps_bind; [destruct (ready && started);
    [apply keeps_ret|by apply cached_same]|]. intros _.
  apply keeps_bind; [by apply cached_main_same|]. intros _.
  apply keeps_bind; [apply cached_sys|]. intros now. by apply cached_same.
Qed.
Lemma cached_commit config workers : keeps cached (commit_replacement config workers).
Proof.
  unfold commit_replacement. apply keeps_bind; [apply cached_workers|]. intros _.
  apply keeps_bind; [by apply cached_same|]. intros _.
  apply keeps_bind; [by apply cached_main_same|]. intros _.
  apply keeps_bind; [intros d Hd; apply wp_in_main, wp_modify; by apply good_preserving|]. intros _.
  apply keeps_bind; [apply keeps_gets|]. intros cycle.
  apply keeps_bind; [apply cached_sys_only, sys_only_reset_cursors|]. intros cycle'.
  apply keeps_bind; [apply cached_sys_only, sys_only_reset_scan|]. intros scan.
  apply keeps_bind; [apply cached_sys|]. intros now.
  apply keeps_bind; [by apply cached_same|]. intros _. cbv zeta.
  apply keeps_bind; [apply cached_sys|]. intros _.
  apply keeps_bind; [by apply cached_same|]. intros _. by apply cached_same.
Qed.

Lemma cached_attempt : keeps cached (attempt_reload json_parse config_path).
Proof.
  unfold attempt_reload. apply keeps_bind; [apply cached_sys|]. intros parsed.
  destruct (negb _); [apply keeps_ret|]. cbv zeta. destruct (negb _).
  { apply keeps_bind; [by apply cached_same|]. intros _. apply keeps_ret. }
  apply keeps_bind; [apply cached_sys|]. intros launcher. unfold replace_scheduler.
  apply keeps_bind; [apply keeps_gets|]. intros old. apply keeps_bind; [apply cached_workers|].
  intros _. apply keeps_bind; [apply cached_prepare|]. intros [[restored ready] [workers|]].
  - destruct (restored && ready).
    + apply keeps_bind; [apply cached_commit|]. intros _. apply keeps_ret.
    + apply keeps_bind; [apply cached_recover|]. intros _. apply keeps_ret.
  - apply keeps_bind; [apply cached_recover|]. intros _. apply keeps_ret.
Qed.

Lemma inv_attempt mtime hash now : keeps daemon_inv (try_config json_parse config_path mtime hash now).
Proof.
  intros d [Hs Hg Hc Hd]. unfold try_config. wp_step.
  eapply wp_mono; [apply wp_and; [apply attempt_spec; [done|apply Hg]|by apply cached_attempt]|].
  intros ok d1 [Ho G1]. pose proof (outcome_config _ _ _ _ _ Ho) as O5. destruct Ho as (O1 & O2 & _).
  assert (wf_sched (sched_of d1)) as C1.
  { unfold sched_of. destruct O5 as [->|(file & launcher & ->)]; [done|]. apply parse_wf. }
  wp_step. wp_step. wp_step. apply wp_modify.
  match goal with |- wp _ _ ?x => assert (daemon_inv x) as H2; [|set (d2 := x) in *] end.
  { split; [exact O1|exact G1|exact C1|]. cbn. apply record_outcome_delay; [apply C1|].
    intros ->. destruct (O2 eq_refl) as [(Hk & _) ->]. rewrite Hk. exact Hd. }
  wp_step. destruct ok; [|by do 2 wp_step].
  eapply wp_mono; [by apply inv_rescan|]. cbv beta. intros _ d3 Hd3. wp_step. exact Hd3.
Qed.

Lemma inv_look : keeps daemon_inv (look_at_config config_path).
Proof.
  unfold look_at_config. apply keeps_bind; [apply inv_gets|]. intros w.
  apply keeps_bind; [apply inv_sys|]. intros [seen watcher].
  apply keeps_bind; [by apply inv_core|]. intros _.
  apply keeps_bind; [apply inv_sys|]. intros mtime. apply keeps_bind; [apply inv_sys|]. intros hash.
  apply keeps_bind; [apply inv_sys|]. intros now. apply keeps_ret.
Qed.

Lemma inv_check_config : keeps daemon_inv (check_config json_parse config_path).
Proof.
  unfold check_config. apply keeps_bind; [apply inv_look|]. intros [[[seen mtime] hash] now].
  apply keeps_bind; [apply inv_gets|]. intros t.
  apply keeps_if; [apply inv_attempt|apply keeps_ret].
Qed.

Lemma inv_stop (f : Daemon → Daemon) :
  (∀ d, core_same d (MkDaemon (dm_main (f d)) (dm_running d) (dm_sched (f d)) (dm_detection (f d))
     (dm_watcher (f d)) (dm_monitor (f d)) (dm_next_monitor_restart (f d)) (dm_router (f d))
     (dm_shutdown_requested (f d))) ∧ dm_running (f d) = false) → keeps daemon_inv (modify f).
Proof.
  intros Hf. apply keeps_modify. intros d Hd. destruct (Hf d) as [Hc Hr].
  destruct (core_inv _ _ Hc Hd) as [(S1 & S2 & _) G C D].
  split; [|exact G|exact C|exact D]. split_and!; [exact S1|exact S2|by rewrite Hr].
Qed.

Lemma inv_round signalled : keeps daemon_inv (loop_round json_parse config_path signalled).
Proof.
  unfold loop_round. apply keeps_bind; [apply inv_gets|]. intros running.
  destruct (negb running); [apply keeps_ret|]. destruct signalled.
  { apply inv_stop. intros d. by split. }
  apply keeps_bind; [apply inv_restart|]. intros []; [apply keeps_ret|].
  apply keeps_bind; [apply inv_check_config|]. intros _.
  apply keeps_bind; [apply inv_pass|]. intros _. apply keeps_bind; [apply inv_gets|]. intros sched.
  apply inv_sys.
Qed.

(** *** A worker *)

Lemma take_flags q : flags (Queue.take_task q).2 = flags q.
Proof.
  unfold Queue.take_task. destruct (Queue.wq_task_queue q) as [|key rest]; [done|].
  by destruct (Queue.wq_pending q !! key).
Qed.

Lemma inv_worker i pacing : keeps daemon_inv (worker_task i pacing).
Proof.
  intros d Hd. unfold worker_task. wp_step. wp_step.
  destruct (mn_workers (dm_main d) !! i) as [q|] eqn:E; [|by wp_step].
  pose proof (take_flags q) as Hq. destruct (Queue.take_task q) as [task q'].
  wp_step. apply wp_set_workers.
  match goal with |- wp _ _ ?x => assert (daemon_inv x) as H1; [|set (d1 := x) in *] end.
  { eapply core_inv; [|exact Hd]. repeat split; cbn; [done|]. cbn in Hq.
    rewrite list_fmap_insert, Hq. apply list_insert_id. by rewrite list_lookup_fmap, E. }
  destruct task as [task|]; [|by wp_step]. do 4 wp_step. apply wp_in_env. wp_step. apply wp_modify.
  destruct H1 as [S1 G1 C1 D1]. eapply wp_mono; [apply good_process; exact G1|].
  cbv beta. intros _ e Hg. by split.
Qed.

(** *** Every step *)

Lemma inv_step d d' : daemon_step json_parse config_path d d' → daemon_inv d → daemon_inv d'.
Proof.
  intros [signalled|i pacing|answer input Ht| |w] Hd.
  - by apply keeps_run; [apply inv_round|].
  - by apply keeps_run; [apply inv_worker|].
  - eapply core_inv; [|exact Hd]. unfold monitor_step, modify. cbn.
    destruct (monitor_round answer input (dm_monitor d)) as [calls monitor].
    destruct (monitor_callbacks calls _) as [router rescan]. by repeat split.
  - apply keeps_run; [|done]. unfold router_step. apply keeps_bind; [apply inv_gets|]. intros r.
    destruct (collect r) as [b r']. apply keeps_bind; [by apply inv_core|]. intros _.
    destruct (delivers b); [apply inv_batch|apply keeps_ret].
  - by apply keeps_run; [apply inv_sys|].
Qed.

(** ** Start *)

Lemma inv_start s :
  wp (start_daemon json_parse config_path) (λ r _, ∀ d, r = inr d → daemon_inv d) s.
Proof.
  unfold start_daemon. wp_step. apply wp_any. intros _ s1. wp_step.
  eapply wp_mono with (Q := λ r _, ∃ file, r = parse json_parse file).
  { unfold parse_file. wp_step. apply wp_os. intros file w _. wp_step. by exists file. }
  intros parsed s2 [file ->]. wp_step; [by wp_step|]. wp_step; [by wp_step|].
  wp_step. apply wp_any. intros launcher s3. cbv zeta. wp_step. apply wp_any. intros ready s4.
  wp_step; [by wp_step|]. wp_step. apply wp_modify. wp_step.
  eapply wp_mono; [apply start_all_spec, new_workers_down|]. intros [started workers] s5 [Hl Hu].
  cbn in Hl, Hu. wp_step; [by wp_step|]. wp_step. apply wp_any. intros thread s6.
  wp_step; [by wp_step|]. wp_step. apply wp_any. intros [r monitor] s7. wp_step; [by wp_step|].
  wp_step. apply wp_any. intros now s8. wp_step. apply wp_any. intros [opened_ watcher] s9.
  do 3 (wp_step; apply wp_any; intros ? ?). wp_step. unfold wp, get. cbn. intros d [= <-].
  assert (wf_sched (cfg_sched (cpr_config (parse json_parse file)))) as Hwf by apply parse_wf.
  split; [|apply good_empty|exact Hwf|].
  - split_and!; [done|done|]. intros _. apply Hu. by destruct started.
  - unfold delay_in. cbn. pose proof (wf_retry_initial _ (wf_timing_config _ Hwf)) as Hi.
    pose proof (wf_retry_max _ (wf_timing_config _ Hwf)) as Hm. unfold ranged in *.
    cbn in *. lia.
Qed.

Lemma reachable_inv d : daemon_reachable json_parse config_path d → daemon_inv d.
Proof.
  induction 1 as [s d Hs|d d' _ IH Hstep]; [|by eapply inv_step].
  pose proof (inv_start s) as Hx. apply wp_unfold in Hx. by apply Hx.
Qed.
End Inv.

(** ** What a batch of events does to the thread cache *)

Section Batch.
Context {R W : Type} `{!RegexEngine R} `{!StringHash} `{!IntHash} `{!Kernel W} `{!KernelScan W}.
Implicit Types d : Daemon R W.

Lemma main_keeps_cache {A} (op : M (Main W) A) c :
  (∀ fl, keeps (tame (λ c', c' = c) fl) op) → keeps (λ d, mn_cache (dm_main d) = c) (in_main op).
Proof.
  intros Hop d Hd. apply wp_in_main. eapply wp_mono; [by apply (Hop (flags <$> mn_workers (dm_main d)))|].
  by intros a m [Hc _].
Qed.

(** An operation on a process that takes the cache [c] to [f c]. *)
Definition takes (f : ThreadCache → ThreadCache) (op : M (Daemon R W) unit) : Prop :=
  ∀ c d, mn_cache (dm_main d) = c → wp op (λ _ d', mn_cache (dm_main d') = f c) d.

Lemma takes_sys {A} (op : M (Sys W) A) c :
  keeps (λ d, mn_cache (dm_main d) = c) (in_sys (R := R) op).
Proof. intros d Hd. apply wp_in_sys_any. intros a d' (_ & Hc & _). by rewrite Hc. Qed.

Lemma forget_takes pid : takes (Cache.reset_for_pid pid) (forget_pid pid).
Proof.
  intros c d Hc. unfold forget_pid. wp_step. apply wp_in_main, wp_modify. wp_step. apply wp_modify.
  eapply wp_mono; [apply (takes_sys _ (Cache.reset_for_pid pid c)); cbn; by rewrite Hc|]. done.
Qed.
Lemma dead_takes pid : takes (Cache.reset_for_pid pid) (handle_dead_pid pid).
Proof.
  intros c d Hc. unfold handle_dead_pid. wp_step. apply wp_in_main, wp_modify.
  eapply wp_mono; [apply (takes_sys _ (Cache.reset_for_pid pid c)); cbn; by rewrite Hc|]. done.
Qed.
Lemma new_takes pid :
  takes (λ c, if 0 <? pid then Cache.reset_for_pid pid c else c) (handle_new_pid pid).
Proof.
  intros c d Hc. unfold handle_new_pid. destruct (0 <? pid); [|by wp_step].
  wp_step. eapply wp_mono; [by apply forget_takes|]. cbv beta. intros _ d1 H1. do 4 wp_step.
  eapply wp_mono; [apply main_keeps_cache; [|exact H1]; intros; apply tame_new_process|]. done.
Qed.

Lemma for_each_takes f op pids :
  (∀ pid, takes (f pid) (op pid)) →
  takes (λ c, fold_left (λ c pid, f pid c) pids c) (for_each pids op).
Proof.
  intros Hop. induction pids as [|pid pids IH]; intros c d Hc;
    unfold for_each; cbn [foldr fold_left]; [by wp_step|].
  wp_step. eapply wp_mono; [by apply Hop|]. cbv beta. intros _ d1 H1. by apply IH.
Qed.

Lemma fold_reset pids c :
  fold_left (λ c pid, Cache.reset_for_pid pid c) pids c = filter (λ kv, kv.1.1 ∉ pids) c.
Proof.
  revert c. induction pids as [|pid pids IH]; intros c; cbn [fold_left].
  - symmetry. apply map_filter_id. intros key x _. apply not_elem_of_nil.
  - rewrite IH. unfold Cache.reset_for_pid. rewrite map_filter_filter.
    apply map_filter_ext. intros key x _. rewrite not_elem_of_cons. naive_solver.
Qed.
Lemma fold_reset_positive pids c :
  fold_left (λ c pid, if 0 <? pid then Cache.reset_for_pid pid c else c) pids c
  = filter (λ kv, kv.1.1 ∉ filter (λ pid, 0 < pid) pids) c.
Proof.
  rewrite <-fold_reset. revert c. induction pids as [|pid pids IH]; intros c; [done|].
  cbn [fold_left]. rewrite IH, filter_cons. destruct (Z.ltb_spec 0 pid).
  - by rewrite decide_True.
  - by rewrite decide_False by lia.
Qed.

Lemma set_elements_elem s pid : pid ∈ set_elements s ↔ pid ∈ s.
Proof. unfold set_elements. by rewrite sort_ints_elem, elem_of_elements. Qed.

Lemma batch_takes b :
  takes (filter (λ kv, kv.1.1 ∉ b_recycled b ∪ filter (λ pid, 0 < pid) (b_new b) ∪ b_dead b))
    (handle_batch b).
Proof.
  intros c d Hc. unfold handle_batch. wp_step.
  eapply wp_mono with (Q := λ _ d', mn_cache (dm_main d') = c).
  { destruct (b_dropped b); [|by wp_step]. apply wp_in_main. by apply wp_modify. }
  cbv beta. intros _ d1 H1. wp_step. eapply wp_mono; [by apply (for_each_takes _ _ _ forget_takes)|].
  cbv beta. intros _ d2 H2. wp_step. eapply wp_mono; [apply (for_each_takes _ _ _ new_takes); exact H2|].
  cbv beta. intros _ d3 H3. eapply wp_mono; [apply (for_each_takes _ _ _ dead_takes); exact H3|].
  cbv beta. intros _ d4 ->. rewrite fold_reset, fold_reset_positive, fold_reset, !map_filter_filter.
  apply map_filter_ext. intros key x _. cbn.
  rewrite !not_elem_of_union, !set_elements_elem, elem_of_filter, list_elem_of_filter, set_elements_elem.
  tauto.
Qed.
End Batch.

(** ** Shutdown *)

Section Shutdown.
Context {R W : Type} `{!Kernel W} `{!KernelLaws W}.
Implicit Types d : Daemon R (Traced W).

Lemma close_all_trace fds (s : Sys (Traced W)) :
  wp (close_all fds) (λ _ s', sys_trace s' = rev (KClose <$> fds) ++ sys_trace s) s.
Proof.
  revert s. induction fds as [|fd fds IH]; intros s; cbn [close_all foldr]; [done|].
  wp_step. apply wp_os. intros a w E. eapply wp_mono; [apply IH|]. intros _ s' ->.
  unfold sys_trace. cbn. unfold k_close, Traced_kernel, traced in E.
  destruct (k_close fd _) as [b w']. injection E as _ <-. cbn. by rewrite <-(assoc_L (++)).
Qed.

(** When the threads have stopped, only descriptors were closed. *)
Lemma stop_threads_spec d :
  wp stop_threads (λ _ d',
    Forall worker_down (mn_workers (dm_main d')) ∧ held (dm_monitor d') = []
    ∧ mn_cache (dm_main d') = mn_cache (dm_main d)
    ∧ sys_trace (mn_sys (dm_main d'))
      = rev (KClose <$> held (dm_monitor d)) ++ sys_trace (mn_sys (dm_main d))) d.
Proof.
  unfold stop_threads. wp_step. wp_step. wp_step. apply wp_in_main, wp_main_sys.
  eapply wp_mono; [apply close_all_trace|]. intros ? s Hs. wp_step. apply wp_modify. wp_step.
  wp_step. apply wp_set_workers. cbn. split_and!; [apply stop_all_down|done|done|exact Hs].
Qed.

Lemma restore_and_exit_spec d :
  keyed (mn_cache (dm_main d)) →
  wp restore_and_exit (λ code d',
    (code = 0 ∧ mn_cache (dm_main d') = ∅ ∨ code = 2)
    ∧ mn_workers (dm_main d') = mn_workers (dm_main d) ∧ dm_monitor d' = dm_monitor d
    ∧ (∃ new, sys_trace (mn_sys (dm_main d')) = new ++ sys_trace (mn_sys (dm_main d)))
    ∧ ∀ stored, stored ∈ Cache.get_all_baselines (mn_cache (dm_main d)) →
        accounted stored (sys_trace (mn_sys (dm_main d')))
        ∨ code = 2 ∧ stored ∈ Cache.get_all_baselines (mn_cache (dm_main d'))) d.
Proof.
  intros Hk. unfold restore_and_exit. wp_step. apply wp_in_env.
  match goal with |- wp _ _ ?e0 => set (e := e0) end.
  assert (progress (Cache.get_all_baselines (mn_cache (dm_main d))) e) as H0
    by (split; [done|]; intros; by right).
  eapply wp_mono; [apply wp_and; [exact (bounded_retry_progress _ _ _ e H0)|apply wp_and;
    [exact (bounded_retry_restores _ _ e Hk)|apply bounded_retry_grows]]|].
  intros ok e' ([_ Hall] & Hdone & new & Htr & _). wp_step. destruct ok; cbv beta iota.
  - apply wp_in_main. apply wp_modify. cbn. split_and!; [by left|done|done|by exists new|].
    intros stored Hin. left. by apply (proj2 (Hdone eq_refl)).
  - wp_step. cbn. split_and!; [by right|done|done|by exists new|]. intros stored Hin.
    destruct (Hall stored Hin) as [?|Hp]; [by left|by right].
Qed.
End Shutdown.
