(* ===== verification/Scenario.v ===== *)
(** * A small device

    One process of one thread, a configuration with a rule for it, and the
    groups the module would have created: the concrete inputs on which the
    theorems are instantiated, run on the simulated operating system with the
    literal regular expression engine. *)

From S2P Require Import Prelude CppString ConfigTypes Json ConfigParser ConfigRoundtrip Kernel SimKernel.
From S2P Require Import FileUtils FileFacts CpuMask.
From S2P Require Import ThreadMatcher LiteralRegex ThreadCache Env Setters Tracing ScanWorker.

#[export] Instance scenario_string_hash : StringHash := length_hash.
#[export] Instance scenario_int_hash : IntHash := {| hash_int := λ z, z; hash_u64 := λ z, z |}.

(** ** Configuration *)

Definition game_rule : ProcessRule := {|
  pr_name := "game"; pr_regex_str := "game"; pr_pinned := false; pr_topfore := false;
  pr_thread_rules := [
    {| tr_keyword := "Render"; tr_affinity_class := "fast"; tr_prio_class := "high";
       tr_uclamp_max := None; tr_cpu_share := None; tr_enable_limit := true |};
    {| tr_keyword := EmptyString; tr_affinity_class := "auto"; tr_prio_class := "auto";
       tr_uclamp_max := None; tr_cpu_share := None; tr_enable_limit := false |} ] |}.

Definition game_sched : SchedConfig := {|
  sc_enable := true; sc_refresh_interval_ms := 2000; sc_highspeed_sched_ms := 300;
  sc_top_scan_budget_us := 4000; sc_full_scan_budget_us := 12000; sc_scan_batch_size := 32;
  sc_scan_batch_yield_us := 0; sc_case_insensitive := false; sc_timing := default_timing;
  sc_log := default_log;
  sc_cpumask := {[ "big" := [4; 5; 6; 7]; "little" := [0; 1; 2; 3] ]};
  sc_affinity := {[ "fast" := {| as_bg := "little"; as_fg := "big"; as_top := "big" |} ]};
  sc_prio := {[ "high" := {| ps_bg := 130; ps_fg := 110; ps_top := 98 |} ]};
  sc_rules := [game_rule] |}.

Definition game_config : Config := {|
  cfg_meta_name := "test"; cfg_meta_author := "test"; cfg_sched := game_sched;
  cfg_launcher_package := EmptyString |}.

(** It is what the parser makes of its own text. *)
Lemma game_sched_wf : wf_sched game_sched.
Proof.
  assert (game_sched = cfg_sched (cpr_config
    (parse (J := JsonValue) (λ _, Some (render_config game_config)) (Some "{}")))) as ->
    by (vm_compute; reflexivity).
  apply parse_wf.
Qed.

Definition game_matcher : ThreadMatcher Literal := new_matcher game_config.

(** ** The device *)

Definition game_fields : list (list ascii) := replicate 19 (chars "0").

Definition game_files : gmap string string := list_to_map [
  ("/proc/100/stat", render_stat "100" "com.game" game_fields 5000 (chars " 0 0"));
  ("/proc/100/task/101/stat", render_stat "101" "RenderThread" game_fields 5001 (chars " 0 0"));
  ("/proc/100/task/101/status", str (chars "Name:" ++ [TAB] ++ chars "RenderThread" ++ [LF]
     ++ chars "Tgid:" ++ [TAB] ++ chars "100" ++ [LF]));
  ("/proc/100/task/101/cgroup", str (chars "3:cpuset:/top-app" ++ [LF] ++ chars "2:cpu:/top-app"
     ++ [LF]));
  ("/dev/cpuset/top-app/tasks", EmptyString);
  ("/dev/cpuctl/top-app/tasks", EmptyString);
  ("/dev/cpuset/top-app/ReUperf_big/cpus", "4-7");
  ("/dev/cpuset/top-app/ReUperf_big/mems", "0");
  ("/dev/cpuset/top-app/ReUperf_big/tasks", EmptyString);
  ("/dev/cpuctl/ReUperf/game/A1/tasks", EmptyString) ].

(** Writing the thread's number to a [tasks] file changes what its [cgroup]
    file says. *)
Definition cgroup_lines (cpuset cpuctl : string) : string :=
  str (chars ("3:cpuset:" +:+ cpuset) ++ [LF] ++ chars ("2:cpu:" +:+ cpuctl) ++ [LF]).

Definition game_effects : gmap (string * string) (list (string * string)) := list_to_map [
  (("/dev/cpuset/top-app/ReUperf_big/tasks", "101"),
   [("/proc/100/task/101/cgroup", cgroup_lines "/top-app/ReUperf_big" "/top-app")]);
  (("/dev/cpuctl/ReUperf/game/A1/tasks", "101"),
   [("/proc/100/task/101/cgroup", cgroup_lines "/top-app/ReUperf_big" "/ReUperf/game/A1")]);
  (("/dev/cpuctl/top-app/tasks", "101"),
   [("/proc/100/task/101/cgroup", cgroup_lines "/top-app/ReUperf_big" "/top-app")]);
  (("/dev/cpuset/top-app/tasks", "101"),
   [("/proc/100/task/101/cgroup", cgroup_lines "/top-app" "/top-app")]) ].

Definition game_world : Sim := MkSim 1000000000 game_files
  ["/dev/cpuctl/ReUperf/game/A1"] game_effects None {[ 101 := 255 ]} {[ 101 := (0, 0) ]}
  {[ 101 := 5 ]}.

Definition game_task : DispatchTask := {|
  dt_pid := 100; dt_tid := 101; dt_process_start_time := 5000; dt_thread_start_time := 5001;
  dt_thread_name := "RenderThread"; dt_state := TOP; dt_cpuset_base := "/dev/cpuset/top-app";
  dt_proc_name := "com.game"; dt_cmdline := "com.game" |}.

(** A task of another thread of the game. *)
Definition other_task (tid : Z) : DispatchTask :=
  {| dt_pid := 100; dt_tid := tid; dt_process_start_time := 5000; dt_thread_start_time := 5001;
     dt_thread_name := "Worker"; dt_state := TOP; dt_cpuset_base := "/dev/cpuset/top-app";
     dt_proc_name := "com.game"; dt_cmdline := "com.game" |}.

(** ** Runs *)

Definition game_start : Env (Traced Sim) := init_env (Tr game_world []).

Definition process (task : DispatchTask) : M (Env (Traced Sim)) unit :=
  process_dispatch_task game_matcher default_timing default_timing task.

(** The state after the first pass over the thread. *)
Definition game_managed : Env (Traced Sim) := (process game_task game_start).2.

Definition game_sim (e : Env (Traced Sim)) : Sim := tr_world (sys_world (env_sys e)).

(** The world later, with the calls so far forgotten. *)
Definition later (ms : Z) (e : Env (Traced Sim)) : Env (Traced Sim) :=
  let w := game_sim e in
  let s := env_sys e in
  MkEnv (MkSys (Tr (MkSim (sim_clock w + ms * 1000000) (sim_files w) (sim_dirs w) (sim_effects w)
                     (sim_open w) (sim_affinity w) (sim_sched w) (sim_nice w)) [])
           (sys_file_cache s) (sys_cgroup_cache s) (sys_file_ttl_ms s) (sys_cgroup_ttl_ms s))
    (env_cache e) (env_buckets e) (env_group_checks e) (env_schedule e).

(** The first pass brings the thread to its CPUs, its real-time priority and its
    group, and keeps what it found as the baseline. *)
Lemma game_managed_result :
  sim_affinity (game_sim game_managed) !! 101 = Some (from_vector [4; 5; 6; 7])
  ∧ sim_sched (game_sim game_managed) !! 101 = Some (SCHED_FIFO, 98)
  ∧ sim_files (game_sim game_managed) !! "/proc/100/task/101/cgroup"
    = Some (cgroup_lines "/top-app/ReUperf_big" "/ReUperf/game/A1").
Proof. by vm_compute. Qed.

(** One second after the first pass. *)
Definition game_later : Env (Traced Sim) := later 1000 game_managed.

(** What the first pass found. *)
Definition game_baseline : ThreadBaseline := {|
  tb_affinity := [0; 1; 2; 3; 4; 5; 6; 7]; tb_has_affinity := true;
  tb_scheduler_policy := 0; tb_scheduler_priority := 0; tb_nice := 5; tb_has_scheduler := true;
  tb_cpuset_path := "/dev/cpuset/top-app"; tb_has_cpuset_path := true;
  tb_cpuctl_path := "/dev/cpuctl/top-app"; tb_has_cpuctl_path := true |}.

Definition game_restored : Env (Traced Sim) := (restore_baseline game_task game_later).2.

(** Giving the thread up brings it back to where it was. *)
Lemma game_restored_result :
  sim_affinity (game_sim game_restored) !! 101 = Some 255
  ∧ sim_sched (game_sim game_restored) !! 101 = Some (SCHED_NORMAL, 0)
  ∧ sim_nice (game_sim game_restored) !! 101 = Some 5
  ∧ sim_files (game_sim game_restored) !! "/proc/100/task/101/cgroup"
    = Some (cgroup_lines "/top-app" "/top-app")
  ∧ Cache.get_baseline 100 101 (env_cache game_restored) = None.
Proof. by vm_compute. Qed.
