(* ===== verification/ScanScenario.v ===== *)
(** * Scanning the small device

    The simulated operating system with directories and a clock that advances
    with every reading, and the device of the other examples with what a scan
    reads: the concrete input of the theorems on scanning and dispatching. *)

From S2P Require Import Prelude CppString ConfigTypes Kernel SimKernel FileUtils FileFacts.
From S2P Require Import ThreadMatcher LiteralRegex ThreadCache ScanWorker ScanCursor Dispatch.
From S2P Require Import FullScan ScanCycle DispatchFacts Scenario.

(** Directories by path, and what is left of the open streams. *)
Record ScanSim := MkScanSim {
  ss_sim : Sim;
  ss_listing : gmap string (list string);
  ss_streams : gmap Z (list string);
  ss_next : Z }.

Definition lift_sim {A} (op : M Sim A) : M ScanSim A :=
  λ w, let '(a, s) := op (ss_sim w) in
       (a, MkScanSim s (ss_listing w) (ss_streams w) (ss_next w)).

Definition advance_clock (ns : Z) (s : Sim) : Sim :=
  MkSim (sim_clock s + ns) (sim_files s) (sim_dirs s) (sim_effects s) (sim_open s)
    (sim_affinity s) (sim_sched s) (sim_nice s).

#[export] Instance scan_kernel : Kernel ScanSim := {|
  k_now w := (sim_clock (ss_sim w),
              MkScanSim (advance_clock 1000 (ss_sim w)) (ss_listing w) (ss_streams w) (ss_next w));
  k_sleep_ms ms := lift_sim (k_sleep_ms ms);
  k_read p := lift_sim (k_read p);
  k_stat p := lift_sim (k_stat p);
  k_open p c := lift_sim (k_open p c);
  k_write fd l := lift_sim (k_write fd l);
  k_close fd := lift_sim (k_close fd);
  k_mkdir p := lift_sim (k_mkdir p);
  k_sched_setaffinity tid set := lift_sim (k_sched_setaffinity tid set);
  k_sched_getaffinity tid := lift_sim (k_sched_getaffinity tid);
  k_sched_getscheduler tid := lift_sim (k_sched_getscheduler tid);
  k_sched_getparam tid := lift_sim (k_sched_getparam tid);
  k_getpriority tid := lift_sim (k_getpriority tid);
  k_sched_setscheduler tid p q := lift_sim (k_sched_setscheduler tid p q);
  k_setpriority tid n := lift_sim (k_setpriority tid n);
  k_eintr_budget w := k_eintr_budget (ss_sim w) |}.

#[export] Instance scan_directories : KernelScan ScanSim := {|
  k_opendir p w :=
    match ss_listing w !! p with
    | None => (None, w)
    | Some names =>
        (Some (ss_next w), MkScanSim (ss_sim w) (ss_listing w)
                             (<[ss_next w := names]> (ss_streams w)) (ss_next w + 1))
    end;
  k_readdir h w :=
    match ss_streams w !! h with
    | None => (DirError, w)
    | Some [] => (DirEnd, w)
    | Some (name :: names) =>
        (DirEntry name, MkScanSim (ss_sim w) (ss_listing w) (<[h := names]> (ss_streams w))
                          (ss_next w))
    end;
  k_closedir h w := (tt, MkScanSim (ss_sim w) (ss_listing w) (delete h (ss_streams w)) (ss_next w));
  k_sleep_us us w :=
    (tt, MkScanSim (advance_clock (Z.max us 0 * 1000) (ss_sim w)) (ss_listing w) (ss_streams w)
           (ss_next w));
  k_ticks d w := Z.to_nat (d - sim_clock (ss_sim w)) |}.

#[export] Instance scan_laws : ScanLaws ScanSim.
Proof.
  split.
  - intros d w. cbn. split; lia.
  - done.
  - intros d p w. cbn. by destruct (ss_listing w !! p).
  - intros d h w. cbn. by destruct (ss_streams w !! h) as [[]|].
  - done.
  - intros d us w. cbn. lia.
Qed.

(** ** The device *)

Definition scan_files : gmap string string := list_to_map [
  ("/proc/100/status", str (chars "Name:" ++ [TAB] ++ chars "com.game" ++ [LF]
     ++ chars "Tgid:" ++ [TAB] ++ chars "100" ++ [LF]));
  ("/proc/100/cmdline", "com.game");
  ("/proc/100/cgroup", str (chars "3:cpuset:/top-app" ++ [LF] ++ chars "2:cpu:/top-app" ++ [LF]));
  ("/proc/100/task/100/stat", render_stat "100" "com.game" game_fields 5000 (chars " 0 0"));
  ("/proc/100/task/100/comm", str (chars "com.game" ++ [LF]));
  ("/proc/100/task/101/comm", str (chars "RenderThread" ++ [LF])) ] ∪ game_files.

Definition scan_listing : gmap string (list string) := list_to_map [
  ("/proc", ["."; ".."; "self"; "100"; "200"]);
  ("/proc/100/task", ["."; ".."; "101"; "100"]) ].

Definition scan_world : ScanSim :=
  MkScanSim (MkSim 1000000000 scan_files [] ∅ None ∅ ∅ ∅) scan_listing ∅ 3.

Definition four_workers : list Queue.WorkerQueue := replicate 4 (Queue.start Queue.new_worker).

Definition first_budget : ScanBudget :=
  {| bd_deadline := 0; bd_batch_size := 1; bd_batch_yield_us := 0; bd_thread_reads := 0 |}.

Definition scan_start : Main (Traced ScanSim) :=
  MkMain (init_sys (Tr scan_world [])) ∅ ∅ four_workers first_budget true.

Definition first_cycle : Cycle :=
  {| cy_top_cursor := empty_cursor; cy_pinned_cursor := empty_cursor;
     cy_topfore_cursor := empty_cursor; cy_foreground_cursor := empty_cursor;
     cy_background_cursor := empty_cursor; cy_phase := 0; cy_active := false;
     cy_scan := new_full_scan; cy_processed := ∅; cy_pinned_cache := ∅; cy_topfore_cache := ∅;
     cy_top_app_pids := ∅; cy_foreground_pids := ∅; cy_background_pids := ∅;
     cy_process_states := ∅; cy_next_full_scan := 0 |}.

(** One pass with the time budget of the configuration. *)
Definition first_pass : Cycle * Main (Traced ScanSim) :=
  scheduling_pass game_matcher game_sched first_cycle scan_start.

Definition pending_tasks (m : Main (Traced ScanSim)) : list (Z * Z * ProcessState) :=
  (λ kv : _ * DispatchTask, (dt_pid kv.2, dt_tid kv.2, dt_state kv.2))
    <$> (mn_workers m ≫= λ q, map_to_list (Queue.wq_pending q)).

(** The first pass finds the process in the top app's groups, finishes its
    cycle and leaves one task for each of its threads. *)
Lemma first_pass_result :
  cy_active first_pass.1 = false ∧ cy_top_app_pids first_pass.1 = {[100]}
  ∧ cy_process_states first_pass.1 = {[100 := (5000, TOP)]}
  ∧ pending_tasks first_pass.2 = [(100, 101, TOP); (100, 100, TOP)].
Proof. split_and!; by vm_compute. Qed.

(** The same with a budget that is used up in the middle of the scan. *)
Definition hurried_sched : SchedConfig :=
  {| sc_enable := true; sc_refresh_interval_ms := 2000; sc_highspeed_sched_ms := 300;
     sc_top_scan_budget_us := 4000; sc_full_scan_budget_us := 20; sc_scan_batch_size := 32;
     sc_scan_batch_yield_us := 0; sc_case_insensitive := false; sc_timing := default_timing;
     sc_log := default_log; sc_cpumask := sc_cpumask game_sched;
     sc_affinity := sc_affinity game_sched; sc_prio := sc_prio game_sched;
     sc_rules := sc_rules game_sched |}.

Definition hurried_pass : Cycle * Main (Traced ScanSim) :=
  scheduling_pass game_matcher hurried_sched first_cycle scan_start.
Definition hurried_again : Cycle * Main (Traced ScanSim) :=
  scheduling_pass game_matcher hurried_sched hurried_pass.1 hurried_pass.2.

(** The scan is suspended at the process and goes on in the next pass. *)
Lemma hurried_result :
  cy_active hurried_pass.1 = true ∧ mn_rescan hurried_pass.2 = true
  ∧ cur_pid (fs_target (cy_scan hurried_pass.1)) = 100
  ∧ pending_tasks hurried_pass.2 = [] ∧ cy_top_app_pids hurried_again.1 = {[100]}.
Proof. split_and!; by vm_compute. Qed.
