(* ===== verification/CgroupScenario.v ===== *)
(** * A small cgroup file system

    A simulated file system whose files are those of directories that exist,
    some of them read-only, with the control files a new cpuset directory comes
    with: the concrete input of the theorems on the initialisation. *)

From S2P Require Import Prelude CppString ConfigTypes Kernel SimKernel FileUtils FileFacts.
From S2P Require Import CpuMask CgroupInit CgroupFacts ThreadMatcher LiteralRegex ThreadCache Env.
From S2P Require Import Setters Tracing ScanWorker Scenario.

Record CtlSim := MkCtl {
  cs_clock : Z;
  cs_files : gmap string string;
  cs_dirs : list string;
  cs_readonly : list string;
  cs_fds : gmap Z string;
  cs_next : Z }.

(** A file is there when every directory on the way is. *)
Definition cs_reachable (w : CtlSim) (p : string) : bool :=
  forallb (λ d, bool_decide (d ∈ cs_dirs w)) (slash_prefixes [] (chars p)).
Definition cs_content (w : CtlSim) (p : string) : option string :=
  if cs_reachable w p then cs_files w !! p else None.

Definition cs_with_files (files : gmap string string) (w : CtlSim) : CtlSim :=
  MkCtl (cs_clock w) files (cs_dirs w) (cs_readonly w) (cs_fds w) (cs_next w).

Definition new_cpuset_files (dir : string) : gmap string string := list_to_map [
  (dir +:+ "/cpus", EmptyString); (dir +:+ "/mems", EmptyString); (dir +:+ "/tasks", EmptyString);
  (dir +:+ "/cpu_exclusive", "0") ].

#[export] Instance ctl_kernel : Kernel CtlSim := {|
  k_now w := (cs_clock w, w);
  k_sleep_ms ms w := (tt, MkCtl (cs_clock w + ms * 1000000) (cs_files w) (cs_dirs w)
    (cs_readonly w) (cs_fds w) (cs_next w));
  k_read p w := (cs_content w p, w);
  k_stat p w :=
    (if decide (p ∈ cs_dirs w) then Some true
     else if decide (is_Some (cs_content w p)) then Some false else None, w);
  k_open p c w :=
    if decide (is_Some (cs_content w p) ∧ c = false)
    then (Some (cs_next w), MkCtl (cs_clock w) (cs_files w) (cs_dirs w) (cs_readonly w)
            (<[cs_next w := p]> (cs_fds w)) (cs_next w + 1))
    else (None, w);
  k_write fd l w :=
    match cs_fds w !! fd with
    | Some p =>
        if decide (p ∈ cs_readonly w ∨ cs_content w p = None) then (WriteError, w)
        else (Wrote (Z.of_nat (length l)),
              cs_with_files (<[p := str (l ++ [LF])]> (cs_files w)) w)
    | None => (WriteError, w)
    end;
  k_close fd w := (tt, MkCtl (cs_clock w) (cs_files w) (cs_dirs w) (cs_readonly w)
    (delete fd (cs_fds w)) (cs_next w));
  k_mkdir p w :=
    if decide (p ∈ cs_dirs w) then (MkdirExists, w)
    else (MkdirOk, MkCtl (cs_clock w) (cs_files w ∪ new_cpuset_files p) (p :: cs_dirs w)
                     (cs_readonly w) (cs_fds w) (cs_next w));
  k_sched_setaffinity _ _ w := (false, w);
  k_sched_getaffinity _ w := (None, w);
  k_sched_getscheduler _ w := (-1, w);
  k_sched_getparam _ w := (None, w);
  k_getpriority _ w := (None, w);
  k_sched_setscheduler _ _ _ w := (false, w);
  k_setpriority _ _ w := (false, w);
  k_eintr_budget _ := O |}.

(** ** It behaves as documented *)

Definition drop_newlines : list ascii → list ascii :=
  fix go l := match l with c :: l' => if decide (c = LF) then go l' else l | [] => [] end.
Lemma strip_newlines_eq s : strip_newlines s = str (reverse (drop_newlines (reverse (chars s)))).
Proof. unfold strip_newlines, reverse. by rewrite <-!rev_alt. Qed.
Lemma drop_newlines_idemp l : drop_newlines (drop_newlines l) = drop_newlines l.
Proof. induction l as [|c l IH]; cbn; [done|]. case_decide; [done|]. cbn. by rewrite decide_False. Qed.
Lemma strip_newlines_idemp s : strip_newlines (strip_newlines s) = strip_newlines s.
Proof. rewrite !strip_newlines_eq, chars_str, reverse_involutive. by rewrite drop_newlines_idemp. Qed.
Lemma strip_newlines_snoc l : strip_newlines (str (l ++ [LF])) = strip_newlines (str l).
Proof. rewrite !strip_newlines_eq, !chars_str, reverse_app. done. Qed.

Lemma slash_prefixes_parent pre l r :
  rev pre ++ l ≠ [] → str (rev pre ++ l) ∈ slash_prefixes pre (l ++ "/"%char :: r).
Proof.
  revert pre. induction l as [|c l IH]; intros pre Hne; cbn [app slash_prefixes].
  - rewrite app_nil_r in *. rewrite decide_True; [set_solver|]. split; [done|]. by intros ->.
  - apply elem_of_app. right. specialize (IH (c :: pre)). cbn [rev] in IH.
    rewrite <-!(assoc_L (++)) in IH. by apply IH.
Qed.

Lemma cs_parent w d f : d ≠ EmptyString → is_Some (cs_content w (d +:+ "/" +:+ f)) → d ∈ cs_dirs w.
Proof.
  intros Hd [c Hc]. unfold cs_content in Hc. destruct (cs_reachable _ _) eqn:E; [|done].
  unfold cs_reachable in E. rewrite forallb_forall in E.
  specialize (E d). cbv beta in E. apply bool_decide_eq_true in E; [done|]. apply list_elem_of_In.
  rewrite !chars_app. cbn. replace d with (str (rev [] ++ chars d)) at 1 by apply str_chars.
  apply slash_prefixes_parent. cbn. by destruct d.
Qed.

Lemma cs_content_mono w w' p c :
  (∀ d, d ∈ cs_dirs w → d ∈ cs_dirs w') → (cs_files w !! p = Some c → cs_files w' !! p = Some c) →
  cs_content w p = Some c → cs_content w' p = Some c.
Proof.
  intros Hd Hf. unfold cs_content, cs_reachable. destruct (forallb _ _) eqn:E; [|done]. intros Hc.
  rewrite forallb_forall in E.
  assert (forallb (λ d, bool_decide (d ∈ cs_dirs w')) (slash_prefixes [] (chars p)) = true) as ->; [|auto].
  apply forallb_forall. intros d Hin. apply bool_decide_eq_true, Hd.
  by apply (bool_decide_unpack _), Is_true_true, E.
Qed.

#[export] Instance ctl_view : ControlView CtlSim.
Proof.
  refine {| ctl := cs_content;
    fd_path w fd := p ← cs_fds w !! fd; if decide (cs_content w p = None) then None else Some p;
    canonical v := strip_newlines v = v |}; try done.
  - intros q w p [c Hc]. cbn. case_decide; [done|]. cbn. rewrite Hc.
    apply (cs_content_mono w); [set_solver| |done]. cbn. intros Hl. by apply lookup_union_Some_l.
  - intros q w p. cbn. case_decide as Hq; cbn; [|done]. split; [done|]. intros fd [= <-].
    rewrite lookup_insert_eq. cbn. rewrite decide_False; [done|]. intros Hn.
    change (cs_content w q = None) in Hn. rewrite Hn in Hq. by destruct Hq as [[? ?] _].
  - intros fd l w q. cbn. destruct (cs_fds w !! fd) as [p|] eqn:Ef; [|done]. cbn.
    case_decide as Hc; [done|]. intros [= ->].
    assert (cs_reachable w q = true) as E by (unfold cs_content in Hc; by destruct (cs_reachable w q)).
    case_decide as Hr; [by split; [|rewrite Ef; cbn; rewrite decide_False]|].
    split; [done|]. split.
    + intros p Hne. unfold cs_content. change (cs_reachable _ p) with (cs_reachable w p). cbn.
      by rewrite lookup_insert_ne.
    + intros Hcan. unfold cs_content. change (cs_reachable _ q) with (cs_reachable w q). rewrite E.
      cbn -[strip_newlines]. rewrite lookup_insert_eq. cbn -[strip_newlines].
      by rewrite strip_newlines_snoc, Hcan.
  - intros w p c _. apply strip_newlines_idemp.
  - intros d f w Hd. cbn. case_decide as Hin; [done|]. intros _.
    destruct (cs_content w (d +:+ "/" +:+ f)) eqn:E; [|done]. destruct Hin.
    apply (cs_parent w d f); [done|]. by rewrite E.
Defined.

(** A list of CPUs ends in a digit. *)
Lemma strip_newlines_none v : Forall (λ c, c ≠ LF) (chars v) → strip_newlines v = v.
Proof.
  intros Hv. rewrite strip_newlines_eq.
  assert (drop_newlines (reverse (chars v)) = reverse (chars v)) as ->.
  { apply Forall_reverse in Hv. destruct Hv as [|c l Hc _]; [done|]. cbn. by rewrite decide_False. }
  by rewrite reverse_involutive, str_chars.
Qed.

Lemma to_string_no_newline z : 0 ≤ z → Forall (λ c, c ≠ LF) (chars (to_string z)).
Proof.
  intros Hz. destruct (to_string_digits z Hz) as (ds & -> & _ & Hds & _).
  eapply Forall_impl; [exact Hds|]. intros c [n Hn] ->. done.
Qed.

Lemma render_cpus_no_newline prev l :
  Forall (λ c, 0 ≤ c < CPU_SETSIZE) l → Forall (λ c, c ≠ LF) (render_cpus prev l).
Proof.
  intros Hl. revert prev. induction Hl as [|cpu rest Hc _ IH]; intros prev; cbn [render_cpus];
    [constructor|].
  assert (Forall (λ c, c ≠ LF) (chars (to_string cpu))) as Hs by (apply to_string_no_newline; lia).
  apply Forall_app. split; [|apply IH]. repeat case_match; by constructor.
Qed.

#[export] Instance ctl_cpu_lists : CpuListView CtlSim.
Proof.
  intros cpus Hne Hs Hr. apply strip_newlines_none. unfold cpus_to_string.
  rewrite sort_ints_id by by apply StronglySorted_lt_le.
  destruct Hr as [|cpu rest Hc Hr]; [done|]. rewrite chars_str.
  apply Forall_app. split; [apply to_string_no_newline; lia|by apply render_cpus_no_newline].
Qed.

(** ** A start of the program *)

(** The group of the big CPUs is there from an earlier start, with other CPUs;
    that of the little ones is not. *)
Definition cgroup_files : gmap string string := list_to_map [
  ("/dev/cpuset/top-app/cpus", str (chars "0-7" ++ [LF]));
  ("/dev/cpuset/top-app/mems", str (chars "0" ++ [LF]));
  ("/dev/cpuset/top-app/ReUperf_big/cpus", str (chars "4-5" ++ [LF]));
  ("/dev/cpuset/top-app/ReUperf_big/mems", str (chars "0" ++ [LF]));
  ("/dev/cpuset/top-app/ReUperf_big/tasks", EmptyString) ].

Definition cgroup_world (readonly : list string) : CtlSim :=
  MkCtl 0 cgroup_files
    ["/dev"; "/dev/cpuset"; "/dev/cpuset/top-app"; "/dev/cpuset/top-app/ReUperf_big"; "/dev/cpuctl"]
    readonly ∅ 3.

Definition boot : Sys CtlSim := init_sys (cgroup_world []).
(** The CPUs of the little group cannot be set. *)
Definition broken_boot : Sys CtlSim :=
  init_sys (cgroup_world ["/dev/cpuset/top-app/ReUperf_little/cpus"]).

Example boot_result :
  (init game_config boot).1 = true
  ∧ shows (init game_config boot).2 "/dev/cpuset/top-app/ReUperf_big/cpus" = Some "4-7"
  ∧ shows (init game_config boot).2 "/dev/cpuset/top-app/ReUperf_little/cpus" = Some "0-3".
Proof. by vm_compute. Qed.

(** Between the two writes of the failing start the big group has its new CPUs. *)
Example broken_boot_result :
  shows (init_groups game_config broken_boot).2 "/dev/cpuset/top-app/ReUperf_big/cpus" = Some "4-7"
  ∧ (init_outcome game_config broken_boot).1 = (false, true)
  ∧ shows (init game_config broken_boot).2 "/dev/cpuset/top-app/ReUperf_big/cpus" = Some "4-5".
Proof. by vm_compute. Qed.
