(* ===== verification/DaemonScenario.v ===== *)
(** * The daemon on the small device

    The simulated operating system of the scans with inotify, threads and a
    shell command, and a start, a reload and a failed reload of the daemon on
    it. *)

From S2P Require Import Prelude CppString ConfigTypes Json ConfigParser ConfigRoundtrip Kernel.
From S2P Require Import SimKernel FileUtils FileFacts Inotify ConfigWatch CpuMask CgroupInit.
From S2P Require Import ThreadMatcher LiteralRegex ThreadCache Env ScanWorker ScanCursor LauncherFinder.
From S2P Require Import LauncherFacts Dispatch FullScan ScanCycle EventRouter ProcMonitor Restoration.
From S2P Require Import Reload ReloadFacts MainLoop Scenario ScanScenario.

(** What comes with the system besides files, threads and directories: the events
    of the configuration's directory, the answers to the next creations of
    threads (a thread is created when there is no answer left), and what the
    package service prints. *)
Record Device := MkDevice {
  dv_scan : ScanSim;
  dv_mtime : Z;
  dv_events : list InotifyEvent;
  dv_threads : list bool;
  dv_output : list ascii;
  dv_pipe : option (list ascii) }.

Definition lift_scan {A} (op : M ScanSim A) : M Device A :=
  λ w, let '(a, s) := op (dv_scan w) in
       (a, MkDevice s (dv_mtime w) (dv_events w) (dv_threads w) (dv_output w) (dv_pipe w)).

(** The clock advances a tenth of a millisecond with every reading. *)
Definition device_tick : Z := 100000.

#[export] Instance device_kernel : Kernel Device := {|
  k_now := lift_scan (λ s, (sim_clock (ss_sim s),
    MkScanSim (advance_clock device_tick (ss_sim s)) (ss_listing s) (ss_streams s) (ss_next s)));
  k_sleep_ms ms := lift_scan (k_sleep_ms ms);
  k_read p := lift_scan (k_read p);
  k_stat p := lift_scan (k_stat p);
  k_open p c := lift_scan (k_open p c);
  k_write fd l := lift_scan (k_write fd l);
  k_close fd := lift_scan (k_close fd);
  k_mkdir p := lift_scan (k_mkdir p);
  k_sched_setaffinity tid set := lift_scan (k_sched_setaffinity tid set);
  k_sched_getaffinity tid := lift_scan (k_sched_getaffinity tid);
  k_sched_getscheduler tid := lift_scan (k_sched_getscheduler tid);
  k_sched_getparam tid := lift_scan (k_sched_getparam tid);
  k_getpriority tid := lift_scan (k_getpriority tid);
  k_sched_setscheduler tid p q := lift_scan (k_sched_setscheduler tid p q);
  k_setpriority tid n := lift_scan (k_setpriority tid n);
  k_eintr_budget w := k_eintr_budget (dv_scan w) |}.

#[export] Instance device_scan : KernelScan Device := {|
  k_opendir p := lift_scan (k_opendir p);
  k_readdir h := lift_scan (k_readdir h);
  k_closedir h := lift_scan (k_closedir h);
  k_sleep_us us := lift_scan (k_sleep_us us);
  k_ticks d w := Z.to_nat ((d - sim_clock (ss_sim (dv_scan w)) + 99999) / device_tick) |}.

#[export] Instance device_scan_laws : ScanLaws Device.
Proof.
  split.
  - intros d w. cbn. unfold device_tick. set (c := sim_clock _).
    replace (d - (c + 100000) + 99999) with (d - c + 99999 + (-1) * 100000) by lia.
    rewrite Z.div_add by lia. split; [lia|]. intros Hlt.
    assert (0 < (d - c + 99999) / 100000) by (apply Z.div_str_pos; lia). lia.
  - done.
  - intros d p w. cbn. unfold lift_scan. cbn. by destruct (ss_listing (dv_scan w) !! p).
  - intros d h w. cbn. unfold lift_scan. cbn. by destruct (ss_streams (dv_scan w) !! h) as [[]|].
  - done.
  - intros d us w. cbn. unfold device_tick. Z.to_euclidean_division_equations. lia.
Qed.

#[export] Instance device_watch : KernelWatch Device := {|
  k_mtime p w := (Some (dv_mtime w), w);
  k_inotify_init w := (Some 20, w);
  k_inotify_add_watch fd p mask w := (Some 1, w);
  k_inotify_read fd w :=
    match dv_events w with
    | [] => (InAgain, w)
    | ev :: rest =>
        (InBytes (event_bytes ev),
         MkDevice (dv_scan w) (dv_mtime w) rest (dv_threads w) (dv_output w) (dv_pipe w))
    end;
  k_inotify_budget fd w := length (dv_events w) |}.

#[export] Instance device_watch_laws : WatchLaws Device.
Proof.
  refine {| in_queue w fd := dv_events w; in_arrivals fd w := [];
            in_healthy w fd := Forall valid_event (dv_events w) |}.
  - intros fd w. cbn. destruct (dv_events w) eqn:E; cbn; [done|]. lia.
  - intros fd w Hw. cbn. destruct (dv_events w) as [|ev rest] eqn:E; cbn; [done|].
    apply Forall_cons in Hw as [Hv Hr]. split; [done|]. exists [ev]. cbn.
    rewrite !app_nil_r. split_and!; [done..|by constructor|done].
Defined.

#[export] Instance device_threads : KernelThreads Device := {|
  k_thread_create w :=
    match dv_threads w with
    | [] => (true, w)
    | b :: rest =>
        (b, MkDevice (dv_scan w) (dv_mtime w) (dv_events w) rest (dv_output w) (dv_pipe w))
    end;
  k_eventfd w := (Some 21, w) |}.

#[export] Instance device_process : KernelProcess Device := {|
  k_pipe w := (Some (30, 31), MkDevice (dv_scan w) (dv_mtime w) (dv_events w) (dv_threads w)
                                (dv_output w) (Some (dv_output w)));
  k_fork cmd fds w := (Some 500, w);
  k_setpgid pid w := (tt, w);
  k_set_nonblock fd w := (true, w);
  k_poll fd ms w := (PollReady, w);
  k_pipe_read fd w :=
    match dv_pipe w with
    | Some (ch :: rest) =>
        (PipeBytes (ch :: rest), MkDevice (dv_scan w) (dv_mtime w) (dv_events w) (dv_threads w) (dv_output w)
                        (Some []))
    | _ => (PipeEof, w)
    end;
  k_waitpid pid nohang w := (WaitExited 0, w);
  k_kill pid sig w := (tt, w);
  k_signal_budget w := O |}.

#[export] Instance device_process_laws : ProcessLaws Device.
Proof.
  split; try done.
  intros d fd w. cbn. destruct (dv_pipe w) as [[|ch l]|]; cbn; by split_and!.
Qed.

(** ** Files *)

Definition config_file : string := "/data/adb/ReUperf/ReUperf.json".

(** The configuration with more frequent passes. *)
Definition quick_sched : SchedConfig :=
  {| sc_enable := true; sc_refresh_interval_ms := 2000; sc_highspeed_sched_ms := 100;
     sc_top_scan_budget_us := 4000; sc_full_scan_budget_us := 12000; sc_scan_batch_size := 32;
     sc_scan_batch_yield_us := 0; sc_case_insensitive := false; sc_timing := default_timing;
     sc_log := default_log; sc_cpumask := sc_cpumask game_sched;
     sc_affinity := sc_affinity game_sched; sc_prio := sc_prio game_sched;
     sc_rules := sc_rules game_sched |}.
Definition quick_config : Config :=
  {| cfg_meta_name := "test"; cfg_meta_author := "test"; cfg_sched := quick_sched;
     cfg_launcher_package := EmptyString |}.

(** A parser that knows three texts. *)
Definition device_json (text : string) : option JsonValue :=
  if decide (text = "game") then Some (render_config game_config)
  else if decide (text = "quick") then Some (render_config quick_config)
  else None.

Definition device_files : gmap string string := list_to_map [
  (config_file, "game");
  ("/dev/cpuset/top-app/cpus", "0-7"); ("/dev/cpuset/top-app/mems", "0");
  ("/dev/cpuset/top-app/ReUperf_little/cpus", "0-3");
  ("/dev/cpuset/top-app/ReUperf_little/mems", "0");
  ("/dev/cpuset/top-app/ReUperf_little/tasks", EmptyString) ] ∪ scan_files.

Definition device_dirs : list string :=
  ["/data/adb/ReUperf"; "/dev/cpuset"; "/dev/cpuset/top-app"; "/dev/cpuset/top-app/ReUperf_big";
   "/dev/cpuset/top-app/ReUperf_little"; "/dev/cpuctl"; "/dev/cpuctl/ReUperf";
   "/dev/cpuctl/ReUperf/game"; "/dev/cpuctl/ReUperf/game/A1"].

Definition launcher_output : list ascii :=
  chars "  packageName=com.android.launcher3" ++ [LF] ++ chars "  packageName=org.home.app"
  ++ [LF] ++ chars "  packageName=1bad.name" ++ [LF].

Definition device (threads : list bool) : Device :=
  MkDevice (MkScanSim (MkSim 1000000000 device_files device_dirs game_effects None {[ 101 := 255 ]}
                         {[ 101 := (0, 0) ]} {[ 101 := 5 ]}) scan_listing ∅ 3)
    7 [] threads launcher_output None.

Definition boot_daemon (threads : list bool) : Z + Daemon Literal Device :=
  (start_daemon device_json config_file (init_sys (device threads))).1.

(** An edit of the configuration file. *)
Definition edited (text : string) (d : Daemon Literal Device) : Daemon Literal Device :=
  (in_sys (modify (λ s,
     let w := sys_world s in
     let sim := ss_sim (dv_scan w) in
     MkSys (MkDevice (MkScanSim (MkSim (sim_clock sim) (<[config_file := text]> (sim_files sim))
                        (sim_dirs sim) (sim_effects sim) (sim_open sim) (sim_affinity sim)
                        (sim_sched sim) (sim_nice sim)) (ss_listing (dv_scan w))
                        (ss_streams (dv_scan w)) (ss_next (dv_scan w)))
              (dv_mtime w) (dv_events w) (dv_threads w) (dv_output w) (dv_pipe w))
       (sys_file_cache s) (sys_cgroup_cache s) (sys_file_ttl_ms s) (sys_cgroup_ttl_ms s))) d).2.

Definition some_daemon (r : Z + Daemon Literal Device) : Daemon Literal Device :=
  match r with
  | inr d => d
  | inl _ => MkDaemon (MkMain (init_sys (device [])) ∅ ∅ [] no_budget false) false
               (MkScheduler game_config game_matcher ∅ (idle_cycle 0) 0)
               (first_detection 0 0 default_timing) (new_watcher config_file) new_monitor 0 new_router
               false
  end.

Definition round (d : Daemon Literal Device) : Daemon Literal Device :=
  (loop_round device_json config_file false d).2.

(** The daemon after its first round, and later with another configuration. *)
Definition booted : Daemon Literal Device := some_daemon (boot_daemon []).
Definition settled_down : Daemon Literal Device := round booted.
Definition reloaded : Daemon Literal Device := round (edited "quick" settled_down).
(** The file cannot be parsed. *)
Definition misread : Daemon Literal Device := round (edited "nonsense" settled_down).

(** The first thread of the new workers cannot be created, after the four
    workers, the router and the monitor of the start. *)
Definition scarce : Daemon Literal Device :=
  some_daemon (boot_daemon [true; true; true; true; true; true; false]).
Definition fallen_back : Daemon Literal Device := round (edited "quick" scarce).
