(* ===== verification/WorkerTheorems.v ===== *)
(** * What is proved of the worker and of the restoration

    Theorems on [process_dispatch_task], the setters it calls and the
    restoration of baselines, each with an instance on the small device. *)

From S2P Require Import Prelude CppString CgroupName ConfigTypes ConfigParser Kernel SimKernel.
From S2P Require Import FileUtils FileFacts CpuMask ThreadMatcher LiteralRegex MatcherFacts.
From S2P Require Import ThreadCache Env Setters Tracing SetterFacts ScanWorker WorkerGuard.
From S2P Require Import WorkerFacts Restoration WorkerEffects Scenario.

(** C1: Whatever task a worker processes, from whatever state, every call that
    changes anything (affinity, policy, nice value, a write to a [tasks] file)
    acts on the task's thread, and when it is made the latest reads of [/proc]
    show the start times of the process and of the thread and the membership of
    the thread that the task was made with. *)
Theorem changes_follow_identity {R W} `{!RegexEngine R} `{!Kernel W} `{!KernelLaws W}
    `{!StringHash} `{!IntHash} (matcher : ThreadMatcher R) timing cpuset_timing task
    (e : Env (Traced W)) :
  env_trace e = [] →
  wp (process_dispatch_task matcher timing cpuset_timing task)
    (λ _ e', guarded (dt_pid task) (dt_tid task) (dt_process_start_time task)
               (dt_thread_start_time task) (env_trace e')) e.
Proof. intros He. apply guarded_process. unfold Inv. by rewrite He. Qed.

Lemma changes_follow_identity_witness :
  existsb mutating (env_trace game_managed) = true
  ∧ wp (process game_task) (λ _ e', guarded 100 101 5000 5001 (env_trace e')) game_start.
Proof.
  split; [by vm_compute|]. by apply (changes_follow_identity game_matcher default_timing).
Defined.

(** C6: A thread whose applied result is the one its cached rule asks for is
    only looked at: unless the kernel shows drift at the moment of the check,
    processing it makes no changing call and leaves its cache entry alone (or
    drops it when the identity is gone). *)
Theorem stable_thread_only_looked_at {R W} `{!RegexEngine R} `{!Kernel W} `{!KernelLaws W}
    `{!StringHash} `{!IntHash} (matcher : ThreadMatcher R) timing cpuset_timing task entry
    (e : Env (Traced W)) :
  Cache.lookup (dt_pid task) (dt_tid task) (dt_process_start_time task)
    (dt_thread_start_time task) (dt_thread_name task) (dt_cmdline task) (dt_state task)
    (env_cache e) = Some entry →
  tce_applied_result entry = Some (tce_result entry) →
  (needs_managed_state matcher (tce_result entry) = true →
   (drifted matcher timing task (tce_result entry) (drift_point timing task e)).1 = false) →
  wp (process_dispatch_task matcher timing cpuset_timing task) (λ _ e',
    (∃ new, env_trace e' = new ++ env_trace e ∧ Forall (λ c, mutating c = false) new)
    ∧ (env_cache e' = env_cache e
       ∨ env_cache e' = Cache.erase_thread_if_identity (dt_pid task) (dt_tid task)
           (dt_process_start_time task) (dt_thread_start_time task) (env_cache e))) e.
Proof. apply stable_thread_untouched. Qed.

Lemma stable_thread_only_looked_at_witness :
  wp (process game_task) (λ _ e',
    (∃ new, env_trace e' = new ++ env_trace game_later ∧ Forall (λ c, mutating c = false) new)
    ∧ (env_cache e' = env_cache game_later
       ∨ env_cache e' = Cache.erase_thread_if_identity (dt_pid game_task) (dt_tid game_task)
           (dt_process_start_time game_task) (dt_thread_start_time game_task)
           (env_cache game_later))) game_later.
Proof.
  eapply (stable_thread_only_looked_at game_matcher default_timing default_timing game_task _
    game_later).
  - vm_compute. reflexivity.
  - vm_compute. reflexivity.
  - intros _. vm_compute. reflexivity.
Defined.

(** C5: A worker that gives a thread up keeps the thread's cache entry as it
    is, or drops it after a read showed that the thread is gone, or forgets
    baseline, applied result and managed components; in the last case the calls
    made since the start include the successful ones that put back every part the baseline
    has: the cpuctl group, policy, priority and nice value, the cpuset, the
    affinity. *)
Theorem forgotten_baseline_was_restored {R W} `{!RegexEngine R} `{!Kernel W} `{!KernelLaws W}
    `{!StringHash} `{!IntHash} task b (e : Env (Traced W)) :
  env_trace e = [] →
  Cache.get_baseline (dt_pid task) (dt_tid task) (env_cache e) = Some b →
  wp (restore_baseline task) (λ _ e',
    env_cache e' = env_cache e
    ∨ env_cache e' = Cache.erase_thread_if_identity (dt_pid task) (dt_tid task)
        (dt_process_start_time task) (dt_thread_start_time task) (env_cache e)
      ∧ task_gone task (env_trace e')
    ∨ env_cache e' = forget task (env_cache e) ∧ baseline_restored task b (env_trace e')) e.
Proof. intros _. apply restore_baseline_done. Qed.

Lemma forgotten_baseline_was_restored_witness :
  env_cache game_restored = forget game_task (env_cache game_later)
  ∧ wp (restore_baseline game_task) (λ _ e',
      env_cache e' = env_cache game_later
      ∨ env_cache e' = Cache.erase_thread_if_identity (dt_pid game_task) (dt_tid game_task)
          (dt_process_start_time game_task) (dt_thread_start_time game_task)
          (env_cache game_later)
        ∧ task_gone game_task (env_trace e')
      ∨ env_cache e' = forget game_task (env_cache game_later)
        ∧ baseline_restored game_task game_baseline (env_trace e')) game_later.
Proof.
  split; [vm_compute; reflexivity|].
  apply (forgotten_baseline_was_restored game_task game_baseline game_later);
    vm_compute; reflexivity.
Defined.

(** The worker never records a component of a thread as managed without
    the part of the baseline it takes to give it back: in every entry of the
    cache a managed affinity has the affinity and the cpuset path of the
    baseline, a managed priority its scheduler state, a managed cpuctl group
    its path.  Processing a task keeps this. *)
Lemma managed_components_restorable {R W} `{!RegexEngine R} `{!Kernel W} `{!StringHash}
    `{!IntHash} (matcher : ThreadMatcher R) timing cpuset_timing task (e : Env W) :
  restorable (env_cache e) →
  wp (process_dispatch_task matcher timing cpuset_timing task)
    (λ _ e', restorable (env_cache e')) e.
Proof. apply restorable_process. Qed.

Lemma managed_components_restorable_witness :
  restorable (env_cache game_start)
  ∧ wp (process game_task) (λ _ e', restorable (env_cache e')) game_start.
Proof.
  assert (restorable (env_cache game_start)) as H by apply map_Forall_empty.
  split; [exact H|]. by apply (managed_components_restorable game_matcher default_timing).
Defined.

(** C7: Processing a task touches the cache entry of its own thread only, so
    that the work of different workers (whose threads differ) on the shared
    cache does not interfere. *)
Theorem other_threads_untouched {R W} `{!RegexEngine R} `{!Kernel W} `{!StringHash} `{!IntHash}
    (matcher : ThreadMatcher R) timing cpuset_timing task key (e : Env W) :
  key ≠ (dt_pid task, dt_tid task) →
  wp (process_dispatch_task matcher timing cpuset_timing task)
    (λ _ e', env_cache e' !! key = env_cache e !! key) e.
Proof. apply process_local. Qed.

Lemma other_threads_untouched_witness :
  (∃ entry, env_cache game_managed !! (100, 101) = Some entry)
  ∧ wp (process (other_task 102))
      (λ _ e', env_cache e' !! (100, 101) = env_cache game_managed !! (100, 101)) game_managed.
Proof.
  split; [vm_compute; by eexists|].
  by apply (other_threads_untouched game_matcher default_timing).
Defined.

(** C8: The takeover of a thread's CPUs makes at most two attempts, and when it
    reports success the latest text of the thread's [cgroup] file names the
    group of the mask and the kernel's latest answer about its affinity is
    exactly the mask's CPUs. *)
Theorem takeover_success_confirmed {R W} `{!RegexEngine R} `{!Kernel W} `{!KernelLaws W}
    (matcher : ThreadMatcher R) timing pid tid result ps ts (e : Env (Traced W)) :
  0 < tid → mr_matched result = true → has_resolved_affinity result = true →
  wp (cpuset_apply_with_result matcher timing pid tid result ps ts) (λ r e',
    0 ≤ at_attempts r ≤ 2
    ∧ (takeover_success r = true →
         cpuset_confirmed pid tid (mr_cpumask_name result) (env_trace e')
         ∧ affinity_confirmed tid (get_cpus_for_affinity matcher (mr_affinity_class result)
             (mr_effective_state result)) (env_trace e'))) e.
Proof. apply cpuset_apply_confirms. Qed.

Definition game_result : MatchResult :=
  match_spec game_matcher "com.game" "RenderThread" TOP "com.game" false.

Lemma takeover_success_confirmed_witness :
  takeover_success
    (cpuset_apply_with_result game_matcher default_timing 100 101 game_result 5000 5001
       game_start).1 = true
  ∧ wp (cpuset_apply_with_result game_matcher default_timing 100 101 game_result 5000 5001)
      (λ r e', 0 ≤ at_attempts r ≤ 2
        ∧ (takeover_success r = true →
             cpuset_confirmed 100 101 (mr_cpumask_name game_result) (env_trace e')
             ∧ affinity_confirmed 101 (get_cpus_for_affinity game_matcher
                 (mr_affinity_class game_result) (mr_effective_state game_result))
                 (env_trace e'))) game_start.
Proof.
  split; [vm_compute; reflexivity|].
  apply (takeover_success_confirmed game_matcher default_timing 100 101 game_result 5000 5001
    game_start); [lia|vm_compute; reflexivity..].
Defined.

(** When the restoration of all baselines reports success, no entry of the
    cache has a baseline left, and each baseline there was is accounted for:
    a read showed that its thread is gone, or successful calls put back every
    part of it. *)
Lemma everything_restored {W} `{!Kernel W} `{!KernelLaws W} (e : Env (Traced W)) :
  env_trace e = [] → keyed (env_cache e) →
  wp restore_all_thread_baselines (λ ok e', ok = true →
    (∀ key entry, env_cache e' !! key = Some entry → tce_baseline entry = None)
    ∧ ∀ stored, stored ∈ Cache.get_all_baselines (env_cache e) →
        task_gone (stored_task stored) (env_trace e')
        ∨ baseline_restored (stored_task stored) (stb_baseline stored) (env_trace e')) e.
Proof.
  intros _ Hk. eapply wp_mono; [apply wp_and; [by apply restore_all_complete|]|].
  { by apply restore_all_effects. }
  intros ok e' [H1 H2] Hok. split; [by apply H1|by apply H2].
Qed.

Lemma everything_restored_witness :
  (restore_all_thread_baselines game_later).1 = true
  ∧ wp restore_all_thread_baselines (λ ok e', ok = true →
      (∀ key entry, env_cache e' !! key = Some entry → tce_baseline entry = None)
      ∧ ∀ stored, stored ∈ Cache.get_all_baselines (env_cache game_later) →
          task_gone (stored_task stored) (env_trace e')
          ∨ baseline_restored (stored_task stored) (stb_baseline stored) (env_trace e'))
      game_later.
Proof.
  split; [vm_compute; reflexivity|]. apply (everything_restored game_later).
  - vm_compute. reflexivity.
  - apply (bool_decide_unpack (keyed (env_cache game_later))). vm_compute. exact I.
Defined.

(** C28: A bounded retry tries, and after each failed try but the last waits
    and tries again: the tries and waits of a run, in order, are some number of
    failed tries each followed by its wait, and one last try, whose result is
    the result of the run.  There are at most the given number of tries, and
    when the last one failed exactly that many; with none allowed nothing is
    done and the run fails. *)
Theorem retry_bounded {S} (operation : M S bool) (delay : Z → M S unit)
    (log : S → list retry_event) max_attempts s :
  (∀ s, wp operation (λ ok s', log s' = log s ++ [Tried ok]) s) →
  (∀ n s, wp (delay n) (λ _ s', log s' = log s ++ [Delayed n]) s) →
  wp (run_restoration_with_retry operation delay max_attempts) (λ ok s',
    (max_attempts ≤ 0 → ok = false ∧ log s' = log s)
    ∧ (0 < max_attempts → ∃ k, 0 ≤ k < max_attempts
         ∧ log s' = log s ++ (seqZ 1 k ≫= λ i, [Tried false; Delayed i]) ++ [Tried ok]
         ∧ (ok = false → k = max_attempts - 1))) s.
Proof. intros. by apply run_retry_log. Qed.

(** An operation that succeeds at its third try. *)
Definition third_try : M (Z * list retry_event) bool :=
  λ s, (s.1 =? 2, (s.1 + 1, s.2 ++ [Tried (s.1 =? 2)])).
Definition noted_delay (n : Z) : M (Z * list retry_event) unit :=
  λ s, (tt, (s.1, s.2 ++ [Delayed n])).

Lemma retry_bounded_witness :
  wp (run_restoration_with_retry third_try noted_delay 5) (λ ok s',
    (5 ≤ 0 → ok = false ∧ s'.2 = [])
    ∧ (0 < 5 → ∃ k, 0 ≤ k < 5
         ∧ s'.2 = [] ++ (seqZ 1 k ≫= λ i, [Tried false; Delayed i]) ++ [Tried ok]
         ∧ (ok = false → k = 5 - 1))) (0, []).
Proof. apply (retry_bounded third_try noted_delay snd 5 (0, [])); by intros. Defined.

(** C26: After a successful [set_priority] with any value a configuration may
    hold, the drift check of that value finds nothing to do: writer and checker
    agree on what a priority value means. *)
Theorem set_priority_is_stable {W} `{!Kernel W} `{!SchedLaws W} tid v p q n (e : Env W) :
  0 < tid → v ≠ 0 → is_valid_prio_value v = true → view tid e = Some (p, q, n) →
  wp (set_priority tid v) (λ ok e', ok = true →
    wp (is_sched_changed tid v) (λ changed _, changed = false) e') e.
Proof. apply set_then_not_changed. Qed.

Lemma set_priority_is_stable_witness :
  wp (set_priority 101 110) (λ ok e', ok = true →
    wp (is_sched_changed 101 110) (λ changed _, changed = false) e') (init_env game_world).
Proof.
  apply (set_priority_is_stable 101 110 0 0 5 (init_env game_world));
    [lia|lia|reflexivity|vm_compute; reflexivity].
Defined.

(** C27: The scheduler state captured as a baseline is complete, and restoring
    it from any later state brings the thread back to the captured policy and
    real-time priority, and to the captured nice value when the policy is one
    that uses it. *)
Theorem captured_scheduler_restores {W} `{!Kernel W} `{!SchedLaws W} tid p q n (e : Env W) :
  0 < tid → 0 ≤ p → view tid e = Some (p, q, n) →
  wp (capture_scheduler_baseline tid) (λ captured _,
    captured.1 = true ∧
    ∀ e' p' q' n', view tid e' = Some (p', q', n') →
    wp (restore_scheduler tid captured.2.1.1 captured.2.1.2 captured.2.2) (λ ok e'',
      ok = true → view tid e'' = Some (p, q, if is_nice_policy p then n else n')) e') e.
Proof. apply capture_restore. Qed.

Lemma captured_scheduler_restores_witness :
  wp (capture_scheduler_baseline 101) (λ captured _,
    captured.1 = true ∧
    ∀ e' p' q' n', view 101 e' = Some (p', q', n') →
    wp (restore_scheduler 101 captured.2.1.1 captured.2.1.2 captured.2.2) (λ ok e'',
      ok = true → view 101 e'' = Some (0, 0, if is_nice_policy 0 then 5 else n')) e')
    (init_env game_world).
Proof.
  apply (captured_scheduler_restores 101 0 0 5 (init_env game_world));
    [lia|lia|vm_compute; reflexivity].
Defined.

(** Different rules, and different thread rules of one rule, have
    different cpuctl groups, for all names the configuration accepts. *)
Lemma cpuctl_groups_distinct r1 i1 r2 i2 :
  is_safe_cgroup_component r1 = true → is_safe_cgroup_component r2 = true →
  cpuctl_group r1 i1 = cpuctl_group r2 i2 → r1 = r2 ∧ i1 = i2.
Proof. rewrite !is_safe_cgroup_component_spec. apply cpuctl_group_inj. Qed.

Lemma cpuctl_groups_distinct_witness :
  cpuctl_group "game" 0 = cpuctl_group "game" 0 ∧ "game" = "game" ∧ 0 = 0.
Proof.
  split; [reflexivity|].
  apply (cpuctl_groups_distinct "game" 0 "game" 0); vm_compute; reflexivity.
Defined.

(** The state the program reads off a thread group it made itself is the
    one the rule's name would stand for as a path: a rule named after Android's
    own groups decides the state of its processes. *)
Lemma own_group_read_by_name rule i cpuset_path :
  0 ≤ i →
  cgroup_paths_to_state_info (cpuctl_group rule i) cpuset_path =
    {| csi_state := cgroup_path_to_state rule; csi_reuperf_owned := true |}.
Proof. apply own_group_info. Qed.

Lemma own_group_read_by_name_witness :
  csi_state (cgroup_paths_to_state_info (cpuctl_group "foreground-apps" 0) "/background") = CgFG.
Proof. rewrite (own_group_read_by_name "foreground-apps" 0 "/background"); [done|lia]. Defined.
