(* ===== verification/DataTheorems.v ===== *)
(** * What is proved of the configuration, the matcher and the thread cache *)

From S2P Require Import Prelude CppString CgroupName ConfigTypes Json ConfigParser ConfigRoundtrip.
From S2P Require Import Kernel SimKernel FileUtils FileFacts CpuMask ThreadMatcher LiteralRegex.
From S2P Require Import MatcherFacts ThreadCache Env ScanWorker Scenario.

(** ** Configuration *)

(** C29: Whatever the file holds, and whatever the JSON library makes of it, the
    scheduling configuration the parser returns is well formed: every number in
    its range, CPU lists strictly increasing and within [CPU_SETSIZE], mask and
    rule names safe as directory names and rule names distinct, every class and
    mask a rule or scene refers to defined. *)
Theorem parsed_config_well_formed {J} `{!Json J} json_parse file :
  wf_sched (cfg_sched (cpr_config (parse (J := J) json_parse file))).
Proof. apply parse_wf. Qed.

(** C30: Every well-formed configuration can be written down: parsing its JSON
    form succeeds and returns the same configuration. *)
Theorem rendered_config_parses text c :
  wf_sched (cfg_sched c) → cfg_launcher_package c = EmptyString →
  parse (λ _, Some (render_config c)) (Some text)
  = {| cpr_success := true; cpr_config := c |}.
Proof. apply render_config_parse. Qed.

Lemma rendered_config_parses_witness :
  wf_sched game_sched
  ∧ parse (λ _, Some (render_config game_config)) (Some "{}")
    = {| cpr_success := true; cpr_config := game_config |}.
Proof.
  split; [apply game_sched_wf|]. apply (rendered_config_parses "{}" game_config); [|done].
  apply game_sched_wf.
Defined.

(** The check of names lets through exactly the names that are non-empty,
    not a dot entry, at most 128 bytes, without spaces at the ends, and well
    formed UTF-8 without control characters, slashes, backslashes and the other
    excluded code points: no overlong form, surrogate or truncated sequence
    passes, and no valid name is refused. *)
Lemma safe_component_exact name :
  is_safe_cgroup_component name = true ↔ safe_name name.
Proof. apply is_safe_cgroup_component_spec. Qed.

(** ** Matching *)

(** C31: A match answered through the process cache is the match of the rules
    themselves for names without the separator character, whatever was matched
    before; the cache stays consistent and each of its buckets within its
    limit. *)
Theorem cached_match_transparent {R} `{!RegexEngine R} {W} `{!Kernel W} `{!StringHash}
    (m : ThreadMatcher R) p t st c main (s : MatcherState W) :
  cache_ok m s → cache_bounded s →
  wp (match_impl m p t st c main) (λ r s', cache_ok m s' ∧ cache_bounded s' ∧
    (plain p → plain t → plain c → r = match_spec m p t st c main)) s.
Proof.
  intros Ho Hb. eapply wp_mono; [apply wp_and; [by apply match_impl_correct|]|].
  { by apply match_impl_bounded. }
  intros r s' [[H1 H2] H3]. done.
Qed.

Lemma cached_match_transparent_witness :
  wp (match_impl game_matcher "com.game" "RenderThread" TOP "com.game" false) (λ r s',
    cache_ok game_matcher s' ∧ cache_bounded s'
    ∧ (plain "com.game" → plain "RenderThread" → plain "com.game" →
       r = match_spec game_matcher "com.game" "RenderThread" TOP "com.game" false))
    (MkMatcherState game_world ∅).
Proof.
  apply (cached_match_transparent game_matcher "com.game" "RenderThread" TOP "com.game" false
    (MkMatcherState game_world ∅)); intros b bucket Hb;
    cbn in Hb; discriminate (eq_trans (eq_sym (lookup_empty b)) Hb).
Defined.

(** Two rules, the first for a process whose name holds the separator's
    character. *)
Definition collision_rule (name regex : string) : ProcessRule := {|
  pr_name := name; pr_regex_str := regex; pr_pinned := false; pr_topfore := false;
  pr_thread_rules := [] |}.
Definition collision_matcher : ThreadMatcher Literal := new_matcher
  {| cfg_meta_name := EmptyString; cfg_meta_author := EmptyString;
     cfg_sched := {|
       sc_enable := true; sc_refresh_interval_ms := 2000; sc_highspeed_sched_ms := 300;
       sc_top_scan_budget_us := 4000; sc_full_scan_budget_us := 12000; sc_scan_batch_size := 32;
       sc_scan_batch_yield_us := 0; sc_case_insensitive := false; sc_timing := default_timing;
       sc_log := default_log; sc_cpumask := ∅; sc_affinity := ∅; sc_prio := ∅;
       sc_rules := [collision_rule "First" "a#"; collision_rule "Second" "a"] |};
     cfg_launcher_package := EmptyString |}.

(** For names that do hold the separator the cache can answer with another
    thread's match: after matching process "a#|#b", thread "c", the thread
    "b#|#c" of process "a" gets that rule instead of its own. *)
Lemma cache_key_collision :
  let first := match_impl collision_matcher "a#|#b" "c" TOP "x" false in
  let second := match_impl collision_matcher "a" "b#|#c" TOP "x" false in
  let start := MkMatcherState game_world ∅ in
  mr_matched_rule_name (second (first start).2).1 = "First"
  ∧ mr_matched_rule_name (second start).1 = "Second".
Proof. vm_compute. split; reflexivity. Qed.

(** C32: A positive match comes from one rule of the configuration: name,
    pinning and effective state are the rule's, and classes, limits and index
    are those of one of its thread rules (or empty, with index -1, when none
    applies). *)
Theorem match_comes_from_rule {R} `{!RegexEngine R} cfg proc_name thread_name actual_state
    cmdline main :
  Forall (λ r, Z.of_nat (length (pr_thread_rules r)) ≤ INT_MAX) (sc_rules (cfg_sched cfg)) →
  let r := match_spec (new_matcher cfg) proc_name thread_name actual_state cmdline main in
  mr_matched r = true →
  ∃ rule, rule ∈ sc_rules (cfg_sched cfg) ∧ result_of_rule rule actual_state r.
Proof. apply match_spec_source. Qed.

Lemma match_comes_from_rule_witness :
  mr_thread_rule_index (match_spec game_matcher "com.game" "RenderThread" TOP "com.game" false) = 0
  ∧ ∃ rule, rule ∈ sc_rules game_sched
      ∧ result_of_rule rule TOP
          (match_spec game_matcher "com.game" "RenderThread" TOP "com.game" false).
Proof.
  split; [vm_compute; reflexivity|].
  apply (match_comes_from_rule game_config "com.game" "RenderThread" TOP "com.game" false);
    [repeat constructor; cbn; unfold INT_MAX; lia|vm_compute; reflexivity].
Defined.

(** Under a well-formed configuration a match with a resolved mask always
    comes with a non-empty, strictly increasing list of CPUs within the
    system's limit and a mask name that is safe in a path. *)
Lemma resolved_affinity_has_cpus {R} `{!RegexEngine R} cfg proc_name thread_name st cmdline main :
  wf_sched (cfg_sched cfg) →
  let m := new_matcher cfg in
  let r := match_spec m proc_name thread_name st cmdline main in
  has_resolved_affinity r = true →
  wf_cpumask (mr_cpumask_name r)
    (get_cpus_for_affinity m (mr_affinity_class r) (mr_effective_state r)).
Proof. intros Hwf. by apply resolved_has_cpus. Qed.

Lemma resolved_affinity_has_cpus_witness :
  let r := match_spec game_matcher "com.game" "RenderThread" TOP "com.game" false in
  wf_cpumask (mr_cpumask_name r)
    (get_cpus_for_affinity game_matcher (mr_affinity_class r) (mr_effective_state r)).
Proof.
  apply (resolved_affinity_has_cpus game_config "com.game" "RenderThread" TOP "com.game" false).
  - apply game_sched_wf.
  - vm_compute. reflexivity.
Defined.

(** What [/HOME_PACKAGE/] expands to matches the launcher's package name
    and no other string: the escaping leaves no character of the name a
    metacharacter. *)
Lemma launcher_matches_exactly launcher :
  ∃ p, regex_compile (expand_process_regex "/HOME_PACKAGE/" launcher) false = Some p
    ∧ ∀ s, regex_search s p = Some (bool_decide (s = launcher)).
Proof. apply home_package_exact. Qed.

(** ** The thread cache *)

(** Updating a thread's entry stores the new match and touches no other
    entry; baseline, applied result and managed components survive exactly when
    process and thread start times are the same, and are dropped when the
    numbers were reused. *)
Lemma update_keeps_identity_state pid tid ps ts name cmd st r cb ub cache :
  let cache' := Cache.update pid tid ps ts name cmd st r cb ub cache in
  (∀ key, key ≠ (pid, tid) → cache' !! key = cache !! key)
  ∧ ∃ e, cache' !! (pid, tid) = Some e
    ∧ identity e = (ps, ts) ∧ tce_result e = r ∧ tce_thread_name e = name
    ∧ tce_cmdline e = cmd ∧ tce_actual_state e = st ∧ tce_cpuset_base e = cb
    ∧ tce_cpuctl_base e = ub
    ∧ match cache !! (pid, tid) with
      | Some old =>
          if decide (identity old = (ps, ts))
          then tce_baseline e = tce_baseline old ∧ tce_applied_result e = tce_applied_result old
               ∧ tce_managed_components e = tce_managed_components old
          else tce_baseline e = None ∧ tce_applied_result e = None
               ∧ tce_managed_components e = no_components
      | None => tce_baseline e = None ∧ tce_applied_result e = None
                ∧ tce_managed_components e = no_components
      end.
Proof. apply update_lookup. Qed.

(** The first value of each part of a baseline stays: neither storing a
    further baseline nor updating the match changes a part a thread's baseline
    already has, as long as the identity is the same; a part that was missing
    is taken from the further baseline. *)
Lemma first_baseline_wins pid tid b ps ts name cmd st r cb ub cache :
  baselines_kept cache (Cache.set_baseline pid tid b cache)
  ∧ baselines_kept cache (Cache.update pid tid ps ts name cmd st r cb ub cache)
  ∧ ∀ e, cache !! (pid, tid) = Some e →
      ∃ b', Cache.get_baseline pid tid (Cache.set_baseline pid tid b cache) = Some b'
        ∧ tb_has_affinity b' = from_option tb_has_affinity false (tce_baseline e) || tb_has_affinity b
        ∧ tb_has_scheduler b' =
            from_option tb_has_scheduler false (tce_baseline e) || tb_has_scheduler b
        ∧ tb_has_cpuset_path b' =
            from_option tb_has_cpuset_path false (tce_baseline e) || tb_has_cpuset_path b
        ∧ tb_has_cpuctl_path b' =
            from_option tb_has_cpuctl_path false (tce_baseline e) || tb_has_cpuctl_path b.
Proof.
  split; [apply set_baseline_kept|]. split; [apply update_baselines_kept|].
  intros e He. by apply set_baseline_parts.
Qed.

Lemma first_baseline_wins_witness :
  baselines_kept (env_cache game_managed)
    (Cache.set_baseline 100 101 game_baseline (env_cache game_managed)).
Proof.
  apply (proj1 (first_baseline_wins 100 101 game_baseline 0 0 EmptyString EmptyString TOP
    (no_match TOP) EmptyString EmptyString (env_cache game_managed))).
Defined.

(** The sweep after a scan drops exactly the entries that were in the
    cache, under the same identity, when the scan began, and whose process is
    gone or was replaced, or whose thread number was reused, or that were not
    seen and have nothing to restore; every other entry is kept as it is. *)
Lemma sweep_exact live_processes live_threads at_start cache key e :
  Cache.retain_live_threads live_processes live_threads at_start cache !! key = Some e ↔
  cache !! key = Some e ∧ ¬ droppable live_processes live_threads at_start key e.
Proof. apply retain_live_threads_lookup. Qed.

(** A reload of the configuration keeps every baseline and makes every
    lookup of a named thread miss, so that each thread is matched against the
    new rules before anything is applied. *)
Lemma reload_forgets_matches cache :
  let cache' := Cache.clear_scheduling_state_preserving_baselines cache in
  (∀ key, (cache' !! key ≫= tce_baseline) = (cache !! key ≫= tce_baseline))
  ∧ ∀ pid tid ps ts name cmd st, name ≠ EmptyString →
      Cache.lookup pid tid ps ts name cmd st cache' = None.
Proof.
  split; [apply clear_scheduling_state_baselines|]. intros. by apply reload_misses.
Qed.

(** The word hashed for a thread's key determines process and thread
    number: the 32-bit halves do not overlap, whatever the signs. *)
Lemma thread_key_injective k1 k2 :
  in_int k1.1 → in_int k1.2 → in_int k2.1 → in_int k2.2 →
  key_word k1 = key_word k2 → k1 = k2.
Proof. apply key_word_inj. Qed.

Lemma thread_key_injective_witness : key_word (-1, 101) = key_word (-1, 101) ∧ (-1, 101) = (-1, 101).
Proof.
  split; [reflexivity|].
  apply (thread_key_injective (-1, 101) (-1, 101)); try reflexivity; cbn; unfold in_int, INT_MIN,
    INT_MAX; lia.
Defined.
