(* ===== verification/SystemTheorems.v ===== *)
(** * What is proved of the file layer, the CPU lists, the event router and the
    worker's queue *)

From S2P Require Import Prelude CppString ConfigTypes Kernel SimKernel FileUtils FileFacts CpuMask.
From S2P Require Import ThreadMatcher ThreadCache Env ScanWorker EventRouter QueueFacts.
From S2P Require Import WorkerGuard Scenario.

(** ** Files *)

(** C39: The start time is recovered from the line the kernel prints in
    [/proc/<pid>/stat], for every command name, also one with spaces and
    parentheses. *)
Theorem start_time_recovered pid comm fields start rest :
  length fields = 19%nat → Forall plain_field fields → 0 ≤ start < UINT64_MOD →
  stat_tail rest →
  parse_start_time_from_stat (render_stat pid comm fields start rest) = start.
Proof. apply stat_roundtrip. Qed.

Lemma start_time_recovered_witness :
  parse_start_time_from_stat (render_stat "101" "a) (b) c" game_fields 5001 (chars " 0 0")) = 5001.
Proof.
  apply (start_time_recovered "101" "a) (b) c" game_fields 5001 (chars " 0 0")).
  - reflexivity.
  - unfold game_fields. apply Forall_replicate. split; cbn; set_solver.
  - unfold UINT64_MOD. lia.
  - right. exists (chars "0 0"). split; [reflexivity|]. cbn. set_solver.
Defined.

(** C37: Writing a file either fails to open it and does nothing more, or opens
    it, writes to that descriptor alone and closes it.  Short writes and
    interruptions are continued: every write offers exactly what is left of the
    content.  A write that transfers nothing, or an error, is the last one, and
    the failure is reported; failure is reported for no other reason.  And
    success is reported exactly when the whole content was transferred. *)
Theorem control_write_complete {W} `{!Kernel W} `{!KernelLaws W} path content create
    (s : Sys (Traced W)) :
  wp (write_open_file path content create) (λ ok s',
    (ok = false ∧ tr_calls (sys_world s') = KOpen path create None :: tr_calls (sys_world s))
    ∨ ∃ fd calls,
        tr_calls (sys_world s') =
          KClose fd :: rev calls ++ KOpen path create (Some fd) :: tr_calls (sys_world s)
        ∧ (∀ pre c post, calls = pre ++ c :: post →
             (∃ r, c = KWrite fd (drop (length (transferred pre)) (chars content)) r)
             ∧ (refused c = true → post = [] ∧ ok = false))
        ∧ (ok = false → ∃ pre c, calls = pre ++ [c] ∧ refused c = true)
        ∧ transferred calls `prefix_of` chars content
        ∧ (ok = true ↔ transferred calls = chars content)) s.
Proof.
  eapply wp_mono; [apply write_open_file_spec|].
  intros ok s' [?|(fd & calls & Htr & [Ho Hg Hf Hp Hs])]; [by left|right].
  exists fd, calls. split_and!; [done| |done..]. intros pre c post Heq.
  split; [by apply (Ho pre c post)|by apply (Hg pre c post)].
Qed.

Lemma control_write_complete_witness :
  wp (write_open_file "/dev/cpuset/top-app/tasks" "101" false) (λ ok s',
    (ok = false ∧ tr_calls (sys_world s') = [KOpen "/dev/cpuset/top-app/tasks" false None])
    ∨ ∃ fd calls,
        tr_calls (sys_world s') =
          KClose fd :: rev calls ++ [KOpen "/dev/cpuset/top-app/tasks" false (Some fd)]
        ∧ (∀ pre c post, calls = pre ++ c :: post →
             (∃ r, c = KWrite fd (drop (length (transferred pre)) (chars "101")) r)
             ∧ (refused c = true → post = [] ∧ ok = false))
        ∧ (ok = false → ∃ pre c, calls = pre ++ [c] ∧ refused c = true)
        ∧ transferred calls `prefix_of` chars "101"
        ∧ (ok = true ↔ transferred calls = chars "101")) (init_sys (Tr game_world [])).
Proof.
  apply (control_write_complete "/dev/cpuset/top-app/tasks" "101" false
    (init_sys (Tr game_world []))).
Defined.

(** C38: The file cache evicts by least recent use: storing a file keeps the
    cache's invariant (list and index agree, entries within the limit) and
    moves its path to the end of the order of use, dropping the oldest path
    when the cache is full and the path new. *)
Theorem file_cache_lru c p content now :
  lru_wf c →
  lru_wf (store_file_cache_entry p content now c)
  ∧ recency (store_file_cache_entry p content now c) = store_path p (recency c).
Proof. apply store_lru. Qed.

Lemma file_cache_lru_witness :
  lru_wf empty_file_cache
  ∧ lru_wf (store_file_cache_entry "/a" "x" 7 empty_file_cache)
  ∧ recency (store_file_cache_entry "/a" "x" 7 empty_file_cache) = store_path "/a" [].
Proof.
  assert (lru_wf empty_file_cache) as H by apply empty_file_cache_wf.
  split; [exact H|]. apply (file_cache_lru empty_file_cache "/a" "x" 7 H).
Defined.

(** Invalidating a process removes exactly the cgroup entries of that
    process and of its threads, by the process number packed into the key. *)
Lemma invalidation_exact {W} pid tid controller (s : Sys W) :
  is_valid_pid pid = true → is_valid_tid tid = true →
  let s' := (invalidate_process_caches pid s).2 in
  sys_cgroup_cache s' !! (process_cgroup_key pid, controller) = None
  ∧ sys_cgroup_cache s' !! (thread_cgroup_key pid tid, controller) = None
  ∧ ∀ other key, is_valid_pid other = true → other ≠ pid →
      (key = process_cgroup_key other
       ∨ ∃ t, is_valid_tid t = true ∧ key = thread_cgroup_key other t) →
      sys_cgroup_cache s' !! (key, controller) = sys_cgroup_cache s !! (key, controller).
Proof.
  intros Hp Ht s'. unfold s'. rewrite !invalidated_lookup by done. cbn [fst].
  rewrite process_key_pid, thread_key_pid, !decide_True by done. split; [done|]. split; [done|].
  intros other key Ho Hne Hkey. rewrite invalidated_lookup by done. cbn [fst].
  rewrite decide_False; [done|].
  destruct Hkey as [->|(t & Hv & ->)]; [rewrite process_key_pid|rewrite thread_key_pid]; done.
Qed.

Lemma invalidation_exact_witness :
  sys_cgroup_cache (invalidate_process_caches 100 (init_sys game_world)).2
    !! (process_cgroup_key 100, "cpuset") = None.
Proof.
  apply (invalidation_exact 100 101 "cpuset" (init_sys game_world)); vm_compute; reflexivity.
Defined.

(** ** CPU lists *)

(** C40: The allowed list of a thread is recovered from its [status] file: the
    ranges the module prints for a set of CPUs parse back to that set, wherever
    the line stands. *)
Theorem allowed_list_recovered cpus before after :
  StronglySorted Z.lt cpus → Forall (λ c, 0 ≤ c < CPU_SETSIZE) cpus →
  Forall (λ l, starts_with "Cpus_allowed_list" (str l) = false) before →
  allowed_list (before ++ allowed_line cpus :: after) = cpus.
Proof. apply CpuMask.allowed_list_roundtrip. Qed.

Lemma allowed_list_recovered_witness :
  allowed_list ([chars "Name:"] ++ allowed_line [0; 1; 2; 5; 7] :: []) = [0; 1; 2; 5; 7].
Proof.
  apply (allowed_list_recovered [0; 1; 2; 5; 7] [chars "Name:"] []).
  - repeat constructor; lia.
  - repeat constructor; unfold CPU_SETSIZE; lia.
  - repeat constructor.
Defined.

(** Where the kernel reports a thread's affinity, the drift check says
    "unchanged" exactly when the allowed CPUs are the expected ones. *)
Lemma affinity_drift_exact {W} `{!Kernel W} tid expected (s : Sys W) set w :
  expected ≠ [] → Forall (λ c, 0 ≤ c < CPU_SETSIZE) expected →
  k_sched_getaffinity tid (sys_world s) = (Some set, w) → 0 ≤ set < 2 ^ CPU_SETSIZE →
  wp (is_affinity_changed tid expected) (λ changed _,
    changed = false ↔ ∀ c, 0 ≤ c → CPU_ISSET c set = true ↔ c ∈ expected) s.
Proof. apply is_affinity_changed_spec. Qed.

Lemma affinity_drift_exact_witness :
  wp (is_affinity_changed 101 [0; 1; 2]) (λ changed _,
    changed = false ↔ ∀ c, 0 ≤ c → CPU_ISSET c 255 = true ↔ c ∈ [0; 1; 2]) (init_sys game_world).
Proof.
  apply (affinity_drift_exact 101 [0; 1; 2] (init_sys game_world) 255 game_world).
  - discriminate.
  - repeat constructor; unfold CPU_SETSIZE; lia.
  - vm_compute. reflexivity.
  - split; [lia|]. vm_compute. reflexivity.
Defined.

(** ** The event router *)

(** At most [kMaxPendingEvents] processes wait in the router, whatever
    order events, wake-ups, deliveries, starts and stops come in. *)
Lemma pending_events_bounded r :
  reachable r → (size (er_pending r) ≤ kMaxPendingEvents)%nat.
Proof. apply pending_bounded. Qed.

Lemma pending_events_bounded_witness :
  (size (er_pending (add_event 7 true (EventRouter.start new_router))) ≤ kMaxPendingEvents)%nat.
Proof.
  apply pending_events_bounded.
  apply (reach_step (EventRouter.start new_router) None); [|apply step_event].
  apply (reach_step new_router None); [apply reach_init|apply step_start].
Defined.

(** C35: As long as no event was refused, the events and the batches tell the
    same story: the client that applies the delivered sets to its own set of
    processes agrees with the router's, and a process is alive by the events
    exactly when the router has it pending as created or, without a pending
    event, tracked. *)
Theorem router_and_client_agree r alive known lossless :
  observed r alive known lossless →
  known = er_tracked r ∧ (lossless = true → ∀ p, p ∈ alive ↔ believed r p = true).
Proof. apply observed_inv. Qed.

Lemma router_and_client_agree_witness :
  er_tracked (collect (add_event 7 true (EventRouter.start new_router))).2 = {[7]}
  ∧ ∅ = er_tracked (add_event 7 true (EventRouter.start new_router))
  ∧ (true = true → ∀ p, p ∈ ({[7]} ∪ ∅ : gset Z) ↔
       believed (add_event 7 true (EventRouter.start new_router)) p = true).
Proof.
  split; [vm_compute; reflexivity|].
  apply (router_and_client_agree _ ({[7]} ∪ ∅) ∅ true).
  apply (obs_event (EventRouter.start new_router) ∅ ∅ true 7 true);
    [apply obs_start|reflexivity|lia].
Defined.

(** C36: An event that is refused because the batch is full is not lost
    silently: the next batch is delivered and says that events were dropped. *)
Theorem refused_events_reported r pid c :
  er_running r = true → 0 < pid → refuses r pid = true →
  let r' := add_event pid c r in
  er_dropped r' = true ∧ b_dropped (collect r').1 = true ∧ delivers (collect r').1 = true.
Proof. apply refused_reported. Qed.

(** A router with a full batch. *)
Definition full_router : EventRouter := {|
  er_running := true;
  er_pending := list_to_map ((λ p, (p, {| pe_is_create := true; pe_saw_delete := false |})) <$>
                  seqZ 1 4096);
  er_dropped := false; er_tracked := ∅; er_phase := Throttling |}.

Lemma refused_events_reported_witness :
  let r' := add_event 5000 true full_router in
  er_dropped r' = true ∧ b_dropped (collect r').1 = true ∧ delivers (collect r').1 = true.
Proof.
  apply (refused_events_reported full_router 5000 true);
    [reflexivity|lia|vm_compute; reflexivity].
Defined.

(** ** The worker's queue and pacing *)

(** C33: A running worker's queue is a queue of tasks in order of arrival with
    one task per thread identity: [enqueue] appends a new identity, replaces
    the task of a waiting one in place, and refuses when full; taking a task
    removes the oldest.  The representation (keys and pending tasks) keeps its
    invariant. *)
Theorem queue_refines_ordered_map task q :
  queue_wf q →
  (Queue.wq_running q = true →
   let '(r, q') := Queue.enqueue task q in
   queue_wf q' ∧ Queue.wq_running q' = true ∧ spec_enqueue task (abs_queue q) = (r, abs_queue q'))
  ∧ let '(t, q') := Queue.take_task q in
    queue_wf q' ∧ spec_take (abs_queue q) = (t, abs_queue q').
Proof. intros Hq. split; [intros; by apply enqueue_refines|by apply take_refines]. Qed.

(** A worker that runs and has a task. *)
Definition busy_worker : Queue.WorkerQueue :=
  (Queue.enqueue game_task (Queue.start Queue.new_worker)).2.

Lemma queue_refines_ordered_map_witness :
  (Queue.take_task busy_worker).1 = Some game_task
  ∧ (let '(r, q') := Queue.enqueue (other_task 102) busy_worker in
     queue_wf q' ∧ Queue.wq_running q' = true
     ∧ spec_enqueue (other_task 102) (abs_queue busy_worker) = (r, abs_queue q'))
  ∧ let '(t, q') := Queue.take_task busy_worker in
    queue_wf q' ∧ spec_take (abs_queue busy_worker) = (t, abs_queue q').
Proof.
  assert (queue_wf busy_worker) as Hwf.
  { pose proof (enqueue_refines game_task (Queue.start Queue.new_worker)) as Hq.
    by apply Hq; [apply start_worker_wf|]. }
  split; [by vm_compute|]. split; [|by apply (queue_refines_ordered_map (other_task 102))].
  by apply (queue_refines_ordered_map (other_task 102)).
Defined.

(** C34: After a task of a thread ran at [now], the next task of the same
    thread is skipped at [now'] only when its state is the same and less than
    the minimal interval has passed: a change of state is never delayed.  And it
    is skipped then, unless more than the cleanup interval has passed.  In
    between, the worker may have come to any tasks of other threads and asked
    for any cgroup checks, with the cleanups these cause, and may have skipped
    tasks of the thread. *)
Theorem same_state_runs_spaced `{!IntHash} timing task task' now now' calls s s' :
  0 ≤ schedule_cleanup_interval_ms timing → now ≤ now' →
  should_skip_schedule timing task now s = (false, s') → task_key task' = task_key task →
  Forall (λ c, now ≤ call_time c ≤ now') calls → idle_during timing (task_key task) calls s' →
  let '(skip, _) :=
    should_skip_schedule timing task' now' (fold_left (apply_call timing) calls s') in
  (skip = true →
     dt_state task' = dt_state task ∧ to_ms (now' - now) < min_schedule_interval_ms timing)
  ∧ (dt_state task' = dt_state task → to_ms (now' - now) < min_schedule_interval_ms timing →
     to_ms (now' - now) ≤ schedule_cleanup_interval_ms timing → skip = true).
Proof. intros Hc. by apply later_run_throttled. Qed.

(** Calls between two tasks of a thread. *)
Definition between_calls : list pacing_call :=
  [ComeTo (other_task 102) 6; AskCheck game_task 7; ComeTo game_task 8; AskCheck (other_task 102) 9].

Lemma same_state_runs_spaced_witness :
  let s' := (should_skip_schedule default_timing game_task 5 init_schedule).2 in
  let '(skip, _) := should_skip_schedule default_timing game_task 10
                      (fold_left (apply_call default_timing) between_calls s') in
  (skip = true → dt_state game_task = dt_state game_task
     ∧ to_ms (10 - 5) < min_schedule_interval_ms default_timing)
  ∧ (dt_state game_task = dt_state game_task →
     to_ms (10 - 5) < min_schedule_interval_ms default_timing →
     to_ms (10 - 5) ≤ schedule_cleanup_interval_ms default_timing → skip = true).
Proof.
  apply (same_state_runs_spaced default_timing game_task game_task 5 10 between_calls init_schedule);
    [cbn; lia|lia|vm_compute; reflexivity|reflexivity| |].
  - repeat constructor; cbn; lia.
  - vm_compute. repeat split; congruence.
Defined.

(** The proviso is needed: a configuration may set the cleanup interval below
    the minimal interval, and then a busy worker forgets the run in between, and
    the thread runs again in the same state after 200 of 60000 milliseconds. *)
Definition hasty_cleanup : TimingConfig :=
  {| event_throttle_ms := 50; min_schedule_interval_ms := 60000;
     schedule_cleanup_interval_ms := 100; cgroup_check_interval_ms := 1000;
     cpuset_retry_count := 3; cpuset_retry_interval_ms := 10; cpuset_group_check_ttl_ms := 1000;
     process_cache_ttl_ms := 100; file_cache_ttl_ms := 100; cgroup_cache_ttl_ms := 100;
     monitor_initial_restart_delay_s := 1; monitor_restart_retry_delay_s := 5;
     config_retry_initial_delay_s := 1; config_retry_max_delay_s := 5 |}.
Lemma spacing_lost_by_cleanup :
  let calls := (λ n, ComeTo (other_task (Z.of_nat n)) 150000000) <$> seq 1000 499 in
  let s' := (should_skip_schedule hasty_cleanup game_task 0 init_schedule).2 in
  (should_skip_schedule hasty_cleanup game_task 200000000
     (fold_left (apply_call hasty_cleanup) calls s')).1 = false.
Proof. vm_compute. reflexivity. Qed.

(** The cgroup check of a thread is first due within one interval of the
    thread being seen, at a point its identity spreads, and from then on due
    checks are at least one interval apart. *)
Lemma cgroup_checks_spaced `{!IntHash} timing task now now' s :
  0 ≤ schedule_cleanup_interval_ms timing →
  0 < cgroup_check_interval_ms timing < UINT64_MOD →
  (next_cgroup_check_time s !! task_key task = None →
   let '(due, s') := should_check_cgroup timing task now s in
   ∃ t, next_cgroup_check_time s' !! task_key task = Some t
     ∧ now ≤ t < now + cgroup_check_interval_ms timing * 1000000
     ∧ (due = true ↔ t = now))
  ∧ ∀ s' t, next_cgroup_check_time s !! task_key task = Some t →
    should_check_cgroup timing task now s = (true, s') →
    now' < now + cgroup_check_interval_ms timing * 1000000 →
    should_check_cgroup timing task now' s' = (false, s').
Proof.
  intros Hc Hi. split; [by apply first_check|]. intros s' t. apply check_spacing; [done|lia].
Qed.

Lemma cgroup_checks_spaced_witness :
  let '(due, s') := should_check_cgroup default_timing game_task 5 init_schedule in
  ∃ t, next_cgroup_check_time s' !! task_key game_task = Some t
    ∧ 5 ≤ t < 5 + cgroup_check_interval_ms default_timing * 1000000 ∧ (due = true ↔ t = 5).
Proof.
  apply (proj1 (cgroup_checks_spaced default_timing game_task 5 6 init_schedule
    ltac:(cbn; lia) ltac:(unfold UINT64_MOD; cbn; lia))).
  reflexivity.
Defined.
