(* ===== verification/ScanTheorems.v ===== *)
(** * What is proved of scanning and dispatching

    Theorems on the full scan, the dispatching of threads to the workers and
    the scheduling pass, each with an instance on the small device. *)

From S2P Require Import Prelude CppString ConfigTypes Kernel SimKernel FileUtils FileFacts.
From S2P Require Import ThreadMatcher LiteralRegex ThreadCache Env Tracing ScanWorker ScanCursor.
From S2P Require Import Dispatch FullScan ScanCycle ScanFacts WorkerGuard DispatchFacts.
From S2P Require Import FullScanFacts CycleFacts Scenario ScanScenario.

(** C9: Whatever set of processes a pass goes through, and wherever it stops,
    each task in a queue afterwards was there before, or is a new one: it is in
    the queue its identity selects, for a thread of one of the processes that
    was not dispatched before in the cycle and now counts as dispatched, in the
    state of the pass, with a name that is not that of a dead thread, and in
    this pass the start time of the thread and then that of the process were
    read as the task has them. *)
Theorem dispatched_tasks_verified {W} `{!Kernel W} `{!KernelScan W} `{!IntHash}
    pids state base p (m : Main (Traced W)) :
  wp (dispatch_pids_to_workers pids state base p) (λ r m',
    pg_processed p ⊆ pg_processed r.2
    ∧ ∀ i q key task, mn_workers m' !! i = Some q → Queue.wq_pending q !! key = Some task →
        (∃ q0, mn_workers m !! i = Some q0 ∧ Queue.wq_pending q0 !! key = Some task)
        ∨ key = task_key task ∧ i = worker_index task (length (mn_workers m))
          ∧ made_for pids state base task
          ∧ dt_tid task ∈ pg_processed r.2 ∖ pg_processed p
          ∧ ∃ new, main_trace m' = new ++ main_trace m ∧ identity_verified task new) m.
Proof.
  eapply wp_mono; [apply dispatch_pids_spec|]. intros r m' [Hd _ _ Ht]. by split.
Qed.

Definition dispatch_start : Main (Traced ScanSim) := (new_budget 4000 32 0 scan_start).2.
Definition dispatch_game : M (Main (Traced ScanSim)) (bool * Progress) :=
  dispatch_pids_to_workers {[100]} TOP "/dev/cpuset" (at_cursor empty_cursor ∅).

Lemma dispatched_tasks_verified_witness :
  pending_tasks (dispatch_game dispatch_start).2 = [(100, 101, TOP); (100, 100, TOP)]
  ∧ wp dispatch_game (λ r m',
      ∅ ⊆ pg_processed r.2
      ∧ ∀ i q key task, mn_workers m' !! i = Some q → Queue.wq_pending q !! key = Some task →
          (∃ q0, mn_workers dispatch_start !! i = Some q0
                 ∧ Queue.wq_pending q0 !! key = Some task)
          ∨ key = task_key task ∧ i = worker_index task (length (mn_workers dispatch_start))
            ∧ made_for {[100]} TOP "/dev/cpuset" task
            ∧ dt_tid task ∈ pg_processed r.2 ∖ ∅
            ∧ ∃ new, main_trace m' = new ++ main_trace dispatch_start
                     ∧ identity_verified task new) dispatch_start.
Proof.
  split; [by vm_compute|].
  exact (dispatched_tasks_verified {[100]} TOP "/dev/cpuset" (at_cursor empty_cursor ∅)
    dispatch_start).
Defined.

(** C10: Every task waits in the queue that its identity selects: a scheduling
    pass, whether it scans, dispatches or does both, keeps it so; and then no
    two workers hold a task of the same thread identity, so that a thread is
    never processed by two workers at once. *)
Theorem one_worker_per_thread {R W} `{!RegexEngine R} `{!StringHash} `{!Kernel W}
    `{!KernelScan W} `{!IntHash} (matcher : ThreadMatcher R) sched c (m : Main (Traced W)) :
  routed m →
  wp (scheduling_pass matcher sched c) (λ _ m',
    routed m'
    ∧ ∀ i j qi qj key ti tj, mn_workers m' !! i = Some qi → mn_workers m' !! j = Some qj →
        Queue.wq_pending qi !! key = Some ti → Queue.wq_pending qj !! key = Some tj → i = j) m.
Proof.
  intros Hm. eapply wp_mono; [by apply (scheduling_pass_routed matcher sched)|].
  intros c' m' Hr. split; [done|]. intros i j qi qj key ti tj. by apply routed_one_worker.
Qed.

Lemma scan_start_routed : routed scan_start.
Proof.
  intros i q key task Hq Hk. apply lookup_replicate in Hq as [-> _].
  cbn in Hk. by rewrite lookup_empty in Hk.
Qed.

Lemma one_worker_per_thread_witness :
  wp (scheduling_pass game_matcher game_sched first_cycle) (λ _ m',
    routed m'
    ∧ ∀ i j qi qj key ti tj, mn_workers m' !! i = Some qi → mn_workers m' !! j = Some qj →
        Queue.wq_pending qi !! key = Some ti → Queue.wq_pending qj !! key = Some tj → i = j)
    scan_start.
Proof. apply (one_worker_per_thread game_matcher game_sched). apply scan_start_routed. Defined.

(** C11: However many passes a scan takes, and whatever the system does between
    and during them, what it has found agrees: the live processes are those with
    an observed state, at the same start time; a process is in the top app's or
    the foreground set exactly when that is its state, and in the background
    set only then; rules and threads are kept only of live processes; none of
    them counts as dead; and all are among the processes already looked at. *)
Theorem scan_findings_agree {R W} `{!RegexEngine R} `{!StringHash} `{!Kernel W}
    `{!KernelScan W} (matcher : ThreadMatcher R) s :
  scanned (W := W) matcher s →
  let f := fs_found s in
  live_processes f = fst <$> observed_states f
  ∧ (∀ pid, pid ∈ top_app_pids f ↔ ∃ start, observed_states f !! pid = Some (start, TOP))
  ∧ (∀ pid, pid ∈ foreground_pids f ↔ ∃ start, observed_states f !! pid = Some (start, FG))
  ∧ (∀ pid, pid ∈ background_pids f → ∃ start, observed_states f !! pid = Some (start, BG))
  ∧ pinned_pids f ∪ topfore_pids f ⊆ dom (live_processes f)
  ∧ (∀ pid tid, is_Some (live_threads f !! (pid, tid)) → pid ∈ dom (live_processes f))
  ∧ dead_pids f ## dom (live_processes f)
  ∧ (∀ pid, pid ∈ dom (live_processes f) ∪ dead_pids f →
       pid ∈ take (S (fs_pid_index s)) (fs_pids s)).
Proof.
  intros Hs f. pose proof (scanned_consistent matcher s Hs) as [[? ? ? ? ? ? ? ?] _ _ _ Hseen _].
  split_and!; try done; [set_solver|]. intros pid Hin. specialize (Hseen pid Hin). unfold seen in Hseen.
  destruct (_ =? 0); [|done]. rewrite elem_of_take in *.
  destruct Hseen as (i & Hi & Hlt). exists i. split; [done|lia].
Qed.

Definition game_scan_begun : FullScanState := (begin_scan ∅ new_full_scan dispatch_start).1.
Definition game_scanned : FullScanState :=
  (advance_full_scan game_matcher game_scan_begun dispatch_start).1.2.

Lemma scan_findings_agree_witness :
  elements (top_app_pids (fs_found game_scanned)) = [100]
  ∧ map_to_list (live_processes (fs_found game_scanned)) = [(100, 5000)]
  ∧ live_processes (fs_found game_scanned) = fst <$> observed_states (fs_found game_scanned).
Proof.
  split; [by vm_compute|]. split; [by vm_compute|].
  apply (scan_findings_agree (W := Traced ScanSim) game_matcher game_scanned).
  apply scanned_advance, scanned_begin.
Defined.

(** C12: The loops of a scan end by themselves: when the clock is read only
    finitely often before the deadline of the budget, the enumeration of a
    directory and the loop over the processes stop because the stream, the
    processes or the budget are used up, whatever the directory streams and
    /proc do meanwhile. *)
Theorem scan_loops_end {R W} `{!RegexEngine R} `{!StringHash} `{!Kernel W} `{!KernelScan W}
    `{!ScanLaws W} (matcher : ThreadMatcher R) dir ids s (m : Main W) :
  (read_entries (stream_fuel m) dir ids m).1.1 ≠ OutOfFuel
  ∧ (scan_processes (stream_fuel m) matcher s m).1.1 ≠ ScanFuel.
Proof. split; [apply read_entries_ends|apply scan_processes_ends]. Qed.

Definition endless : ScanSim :=
  MkScanSim (ss_sim scan_world) (ss_listing scan_world) {[3 := replicate 100 "100"]} 4.
Definition short_start : Main ScanSim :=
  MkMain (init_sys endless) ∅ ∅ four_workers
    {| bd_deadline := 1000050000; bd_batch_size := 1; bd_batch_yield_us := 0;
       bd_thread_reads := 0 |} true.

Lemma scan_loops_end_witness :
  (read_entries (stream_fuel short_start) 3 [] short_start).1.1 ≠ OutOfFuel
  ∧ (scan_processes (stream_fuel short_start) game_matcher new_full_scan short_start).1.1
    ≠ ScanFuel.
Proof. apply (scan_loops_end game_matcher). Defined.


