(* ===== verification/InitTheorems.v ===== *)
(** * Properties of the initialisation of the cgroups *)

From S2P Require Import Prelude CppString ConfigTypes ConfigParser Kernel FileUtils FileFacts CpuMask.
From S2P Require Import CgroupInit CgroupFacts ThreadMatcher LiteralRegex ScanWorker Scenario CgroupScenario.

(** C14: When the groups of a configuration cannot all be set up and the
    roll-back reports success, every control file that could be read before
    shows what it showed before: whichever group or limit failed, and whichever
    files were written until then.  Only the files of cpuset groups that were
    not usable at the start are exempt, which have no values to go back to. *)
Theorem failed_init_rolls_back {W} `{!Kernel W} `{!ControlView W} config (s : Sys W) p c :
  shows s p = Some c → ¬ released s p →
  wp (init_outcome config) (λ r s', r = (false, true) → shows s' p = Some c) s.
Proof.
  intros Hp Hr. eapply wp_mono; [apply init_outcome_spec|]. intros r s' [H _] ->. by apply H.
Qed.

Lemma failed_init_rolls_back_witness :
  (init_outcome game_config broken_boot).1 = (false, true)
  ∧ wp (init_outcome game_config) (λ r s', r = (false, true) →
      shows s' "/dev/cpuset/top-app/ReUperf_big/cpus" = Some "4-5") broken_boot.
Proof.
  split; [by vm_compute|]. apply (failed_init_rolls_back game_config broken_boot).
  - by vm_compute.
  - intros (name & Hu & f & Hf & H). apply (group_file_inj "big" name "cpus" f) in H as [<- _];
      [|set_solver|done]. destruct Hu as [Hu|Hu]; by vm_compute in Hu.
Defined.

(** C15: When the initialisation succeeds on a well-formed configuration that
    moves threads between CPUs, the group of every CPU mask has the CPUs of the
    mask and the memory nodes of the parent group: a later write to another
    group or limit does not undo it. *)
Theorem init_configures_groups {W} `{!Kernel W} `{!ControlView W} `{!CpuListView W} config (s : Sys W) :
  wf_sched (cfg_sched config) → requires_cpuset config = true →
  wp (init config) (λ ok s', ok = true →
    ∃ mems, shows s (cpuset_parent_path +:+ "/mems") = Some mems
      ∧ ∀ name cpus, sc_cpumask (cfg_sched config) !! name = Some cpus →
          shows s' (cpuset_group_path name +:+ "/cpus") = Some (cpus_to_string cpus)
          ∧ shows s' (cpuset_group_path name +:+ "/mems") = Some mems) s.
Proof.
  intros Hwf Hreq. unfold init. wp_step. eapply wp_mono; [apply init_outcome_spec|].
  intros [ok r] s' [_ Hset]. wp_step. intros ->.
  destruct (Hset eq_refl Hreq) as (mems & Hm & Hall). exists mems. split; [exact Hm|].
  intros name cpus Hl. apply Hall; [done|].
  destruct (wf_masks _ Hwf name cpus Hl) as [_ Hne Hs Hr]. by apply ctl_cpu_list.
Qed.

Lemma init_configures_groups_witness :
  (init game_config boot).1 = true
  ∧ wp (init game_config) (λ ok s', ok = true →
      ∃ mems, shows boot (cpuset_parent_path +:+ "/mems") = Some mems
        ∧ ∀ name cpus, sc_cpumask (cfg_sched game_config) !! name = Some cpus →
            shows s' (cpuset_group_path name +:+ "/cpus") = Some (cpus_to_string cpus)
            ∧ shows s' (cpuset_group_path name +:+ "/mems") = Some mems) boot.
Proof.
  split; [by vm_compute|]. apply (init_configures_groups game_config boot); [|by vm_compute].
  apply game_sched_wf.
Defined.
