(* ===== verification/ReloadTheorems.v ===== *)
(** * Properties of the running daemon

    Start, reload, the events of processes and of the configuration file, the
    launcher, and the restoration at shutdown. *)

From S2P Require Import Prelude CppString ConfigTypes Json ConfigParser ConfigRoundtrip Kernel SimKernel.
From S2P Require Import Inotify FileUtils FileFacts ConfigWatch CpuMask CgroupInit ThreadMatcher.
From S2P Require Import LiteralRegex ThreadCache Env Setters Tracing SetterFacts ScanWorker ScanCursor.
From S2P Require Import LauncherFinder LauncherFacts Dispatch FullScan ScanCycle EventRouter ProcMonitor.
From S2P Require Import WorkerGuard WorkerFacts WorkerEffects Restoration RetryFacts Reload ReloadFacts.
From S2P Require Import MainLoop MainFacts DaemonFacts Scenario ScanScenario DaemonScenario.

(** ** The runs of the scenario *)

Definition is_started (r : Z + Daemon Literal Device) : bool :=
  match r with inr _ => true | inl _ => false end.
Lemma boot_reachable threads :
  is_started (boot_daemon threads) = true →
  daemon_reachable device_json config_file (some_daemon (boot_daemon threads)).
Proof.
  intros Hb. apply (dr_start _ _ (init_sys (device threads))). fold (boot_daemon threads).
  by destruct (boot_daemon threads).
Qed.
Lemma booted_reachable : daemon_reachable device_json config_file booted.
Proof. apply boot_reachable. by vm_compute. Qed.
Lemma scarce_reachable : daemon_reachable device_json config_file scarce.
Proof. apply boot_reachable. by vm_compute. Qed.
Lemma round_reachable d :
  daemon_reachable device_json config_file d → daemon_reachable device_json config_file (round d).
Proof. intros Hd. eapply dr_step; [exact Hd|]. apply (ds_round _ _ _ false). Qed.
Lemma edited_reachable text d :
  daemon_reachable device_json config_file d →
  daemon_reachable device_json config_file (edited text d).
Proof. intros Hd. eapply dr_step; [exact Hd|]. unfold edited. apply ds_world. Qed.
Lemma settled_down_reachable : daemon_reachable device_json config_file settled_down.
Proof. apply round_reachable, booted_reachable. Qed.

(** ** Reloading *)

(** C3: A reload is all or nothing.  Whatever fails on the way, the daemon goes
    on with one configuration, the matcher compiled from it and, as long as it
    runs, four running workers.  An attempt that does not succeed leaves the
    configuration, the matcher and the throttle as they were.  An attempt that
    succeeds has parsed what the file at the path held when it began.  When that
    configuration enables the scheduler, it is the one in use, with the launcher
    found after the reading; no baseline or cached match of the old one is left,
    and the scan starts over.  When it disables the scheduler, the daemon stops
    with the old one. *)
Theorem reload_all_or_nothing {J R W} `{!Json J} `{!RegexEngine R} `{!StringHash} `{!Kernel W}
    `{!KernelWatch W} `{!KernelScan W} `{!KernelProcess W} `{!KernelThreads W}
    (json_parse : string → option J) path (d : Daemon R W) :
  serving d → keyed (mn_cache (dm_main d)) →
  wp (attempt_reload json_parse path) (λ ok d',
    let read := read_config json_parse path d in
    serving d'
    ∧ (ok = false → kept d d' ∧ dm_detection d' = dm_detection d)
    ∧ (ok = true → cpr_success read = true
       ∧ if sc_enable (cfg_sched (cpr_config read))
         then replaced (with_launcher (read_launcher path d) (cpr_config read)) d'
         else kept d d' ∧ dm_running d' = false)) d.
Proof. apply attempt_spec. Qed.

Lemma reload_all_or_nothing_witness :
  (attempt_reload device_json config_file (edited "quick" settled_down)).1 = true
  ∧ (attempt_reload device_json config_file (edited "quick" scarce)).1 = false
  ∧ wp (attempt_reload device_json config_file) (λ ok d',
    let read := read_config device_json config_file (edited "quick" settled_down) in
    serving d'
    ∧ (ok = false → kept (edited "quick" settled_down) d' ∧ dm_detection d' = dm_detection (edited "quick" settled_down))
    ∧ (ok = true → cpr_success read = true
       ∧ if sc_enable (cfg_sched (cpr_config read))
         then replaced (with_launcher (read_launcher config_file (edited "quick" settled_down)) (cpr_config read)) d'
         else kept (edited "quick" settled_down) d' ∧ dm_running d' = false))
    (edited "quick" settled_down).
Proof.
  split; [by vm_compute|]. split; [by vm_compute|].
  assert (daemon_inv (edited "quick" settled_down)) as [Hs [Hk _] _ _]
    by (eapply reachable_inv, edited_reachable, settled_down_reachable).
  by apply (reload_all_or_nothing device_json config_file (edited "quick" settled_down)).
Defined.

(** C2: Whatever order the rounds of the main loop, the tasks of the workers, the
    process events and the batches of the router come in, and whatever happens
    outside: the daemon works with one well-formed configuration and the matcher
    compiled from it; as long as it runs, its four workers do; every entry of
    the thread cache that records its policy, group or CPUs as managed holds the
    part of the baseline that gives them back (a batch that announces the
    process as new, reused or gone drops the entry as a whole); and the delay of
    a failed configuration is within its limits. *)
Theorem daemon_invariant {J R W} `{!Json J} `{!RegexEngine R} `{!StringHash} `{!IntHash} `{!Kernel W}
    `{!KernelWatch W} `{!KernelScan W} `{!KernelProcess W} `{!KernelThreads W}
    (json_parse : string → option J) path (d : Daemon R W) :
  daemon_reachable json_parse path d →
  serving d
  ∧ keyed (mn_cache (dm_main d)) ∧ restorable (mn_cache (dm_main d))
  ∧ wf_sched (sched_of d)
  ∧ delay_in (sc_timing (sched_of d)) (dm_detection d).
Proof. intros [H1 [H2 H3] H4 H5]%reachable_inv. by split_and!. Qed.

Lemma daemon_invariant_witness :
  sc_highspeed_sched_ms (sched_of reloaded) = 100
  ∧ (serving reloaded
     ∧ keyed (mn_cache (dm_main reloaded)) ∧ restorable (mn_cache (dm_main reloaded))
     ∧ wf_sched (sched_of reloaded)
     ∧ delay_in (sc_timing (sched_of reloaded)) (dm_detection reloaded)).
Proof.
  split; [by vm_compute|]. apply (daemon_invariant device_json config_file reloaded).
  apply round_reachable, edited_reachable, settled_down_reachable.
Defined.

(** ** Failed configurations *)

(** C16: A configuration that keeps failing is retried with a delay that doubles
    from the initial one up to the maximum.  A round that looks at the file after
    these failures makes no attempt when the contents are the same and the delay
    since the last failure is not over; otherwise, and so at once for other
    contents, it makes an attempt exactly when the watch saw a change or the
    file differs from the one in use, which the failures do not affect.  And
    an attempt that fails in a round is remembered as these failures are. *)
Theorem failed_config_backoff {J R W} `{!Json J} `{!RegexEngine R} `{!StringHash} `{!Kernel W}
    `{!KernelWatch W} `{!KernelScan W} `{!KernelProcess W} `{!KernelThreads W}
    (json_parse : string → option J) path timing mtime hash first times last_ t :
  wf_timing timing → hash ≠ 0 → dt_failed_config_hash t ≠ hash →
  let fail t now := record_outcome false mtime hash now timing t in
  let t' := fold_left fail (times ++ [last_]) (fail t first) in
  let delay := dt_retry_delay_seconds t' in
  delay = Z.min (config_retry_initial_delay_s timing * 2 ^ Z.of_nat (S (length times)))
            (config_retry_max_delay_s timing)
  ∧ (∀ (d : Daemon R W) seen mtime' hash' now d1, dm_detection d = t' →
       look_at_config path d = (seen, mtime', hash', now, d1) →
       check_config json_parse path d
       = if decide (hash' = hash ∧ now < last_ + delay * 1000000000) then (false, d1)
         else if seen || changed_fallback mtime' hash' t
              then try_config json_parse path mtime' hash' now d1 else (false, d1))
  ∧ (∀ (d : Daemon R W) now, serving d → keyed (mn_cache (dm_main d)) →
       sc_timing (sched_of d) = timing → (attempt_reload json_parse path d).1 = false →
       dm_detection (try_config json_parse path mtime hash now d).2 = fail (dm_detection d) now).
Proof.
  intros Hwf Hh Hne fail t' delay.
  destruct (backoff_spec timing mtime hash Hwf Hh first times last_ t Hne) as [Hd Hdef].
  split; [exact Hd|]. split.
  - intros d seen mtime' hash' now d1 Ht Hl. rewrite (check_config_run _ _ _ _ _ _ _ _ Hl), Ht.
    assert (changed_fallback mtime' hash' t' = changed_fallback mtime' hash' t) as ->
      by exact (eq_trans (fails_keep_last timing mtime hash _ _ _ _)
                  (fail_keeps_last timing mtime hash _ _ _ _)).
    rewrite (Hdef hash' now : retry_deferred hash' now t' = _). by rewrite <-decide_bool_decide.
  - intros d now Hs Hk <-. by apply try_config_failed.
Qed.

Lemma failed_config_backoff_witness :
  let hash := dt_failed_config_hash (dm_detection misread) in
  let t := first_detection 7 1234 default_timing in
  let fail t now := record_outcome false 8 hash now default_timing t in
  let t' := fold_left fail ([5000000000; 8000000000] ++ [13000000000]) (fail t 1000000000) in
  let delay := dt_retry_delay_seconds t' in
  hash ≠ 0 ∧ (attempt_reload device_json config_file (edited "nonsense" settled_down)).1 = false ∧
  delay = Z.min (config_retry_initial_delay_s default_timing * 2 ^ 3)
            (config_retry_max_delay_s default_timing)
  ∧ (∀ (d : Daemon Literal Device) seen mtime' hash' now d1, dm_detection d = t' →
       look_at_config config_file d = (seen, mtime', hash', now, d1) →
       check_config device_json config_file d
       = if decide (hash' = hash ∧ now < 13000000000 + delay * 1000000000) then (false, d1)
         else if seen || changed_fallback mtime' hash' t
              then try_config device_json config_file mtime' hash' now d1 else (false, d1))
  ∧ (∀ (d : Daemon Literal Device) now, serving d → keyed (mn_cache (dm_main d)) →
       sc_timing (sched_of d) = default_timing →
       (attempt_reload device_json config_file d).1 = false →
       dm_detection (try_config device_json config_file 8 hash now d).2 = fail (dm_detection d) now).
Proof.
  cbv zeta. assert (dt_failed_config_hash (dm_detection misread) ≠ 0) as Hh by (by vm_compute).
  split; [exact Hh|]. split; [by vm_compute|].
  apply (failed_config_backoff device_json config_file default_timing 8
    (dt_failed_config_hash (dm_detection misread)) 1000000000
    [5000000000; 8000000000] 13000000000 (first_detection 7 1234 default_timing)).
  - by split; unfold ranged; cbn; lia.
  - exact Hh.
  - exact (λ He, Hh (eq_sym He)).
Defined.

(** ** Noticing an edit *)

(** C20: An edit of one byte of the configuration file is noticed without inotify
    and whatever the modification time says: the hash of the file changes,
    unless it comes out as the value reserved for a missing file. *)
Theorem edit_noticed {W} `{!Kernel W} `{!KernelWatch W} path text a c c' b mtime t (s : Sys W) :
  (k_read path (sys_world s)).1 = Some text → chars text = a ++ c' :: b → c ≠ c' →
  dt_last_config_hash t = fnv_hash (a ++ c :: b) →
  wp (compute_config_hash path) (λ hash _, hash ≠ 0 → changed_fallback mtime hash t = true) s.
Proof. apply edit_changes_hash. Qed.

Lemma edit_noticed_witness :
  (compute_config_hash config_file (init_sys (device []))).1 ≠ 0
  ∧ wp (compute_config_hash config_file) (λ hash _, hash ≠ 0 →
      changed_fallback 0 hash (first_detection 0 (fnv_hash (chars "gamf")) default_timing) = true)
    (init_sys (device [])).
Proof.
  split; [by vm_compute|].
  by apply (edit_noticed config_file "game" (chars "gam") "f"%char "e"%char [] 0).
Defined.

(** C19: Reading the watch comes to an end, and reports a change exactly when one
    was still to be reported, or one of the events read says that the
    configuration file was modified, written, replaced or touched, or that
    events were lost; the events read are all that were queued, and those that
    arrive meanwhile, if any do. *)
Theorem config_events_reported {W} `{!Kernel W} `{!KernelWatch W} `{!WatchLaws W} w fd (s : Sys W) :
  cw_inotify_fd w = Some fd → in_healthy (sys_world s) fd →
  wp (check_and_clear w) (λ r _, ∃ more,
    r.1 = Some (cw_config_changed w
                || existsb (change_event (cw_watch_basename w)) (in_queue (sys_world s) fd ++ more))
    ∧ ((∀ world, in_arrivals fd world = []) → more = [])
    ∧ cw_config_changed r.2 = false) s.
Proof. apply check_and_clear_reports. Qed.

Definition touched : InotifyEvent :=
  {| ev_wd := 1; ev_mask := IN_CLOSE_WRITE; ev_cookie := 0; ev_len := 16;
     ev_name := "ReUperf.json" |}.
Definition touched_sys : Sys Device :=
  init_sys (MkDevice (dv_scan (device [])) 7 [touched] [] [] None).
Definition device_watcher : ConfigFileWatcher :=
  with_fds (Some 20) (Some 1) (new_watcher config_file).

Lemma config_events_reported_witness :
  (check_and_clear device_watcher touched_sys).1.1 = Some true
  ∧ wp (check_and_clear device_watcher) (λ r _, ∃ more,
      r.1 = Some (cw_config_changed device_watcher
                  || existsb (change_event (cw_watch_basename device_watcher))
                       (in_queue (sys_world touched_sys) 20 ++ more))
      ∧ ((∀ world : Device, in_arrivals 20 world = []) → more = [])
      ∧ cw_config_changed r.2 = false) touched_sys.
Proof.
  split; [by vm_compute|]. apply (config_events_reported device_watcher 20 touched_sys); [done|].
  repeat constructor; cbn; try lia; try done. set_solver.
Defined.

(** ** Process events *)

(** C18: The process directories that appear and disappear in /proc reach the
    router, one by one and in order: what the kernel writes into the buffer of
    the monitor's descriptor is what the router is told. *)
Theorem process_events_reach_router es r rescan :
  Forall valid_proc_event es →
  monitor_callbacks (monitor_buffer ((proc_event <$> es) ≫= event_bytes)) (r, rescan)
  = (fold_left (λ r e, add_event (pe_pid e) (pe_created e) r) es r, rescan).
Proof. apply monitor_buffer_routed. Qed.

Definition proc_events : list ProcEvent :=
  [ {| pe_pid := 4211; pe_created := true; pe_padded := 16 |};
    {| pe_pid := 77; pe_created := false; pe_padded := 16 |};
    {| pe_pid := 4211; pe_created := false; pe_padded := 16 |} ].

Lemma process_events_reach_router_witness :
  monitor_callbacks (monitor_buffer ((proc_event <$> proc_events) ≫= event_bytes))
    (EventRouter.start new_router, false)
  = (fold_left (λ r e, add_event (pe_pid e) (pe_created e) r) proc_events
       (EventRouter.start new_router), false).
Proof.
  apply (process_events_reach_router proc_events).
  repeat constructor; cbn; try done; lia.
Defined.

(** C17: However rounds of its thread, starts that succeed, fail or throw, and
    stops follow each other, the process monitor has every descriptor it opened
    and did not close in its two fields: none leaks and none is closed twice.
    And it is started exactly as long as its thread runs. *)
Theorem monitor_descriptors_balanced log m :
  monitor_reachable log m →
  (∀ fd, balance fd log = count fd (held m))
  ∧ (pm_started m = true ↔ pm_thread m = Some true)
  ∧ (pm_started m = true → is_Some (pm_inotify_fd m) ∧ is_Some (pm_stop_fd m)).
Proof.
  intros Hm. split; [by apply monitor_balanced|].
  by destruct (monitor_started log m Hm) as (H1 & _ & H3).
Qed.

Definition full_start (thread : bool) : start_answers :=
  {| sa_inotify := Some 5; sa_watch := true; sa_eventfd := Some 6; sa_thread := thread |}.
Definition monitor_up : ProcMonitor := (start_monitor (full_start true) new_monitor).2.

Lemma monitor_descriptors_balanced_witness :
  let log := [(true, 5); (true, 6); (false, 5); (false, 6)]%list ++ [(true, 5); (true, 6)] in
  (∀ fd, balance fd log = count fd (held monitor_up))
  ∧ (pm_started monitor_up = true ↔ pm_thread monitor_up = Some true)
  ∧ (pm_started monitor_up = true → is_Some (pm_inotify_fd monitor_up) ∧ is_Some (pm_stop_fd monitor_up)).
Proof.
  apply (monitor_descriptors_balanced (([] ++ [(true, 5); (true, 6); (false, 5); (false, 6)])
    ++ [(true, 5); (true, 6)]) monitor_up).
  apply (mr_start _ (start_monitor (full_start false) new_monitor).2 (full_start true)).
  exact (mr_start [] new_monitor (full_start false) mr_new).
Defined.

(** C22: What a batch of process events makes the daemon forget: the threads of
    the processes whose number was given away again, of those that are new, and
    of those that are gone; the entries of all other threads stay. *)
Theorem batch_forgets_processes {R W} `{!RegexEngine R} `{!StringHash} `{!IntHash} `{!Kernel W}
    `{!KernelScan W} b (d : Daemon R W) :
  wp (handle_batch b) (λ _ d', mn_cache (dm_main d')
    = filter (λ kv, kv.1.1 ∉ b_recycled b ∪ filter (λ pid, 0 < pid) (b_new b) ∪ b_dead b)
        (mn_cache (dm_main d))) d.
Proof. by apply batch_takes. Qed.

(** ** The launcher *)

(** C25: The package names that are accepted are those of at most 128 characters
    that consist of two or more identifiers separated by dots, each a letter
    followed by letters, digits and underscores. *)
Theorem package_names_exact pkg :
  is_valid_package pkg = true ↔
  (length (chars pkg) ≤ 128)%nat
  ∧ ∃ first rest, chars pkg = first ++ dotted rest ∧ rest ≠ [] ∧ Forall identifier (first :: rest).
Proof. apply is_valid_package_exact. Qed.

(** C24: The launcher is always a well-formed package name: of the packages the
    first query names that names any, the first home or launcher package that
    is not Android's own, else the first that is, else the first other one; and
    the default without any. *)
Theorem launcher_chosen {W} `{!Kernel W} `{!KernelScan W} `{!KernelProcess W} (s : Sys W) :
  is_valid_package (find_launcher s).1 = true
  ∧ (find_launcher s).1
    = match find (λ p, is_home_package p && negb (starts_with "com.android" p))
              (launcher_candidates s) with
      | Some p => p
      | None =>
          match find (λ p, is_home_package p && starts_with "com.android" p)
                  (launcher_candidates s) with
          | Some p => p
          | None =>
              default "com.miui.home" (find (λ p, negb (is_home_package p)) (launcher_candidates s))
          end
      end.
Proof.
  rewrite find_launcher_choice. pose proof (launcher_candidates_valid s) as Hl.
  split; [by apply choose_valid|].
  apply choose_preference. eapply Forall_impl; [exact Hl|]. apply valid_nonempty.
Qed.

(** C23: A command that is run for its output ends: with a clock that advances and
    finitely many signals, the loop that reads, the loop that waits for the
    child, and the attempts to terminate and reap it after a time-out, an error
    or too much output, all come to an end whatever the calls of the system
    answer, and the output has at most 64 KiB. *)
Theorem commands_end {W} `{!Kernel W} `{!KernelScan W} `{!KernelProcess W} `{!ScanLaws W}
    `{!ProcessLaws W} cmd timeout_ms (s : Sys W) :
  wp (execute_command cmd timeout_ms) (λ r _, ∃ text, r = Some text
    ∧ (length (chars text) ≤ kMaxOutputSize)%nat) s.
Proof. apply command_ends. Qed.

Lemma commands_end_witness :
  length <$> (packages_of <$> (execute_command resolve_command 5000 (init_sys (device []))).1) = Some 2%nat
  ∧ wp (execute_command resolve_command 5000) (λ r _, ∃ text, r = Some text
      ∧ (length (chars text) ≤ kMaxOutputSize)%nat) (init_sys (device [])).
Proof. split; [by vm_compute|]. apply (commands_end resolve_command 5000 (init_sys (device []))). Defined.

(** ** Shutdown *)

(** C4: At shutdown the workers and the monitor stop first: the restoration
    begins in a state in which no worker runs, the monitor holds no descriptor,
    the cache is as it was, and nothing has been called but the closing of the
    monitor's descriptors.  And no baseline is lost: of every thread that had
    one, the calls made in the attempts show that it is gone, or include the
    successful ones that put back every part of its baseline; or the exit code
    is 2 and its baseline is still in the cache.  With exit code 0 the cache is
    empty. *)
Theorem shutdown_loses_no_baseline {R W} `{!Kernel W} `{!KernelLaws W} (d : Daemon R (Traced W)) :
  sys_trace (mn_sys (dm_main d)) = [] → keyed (mn_cache (dm_main d)) →
  let d1 := (stop_threads d).2 in
  (Forall worker_down (mn_workers (dm_main d1)) ∧ held (dm_monitor d1) = []
   ∧ mn_cache (dm_main d1) = mn_cache (dm_main d)
   ∧ sys_trace (mn_sys (dm_main d1)) = rev (KClose <$> held (dm_monitor d)))
  ∧ shutdown d = restore_and_exit d1
  ∧ wp shutdown (λ code d',
      (code = 0 ∧ mn_cache (dm_main d') = ∅ ∨ code = 2)
      ∧ mn_workers (dm_main d') = mn_workers (dm_main d1) ∧ dm_monitor d' = dm_monitor d1
      ∧ (∃ new, sys_trace (mn_sys (dm_main d')) = new ++ sys_trace (mn_sys (dm_main d1)))
      ∧ ∀ stored, stored ∈ Cache.get_all_baselines (mn_cache (dm_main d)) →
          let tr := sys_trace (mn_sys (dm_main d')) in
          task_gone (stored_task stored) tr
          ∨ baseline_restored (stored_task stored) (stb_baseline stored) tr
          ∨ code = 2 ∧ stored ∈ Cache.get_all_baselines (mn_cache (dm_main d'))) d.
Proof.
  intros Htr Hk d1. pose proof (stop_threads_spec d) as Hs. unfold wp in Hs.
  assert (shutdown d = restore_and_exit d1) as Hrun.
  { unfold d1, shutdown, mbind, M_bind. by destruct (stop_threads d). }
  unfold wp at 1. rewrite Hrun. subst d1. destruct (stop_threads d) as [? d1]. cbn [snd] in *.
  destruct Hs as (Hw & Hh & Hc & Ht). rewrite Htr, app_nil_r in Ht.
  split; [by split_and!|]. split; [done|]. rewrite <-Hc in Hk |- *.
  eapply wp_mono; [by apply restore_and_exit_spec|]. cbv beta zeta.
  intros code d' (H1 & H2 & H3 & H4 & H5). split_and!; [done..|].
  intros stored [[?|?]|?]%H5; auto.
Qed.

(** The daemon on the device of the worker, one second after its first pass,
    with a monitor that runs. *)
Definition game_monitor : ProcMonitor :=
  {| pm_running := true; pm_started := true; pm_inotify_fd := Some 20; pm_stop_fd := Some 21;
     pm_thread := Some true |}.
Definition game_daemon : Daemon Literal (Traced Sim) :=
  MkDaemon (MkMain (env_sys game_later) ∅ (env_cache game_later) (Queue.start <$> new_workers)
              no_budget false) false (MkScheduler game_config game_matcher ∅ (idle_cycle 0) 0)
    (first_detection 0 0 default_timing) (new_watcher config_file) game_monitor 0 new_router true.

Lemma shutdown_loses_no_baseline_witness :
  (shutdown game_daemon).1 = 0 ∧
  (let d1 := (stop_threads game_daemon).2 in
  (Forall worker_down (mn_workers (dm_main d1)) ∧ held (dm_monitor d1) = []
   ∧ mn_cache (dm_main d1) = mn_cache (dm_main game_daemon)
   ∧ sys_trace (mn_sys (dm_main d1)) = rev (KClose <$> held (dm_monitor game_daemon)))
  ∧ shutdown game_daemon = restore_and_exit d1
  ∧ wp shutdown (λ code d',
      (code = 0 ∧ mn_cache (dm_main d') = ∅ ∨ code = 2)
      ∧ mn_workers (dm_main d') = mn_workers (dm_main d1) ∧ dm_monitor d' = dm_monitor d1
      ∧ (∃ new, sys_trace (mn_sys (dm_main d')) = new ++ sys_trace (mn_sys (dm_main d1)))
      ∧ ∀ stored, stored ∈ Cache.get_all_baselines (mn_cache (dm_main game_daemon)) →
          let tr := sys_trace (mn_sys (dm_main d')) in
          task_gone (stored_task stored) tr
          ∨ baseline_restored (stored_task stored) (stb_baseline stored) tr
          ∨ code = 2 ∧ stored ∈ Cache.get_all_baselines (mn_cache (dm_main d'))) game_daemon).
Proof.
  split; [vm_compute; reflexivity|]. apply (shutdown_loses_no_baseline game_daemon).
  - vm_compute. reflexivity.
  - apply (bool_decide_unpack (keyed (mn_cache (dm_main game_daemon)))). vm_compute. exact I.
Defined.

(** ** A restart of the monitor that throws *)

(** C21: When the restart of the process monitor throws, the exception skips the
    rest of the round: the configuration is not looked at, no pass runs and the
    round does not sleep.  The time of the next restart stays as it is, so that
    nothing spaces the attempts. *)
Theorem thrown_restart_not_spaced {J R W} `{!Json J} `{!RegexEngine R} `{!StringHash} `{!IntHash}
    `{!Kernel W} `{!KernelWatch W} `{!KernelScan W} `{!KernelProcess W} `{!KernelThreads W}
    (json_parse : string → option J) path (d : Daemon R W) :
  dm_running d = true → (restart_monitor d).1 = true →
  let d' := (loop_round json_parse path false d).2 in
  d' = (restart_monitor d).2
  ∧ dm_next_monitor_restart d' = dm_next_monitor_restart d
  ∧ dm_sched d' = dm_sched d ∧ dm_detection d' = dm_detection d
  ∧ mn_rescan (dm_main d') = mn_rescan (dm_main d).
Proof.
  intros Hr Ht. cbv zeta.
  assert ((loop_round json_parse path false d).2 = (restart_monitor d).2) as ->.
  { unfold loop_round, mbind, M_bind, gets. rewrite Hr. cbn [negb].
    destruct (restart_monitor d) as [threw d1]. cbn in Ht. by subst threw. }
  split; [done|]. revert Ht.
  enough (wp restart_monitor (λ threw d', threw = true →
    dm_next_monitor_restart d' = dm_next_monitor_restart d
    ∧ dm_sched d' = dm_sched d ∧ dm_detection d' = dm_detection d
    ∧ mn_rescan (dm_main d') = mn_rescan (dm_main d)) d) as Hw.
  { apply wp_unfold in Hw. exact Hw. }
  unfold restart_monitor. wp_step. apply wp_in_sys_any. intros now d1 H1. do 4 wp_step.
  destruct (_ && _); [|by wp_step]. wp_step. apply wp_in_sys_any. intros [r monitor] d2 H2.
  do 2 wp_step.
  destruct H1 as (_ & _ & _ & W1 & _ & S1 & D1 & _ & _ & _ & N1).
  destruct H2 as (_ & _ & _ & W2 & _ & S2 & D2 & _).
  destruct r; [by wp_step; apply wp_modify; wp_step; apply wp_in_main, wp_modify; wp_step..|].
  wp_step. apply wp_modify. wp_step. intros _. cbn. split_and!; congruence.
Qed.

(** The thread of the monitor ended, and no new one can be created. *)
Definition short_of_threads : Daemon Literal Device :=
  round (round (round (round (monitor_step PollFailed ReadFailed scarce).2))).

Lemma thrown_restart_not_spaced_witness :
  (dm_running short_of_threads = true ∧ (restart_monitor short_of_threads).1 = true)
  ∧ let d' := round short_of_threads in
    d' = (restart_monitor short_of_threads).2
    ∧ dm_next_monitor_restart d' = dm_next_monitor_restart short_of_threads
    ∧ dm_sched d' = dm_sched short_of_threads ∧ dm_detection d' = dm_detection short_of_threads
    ∧ mn_rescan (dm_main d') = mn_rescan (dm_main short_of_threads).
Proof.
  split; [by vm_compute|].
  apply (thrown_restart_not_spaced device_json config_file short_of_threads); by vm_compute.
Defined.
